(* ===== verification/_CoqProject ===== *)
-Q . S2P
Prelude.v
External.v
ExternalModel.v
Common.v
Timestamp.v
Ledger.v
InMemory.v
TigerBeetle.v
Event.v
RingBuffer.v
Pipeline.v
Rings.v
Handlers.v
HandlerProps.v
Sharded.v
RateLimit.v
Metrics.v
Protocol.v
AuditTrail.v
Risk.v
Connection.v
Aeron.v
Udp.v
UringUdp.v
Uring.v
Rdma.v
Screening.v
Providers.v
MasTrm.v
Inference.v
Quantize.v
ExactTensors.v
Qwen.v
ServiceConfig.v
Gguf.v
Distributed.v
Media.v
SpeechText.v
CallSession.v
Dataloader.v
Readers.v
Datasets.v
Loader.v
Registry.v
Onnx.v
TextModels.v
InferPipeline.v
HttpApi.v
SpeechToText.v
TurnDetector.v
