(* ===== verification/Prelude.v ===== *)
(** * Blazil: a verification of the transaction core and the libraries around it

    Blazil is a payment engine.  A client sends a request over TCP, UDP, io_uring, RDMA or
    Aeron; a transport parses it into a [TransactionEvent] and publishes that event into a ring
    buffer; worker threads take the events in sequence through four handlers (validation,
    risk, ledger, publish); the ledger handler gathers transfers into batches and commits them
    to TigerBeetle in tasks of their own; results go to a map from which the transport answers.
    Around this core are libraries for audit, screening, risk limits, data residency and
    retention; a dataset loader with inference kernels; an inference service that runs a
    language model in one process or as a pipeline of three, and ONNX models over HTTP and
    Aeron; and a media service that holds telephone calls.

    ** Files and sources

    The files are in dependency order; each says in its first lines which sources it
    translates.  A module carries the name of the source file, a definition the name of the
    function, a record the name of the struct.

    - [Prelude]: results and [let?] for the [?] operator, machine integers with their casts,
      byte orders, decimal text, texts as code points, sums.
    - [External], [ExternalModel]: the crates rust_decimal, iso_currency and uuid as classes of
      operations and of documented laws, and one executable instance of each.
    - [Common], [Timestamp]: core/common (errors, identifiers, amounts, timestamps).
    - [Ledger], [InMemory], [TigerBeetle]: core/ledger.  [LedgerClient] is the class by which
      the engine sees a ledger; the in-memory and fault-injecting clients (mock.rs) and the
      TigerBeetle client are its instances.
    - [Event], [RingBuffer], [Pipeline], [Rings], [Handlers], [HandlerProps], [Sharded],
      [Metrics]: core/engine.
    - [RateLimit], [Protocol], [Connection], [Aeron], [Udp], [UringUdp], [Uring], [Rdma]:
      core/transport (rate limiter, frames, TCP, Aeron, UDP, both io_uring servers, RDMA).
    - [AuditTrail], [Screening], [Providers], [MasTrm]: libs/audit, libs/screening,
      libs/mas_trm.
    - [Risk]: core/risk.
    - [Dataloader], [Readers], [Datasets], [Loader]: core/dataloader (configuration, datasets
      and transforms; the file readers; the datasets over directories and CSV files; the
      streaming pipeline).
    - [Inference], [Quantize]: the 1-bit and 8-bit kernels and the window planner of
      core/inference; [Onnx], [TextModels], [InferPipeline]: its image and text models and its
      pipeline of workers.
    - [Qwen], [Gguf], [ServiceConfig], [Distributed], [Registry], [HttpApi]: services/inference
      (the transformer, generation, configuration, the Aeron server with its three stages, the
      model registry, the HTTP API with its metrics).  [ExactTensors] is a concrete tensor
      library for their witnesses.
    - [Media], [SpeechText], [CallSession], [SpeechToText], [TurnDetector]: services/media
      (codec, voice activity, language policy and failover; the spoken text; the session of a
      call; the speech-to-text clients; the endpointing model).

    ** How code is modelled

    Sequential code is functions: a fallible function returns [Result], one that can panic
    returns an [option], and state is an argument and a result.  Integers are [Z] with the
    wrapping of their width written out.  Concurrent code is a step relation: one step is one
    atomic access (ring buffer, worker loop, token bucket, counters), one critical section
    (audit log), one operation on a channel (loader, inference pipeline, stages), one action
    of a device (RDMA card) or one suspension of a task (batch worker, accept loop, HTTP
    handler), and the theorems quantify over every schedule.  Weak memory is modelled where the
    code uses relaxed orderings for more than a counter: a load of the peak in [Metrics] may
    return any earlier value.  Elsewhere accesses are sequentially consistent.
    Binary64 arithmetic is [SpecFloat] of the standard library; amounts are the decimals of
    [External]; 32-bit floats are classes of operations ([F32] with [QuantF32], [OnnxF32] and
    [DspF32] for more operations, [DataF32]), with binary32 and exact numbers as instances.
    Code outside the repository is an argument: a class of operations with its laws
    ([LedgerClient], [DecimalLib], [Calendar], [AuditLib], [Rmp], [Engine], [Dataset],
    [Shuffle], [Candle], [GgufLib], [Tokenizer], [Sampler], [Tract], [TextLib], [HttpLib],
    [ImageLib], [WavLib], [TurnLib], [Kernel], ...), and each theorem that needs a law has a witness with
    a concrete instance.  A file system is the finite map of paths of [Registry] or the tree of
    [Datasets], whose directories are listed in an order of the system's own.

    ** What the theorems show

    - Ledger: while the amounts sum to less than the decimals hold, the in-memory client refines
      an abstract double-entry book, conserves money and never overdraws a protected account
      (beyond that a failed credit keeps its debit); every accepted amount survives the
      conversion to minor units and the batched commit attributes every error to the transfer
      that caused it.
    - Engine: under every interleaving a worker sees each slot before it is reused, and exactly
      the event published under its sequence; back-pressure bounds what is outstanding; a
      single worker catches up; the handler chain accounts for every sequence it is given;
      retries terminate within 2300 ms; the result ring is a finite map within its window; the
      peak latency is the maximum despite stale reads.
    - Transport: frames round-trip; a TCP connection answers every request once and in order,
      and says committed only if the engine committed that very event; an accepted request
      reaches TigerBeetle with exactly its decimal amount; while the slots suffice the
      Aeron loop makes one response for each published request, in order and under its number,
      and sends those that serialize and are not refused; the UDP server answers a packet at most once, to its
      sender, and with success only for a committed result, and so does its io_uring twin, which
      sends nothing after its receive loop has left; an RDMA connection answers the
      messages of more than four bytes as the TCP handler does, where the response fits and the
      card takes it, and a peer that waits for its responses gets each posted one once; the
      token bucket never grants more than it was filled with.
    - Libraries: two logs that verify and end in the same hash differ only by a hash collision
      among their own entries; the risk checks decide the documented limits, except the total
      exposure of an order that sells; the XML report cannot be broken by its fields; a
      transaction is held and released at most once; no screening provider clears by default.
    - Data: with at least one worker and a consumer that stays the loader delivers every sample
      once, and it always ends; shards partition a dataset,
      for ImageNet on hosts that list their directories differently as well; a CSV file of
      features is loaded row by row or refused, never with a panic; encoded text decodes to
      its words; an image becomes the tensor of its normalised values; a batch of files is read
      path by path, whatever the order of the completions.
    - Inference: the 1-bit layers compute the signed sums their weights stand for; three stages
      compute what one process computes; a request alone in the pipeline is served and in every
      interleaving the client gets, for every id, at most as many responses as requests; an answer names no blocked vendor;
      batching is invisible; windowed scoring leaves no token unread; every batch gets one
      answer and every run ends.
    - Inference service: the registry on disk and in memory agree on every model whose own
      calls the disk served, for calls one after another and restarts; tenants do not see each
      other's models, whatever the interleaving and the disk; a model stays served once it is
      activated, if its activations and deletions do not overlap or fail half-way; the counters
      are the numbers of the responses; HTTP and Aeron answer alike.
    - Calls: with one task that runs turns no answer escapes the next interruption, though an
      aborted one may be heard until the runtime drops it; an answer is spoken completely and
      in order while the engine listens;
      recognised segments are handed on once and in order; the failover opens every provider.

    Where the code does not do what it or its documentation says, the divergence is an
    evaluated example or a theorem of the component's file.

    ** Bounds and fuel

    Recursion on fuel has a bound from the code.  The retry loop counts down its attempts; the
    connection loops (TCP and io_uring) consume a byte of their input per round; window loops
    take the number of rows or tokens, of which each round consumes one, and loops over chunks
    the number of samples; generation is bounded by the tokens asked for; the calendar needs
    none.  Only loops that wait for somebody else take an arbitrary fuel: the capacity waits of
    [Sharded] and [Aeron], the poll loop of [Aeron] and the supervisor of [Media]; running out
    is a result of its own ([None]) and the theorems hold for every fuel.

    ** Not modelled

    Sockets, devices, threads and runtimes, command lines and logging; the AF_XDP transport (it uses fields
    and functions that the engine does not have, so there is no behaviour to translate) and the
    eBPF loader; the NEON and AVX-512 paths, whose portable twins are modelled; the inside of
    tensor libraries, of the ONNX engine and of image, audio and tokenizer libraries; the
    text-to-speech clients and the call set-up of the media service; benchmarks, tools and the
    Go services. *)

From stdpp Require Import base numbers list gmap strings pretty relations.
From Stdlib Require Import ZArith Lia Ascii.

#[global] Open Scope Z_scope.

(** ** Fallible code *)

(** [std::result::Result]. *)
Inductive Result (A E : Type) : Type :=
  | Ok (a : A)
  | Err (e : E).
Arguments Ok {A E} a.
Arguments Err {A E} e.

Declare Scope blz_scope.
Delimit Scope blz_scope with blz.
#[global] Open Scope blz_scope.

Definition rbind {A B E} (m : Result A E) (k : A -> Result B E) : Result B E :=
  match m with Ok a => k a | Err e => Err e end.

(** The [?] operator: bind the success value or return the error. *)
Notation "'let?' x := m 'in' k" := (rbind m (fun x => k))
  (at level 10, x binder, m at level 100, k at level 200) : blz_scope.

Definition map_err {A E F} (f : E -> F) (m : Result A E) : Result A F :=
  match m with Ok a => Ok a | Err e => Err (f e) end.

Definition ok_or {A E} (o : option A) (e : E) : Result A E :=
  match o with Some a => Ok a | None => Err e end.

Definition is_ok {A E} (m : Result A E) : bool :=
  match m with Ok _ => true | Err _ => false end.

Definition is_err {A E} (m : Result A E) : bool := negb (is_ok m).

Definition ok_opt {A E} (m : Result A E) : option A :=
  match m with Ok a => Some a | Err _ => None end.

#[global] Instance Result_eq_dec {A E} `{EqDecision A, EqDecision E} :
  EqDecision (Result A E).
Proof. solve_decision. Defined.

Lemma rbind_ok {A B E} (m : Result A E) (k : A -> Result B E) (b : B) :
  rbind m k = Ok b <-> exists a, m = Ok a /\ k a = Ok b.
Proof. destruct m; simpl; naive_solver. Qed.

(** ** Machine integers *)

Definition u8_max : Z := 2 ^ 8 - 1.
Definition u16_max : Z := 2 ^ 16 - 1.
Definition u32_max : Z := 2 ^ 32 - 1.
Definition u64_max : Z := 2 ^ 64 - 1.
Definition i64_max : Z := 2 ^ 63 - 1.
Definition i64_min : Z := - 2 ^ 63.

(** [x as uN]: truncation to the low [w] bits. *)
Definition as_unsigned (w x : Z) : Z := x mod 2 ^ w.

(** [x as iN]: truncation followed by the two's complement reading. *)
Definition as_signed (w x : Z) : Z :=
  let y := x mod 2 ^ w in
  if y <? 2 ^ (w - 1) then y else y - 2 ^ w.

Definition is_unsigned (w x : Z) : bool := (0 <=? x) && (x <? 2 ^ w).

(** [a.saturating_sub(b)] on unsigned integers. *)
Definition saturating_sub (a b : Z) : Z := Z.max 0 (a - b).

(** [n.is_power_of_two()], and the hand-written test of the ring buffers. *)
Definition is_power_of_two (n : Z) : bool :=
  negb (n =? 0) && (Z.land n (n - 1) =? 0).

Lemma as_unsigned_id w x : 0 <= x < 2 ^ w -> as_unsigned w x = x.
Proof. intros; unfold as_unsigned; by apply Z.mod_small. Qed.

Lemma as_unsigned_range w x : 0 <= w -> 0 <= as_unsigned w x < 2 ^ w.
Proof. intros; unfold as_unsigned; apply Z.mod_pos_bound; lia. Qed.

Lemma as_signed_id w x : 0 < w -> - 2 ^ (w - 1) <= x < 2 ^ (w - 1) -> as_signed w x = x.
Proof.
  intros Hw Hx. unfold as_signed.
  assert (2 ^ w = 2 * 2 ^ (w - 1)) as E by (rewrite <- Z.pow_succ_r by lia; f_equal; lia).
  destruct (decide (0 <= x)) as [H0|H0].
  - rewrite Z.mod_small by lia. destruct (Z.ltb_spec x (2 ^ (w - 1))); lia.
  - replace (x mod 2 ^ w) with (x + 2 ^ w).
    + destruct (Z.ltb_spec (x + 2 ^ w) (2 ^ (w - 1))); lia.
    + apply Z.mod_unique with (q := -1); lia.
Qed.

(** The bit test recognises exactly the powers of two. *)
Lemma is_power_of_two_spec n :
  0 <= n -> is_power_of_two n = true <-> exists k, 0 <= k /\ n = 2 ^ k.
Proof.
  intros Hn. unfold is_power_of_two. rewrite andb_true_iff, negb_true_iff, Z.eqb_neq, Z.eqb_eq.
  split.
  - intros [Hnz Hland]. exists (Z.log2 n). split; [apply Z.log2_nonneg|].
    pose proof (Z.log2_spec n ltac:(lia)) as [Hlo Hhi].
    destruct (decide (n = 2 ^ Z.log2 n)) as [|Hne]; [done|exfalso].
    assert (Z.log2 (n - 1) = Z.log2 n) as El by (apply Z.log2_unique; [apply Z.log2_nonneg|lia]).
    assert (0 < n - 1) as Hpos.
    { pose proof (Z.pow_pos_nonneg 2 (Z.log2 n) ltac:(lia) (Z.log2_nonneg n)). lia. }
    assert (Z.testbit (Z.land n (n - 1)) (Z.log2 n) = true) as Hb.
    { rewrite Z.land_spec, Z.bit_log2 by lia. rewrite <- El at 1. by rewrite Z.bit_log2. }
    rewrite Hland, Z.bits_0 in Hb. done.
  - intros [k [Hk ->]]. split; [lia|].
    replace (2 ^ k - 1) with (Z.ones k) by (rewrite Z.ones_equiv; lia).
    rewrite Z.land_ones by lia. apply Z.mod_same. lia.
Qed.

(** Masking with [2^k - 1] is reduction modulo [2^k], also after the cast of a
    signed sequence number to [usize]. *)
Lemma land_mask_mod x k : 0 <= k -> Z.land x (2 ^ k - 1) = x mod 2 ^ k.
Proof.
  intros. replace (2 ^ k - 1) with (Z.ones k) by (rewrite Z.ones_equiv; lia).
  by apply Z.land_ones.
Qed.

Lemma land_pow2_testbit x n : 0 <= n -> negb (Z.land x (2 ^ n) =? 0) = Z.testbit x n.
Proof.
  intros Hn. destruct (Z.testbit x n) eqn:E.
  - apply negb_true_iff, Z.eqb_neq. intros H.
    assert (Z.testbit (Z.land x (2 ^ n)) n = true) as Ht.
    { by rewrite Z.land_spec, E, Z.pow2_bits_true. }
    rewrite H, Z.bits_0 in Ht. done.
  - apply negb_false_iff, Z.eqb_eq, Z.bits_inj'. intros k Hk.
    rewrite Z.land_spec, Z.bits_0. destruct (decide (k = n)) as [->|Hne]; [by rewrite E|].
    rewrite Z.pow2_bits_false by done. apply andb_false_r.
Qed.

(** The top bit of a number of [k + 1] bits. *)
Lemma land_top_bit m k : 0 <= k -> 0 <= m < 2 ^ (k + 1) -> (Z.land m (2 ^ k) =? 0) = (m <? 2 ^ k).
Proof.
  intros Hk Hm. rewrite <- (negb_involutive (_ =? 0)), land_pow2_testbit by done.
  rewrite Z.testbit_odd, Z.shiftr_div_pow2 by done. rewrite Z.pow_add_r in Hm by lia.
  destruct (Z.ltb_spec m (2 ^ k)).
  - by rewrite Z.div_small by lia.
  - replace (m / 2 ^ k) with 1; [done|]. apply (Z.div_unique m (2 ^ k) 1 (m - 2 ^ k)); lia.
Qed.

Lemma as_unsigned_mod w x k : 0 <= k <= w -> as_unsigned w x mod 2 ^ k = x mod 2 ^ k.
Proof.
  intros. unfold as_unsigned. apply Z.mod_mod_divide.
  exists (2 ^ (w - k)). rewrite <- Z.pow_add_r by lia. f_equal; lia.
Qed.

Lemma mod_eq_close a b m : 0 < m -> a mod m = b mod m -> -m < a - b < m -> a = b.
Proof.
  intros Hm He Hr.
  pose proof (Z.div_mod a m ltac:(lia)). pose proof (Z.div_mod b m ltac:(lia)).
  assert (a - b = m * (a / m - b / m)) as E by (rewrite Z.mul_sub_distr_l; lia).
  assert (a / m - b / m = 0) by nia. nia.
Qed.

(** ** Bytes *)

Definition is_byte (b : Z) : Prop := 0 <= b < 256.

(** [uN::from_be_bytes] on a byte list of any length. *)
Definition from_be_bytes (bs : list Z) : Z :=
  foldl (fun acc b => acc * 256 + b) 0 bs.

(** [x.to_be_bytes()] for an integer of [n] bytes. *)
Fixpoint to_be_bytes (n : nat) (x : Z) : list Z :=
  match n with
  | O => []
  | S n => to_be_bytes n (x / 256) ++ [x mod 256]
  end.

Lemma from_be_bytes_snoc bs b : from_be_bytes (bs ++ [b]) = from_be_bytes bs * 256 + b.
Proof. unfold from_be_bytes. by rewrite foldl_app. Qed.

Lemma length_to_be_bytes n x : length (to_be_bytes n x) = n.
Proof. revert x; induction n as [|n IH]; intros x; simpl; [done|]. rewrite length_app, IH. simpl; lia. Qed.

Lemma to_be_bytes_range n x : Forall is_byte (to_be_bytes n x).
Proof.
  revert x; induction n as [|n IH]; intros x; simpl; [constructor|].
  apply Forall_app; split; [apply IH|]. repeat constructor; apply Z.mod_pos_bound; lia.
Qed.

Lemma pow256_succ n : 256 ^ Z.of_nat (S n) = 256 * 256 ^ Z.of_nat n.
Proof. rewrite Nat2Z.inj_succ, Z.pow_succ_r; lia. Qed.

Lemma from_to_be_bytes n x :
  0 <= x < 256 ^ Z.of_nat n -> from_be_bytes (to_be_bytes n x) = x.
Proof.
  revert x; induction n as [|n IH]; intros x Hx.
  - change (256 ^ Z.of_nat 0) with 1 in Hx. change (0 = x). lia.
  - rewrite pow256_succ in Hx. simpl. rewrite from_be_bytes_snoc, IH.
    + pose proof (Z.div_mod x 256 ltac:(lia)). lia.
    + split; [apply Z.div_pos; lia|apply Z.div_lt_upper_bound; lia].
Qed.

Lemma to_from_be_bytes n bs :
  length bs = n -> Forall is_byte bs -> to_be_bytes n (from_be_bytes bs) = bs.
Proof.
  revert n; induction bs as [|b bs IH] using rev_ind; intros n Hn Hb; subst n; [done|].
  rewrite length_app, Nat.add_comm. simpl. apply Forall_app in Hb as [Hbs Hb].
  rewrite Forall_singleton in Hb. unfold is_byte in Hb.
  rewrite from_be_bytes_snoc, Z.div_add_l by lia. rewrite (Z.div_small b) by lia.
  rewrite Z.add_0_r, (IH (length bs)) by done.
  rewrite Z.add_comm, Z.mod_add, Z.mod_small by lia. done.
Qed.

Lemma from_be_bytes_range bs :
  Forall is_byte bs -> 0 <= from_be_bytes bs < 256 ^ Z.of_nat (length bs).
Proof.
  induction bs as [|b bs IH] using rev_ind; intros Hb; [cbv; split; congruence|].
  apply Forall_app in Hb as [Hbs Hb]. rewrite Forall_singleton in Hb. specialize (IH Hbs). unfold is_byte in Hb.
  rewrite length_app, Nat.add_comm. simpl. rewrite from_be_bytes_snoc, pow256_succ. lia.
Qed.

(** ** Decimal strings *)

(** [Display] of an integer. *)
Definition string_of_Z (n : Z) : string := pretty n.

Definition digit_of (c : Ascii.ascii) : option Z :=
  let k := Z.of_nat (Ascii.nat_of_ascii c) - 48 in
  if (0 <=? k) && (k <=? 9) then Some k else None.

Fixpoint parse_digits (acc : Z) (s : string) : option Z :=
  match s with
  | EmptyString => Some acc
  | String c s => match digit_of c with
                  | Some d => parse_digits (acc * 10 + d) s
                  | None => None
                  end
  end.

(** [str::parse::<u64>()]: an optional leading plus sign, at least one digit, no
    overflow. *)
Definition parse_u64 (s : string) : option Z :=
  let body := match s with
              | String "+"%char t => t
              | _ => s
              end in
  match body with
  | EmptyString => None
  | _ => match parse_digits 0 body with
         | Some v => if v <=? u64_max then Some v else None
         | None => None
         end
  end.

Lemma digit_of_pretty (x : N) : (x < 10)%N -> digit_of (pretty_N_char x) = Some (Z.of_N x).
Proof.
  intros. assert (x = 0 \/ x = 1 \/ x = 2 \/ x = 3 \/ x = 4 \/ x = 5 \/ x = 6 \/ x = 7 \/ x = 8
    \/ x = 9)%N as Hx by lia.
  by destruct Hx as [->|[->|[->|[->|[->|[->|[->|[->|[->| ->]]]]]]]]].
Qed.

Lemma parse_digits_go (x : N) s : parse_digits 0 (pretty_N_go x s) = parse_digits (Z.of_N x) s.
Proof.
  revert s. induction (N.lt_wf_0 x) as [x _ IH]; intros s.
  destruct (decide (x = 0)%N) as [->|Hx]; [by rewrite pretty_N_go_0|].
  rewrite pretty_N_go_step by lia. rewrite IH by (apply N.div_lt; lia). simpl.
  rewrite digit_of_pretty by (apply N.mod_lt; lia).
  f_equal. pose proof (N.div_mod x 10 ltac:(lia)). lia.
Qed.

Lemma pretty_N_first (x : N) :
  exists c t, pretty x = String c t /\ digit_of c <> None.
Proof.
  destruct (decide (x = 0)%N) as [->|Hx]; [by exists "0"%char, ""%string|].
  assert (forall s, exists c t, pretty_N_go x s = String c t /\ digit_of c <> None) as H.
  { induction (N.lt_wf_0 x) as [x _ IH]; intros s.
    rewrite pretty_N_go_step by lia. destruct (decide (x / 10 = 0)%N) as [E|E].
    - rewrite E, pretty_N_go_0. eexists _, _; split; [done|].
      by rewrite digit_of_pretty by (apply N.mod_lt; lia).
    - apply IH; [apply N.div_lt; lia|done]. }
  unfold pretty, pretty_N. rewrite decide_False by done. apply H.
Qed.

Lemma parse_digits_pretty (x : N) : parse_digits 0 (pretty x) = Some (Z.of_N x).
Proof.
  unfold pretty, pretty_N. case_decide as Hx; [by subst|]. by rewrite parse_digits_go.
Qed.

Lemma pretty_Z_nonneg n : 0 <= n -> string_of_Z n = pretty (Z.to_N n).
Proof. intros. unfold string_of_Z. by destruct n as [|p|p]; [| |lia]. Qed.

(** Printing then parsing an unsigned 64-bit integer gives it back. *)
Lemma parse_u64_string_of_Z n : 0 <= n <= u64_max -> parse_u64 (string_of_Z n) = Some n.
Proof.
  intros Hn. rewrite pretty_Z_nonneg by lia.
  destruct (pretty_N_first (Z.to_N n)) as (c & t & E & Hd).
  pose proof (parse_digits_pretty (Z.to_N n)) as Hp. rewrite E in *.
  assert (c <> "+"%char) as Hc by (intros ->; done).
  unfold parse_u64.
  assert (match String c t with String "+"%char t0 => t0 | _ => String c t end = String c t) as ->.
  { repeat (case_match; try done). }
  rewrite Hp. rewrite Z2N.id by lia. by rewrite (proj2 (Z.leb_le n u64_max)) by lia.
Qed.

(** [hay.contains(needle)] on strings. *)
Fixpoint contains (needle hay : string) : bool :=
  String.prefix needle hay ||
  match hay with
  | EmptyString => false
  | String _ t => contains needle t
  end.

(** ** Texts as lists of code points *)

Module unicode.
Fixpoint of_string (s : string) : list Z :=
  match s with EmptyString => [] | String c t => Z.of_nat (Ascii.nat_of_ascii c) :: of_string t end.

(** [char::is_whitespace] *)
Definition is_whitespace (c : Z) : bool :=
  ((9 <=? c) && (c <=? 13)) || (c =? 32) || (c =? 0x85) || (c =? 0xA0) || (c =? 0x1680) ||
  ((0x2000 <=? c) && (c <=? 0x200A)) || (c =? 0x2028) || (c =? 0x2029) || (c =? 0x202F) ||
  (c =? 0x205F) || (c =? 0x3000).

(** [char::is_ascii_punctuation] *)
Definition is_ascii_punctuation (c : Z) : bool :=
  ((33 <=? c) && (c <=? 47)) || ((58 <=? c) && (c <=? 64)) || ((91 <=? c) && (c <=? 96)) ||
  ((123 <=? c) && (c <=? 126)).

(** [trim_start_matches] and [trim_matches] *)
Fixpoint trim_start_by (p : Z -> bool) (l : list Z) : list Z :=
  match l with c :: t => if p c then trim_start_by p t else l | [] => [] end.
Definition trim_by (p : Z -> bool) (l : list Z) : list Z := rev (trim_start_by p (rev (trim_start_by p l))).
Definition trim : list Z -> list Z := trim_by is_whitespace.

(** [split] at every code point that satisfies [p]; there is always at least one piece. *)
Fixpoint split_by (p : Z -> bool) (l : list Z) : list (list Z) :=
  match l with
  | [] => [[]]
  | c :: t =>
      if p c then [] :: split_by p t
      else match split_by p t with w :: ws => (c :: w) :: ws | [] => [[c]] end
  end.

(** [splitn(2, c)]: the parts before and after the first [c], if there is one. *)
Fixpoint split_once (c : Z) (l : list Z) : option (list Z * list Z) :=
  match l with
  | [] => None
  | x :: t => if x =? c then Some ([], t)
              else match split_once c t with Some (a, b) => Some (x :: a, b) | None => None end
  end.

(** [lines]: a line ends at a line feed, with the carriage return before it; nothing follows
    the last line feed. *)
Definition strip_cr (l : list Z) : list Z :=
  match rev l with 13 :: t => rev t | _ => l end.
Fixpoint lines (acc l : list Z) : list (list Z) :=
  match l with
  | [] => match acc with [] => [] | _ => [acc] end
  | c :: t => if c =? 10 then strip_cr acc :: lines [] t else lines (acc ++ [c]) t
  end.

(** [str::parse] of an unsigned integer of at most [max]. *)
Fixpoint digits (acc : Z) (l : list Z) : option Z :=
  match l with
  | [] => Some acc
  | c :: t => if (48 <=? c) && (c <=? 57) then digits (acc * 10 + (c - 48)) t else None
  end.
Definition parse_unsigned (max : Z) (l : list Z) : option Z :=
  match (match l with 43 :: t => t | _ => l end) with
  | [] => None
  | body => match digits 0 body with
            | Some v => if v <=? max then Some v else None
            | None => None
            end
  end.

(** Bytes of a code point in UTF-8. *)
Definition len_utf8 (c : Z) : Z := if c <? 0x80 then 1 else if c <? 0x800 then 2 else if c <? 0x10000 then 3 else 4.

(** *** Substrings *)

Definition ascii_lower (l : list Z) : list Z := (fun c => if (65 <=? c) && (c <=? 90) then c + 32 else c) <$> l.
Definition ascii_upper (l : list Z) : list Z := (fun c => if (97 <=? c) && (c <=? 122) then c - 32 else c) <$> l.

Fixpoint starts_with (pat l : list Z) : bool :=
  match pat, l with
  | [], _ => true
  | p :: pat, c :: l => (p =? c) && starts_with pat l
  | _ :: _, [] => false
  end.

(** [find] and the two sides: what is before and after the first occurrence of [pat]. *)
Fixpoint split_at (pat l : list Z) : option (list Z * list Z) :=
  if starts_with pat l then Some ([], drop (length pat) l)
  else match l with
       | [] => None
       | c :: l => match split_at pat l with Some (a, b) => Some (c :: a, b) | None => None end
       end.

Definition contains (pat l : list Z) : bool := match split_at pat l with Some _ => true | None => false end.

(** [str::replace] of a non-empty pattern; [skip] is what is left of an occurrence. *)
Fixpoint replace_from (skip : nat) (from to l : list Z) : list Z :=
  match l with
  | [] => []
  | c :: t =>
      match skip with
      | S k => replace_from k from to t
      | O => if starts_with from l then to ++ replace_from (length from - 1) from to t
             else c :: replace_from 0 from to t
      end
  end.
Definition replace (from to l : list Z) : list Z := replace_from 0 from to l.

Lemma starts_with_spec pat l : starts_with pat l = true <-> exists b, l = pat ++ b.
Proof.
  revert l. induction pat as [|p pat IH]; intros l; [split; [by exists l|done]|].
  destruct l as [|c l]; [split; [done|by intros [? ?]]|]. cbn. rewrite andb_true_iff, Z.eqb_eq, IH. split.
  - intros [-> [b ->]]. by exists b.
  - intros [b [= -> ->]]. split; [done|by exists b].
Qed.

(** The first occurrence: the pattern is there, and nowhere before. *)
Lemma split_at_Some pat l a b :
  split_at pat l = Some (a, b) -> l = a ++ pat ++ b.
Proof.
  revert a. induction l as [|c l IH]; intros a; cbn [split_at].
  - destruct pat; [|done]. by intros [= <- <-].
  - destruct (starts_with pat (c :: l)) eqn:Es.
    + intros [= <- <-]. apply starts_with_spec in Es as [b' E]. rewrite E. cbn. by rewrite drop_app_length.
    + destruct (split_at pat l) as [[a' b']|] eqn:E; [|done]. intros [= <- <-]. cbn. by rewrite (IH a').
Qed.

Lemma split_at_None pat l : split_at pat l = None -> forall a b, l <> a ++ pat ++ b.
Proof.
  induction l as [|c l IH]; cbn [split_at]; intros H a b E.
  - destruct pat; [done|]. by destruct a.
  - destruct (starts_with pat (c :: l)) eqn:Es; [done|].
    destruct (split_at pat l) as [[]|]; [done|]. destruct a as [|x a]; cbn in E.
    + apply not_true_iff_false in Es. apply Es, starts_with_spec. by exists b.
    + injection E as -> E. by apply (IH eq_refl a b).
Qed.

Lemma contains_spec pat l : contains pat l = true <-> exists a b, l = a ++ pat ++ b.
Proof.
  unfold contains. destruct (split_at pat l) as [[a b]|] eqn:E.
  - split; [|done]. intros _. exists a, b. by apply split_at_Some.
  - split; [done|]. intros (a & b & H). by destruct (split_at_None _ _ E a b).
Qed.

(** Splitting where the pattern cannot begin earlier. *)
Lemma split_at_first pat a b :
  (forall a1 a2, a = a1 ++ a2 -> a2 <> [] -> starts_with pat (a2 ++ pat ++ b) = false) ->
  split_at pat (a ++ pat ++ b) = Some (a, b).
Proof.
  induction a as [|c a IH]; intros H.
  - assert (starts_with pat (pat ++ b) = true) as Hs by (apply starts_with_spec; by exists b). cbn [app].
    destruct (pat ++ b) eqn:E; cbn [split_at]; rewrite Hs, <- E; by rewrite drop_app_length.
  - cbn [app split_at]. pose proof (H [] (c :: a) eq_refl ltac:(done)) as H0. cbn [app] in H0. rewrite H0, IH; [done|].
    intros a1 a2 -> Hne. by apply (H (c :: a1)).
Qed.

(** *** Trimming *)

Lemma trim_start_spec p l :
  exists a, l = a ++ trim_start_by p l /\ Forall (fun c => p c = true) a /\
    (forall c, head (trim_start_by p l) = Some c -> p c = false).
Proof.
  induction l as [|c l (a & E & Ha & Hh)]; [by exists []|]. cbn. destruct (p c) eqn:Hc.
  - exists (c :: a). cbn. rewrite <- E. split_and!; [done|by constructor|done].
  - exists []. split_and!; [done|done|by intros d [= <-]].
Qed.

(** What is trimmed away satisfies the predicate, and neither end of what stays does. *)
Lemma trim_by_spec p l :
  exists a b, l = a ++ trim_by p l ++ b /\ Forall (fun c => p c = true) a /\ Forall (fun c => p c = true) b /\
    (forall c, head (trim_by p l) = Some c -> p c = false) /\ (forall c, last (trim_by p l) = Some c -> p c = false).
Proof.
  unfold trim_by. destruct (trim_start_spec p l) as (a & E & Ha & Hh). set (m := trim_start_by p l) in *.
  destruct (trim_start_spec p (rev m)) as (b & Eb & Hb & Hl).
  assert (m = rev (trim_start_by p (rev m)) ++ rev b) as Em by (rewrite <- rev_app_distr, <- Eb; by rewrite rev_involutive).
  exists a, (rev b). rewrite <- Em. split_and!; [done|done| | |].
  - rewrite rev_alt. change (rev_append b []) with (reverse b). by rewrite Forall_reverse.
  - intros c Hc. apply Hh. rewrite Em. by destruct (rev (trim_start_by p (rev m))).
  - intros c Hc. apply Hl. rewrite <- Hc, (rev_alt (trim_start_by p (rev m))).
    change (rev_append (trim_start_by p (rev m)) []) with (reverse (trim_start_by p (rev m))).
    by rewrite last_reverse.
Qed.
End unicode.

(** ** Lists of lists *)

Section join.
Context {A : Type}.
Implicit Types (ls : list (list A)).

Lemma join_app ls ks : mjoin (ls ++ ks) = mjoin ls ++ mjoin ks.
Proof. induction ls as [|x ls IH]; [done|]. change (x ++ mjoin (ls ++ ks) = (x ++ mjoin ls) ++ mjoin ks). by rewrite IH, app_assoc. Qed.

Lemma join_single (l : list A) : mjoin [l] = l.
Proof. apply app_nil_r. Qed.

Lemma join_length ls n :
  Forall (fun l => length l = n) ls -> length (mjoin ls) = (length ls * n)%nat.
Proof. induction 1 as [|l ls Hl _ IH]; [done|]. cbn. rewrite length_app, Hl. f_equal. exact IH. Qed.

Lemma row_of_join ls n i l :
  Forall (fun l => length l = n) ls -> ls !! i = Some l -> take n (drop (i * n) (mjoin ls)) = l.
Proof.
  intros H. revert i. induction H as [|a ls Ha _ IH]; intros i Hi; [done|]. destruct i as [|i]; cbn.
  - injection Hi as ->. rewrite drop_0. rewrite <- Ha. apply take_app_length.
  - rewrite <- drop_drop. change (take n (drop (i * n) (drop n (a ++ mjoin ls))) = l).
    rewrite drop_app_length' by done. by apply IH.
Qed.

End join.

(** A range of [b] blocks of [n] numbers. *)
Lemma fmap_seq_product {B} (g : nat -> nat -> B) (b n : nat) :
  (n <> 0)%nat -> (fun i => g (i / n)%nat (i mod n)%nat) <$> seq 0 (b * n) = mjoin ((fun i => g i <$> seq 0 n) <$> seq 0 b).
Proof.
  intros Hn. induction b as [|b IH]; [done|]. rewrite Nat.mul_succ_l, seq_app, fmap_app, IH, seq_S, fmap_app.
  rewrite join_app. f_equal. change (mjoin (?f <$> [0 + b]%nat)) with (f (0 + b)%nat ++ []). rewrite app_nil_r, !Nat.add_0_l.
  apply list_eq. intros i. rewrite !list_lookup_fmap. destruct (decide (i < n)%nat) as [Hi|Hi].
  - rewrite !lookup_seq_lt by done. cbn. rewrite (Nat.add_comm (b * n)), Nat.div_add, Nat.Div0.mod_add by done.
    by rewrite Nat.div_small, Nat.mod_small.
  - by rewrite !lookup_seq_ge by lia.
Qed.

(** ** Sums *)

Definition Zsum_with {A} (f : A -> Z) (l : list A) : Z := foldr (fun x acc => f x + acc) 0 l.

Section Zsum.
Context {A : Type}.
Implicit Types (f g : A -> Z) (l : list A).

Lemma Zsum_with_cons f x l : Zsum_with f (x :: l) = f x + Zsum_with f l.
Proof. done. Qed.

Lemma Zsum_with_insert f l i x y :
  l !! i = Some x -> Zsum_with f (<[i := y]> l) = Zsum_with f l - f x + f y.
Proof.
  revert i. induction l as [|z l IH]; intros [|i] H; simplify_eq/=; [lia|]. rewrite (IH i H). lia.
Qed.

Lemma Zsum_with_app f l k : Zsum_with f (l ++ k) = Zsum_with f l + Zsum_with f k.
Proof. induction l as [|x l IH]; simpl; lia. Qed.

Lemma Zsum_with_ext f g l : (forall x, x ∈ l -> f x = g x) -> Zsum_with f l = Zsum_with g l.
Proof.
  induction l as [|x l IH]; simpl; intros H; [done|].
  rewrite (H x), IH; [done| |]; intros; rewrite ?H; set_solver.
Qed.

Lemma Zsum_with_add f g l : Zsum_with (fun x => f x + g x) l = Zsum_with f l + Zsum_with g l.
Proof. induction l; simpl; lia. Qed.

Lemma Zsum_with_zero f l : (forall x, x ∈ l -> f x = 0) -> Zsum_with f l = 0.
Proof.
  induction l as [|x l IH]; simpl; intros H; [done|].
  rewrite (H x), IH; [done| |]; intros; rewrite ?H; set_solver.
Qed.

Lemma Zsum_with_nonneg f l : (forall x, x ∈ l -> 0 <= f x) -> 0 <= Zsum_with f l.
Proof.
  induction l as [|x l IH]; simpl; intros H; [done|].
  pose proof (H x ltac:(set_solver)). pose proof (IH ltac:(set_solver)). lia.
Qed.

Lemma Zsum_with_le f g l : (forall x, x ∈ l -> f x <= g x) -> Zsum_with f l <= Zsum_with g l.
Proof.
  induction l as [|x l IH]; simpl; intros H; [done|].
  pose proof (H x ltac:(set_solver)). pose proof (IH ltac:(set_solver)). lia.
Qed.

Lemma Zsum_with_perm f l k : l ≡ₚ k -> Zsum_with f l = Zsum_with f k.
Proof. induction 1; simpl; lia. Qed.

Lemma Zsum_with_fmap {B} (h : B -> A) f (l : list B) :
  Zsum_with f (h <$> l) = Zsum_with (fun x => f (h x)) l.
Proof. induction l as [|x l IH]; [done|]. rewrite fmap_cons. simpl. by rewrite IH. Qed.

(** A summand that is non-zero at one element of a duplicate-free list only. *)
Lemma Zsum_with_single f l a :
  NoDup l -> a ∈ l -> (forall x, x ∈ l -> x <> a -> f x = 0) -> Zsum_with f l = f a.
Proof.
  induction l as [|x l IH]; simpl; intros Hn Ha H; [set_solver|].
  apply NoDup_cons in Hn as [Hx Hn]. apply elem_of_cons in Ha as [->|Ha].
  - rewrite Zsum_with_zero; [lia|]. intros y Hy. apply H; set_solver.
  - rewrite (H x), IH; [done| |done| |set_solver|]; [done|set_solver|set_solver].
Qed.
End Zsum.

(** ** Automation *)

Create HintDb blz.
#[export] Hint Resolve as_unsigned_range to_be_bytes_range length_to_be_bytes : blz.

(** Split the boolean tests of a translated guard into propositions. *)
Ltac bool_to_prop :=
  repeat match goal with
  | H : _ && _ = true |- _ => apply andb_true_iff in H as [? ?]
  | H : _ || _ = false |- _ => apply orb_false_iff in H as [? ?]
  | H : negb _ = true |- _ => apply negb_true_iff in H
  | H : negb _ = false |- _ => apply negb_false_iff in H
  | H : (_ =? _) = true |- _ => apply Z.eqb_eq in H
  | H : (_ =? _) = false |- _ => apply Z.eqb_neq in H
  | H : (_ <? _) = true |- _ => apply Z.ltb_lt in H
  | H : (_ <? _) = false |- _ => apply Z.ltb_ge in H
  | H : (_ <=? _) = true |- _ => apply Z.leb_le in H
  | H : (_ <=? _) = false |- _ => apply Z.leb_gt in H
  end.

(** Evaluate both sides of a closed equation with the virtual machine. *)
Ltac vm_refl :=
  match goal with
  | |- ?x = _ => vm_cast_no_check (eq_refl x)
  end.

(** Case analysis on the guards of a handler, then linear arithmetic. *)
Ltac guard_cases := repeat (case_match; simplify_eq/=); bool_to_prop.
