(* ===== verification/External.v ===== *)
(** * Third-party crates as interfaces

    The crates [rust_decimal], [iso_currency] and [uuid] are not part of the
    repository.  Each is a class of operations (the calls the sources make) and a
    class of laws (the documented behaviour the sources rely on).  Every theorem
    that needs a law takes the class as a hypothesis; [ExternalModel] gives an
    instance of each. *)

From stdpp Require Import base numbers list gmap strings.
From Stdlib Require Import ZArith Lia.
From S2P Require Import Prelude.

(** ** rust_decimal

    A [Decimal] is a signed 96-bit mantissa with a decimal scale between 0 and 28:
    its value is [mantissa / 10^scale]. *)
Class DecimalLib := {
  Decimal : Type;
  mantissa : Decimal -> Z;
  scale : Decimal -> Z;
  dec_cmp : Decimal -> Decimal -> comparison;
  dec_ZERO : Decimal;
  dec_TWO : Decimal;
  dec_MAX : Decimal;
  dec_new : Z -> Z -> Decimal;
  dec_from_u64 : Z -> Decimal;
  dec_checked_add : Decimal -> Decimal -> option Decimal;
  dec_checked_sub : Decimal -> Decimal -> option Decimal;
  dec_checked_mul : Decimal -> Decimal -> option Decimal;
  dec_checked_div : Decimal -> Decimal -> option Decimal;
  (** The [/] operator: meaningful where it does not panic. *)
  dec_div : Decimal -> Decimal -> Decimal;
  dec_abs : Decimal -> Decimal;
  dec_fract : Decimal -> Decimal;
  dec_is_zero : Decimal -> bool;
  dec_to_u128 : Decimal -> option Z;
  dec_from_str : string -> option Decimal;
  dec_to_string : Decimal -> string;
}.

Section decimal_defs.
Context `{DecimalLib}.

(** The value scaled by [10^28], an exact integer for every representable
    decimal. *)
Definition raw (d : Decimal) : Z := mantissa d * 10 ^ (28 - scale d).

Definition one : Z := 10 ^ 28.

Definition dec_ltb (a b : Decimal) : bool :=
  match dec_cmp a b with Lt => true | _ => false end.
Definition dec_gtb (a b : Decimal) : bool :=
  match dec_cmp a b with Gt => true | _ => false end.
Definition dec_geb (a b : Decimal) : bool :=
  match dec_cmp a b with Lt => false | _ => true end.
Definition dec_eqb (a b : Decimal) : bool :=
  match dec_cmp a b with Eq => true | _ => false end.

(** [r] (scaled by [10^28]) has a mantissa of at most 96 bits at scale [s]. *)
Definition fits (r s : Z) : Prop := Z.abs r < 2 ^ 96 * 10 ^ (28 - s).
End decimal_defs.

Class DecimalLaws `{DecimalLib} : Prop := {
  mantissa_bound d : Z.abs (mantissa d) < 2 ^ 96;
  scale_bound d : 0 <= scale d <= 28;
  dec_cmp_spec a b : dec_cmp a b = (raw a ?= raw b);
  dec_ZERO_spec : mantissa dec_ZERO = 0 /\ scale dec_ZERO = 0;
  dec_TWO_spec : mantissa dec_TWO = 2 /\ scale dec_TWO = 0;
  dec_MAX_spec : mantissa dec_MAX = 2 ^ 96 - 1 /\ scale dec_MAX = 0;
  dec_new_spec m s :
    - 2 ^ 63 <= m < 2 ^ 63 -> 0 <= s <= 28 ->
    mantissa (dec_new m s) = m /\ scale (dec_new m s) = s;
  dec_from_u64_spec n :
    0 <= n < 2 ^ 64 -> mantissa (dec_from_u64 n) = n /\ scale (dec_from_u64 n) = 0;
  (** Addition and subtraction are exact when the exact result has a 96-bit mantissa
      at the larger of the two scales; addition fails only above [MAX]. *)
  dec_add_exact a b :
    fits (raw a + raw b) (Z.max (scale a) (scale b)) ->
    exists c, dec_checked_add a b = Some c /\ raw c = raw a + raw b;
  dec_add_total a b :
    Z.abs (raw a + raw b) <= raw dec_MAX -> is_Some (dec_checked_add a b);
  dec_add_scale a b c :
    dec_checked_add a b = Some c -> scale c <= Z.max (scale a) (scale b);
  dec_add_nonneg a b c :
    dec_checked_add a b = Some c -> 0 <= raw a -> 0 <= raw b -> 0 <= raw c;
  dec_sub_exact a b :
    fits (raw a - raw b) (Z.max (scale a) (scale b)) ->
    exists c, dec_checked_sub a b = Some c /\ raw c = raw a - raw b;
  dec_sub_scale a b c :
    dec_checked_sub a b = Some c -> scale c <= Z.max (scale a) (scale b);
  dec_sub_nonneg a b c :
    dec_checked_sub a b = Some c -> 0 <= raw b <= raw a -> 0 <= raw c;
  dec_mul_exact a b :
    scale a + scale b <= 28 -> Z.abs (mantissa a * mantissa b) < 2 ^ 96 ->
    exists c, dec_checked_mul a b = Some c /\ raw c * one = raw a * raw b;
  dec_mul_scale a b c :
    dec_checked_mul a b = Some c -> scale c <= scale a + scale b;
  (** Division of integers is exact when some decimal is the exact quotient, and the
      result uses no more decimal places than that decimal. *)
  dec_div_exact a b m s :
    scale a = 0 -> scale b = 0 -> raw b <> 0 ->
    0 <= s <= 28 -> Z.abs m < 2 ^ 96 -> m * 10 ^ (28 - s) * raw b = raw a * one ->
    exists q, dec_checked_div a b = Some q /\ raw q = m * 10 ^ (28 - s) /\ scale q <= s;
  (** [MAX / 2] is not representable: the quotient is within half a unit of it. *)
  dec_half_max : Z.abs (2 * raw (dec_div dec_MAX dec_TWO) - raw dec_MAX) <= one;
  dec_abs_spec d : raw (dec_abs d) = Z.abs (raw d);
  dec_abs_scale d : scale (dec_abs d) = scale d;
  dec_fract_spec d : raw (dec_fract d) = Z.rem (raw d) one;
  dec_is_zero_spec d : dec_is_zero d = (raw d =? 0);
  dec_to_u128_spec d : 0 <= raw d -> dec_to_u128 d = Some (raw d / one);
  dec_from_str_int n :
    0 <= n < 2 ^ 96 ->
    exists d, dec_from_str (string_of_Z n) = Some d /\ mantissa d = n /\ scale d = 0;
  dec_to_string_round d :
    exists d', dec_from_str (dec_to_string d) = Some d' /\
               mantissa d' = mantissa d /\ scale d' = scale d;
}.

(** ** iso_currency *)

Class CurrencyLib := {
  Currency : Type;
  Currency_eq_dec :: EqDecision Currency;
  code : Currency -> string;
  numeric : Currency -> Z;
  from_code : string -> option Currency;
  from_numeric : Z -> option Currency;
}.

Class CurrencyLaws `{CurrencyLib} : Prop := {
  from_code_code c : from_code (code c) = Some c;
  code_from_code s c : from_code s = Some c -> code c = s;
  numeric_range c : 0 <= numeric c < 2 ^ 16;
  from_numeric_numeric c : from_numeric (numeric c) = Some c;
  (** The ISO 4217 codes of the ledger table exist, the crypto codes do not. *)
  iso_codes : Forall (fun s => is_Some (from_code s)) ["USD"; "EUR"; "GBP"; "JPY"; "VND"];
  crypto_codes : Forall (fun s => from_code s = None) ["BTC"; "ETH"; "XBT"];
}.

(** ** uuid *)

Class UuidLib := {
  Uuid : Type;
  Uuid_eq_dec :: EqDecision Uuid;
  Uuid_countable :: Countable Uuid;
  uuid_as_bytes : Uuid -> list Z;
  uuid_from_bytes : list Z -> Uuid;
  uuid_is_nil : Uuid -> bool;
  uuid_parse_str : string -> option Uuid;
  uuid_to_string : Uuid -> string;
}.

Class UuidLaws `{UuidLib} : Prop := {
  uuid_as_bytes_length u : length (uuid_as_bytes u) = 16%nat;
  uuid_as_bytes_range u : Forall is_byte (uuid_as_bytes u);
  uuid_from_as_bytes u : uuid_from_bytes (uuid_as_bytes u) = u;
  uuid_as_from_bytes bs :
    length bs = 16%nat -> Forall is_byte bs -> uuid_as_bytes (uuid_from_bytes bs) = bs;
  uuid_is_nil_spec u : uuid_is_nil u = bool_decide (uuid_as_bytes u = replicate 16 0);
  uuid_parse_to_string u : uuid_parse_str (uuid_to_string u) = Some u;
}.

(** ** tigerbeetle-unofficial

    The wire records of the TigerBeetle client crate, with the fields the sources set
    and read (flags as the sets the crate's bit flags denote), and the client handle
    with state [T]. *)
Record TbAccount : Type := MkTbAccount {
  tba_id : Z;
  tba_ledger : Z;
  tba_code : Z;
  tba_DEBITS_MUST_NOT_EXCEED_CREDITS : bool;
  tba_CREDITS_MUST_NOT_EXCEED_DEBITS : bool;
  tba_LINKED : bool;
  tba_user_data_32 : Z;
  tba_debits_posted : Z;
  tba_credits_posted : Z;
}.

Record TbTransfer : Type := MkTbTransfer {
  tbt_id : Z;
  tbt_debit_account_id : Z;
  tbt_credit_account_id : Z;
  tbt_amount : Z;
  tbt_pending_id : Z;
  tbt_ledger : Z;
  tbt_code : Z;
  tbt_LINKED : bool;
  tbt_PENDING : bool;
  tbt_POST_PENDING_TRANSFER : bool;
  tbt_VOID_PENDING_TRANSFER : bool;
  tbt_user_data_32 : Z;
}.

(** [CreateTransfersError]: per-transfer failures (index in the submitted batch and the
    [Debug] text of the kind), or a failure of the whole request. *)
Inductive TbCreateError : Type :=
  | TbApi (errors : list (Z * string))
  | TbSend (display : string).

Class TbClient (T : Type) := {
  tb_create_accounts : list TbAccount -> T -> Result unit string * T;
  tb_create_transfers : list TbTransfer -> T -> Result unit TbCreateError * T;
  tb_lookup_accounts : list Z -> T -> Result (list TbAccount) string * T;
  tb_lookup_transfers : list Z -> T -> Result (list TbTransfer) string * T;
  tb_display : TbCreateError -> string;
}.

(** ** Consequences shared by the components *)

Section decimal_lemmas.
Context `{DecimalLaws}.

Lemma pow10_pos s : s <= 28 -> 0 < 10 ^ (28 - s).
Proof. intros. apply Z.pow_pos_nonneg; lia. Qed.

Lemma raw_ZERO : raw dec_ZERO = 0.
Proof. unfold raw. by rewrite (proj1 dec_ZERO_spec). Qed.

Lemma raw_MAX : raw dec_MAX = (2 ^ 96 - 1) * one.
Proof. unfold raw. by rewrite (proj1 dec_MAX_spec), (proj2 dec_MAX_spec). Qed.

Lemma dec_ltb_spec a b : dec_ltb a b = (raw a <? raw b).
Proof. unfold dec_ltb. by rewrite dec_cmp_spec. Qed.

Lemma dec_gtb_spec a b : dec_gtb a b = (raw b <? raw a).
Proof.
  unfold dec_gtb. rewrite dec_cmp_spec, Z.ltb_compare, (Z.compare_antisym (raw a) (raw b)).
  by destruct (raw a ?= raw b).
Qed.

Lemma dec_geb_spec a b : dec_geb a b = (raw b <=? raw a).
Proof.
  unfold dec_geb. rewrite dec_cmp_spec, Z.leb_compare, (Z.compare_antisym (raw a) (raw b)).
  by destruct (raw a ?= raw b).
Qed.

Lemma dec_eqb_spec a b : dec_eqb a b = (raw a =? raw b).
Proof. unfold dec_eqb. rewrite dec_cmp_spec, Z.eqb_compare. by destruct (raw a ?= raw b). Qed.

(** Fitting at a scale implies fitting at every smaller one. *)
Lemma fits_mono r s s' : 0 <= s' <= s -> s <= 28 -> fits r s -> fits r s'.
Proof.
  intros Hs H28 Hf. unfold fits in *. eapply Z.lt_le_trans; [exact Hf|].
  apply Z.mul_le_mono_nonneg_l; [lia|]. apply Z.pow_le_mono_r; lia.
Qed.

(** A decimal of magnitude above [10 ^ 27 * 2 ^ 96 / 10 ^ 28] and more has no room
    for a fractional digit: it is a multiple of one. *)
Lemma raw_integral d :
  2 ^ 96 * 10 ^ 27 <= Z.abs (raw d) -> exists n, raw d = n * one.
Proof.
  intros Hd. pose proof (mantissa_bound d). pose proof (scale_bound d).
  destruct (decide (scale d = 0)) as [E|Hs].
  - exists (mantissa d). unfold raw. by rewrite E.
  - exfalso. unfold raw in Hd. rewrite Z.abs_mul in Hd.
    rewrite (Z.abs_eq (10 ^ _)) in Hd by (pose proof (pow10_pos (scale d)); lia).
    assert (10 ^ (28 - scale d) <= 10 ^ 27) by (apply Z.pow_le_mono_r; lia).
    pose proof (pow10_pos (scale d)). nia.
Qed.
End decimal_lemmas.

#[export] Hint Rewrite @raw_ZERO @dec_ltb_spec @dec_gtb_spec @dec_geb_spec @dec_eqb_spec
  @dec_is_zero_spec @dec_abs_spec using exact _ : dec.
