(* ===== verification/ExternalModel.v ===== *)
(** * Concrete instances of the third-party interfaces

    One executable model of each crate interface, with the proof that it satisfies
    the laws of [External].  They show that the laws are consistent and are the
    parameters of the evaluated examples. *)

From stdpp Require Import base numbers list gmap strings pretty.
From Stdlib Require Import ZArith Lia Ascii.
From S2P Require Import Prelude External.

(** ** Decimals: a mantissa and a scale with their bounds. *)
Module dec.
Definition valid (p : Z * Z) : bool :=
  (Z.abs p.1 <? 2 ^ 96) && (0 <=? p.2) && (p.2 <=? 28).

Definition t : Type := { p : Z * Z | valid p = true }.

Definition mant (d : t) : Z := (`d).1.
Definition sc (d : t) : Z := (`d).2.
Definition rw (d : t) : Z := mant d * 10 ^ (28 - sc d).

Definition mk (m s : Z) : option t :=
  match decide (valid (m, s) = true) with
  | left H => Some (exist _ (m, s) H)
  | right _ => None
  end.

Definition zero : t := exist _ (0, 0) eq_refl.
Definition two : t := exist _ (2, 0) eq_refl.
Definition max : t := exist _ (2 ^ 96 - 1, 0) eq_refl.

Definition mk_or_zero (m s : Z) : t :=
  match mk m s with Some d => d | None => zero end.

(** The value [r / 10^28] at scale [s] when it fits, rounded down to an integer
    otherwise. *)
Definition at_scale (r s : Z) : option t :=
  match mk (r / 10 ^ (28 - s)) s with
  | Some d => Some d
  | None => mk (r / 10 ^ 28) 0
  end.

Definition add (a b : t) : option t := at_scale (rw a + rw b) (Z.max (sc a) (sc b)).
Definition sub (a b : t) : option t := at_scale (rw a - rw b) (Z.max (sc a) (sc b)).
Definition mul (a b : t) : option t := mk (mant a * mant b) (sc a + sc b).

(** The exact quotient at the least scale from [s] on, by [fuel] attempts. *)
Fixpoint div_from (fuel : nat) (s a b : Z) : option t :=
  match fuel with
  | O => None
  | S fuel =>
      if (a * 10 ^ 28) mod (b * 10 ^ (28 - s)) =? 0
      then match mk (a * 10 ^ 28 / (b * 10 ^ (28 - s))) s with
           | Some q => Some q
           | None => div_from fuel (s + 1) a b
           end
      else div_from fuel (s + 1) a b
  end.

Definition div (a b : t) : option t :=
  if rw b =? 0 then None
  else match div_from 29 0 (rw a) (rw b) with
       | Some q => Some q
       | None => mk (rw a / rw b) 0
       end.

Definition parse_int (s : string) : option Z :=
  match s with
  | String c t => if bool_decide (c = "-"%char) then Z.opp <$> parse_digits 0 t
                  else parse_digits 0 s
  | EmptyString => None
  end.

Definition to_string (d : t) : string :=
  if sc d =? 0 then string_of_Z (mant d)
  else String (ascii_of_nat (Z.to_nat (64 + sc d))) (string_of_Z (mant d)).

Definition from_str (s : string) : option t :=
  match s with
  | EmptyString => None
  | String c rest =>
      let k := Z.of_nat (nat_of_ascii c) in
      if 64 <? k then m ← parse_int rest; mk m (k - 64)
      else m ← parse_int s; mk m 0
  end.

Definition cmp (a b : t) : comparison := rw a ?= rw b.

Definition lib : DecimalLib := {|
  Decimal := t; mantissa := mant; scale := sc; dec_cmp := cmp;
  dec_ZERO := zero; dec_TWO := two; dec_MAX := max;
  dec_new := mk_or_zero; dec_from_u64 := fun n => mk_or_zero n 0;
  dec_checked_add := add; dec_checked_sub := sub;
  dec_checked_mul := mul; dec_checked_div := div;
  dec_div := fun a b => match div a b with Some q => q | None => zero end;
  dec_abs := fun d => mk_or_zero (Z.abs (mant d)) (sc d);
  dec_fract := fun d => mk_or_zero (Z.rem (mant d) (10 ^ sc d)) (sc d);
  dec_is_zero := fun d => rw d =? 0;
  dec_to_u128 := fun d => if 0 <=? rw d then Some (rw d / 10 ^ 28) else None;
  dec_from_str := from_str; dec_to_string := to_string;
|}.

Lemma bounds (d : t) : Z.abs (mant d) < 2 ^ 96 /\ 0 <= sc d <= 28.
Proof. destruct d as [[m s] H]. unfold mant, sc, valid in *. simpl in *. bool_to_prop. lia. Qed.

Lemma mk_Some m s d : mk m s = Some d -> mant d = m /\ sc d = s.
Proof. unfold mk. case_decide; intros; simplify_eq; done. Qed.

Lemma mk_valid m s :
  Z.abs m < 2 ^ 96 -> 0 <= s <= 28 -> exists d, mk m s = Some d /\ mant d = m /\ sc d = s.
Proof.
  intros Hm Hs. unfold mk. case_decide as Hv; [eexists; split; [done|done]|].
  contradict Hv. unfold valid. simpl.
  rewrite !andb_true_iff, Z.ltb_lt, !Z.leb_le. lia.
Qed.

Lemma mk_or_zero_valid m s :
  Z.abs m < 2 ^ 96 -> 0 <= s <= 28 -> mant (mk_or_zero m s) = m /\ sc (mk_or_zero m s) = s.
Proof. intros Hm Hs. unfold mk_or_zero. by destruct (mk_valid m s Hm Hs) as (d & -> & ?). Qed.

Lemma pow_split s : 0 <= s <= 28 -> 10 ^ s * 10 ^ (28 - s) = 10 ^ 28.
Proof. intros. rewrite <- Z.pow_add_r by lia. f_equal; lia. Qed.

Lemma pow_pos s : s <= 28 -> 0 < 10 ^ (28 - s).
Proof. intros. apply Z.pow_pos_nonneg; lia. Qed.

(** Values of scale at most [s] are multiples of the unit at scale [s]. *)
Lemma rw_multiple d s : sc d <= s <= 28 -> exists m, rw d = m * 10 ^ (28 - s).
Proof.
  intros. pose proof (bounds d). exists (mant d * 10 ^ (s - sc d)). unfold rw.
  rewrite <- Z.mul_assoc, <- Z.pow_add_r by lia. do 2 f_equal. lia.
Qed.

Lemma at_scale_exact m s :
  0 <= s <= 28 -> Z.abs m < 2 ^ 96 ->
  exists d, at_scale (m * 10 ^ (28 - s)) s = Some d /\ rw d = m * 10 ^ (28 - s).
Proof.
  intros Hs Hm. unfold at_scale. pose proof (pow_pos s).
  rewrite Z.div_mul by lia. destruct (mk_valid m s Hm Hs) as (d & -> & <- & <-). by exists d.
Qed.

Lemma at_scale_Some r s d : 0 <= s -> at_scale r s = Some d -> sc d <= s /\ (0 <= r -> 0 <= rw d).
Proof.
  intros Hs. unfold at_scale.
  assert (forall r' s', mk (r' / 10 ^ (28 - s')) s' = Some d -> 0 <= r' -> 0 <= rw d) as Hn.
  { intros r' s' E Hr. pose proof (bounds d).
    apply mk_Some in E as [Em Es]. unfold rw. rewrite Em, Es in *.
    apply Z.mul_nonneg_nonneg; [apply Z.div_pos; [lia|apply pow_pos; lia]|].
    pose proof (pow_pos s'). lia. }
  destruct (mk _ s) as [d'|] eqn:E; intros Hd; simplify_eq.
  - split; [apply mk_Some in E as [_ ->]; lia|eauto].
  - split; [apply mk_Some in Hd as [_ ->]; lia|]. apply (Hn r 0). done.
Qed.

Lemma at_scale_total r s :
  Z.abs r <= (2 ^ 96 - 1) * 10 ^ 28 -> is_Some (at_scale r s).
Proof.
  intros Hr. unfold at_scale. destruct (mk _ s) as [d|]; [by eexists|].
  destruct (mk_valid (r / 10 ^ 28) 0) as (d & -> & _); [|lia|by eexists].
  pose proof (Z.div_mod r (10 ^ 28) ltac:(lia)).
  pose proof (Z.mod_pos_bound r (10 ^ 28) ltac:(lia)). lia.
Qed.

Lemma div_from_exact fuel s0 s m a b :
  b <> 0 -> 0 <= s0 <= s -> s <= 28 -> s < s0 + Z.of_nat fuel -> Z.abs m < 2 ^ 96 ->
  m * 10 ^ (28 - s) * b = a * 10 ^ 28 ->
  exists q, div_from fuel s0 a b = Some q /\ rw q = m * 10 ^ (28 - s) /\ sc q <= s.
Proof.
  intros Hb. revert s0. induction fuel as [|fuel IH]; intros s0 Hs0 Hs Hf Hm E; [lia|].
  simpl. pose proof (pow_pos s0) as Hp0.
  destruct (decide (s0 = s)) as [->|Hne].
  - replace (a * 10 ^ 28) with (m * (b * 10 ^ (28 - s))) by lia.
    rewrite Z.mod_mul, Z.div_mul by nia. simpl.
    destruct (mk_valid m s Hm ltac:(lia)) as (q & -> & <- & <-). exists q. done.
  - case_match eqn:Hdiv; [|apply IH; lia].
    destruct (mk _ s0) as [q|] eqn:Eq; [|apply IH; lia].
    exists q. split; [done|]. apply mk_Some in Eq as [Eq1 Eq2]. split; [|lia].
    unfold rw. rewrite Eq1, Eq2. apply Z.eqb_eq in Hdiv.
    apply (Z.mul_reg_r _ _ b Hb). rewrite E.
    pose proof (Z.div_mod (a * 10 ^ 28) (b * 10 ^ (28 - s0)) ltac:(nia)). lia.
Qed.

Lemma add_like_exact r s a b :
  s = Z.max (sc a) (sc b) -> (r = rw a + rw b \/ r = rw a - rw b) ->
  Z.abs r < 2 ^ 96 * 10 ^ (28 - s) ->
  exists c, at_scale r s = Some c /\ rw c = r.
Proof.
  intros Es Er Hf. pose proof (bounds a). pose proof (bounds b). pose proof (pow_pos s ltac:(lia)).
  destruct (rw_multiple a s) as [ma Ea]; [lia|]. destruct (rw_multiple b s) as [mb Eb]; [lia|].
  assert (exists m, r = m * 10 ^ (28 - s)) as [m Em].
  { destruct Er as [Er|Er]; [exists (ma + mb)|exists (ma - mb)]; rewrite Er, Ea, Eb; ring. }
  rewrite Em in *. apply at_scale_exact; [lia|]. rewrite Z.abs_mul in Hf. nia.
Qed.

Lemma string_of_Z_first n :
  exists c t, string_of_Z n = String c t /\ Z.of_nat (nat_of_ascii c) <= 64.
Proof.
  assert (forall c, digit_of c <> None -> Z.of_nat (nat_of_ascii c) <= 64) as Hc.
  { intros c. unfold digit_of. case_match eqn:E; [|done]. bool_to_prop. lia. }
  unfold string_of_Z. destruct n as [|p|p].
  - by exists "0"%char, ""%string.
  - destruct (pretty_N_first (Npos p)) as (c & t & E & Hd). exists c, t. split; [exact E|auto].
  - eexists "-"%char, _. split; [reflexivity|]. vm_compute. done.
Qed.

Lemma parse_int_string_of_Z n : parse_int (string_of_Z n) = Some n.
Proof.
  unfold string_of_Z. destruct n as [|p|p]; [done| |].
  - destruct (pretty_N_first (Npos p)) as (c & t & E & Hd).
    pose proof (parse_digits_pretty (Npos p)) as Hp.
    change (pretty (Z.pos p)) with (pretty (Npos p)). rewrite E in *.
    unfold parse_int. rewrite bool_decide_false by (intros ->; done). exact Hp.
  - change (pretty (Z.neg p)) with (String "-"%char (pretty (Npos p))).
    unfold parse_int. rewrite bool_decide_true by done. by rewrite parse_digits_pretty.
Qed.

Lemma from_str_int n : Z.abs n < 2 ^ 96 ->
  exists d, from_str (string_of_Z n) = Some d /\ mant d = n /\ sc d = 0.
Proof.
  intros Hn. pose proof (parse_int_string_of_Z n) as Hp.
  destruct (string_of_Z_first n) as (c & t & E & Hc). rewrite E in *. unfold from_str.
  rewrite (proj2 (Z.ltb_ge _ _)) by lia. rewrite Hp. simpl. apply mk_valid; [done|lia].
Qed.

Lemma to_string_round d :
  exists d', from_str (to_string d) = Some d' /\ mant d' = mant d /\ sc d' = sc d.
Proof.
  pose proof (bounds d) as [Hm Hs]. unfold to_string. case_match eqn:E; bool_to_prop.
  - rewrite E. by apply from_str_int.
  - unfold from_str. rewrite nat_ascii_embedding by lia.
    rewrite (proj2 (Z.ltb_lt _ _)) by lia. rewrite parse_int_string_of_Z. simpl.
    replace (Z.of_nat (Z.to_nat (64 + sc d)) - 64) with (sc d) by lia. by apply mk_valid.
Qed.

Lemma rw_mk_or_zero m s :
  Z.abs m < 2 ^ 96 -> 0 <= s <= 28 -> rw (mk_or_zero m s) = m * 10 ^ (28 - s).
Proof. intros Hm Hs. unfold rw. by destruct (mk_or_zero_valid m s Hm Hs) as [-> ->]. Qed.

Lemma half_max : rw <$> div max two = Some ((2 ^ 95 - 1) * 10 ^ 28).
Proof. vm_compute. reflexivity. Qed.

Lemma dec_laws : @DecimalLaws lib.
Proof.
  constructor; unfold raw, fits, one;
    cbn [lib Decimal mantissa scale dec_cmp dec_ZERO dec_TWO dec_MAX dec_new dec_from_u64
         dec_checked_add dec_checked_sub dec_checked_mul dec_checked_div dec_div dec_abs
         dec_fract dec_is_zero dec_to_u128 dec_from_str dec_to_string].
  - intros d. apply bounds.
  - intros d. apply bounds.
  - done.
  - done.
  - done.
  - done.
  - intros m s Hm Hs. apply mk_or_zero_valid; lia.
  - intros n Hn. apply mk_or_zero_valid; lia.
  - intros a b Hf. apply (add_like_exact _ _ a b); [done|by left|done].
  - intros a b Hr. apply at_scale_total. exact Hr.
  - intros a b c Hc. pose proof (bounds a). eapply at_scale_Some; [|exact Hc]. lia.
  - intros a b c Hc Ha Hb. pose proof (bounds a). eapply at_scale_Some; [|exact Hc|].
    + lia.
    + unfold rw. lia.
  - intros a b Hf. apply (add_like_exact _ _ a b); [done|by right|done].
  - intros a b c Hc. pose proof (bounds a). eapply at_scale_Some; [|exact Hc]. lia.
  - intros a b c Hc Hab. pose proof (bounds a). eapply at_scale_Some; [|exact Hc|].
    + lia.
    + unfold rw. lia.
  - intros a b Hs Hm. pose proof (bounds a). pose proof (bounds b).
    destruct (mk_valid (mant a * mant b) (sc a + sc b)) as (c & E & Em & Es); [done|lia|].
    exists c. split; [done|]. rewrite Em, Es.
    replace (10 ^ 28) with (10 ^ sc a * 10 ^ (28 - sc a)) by (apply pow_split; lia).
    replace (28 - sc b) with (28 - (sc a + sc b) + sc a) by lia.
    rewrite (Z.pow_add_r 10 (28 - (sc a + sc b)) (sc a)) by lia. lia.
  - intros a b c Hc. unfold mul in Hc. apply mk_Some in Hc as [_ ->]. lia.
  - intros a b m s Ha Hb Hb0 Hs Hm E. unfold div.
    rewrite (proj2 (Z.eqb_neq (rw b) 0)) by exact Hb0.
    destruct (div_from_exact 29 0 s m (rw a) (rw b)) as (q & -> & ?); [done|lia|lia|lia|done|exact E|].
    by exists q.
  - pose proof half_max as E. destruct (div max two) as [h|]; [|discriminate E]. injection E as E.
    change (mant h * 10 ^ (28 - sc h)) with (rw h). rewrite E. vm_compute. discriminate.
  - intros d. pose proof (bounds d) as [Hm Hs].
    destruct (mk_or_zero_valid (Z.abs (mant d)) (sc d)) as [-> ->]; [lia|lia|].
    rewrite Z.abs_mul. f_equal. symmetry. apply Z.abs_eq. pose proof (pow_pos (sc d)). lia.
  - intros d. pose proof (bounds d) as [Hm Hs]. apply mk_or_zero_valid; lia.
  - intros d. pose proof (bounds d) as [Hm Hs].
    assert (0 < 10 ^ sc d) by (apply Z.pow_pos_nonneg; lia).
    destruct (mk_or_zero_valid (Z.rem (mant d) (10 ^ sc d)) (sc d)) as [-> ->]; [|lia|].
    + rewrite <- Z.rem_abs by lia. pose proof (Z.rem_bound_pos (Z.abs (mant d)) (Z.abs (10 ^ sc d))).
      pose proof (Z.rem_le (Z.abs (mant d)) (Z.abs (10 ^ sc d))). lia.
    + rewrite <- (pow_split (sc d)) at 1 by lia. pose proof (pow_pos (sc d)).
      rewrite Z.mul_rem_distr_r by lia. done.
  - done.
  - intros d Hd. unfold rw. rewrite (proj2 (Z.leb_le _ _)) by lia. done.
  - intros n Hn. apply from_str_int. lia.
  - intros d. apply to_string_round.
Qed.
End dec.

(** ** Currencies: a finite table. *)
Module cur.
Inductive t := USD | EUR | GBP | JPY | VND | KWD.

#[global] Instance t_eq_dec : EqDecision t.
Proof. solve_decision. Defined.

Definition all : list t := [USD; EUR; GBP; JPY; VND; KWD].

Definition to_code (c : t) : string :=
  match c with
  | USD => "USD" | EUR => "EUR" | GBP => "GBP" | JPY => "JPY" | VND => "VND" | KWD => "KWD"
  end.

Definition to_numeric (c : t) : Z :=
  match c with
  | USD => 840 | EUR => 978 | GBP => 826 | JPY => 392 | VND => 704 | KWD => 414
  end.

Definition lib : CurrencyLib := {|
  Currency := t; code := to_code; numeric := to_numeric;
  from_code := fun s => find (fun c => bool_decide (to_code c = s)) all;
  from_numeric := fun n => find (fun c => to_numeric c =? n) all;
|}.

Lemma cur_laws : @CurrencyLaws lib.
Proof.
  constructor; simpl.
  - by intros [].
  - intros s c Hc. by repeat case_bool_decide; simplify_eq.
  - by intros [].
  - by intros [].
  - repeat constructor; by eexists.
  - repeat constructor.
Qed.
End cur.

(** ** UUIDs: a 128-bit integer, bytes in big-endian order. *)
Module uid.
Definition t : Type := { x : Z | is_unsigned 128 x = true }.

#[global] Instance t_eq_dec : EqDecision t := _.
#[global] Instance t_countable : Countable t := _.

Definition zero : t := exist _ 0 eq_refl.

Definition of_Z (x : Z) : t :=
  match decide (is_unsigned 128 x = true) with
  | left H => exist _ x H
  | right _ => zero
  end.

Definition to_Z (u : t) : Z := `u.

Definition lib : UuidLib := {|
  Uuid := t;
  uuid_as_bytes := fun u => to_be_bytes 16 (to_Z u);
  uuid_from_bytes := fun bs => of_Z (from_be_bytes bs);
  uuid_is_nil := fun u => to_Z u =? 0;
  uuid_parse_str := fun s => x ← dec.parse_int s;
                             if is_unsigned 128 x then Some (of_Z x) else None;
  uuid_to_string := fun u => string_of_Z (to_Z u);
|}.

Lemma to_Z_range u : 0 <= to_Z u < 256 ^ Z.of_nat 16.
Proof.
  destruct u as [x Hx]. unfold to_Z, is_unsigned in *. simpl. bool_to_prop.
  change (256 ^ Z.of_nat 16) with (2 ^ 128). lia.
Qed.

Lemma to_of_Z x : 0 <= x < 256 ^ Z.of_nat 16 -> to_Z (of_Z x) = x.
Proof.
  intros Hx. unfold of_Z. case_decide as Hd; [done|]. contradict Hd.
  change (256 ^ Z.of_nat 16) with (2 ^ 128) in Hx.
  unfold is_unsigned. rewrite andb_true_iff, Z.leb_le, Z.ltb_lt. lia.
Qed.

Lemma of_to_Z u : of_Z (to_Z u) = u.
Proof.
  apply (sig_eq_pi _). exact (to_of_Z _ (to_Z_range u)).
Qed.

Lemma uid_laws : @UuidLaws lib.
Proof.
  constructor; cbn -[to_be_bytes from_be_bytes replicate].
  - intros u. apply length_to_be_bytes.
  - intros u. apply to_be_bytes_range.
  - intros u. rewrite from_to_be_bytes by apply to_Z_range. apply of_to_Z.
  - intros bs Hl Hb. rewrite to_of_Z; [by apply to_from_be_bytes|].
    rewrite <- Hl. by apply from_be_bytes_range.
  - intros u. pose proof (to_Z_range u). destruct (Z.eqb_spec (to_Z u) 0) as [->|Hne].
    + by rewrite bool_decide_true.
    + rewrite bool_decide_false; [done|]. intros E. contradict Hne.
      rewrite <- (from_to_be_bytes 16 (to_Z u)) by done.
      by rewrite E.
  - intros u. rewrite dec.parse_int_string_of_Z. simpl.
    assert (is_unsigned 128 (to_Z u) = true) as -> by apply (proj2_sig u).
    by rewrite of_to_Z.
Qed.
End uid.
