(* ===== verification/Common.v ===== *)
(** * core/common: errors, identifiers, amounts

    [error] is the unified error type, [ids] the strongly typed identifiers,
    [currency] and [amount] the currency-checked monetary amounts. *)

From stdpp Require Import base numbers list gmap strings countable.
From Stdlib Require Import ZArith Lia.
From S2P Require Import Prelude External ExternalModel.

(** ** error.rs *)
Module error.
Inductive BlazerError : Type :=
  | InvalidId (s : string)
  | CurrencyMismatch (expected actual : string)
  | InsufficientFunds (available required : string)
  | AmountOverflow
  | InvalidAmountScale (scale : Z)
  | NegativeAmount
  | InvalidCurrency (code : string)
  | ValidationError (msg : string)
  | Internal (msg : string)
  | Transport (msg : string)
  | RingBufferFull (retry_after_ms : Z)
  | Ledger (msg : string)
  | LedgerTransient (msg : string)
  | NotFound (resource id : string)
  | Duplicate (resource id : string).

#[global] Instance BlazerError_eq_dec : EqDecision BlazerError.
Proof. solve_decision. Defined.

Definition BlazerResult (A : Type) : Type := Result A BlazerError.

(** The text of an error ([Display]). *)
Definition display (e : BlazerError) : string :=
  match e with
  | InvalidId s => "Invalid UUID format: " +:+ s
  | CurrencyMismatch expected actual => "Currency mismatch: expected " +:+ expected +:+ ", got " +:+ actual
  | InsufficientFunds available required =>
      "Insufficient funds: available " +:+ available +:+ ", required " +:+ required
  | AmountOverflow => "Amount overflow: value exceeds maximum allowed"
  | InvalidAmountScale n =>
      "Invalid amount scale: " +:+ string_of_Z n +:+ " decimal places exceeds maximum of 8"
  | NegativeAmount => "Amount cannot be negative"
  | InvalidCurrency c => "Invalid currency code: " +:+ c
  | ValidationError m => "Validation failed: " +:+ m
  | Internal m => "Internal error: " +:+ m
  | Transport m => "Transport error: " +:+ m
  | RingBufferFull ms => "Ring buffer full — retry after " +:+ string_of_Z ms +:+ "ms"
  | Ledger m => "Ledger error: " +:+ m
  | LedgerTransient m => "Ledger transient error (retryable): " +:+ m
  | NotFound r i => "Not found: " +:+ r +:+ " with id " +:+ i
  | Duplicate r i => "Duplicate: " +:+ r +:+ " with id " +:+ i +:+ " already exists"
  end.

Definition is_transient (e : BlazerError) : bool :=
  match e with LedgerTransient _ => true | _ => false end.
End error.
Export error.

(** ** ids.rs *)
Module ids.
(** The two macros of the source generate one newtype per name; the index keeps the
    names apart. *)
Inductive u64_kind := TransactionK | AccountK.
Inductive uuid_kind := TransferK | TenantK | ApiKeyK.

Record u64_id (k : u64_kind) : Type := U64Id { as_u64 : Z }.
Arguments U64Id {k} _.
Arguments as_u64 {k} _.

Abbreviation TransactionId := (u64_id TransactionK).
Abbreviation AccountId := (u64_id AccountK).

#[global] Instance u64_id_eq_dec k : EqDecision (u64_id k).
Proof. solve_decision. Defined.
#[global] Instance u64_id_countable k : Countable (u64_id k).
Proof. apply (inj_countable' as_u64 U64Id). by intros []. Defined.

Record LedgerId : Type := MkLedgerId { ledger_value : Z }.

#[global] Instance LedgerId_eq_dec : EqDecision LedgerId.
Proof. solve_decision. Defined.

Section ids.
Context `{UL : UuidLib}.

Record uuid_id (k : uuid_kind) : Type := UuidId { as_uuid : Uuid }.
Global Arguments UuidId {k} _.
Global Arguments as_uuid {k} _.

Global Instance uuid_id_eq_dec k : EqDecision (uuid_id k).
Proof. solve_decision. Defined.
Global Instance uuid_id_countable k : Countable (uuid_id k).
Proof. apply (inj_countable' as_uuid UuidId). by intros []. Defined.

(** [Uuid::as_u128]: the sixteen bytes read in big-endian order. *)
Definition as_u128 (u : Uuid) : Z := from_be_bytes (uuid_as_bytes u).

(** [define_u64_id!]: [new] takes the random UUID it draws. *)
Definition u64_new {k} (v4 : Uuid) : u64_id k := U64Id (as_unsigned 64 (as_u128 v4)).
Definition from_u64 {k} (v : Z) : u64_id k := U64Id v.
Definition is_zero {k} (i : u64_id k) : bool := as_u64 i =? 0.
Definition u64_to_string {k} (i : u64_id k) : string := string_of_Z (as_u64 i).
Definition u64_serialize {k} (i : u64_id k) : string := string_of_Z (as_u64 i).
Definition u64_deserialize {k} (s : string) : option (u64_id k) := U64Id <$> parse_u64 s.
Definition u64_from_str {k} (s : string) : BlazerResult (u64_id k) :=
  match parse_u64 s with
  | Some v => Ok (U64Id v)
  | None => match uuid_parse_str s with
            | Some u => Ok (U64Id (as_unsigned 64 (as_u128 u)))
            | None => Err (InvalidId s)
            end
  end.

(** [define_id!] *)
Definition uuid_new {k} (v4 : Uuid) : uuid_id k := UuidId v4.
Definition id_from_bytes {k} (bs : list Z) : uuid_id k := UuidId (uuid_from_bytes bs).
Definition id_to_string {k} (i : uuid_id k) : string := uuid_to_string (as_uuid i).
Definition id_serialize {k} (i : uuid_id k) : string := uuid_to_string (as_uuid i).
Definition id_deserialize {k} (s : string) : option (uuid_id k) := UuidId <$> uuid_parse_str s.
Definition id_from_str {k} (s : string) : BlazerResult (uuid_id k) :=
  match uuid_parse_str s with
  | Some u => Ok (UuidId u)
  | None => Err (InvalidId s)
  end.
End ids.
Abbreviation TransferId := (uuid_id TransferK).
Abbreviation TenantId := (uuid_id TenantK).
Abbreviation ApiKeyId := (uuid_id ApiKeyK).

Definition LedgerId_new (value : Z) : BlazerResult LedgerId :=
  if value =? 0 then Err (ValidationError "LedgerId must not be zero")
  else Ok (MkLedgerId value).

Definition LedgerId_value (i : LedgerId) : Z := ledger_value i.

Definition LedgerId_USD := MkLedgerId 1.
Definition LedgerId_EUR := MkLedgerId 2.
Definition LedgerId_GBP := MkLedgerId 3.
Definition LedgerId_JPY := MkLedgerId 4.
Definition LedgerId_VND := MkLedgerId 5.
Definition LedgerId_BTC := MkLedgerId 6.
Definition LedgerId_ETH := MkLedgerId 7.

Definition u64_id_wf {k} (i : u64_id k) : Prop := 0 <= as_u64 i <= u64_max.

Section ids_lemmas.
Context `{UL : UuidLib, ULa : !UuidLaws}.

Lemma as_u128_range u : 0 <= as_u128 u < 2 ^ 128.
Proof.
  pose proof (from_be_bytes_range (uuid_as_bytes u) (uuid_as_bytes_range u)) as Hr.
  rewrite uuid_as_bytes_length in Hr. exact Hr.
Qed.

(** Decimal text round trip of the 64-bit identifiers: [Display] then [FromStr],
    and [Serialize] then [Deserialize]; the UUID fallback of [FromStr] is not
    reached. *)
Lemma u64_id_text_roundtrip {k} (i : u64_id k) :
  u64_id_wf i ->
  u64_from_str (u64_to_string i) = Ok i /\ u64_deserialize (u64_serialize i) = Some i.
Proof.
  intros Hi. destruct i as [v]. unfold u64_from_str, u64_to_string, u64_deserialize, u64_serialize.
  cbn [as_u64]. by rewrite parse_u64_string_of_Z.
Qed.

Lemma uuid_id_text_roundtrip {k} (i : uuid_id k) :
  id_from_str (id_to_string i) = Ok i /\ id_deserialize (id_serialize i) = Some i.
Proof.
  destruct i as [u]. unfold id_from_str, id_to_string, id_deserialize, id_serialize.
  cbn [as_uuid]. by rewrite uuid_parse_to_string.
Qed.
End ids_lemmas.
End ids.
Export ids.

(** ** currency.rs *)
Module currency.
Section currency.
Context `{CL : CurrencyLib}.
Definition parse_currency (c : string) : BlazerResult Currency :=
  match from_code c with
  | Some cur => Ok cur
  | None => Err (InvalidCurrency c)
  end.
End currency.
End currency.

(** ** amount.rs *)
Module amount.
Definition MAX_SCALE : Z := 8.

Section amount.
Context `{DL : DecimalLib, CL : CurrencyLib}.

Record Amount : Type := MkAmount { value : Decimal; currency : Currency }.

(** [PartialEq] of [Amount]: decimals compare by value. *)
Definition amount_eqb (a b : Amount) : bool :=
  dec_eqb (value a) (value b) && bool_decide (currency a = currency b).

Definition new (v : Decimal) (c : Currency) : BlazerResult Amount :=
  if dec_ltb v dec_ZERO then Err NegativeAmount
  else if MAX_SCALE <? scale v then Err (InvalidAmountScale (scale v))
  else if dec_geb v (dec_div dec_MAX dec_TWO) then Err AmountOverflow
  else Ok (MkAmount v c).

Definition zero (c : Currency) : Amount := MkAmount dec_ZERO c.

Definition checked_add (a b : Amount) : BlazerResult Amount :=
  if negb (bool_decide (currency a = currency b))
  then Err (CurrencyMismatch (code (currency a)) (code (currency b)))
  else let? v := ok_or (dec_checked_add (value a) (value b)) AmountOverflow in
       Ok (MkAmount v (currency a)).

Definition checked_sub (a b : Amount) : BlazerResult Amount :=
  if negb (bool_decide (currency a = currency b))
  then Err (CurrencyMismatch (code (currency a)) (code (currency b)))
  else if dec_gtb (value b) (value a)
  then Err (InsufficientFunds (dec_to_string (value a)) (dec_to_string (value b)))
  else let? v := ok_or (dec_checked_sub (value a) (value b)) AmountOverflow in
       Ok (MkAmount v (currency a)).

Definition to_string (a : Amount) : string :=
  dec_to_string (value a) +:+ " " +:+ code (currency a).

(** The two string fields of the serialized struct. *)
Record AmountHelper : Type := MkHelper { h_value : string; h_currency : string }.

Definition serialize (a : Amount) : AmountHelper :=
  MkHelper (dec_to_string (value a)) (code (currency a)).

Inductive DeError := BadDecimal | BadField (e : BlazerError).

Definition deserialize (h : AmountHelper) : Result Amount DeError :=
  let? v := ok_or (dec_from_str (h_value h)) BadDecimal in
  let? c := map_err BadField (currency.parse_currency (h_currency h)) in
  map_err BadField (new v c).

(** The construction invariant: the conditions [new] enforces. *)
Definition wf (a : Amount) : Prop :=
  0 <= raw (value a) /\ scale (value a) <= MAX_SCALE.
Definition guarded (a : Amount) : Prop :=
  wf a /\ raw (value a) < raw (dec_div dec_MAX dec_TWO).
End amount.

Section laws.
Context `{DL : DecimalLib, DLa : !DecimalLaws, CL : CurrencyLib}.

Lemma new_ok_iff v c a :
  new v c = Ok a <-> a = MkAmount v c /\ guarded a.
Proof.
  unfold new, guarded, wf. rewrite dec_ltb_spec, raw_ZERO, dec_geb_spec by apply _.
  destruct (Z.ltb_spec (raw v) 0), (Z.ltb_spec MAX_SCALE (scale v)),
    (Z.leb_spec (raw (dec_div dec_MAX dec_TWO)) (raw v));
    (split; [intros; simplify_eq/=|intros [-> [[? ?] ?]]; simpl in *]); try done; lia.
Qed.

Lemma new_ok v c a : new v c = Ok a -> value a = v /\ currency a = c /\ guarded a.
Proof. intros [-> ?]%new_ok_iff. done. Qed.

(** A value below half of [MAX] leaves an integral gap below it. *)
Lemma guarded_raw_bound a : guarded a -> 2 * raw (value a) <= raw dec_MAX.
Proof.
  intros [[H0 _] Hh]. pose proof dec_half_max as Hr. rewrite raw_MAX in *.
  set (h := dec_div dec_MAX dec_TWO) in *.
  destruct (Z.le_gt_cases (2 ^ 96 * 10 ^ 27) (raw (value a))) as [Hbig|Hsmall].
  - destruct (raw_integral (value a)) as [n En]; [lia|].
    destruct (raw_integral h) as [m Em]; [lia|]. unfold one in *. lia.
  - unfold one in *. lia.
Qed.

Lemma checked_add_ok a b c :
  checked_add a b = Ok c ->
  currency a = currency b /\ currency c = currency a /\
  dec_checked_add (value a) (value b) = Some (value c).
Proof.
  unfold checked_add. case_bool_decide; simpl; [|done].
  destruct (dec_checked_add _ _); simpl; [|done]. by intros [= <-].
Qed.

Lemma checked_add_wf a b c : wf a -> wf b -> checked_add a b = Ok c -> wf c.
Proof.
  intros [Ha Hsa] [Hb Hsb] (_ & _ & Hc)%checked_add_ok. split.
  - by eapply dec_add_nonneg.
  - apply dec_add_scale in Hc. lia.
Qed.

Lemma checked_sub_ok a b c :
  checked_sub a b = Ok c ->
  currency a = currency b /\ currency c = currency a /\ raw (value b) <= raw (value a) /\
  dec_checked_sub (value a) (value b) = Some (value c).
Proof.
  unfold checked_sub. case_bool_decide; simpl; [|done]. rewrite dec_gtb_spec by apply _.
  case_match eqn:E; [done|]. destruct (dec_checked_sub _ _); simpl; [|done].
  intros [= <-]. bool_to_prop. done.
Qed.

Lemma checked_sub_wf a b c : wf a -> wf b -> checked_sub a b = Ok c -> wf c.
Proof.
  intros [Ha Hsa] [Hb Hsb] (_ & _ & Hle & Hc)%checked_sub_ok. split.
  - by eapply dec_sub_nonneg.
  - apply dec_sub_scale in Hc. lia.
Qed.
End laws.
End amount.
Abbreviation Amount := amount.Amount.

(** ** Properties *)
Section amount_properties.
Context `{DL : DecimalLib, DLa : !DecimalLaws, CL : CurrencyLib, CLa : !CurrencyLaws}.

(** Addition of well-formed amounts is exact while the sum has a 96-bit mantissa at
    eight decimal places. *)
Lemma checked_add_exact (a b : Amount) :
  amount.wf a -> amount.wf b -> amount.currency a = amount.currency b ->
  fits (raw (amount.value a) + raw (amount.value b)) amount.MAX_SCALE ->
  exists c, amount.checked_add a b = Ok c /\ amount.currency c = amount.currency a /\
            raw (amount.value c) = raw (amount.value a) + raw (amount.value b).
Proof.
  intros [Ha Hsa] [Hb Hsb] Hc Hf.
  destruct (dec_add_exact (amount.value a) (amount.value b)) as (v & Ev & Hv).
  { eapply fits_mono; [| |exact Hf]; unfold amount.MAX_SCALE in *;
      pose proof (scale_bound (amount.value a)); lia. }
  exists (amount.MkAmount v (amount.currency a)). unfold amount.checked_add.
  rewrite bool_decide_true by done. simpl. by rewrite Ev.
Qed.

(** Subtraction in the same range is exact, and fails only on insufficient funds. *)
Lemma checked_sub_exact (a b : Amount) :
  amount.wf a -> amount.wf b -> amount.currency a = amount.currency b ->
  fits (raw (amount.value a)) amount.MAX_SCALE ->
  raw (amount.value b) <= raw (amount.value a) ->
  exists c, amount.checked_sub a b = Ok c /\ amount.currency c = amount.currency a /\
            raw (amount.value c) = raw (amount.value a) - raw (amount.value b).
Proof.
  intros [Ha Hsa] [Hb Hsb] Hc Hf Hle.
  destruct (dec_sub_exact (amount.value a) (amount.value b)) as (v & Ev & Hv).
  { eapply (fits_mono _ amount.MAX_SCALE); unfold amount.MAX_SCALE in *;
      [pose proof (scale_bound (amount.value a)); lia|lia|]. unfold fits in *. lia. }
  exists (amount.MkAmount v (amount.currency a)). unfold amount.checked_sub.
  rewrite bool_decide_true by done. simpl. rewrite dec_gtb_spec by apply _.
  rewrite (proj2 (Z.ltb_ge _ _) Hle). by rewrite Ev.
Qed.

Lemma amount_add_headroom_aux (a b : Amount) :
  amount.guarded a -> amount.guarded b -> amount.currency a = amount.currency b ->
  exists c, amount.checked_add a b = Ok c /\ amount.wf c.
Proof.
  intros Ha Hb Hc.
  destruct (dec_add_total (amount.value a) (amount.value b)) as [v Ev].
  { pose proof (amount.guarded_raw_bound a Ha). pose proof (amount.guarded_raw_bound b Hb).
    destruct Ha as [[? _] _], Hb as [[? _] _]. lia. }
  exists (amount.MkAmount v (amount.currency a)).
  assert (amount.checked_add a b = Ok (amount.MkAmount v (amount.currency a))) as E.
  { unfold amount.checked_add. rewrite bool_decide_true by done. simpl. by rewrite Ev. }
  split; [done|]. destruct Ha as [Ha _], Hb as [Hb _]. exact (amount.checked_add_wf _ _ _ Ha Hb E).
Qed.

Lemma raw_eq_of_parts (d d' : Decimal) :
  mantissa d' = mantissa d -> scale d' = scale d -> raw d' = raw d.
Proof. intros Em Es. unfold raw. by rewrite Em, Es. Qed.

Lemma amount_serde_aux (a : Amount) :
  amount.guarded a ->
  exists a', amount.deserialize (amount.serialize a) = Ok a' /\
    mantissa (amount.value a') = mantissa (amount.value a) /\
    scale (amount.value a') = scale (amount.value a) /\
    amount.currency a' = amount.currency a.
Proof.
  intros [[Ha Hs] Hh].
  destruct (dec_to_string_round (amount.value a)) as (d & Ed & Em & Es).
  exists (amount.MkAmount d (amount.currency a)).
  unfold amount.deserialize, amount.serialize, currency.parse_currency. simpl.
  rewrite Ed. simpl. rewrite from_code_code. simpl.
  rewrite (proj2 (amount.new_ok_iff d (amount.currency a) (amount.MkAmount d (amount.currency a)))); [done|].
  split; [done|]. unfold amount.guarded, amount.wf. simpl.
  by rewrite (raw_eq_of_parts _ _ Em Es), Es.
Qed.

(** the overflow guard of [Amount::new] does what its comment says: two amounts
    accepted by the constructor in the same currency can always be added, and the
    sum is again non-negative with at most eight decimal places. *)
Theorem amount_add_headroom (v w : Decimal) (c : Currency) (a b : Amount) :
  amount.new v c = Ok a -> amount.new w c = Ok b ->
  exists s, amount.checked_add a b = Ok s /\ amount.wf s.
Proof.
  intros (_ & Ea & Ga)%amount.new_ok (_ & Eb & Gb)%amount.new_ok.
  apply amount_add_headroom_aux; [done|done|congruence].
Qed.

(** serializing an amount built by the constructor and deserializing the two
    string fields gives back the same mantissa, scale and currency. *)
Theorem amount_serde_roundtrip (v : Decimal) (c : Currency) (a : Amount) :
  amount.new v c = Ok a ->
  exists a', amount.deserialize (amount.serialize a) = Ok a' /\
    mantissa (amount.value a') = mantissa (amount.value a) /\
    scale (amount.value a') = scale (amount.value a) /\
    amount.currency a' = amount.currency a.
Proof. intros (_ & _ & Ga)%amount.new_ok. by apply amount_serde_aux. Qed.
End amount_properties.

(** ** Examples on the concrete decimals *)
Module common_examples.
#[export] Existing Instance dec.lib.
#[export] Existing Instance dec.dec_laws.
#[export] Existing Instance cur.lib.
#[export] Existing Instance cur.cur_laws.
#[export] Existing Instance uid.lib.
#[export] Existing Instance uid.uid_laws.

Definition usd (m s : Z) : Amount (DL := dec.lib) (CL := cur.lib) := amount.MkAmount (dec.mk_or_zero m s) cur.USD.
Definition eur (m s : Z) : Amount (DL := dec.lib) (CL := cur.lib) := amount.MkAmount (dec.mk_or_zero m s) cur.EUR.

Lemma amount_add_headroom_witness :
  exists s, amount.checked_add (usd 10000 2) (usd 5000 2) = Ok s /\ amount.wf s.
Proof.
  apply (amount_add_headroom (DL := dec.lib) (CL := cur.lib) (dec.mk_or_zero 10000 2) (dec.mk_or_zero 5000 2) cur.USD);
    vm_refl.
Defined.

Lemma amount_serde_roundtrip_witness :
  exists a', amount.deserialize (amount.serialize (usd 123456789 8)) = Ok a' /\
    dec.mant (amount.value a') = 123456789 /\ dec.sc (amount.value a') = 8 /\
    amount.currency a' = cur.USD.
Proof.
  apply (amount_serde_roundtrip (DL := dec.lib) (CL := cur.lib) (dec.mk_or_zero 123456789 8) cur.USD (usd 123456789 8)).
  vm_refl.
Defined.

(** the bound documented as an invariant of every [Amount] (below half of
    [MAX]) is not preserved by [checked_add]: the sum of two amounts the constructor
    accepts can be a value the constructor rejects. *)
Theorem amount_sum_escapes_guard :
  let m := 2 ^ 94 in
  amount.new (dec.mk_or_zero m 0) cur.USD = Ok (usd m 0) /\
  exists s, amount.checked_add (usd m 0) (usd m 0) = Ok s /\
    amount.new (amount.value s) (amount.currency s) = Err AmountOverflow.
Proof.
  split; [vm_refl|]. exists (usd (2 ^ 95) 0). split; vm_refl.
Qed.
End common_examples.
