(* ===== verification/Timestamp.v ===== *)
(** * core/common/src/timestamp.rs

    Nanosecond timestamps and their RFC 3339 rendering.  The calendar conversion is
    compared with the Gregorian calendar itself, given as the rule that takes a date
    to the next one. *)

From stdpp Require Import base numbers list strings pretty.
From Stdlib Require Import ZArith Lia.
From S2P Require Import Prelude.

Module timestamp.
Record Timestamp : Type := MkTimestamp { nanos : Z }.

#[global] Instance Timestamp_eq_dec : EqDecision Timestamp.
Proof. solve_decision. Defined.

Definition from_nanos (n : Z) : Timestamp := MkTimestamp n.
Definition as_nanos (t : Timestamp) : Z := nanos t.

(** [now]: the argument is the duration since the epoch in nanoseconds (a [u128]);
    the cast keeps the low 64 bits. *)
Definition now (clock : Z) : Timestamp := MkTimestamp (as_unsigned 64 clock).

Definition elapsed_nanos (clock : Z) (t : Timestamp) : Z :=
  saturating_sub (nanos (now clock)) (nanos t).
Definition elapsed_micros (clock : Z) (t : Timestamp) : Z := elapsed_nanos clock t / 1000.
Definition elapsed_millis (clock : Z) (t : Timestamp) : Z := elapsed_nanos clock t / 1000000.

Record ymd_hms : Type := MkYmd { yr : Z; mo : Z; dy : Z; hh : Z; mi : Z; ss : Z }.

Definition unix_secs_to_ymd_hms (secs : Z) : ymd_hms :=
  let days := secs / 86400 in
  let time_of_day := secs mod 86400 in
  let h := as_unsigned 8 (time_of_day / 3600) in
  let m := as_unsigned 8 (time_of_day mod 3600 / 60) in
  let s := as_unsigned 8 (time_of_day mod 60) in
  let z := as_signed 64 days + 719468 in
  let era := Z.quot (if 0 <=? z then z else z - 146096) 146097 in
  let doe := as_unsigned 64 (z - era * 146097) in
  let yoe := (doe - doe / 1460 + doe / 36524 - doe / 146096) / 365 in
  let y := as_signed 64 yoe + era * 400 in
  let doy := doe - (365 * yoe + yoe / 4 - yoe / 100) in
  let mp := (5 * doy + 2) / 153 in
  let d := as_unsigned 8 (doy - (153 * mp + 2) / 5 + 1) in
  let mo := as_unsigned 8 (if mp <? 10 then mp + 3 else mp - 9) in
  let yr := as_unsigned 32 (if mo <=? 2 then y + 1 else y) in
  MkYmd yr mo d h m s.

(** [{n:0w}]: zero padding to width [w]. *)
Definition pad (w : nat) (n : Z) : string :=
  let s := string_of_Z n in
  String.concat "" (replicate (w - String.length s) "0") +:+ s.

Definition to_string (t : Timestamp) : string :=
  let secs := nanos t / 1000000000 in
  let nanos_part := as_unsigned 32 (nanos t mod 1000000000) in
  let c := unix_secs_to_ymd_hms secs in
  pad 4 (yr c) +:+ "-" +:+ pad 2 (mo c) +:+ "-" +:+ pad 2 (dy c) +:+ "T" +:+
  pad 2 (hh c) +:+ ":" +:+ pad 2 (mi c) +:+ ":" +:+ pad 2 (ss c) +:+ "." +:+
  pad 9 nanos_part +:+ "Z".

(** *** The Gregorian calendar *)

Definition is_leap (y : Z) : bool :=
  (y mod 4 =? 0) && (negb (y mod 100 =? 0) || (y mod 400 =? 0)).

Definition days_in_month (y m : Z) : Z :=
  if m =? 2 then (if is_leap y then 29 else 28)
  else if (m =? 4) || (m =? 6) || (m =? 9) || (m =? 11) then 30 else 31.

Definition date : Type := Z * Z * Z.

Definition next_date (d : date) : date :=
  let '(y, m, d) := d in
  if d <? days_in_month y m then (y, m, d + 1)
  else if m <? 12 then (y, m + 1, 1) else (y + 1, 1, 1).

(** The date of day [n] after 1 January 1970. *)
Fixpoint calendar (n : nat) : date :=
  match n with
  | O => (1970, 1, 1)
  | S n => next_date (calendar n)
  end.

Definition date_of (c : ymd_hms) : date := (yr c, mo c, dy c).

(** *** The conversion on one 400-year era *)

Definition year_of_era (doe : Z) : Z := (doe - doe / 1460 + doe / 36524 - doe / 146096) / 365.

(** Month and day of the day [doy] of a year that starts on 1 March. *)
Definition month_day (doy : Z) : Z * Z :=
  let mp := (5 * doy + 2) / 153 in
  (if mp <? 10 then mp + 3 else mp - 9, doy - (153 * mp + 2) / 5 + 1).

(** Year offset in the era, month and day of the day-of-era [doe]. *)
Definition era_date (doe : Z) : date :=
  let yoe := year_of_era doe in
  let md := month_day (doe - (365 * yoe + yoe / 4 - yoe / 100)) in
  (if md.1 <=? 2 then yoe + 1 else yoe, md.1, md.2).

Definition shift_years (k : Z) (d : date) : date := (d.1.1 + k, d.1.2, d.2).

(** First day of the March-based year [y] of the era, and its length. *)
Definition year_start (y : Z) : Z := 365 * y + y / 4 - y / 100 + y / 400.
Definition year_length (y : Z) : Z := if is_leap (y + 1) then 366 else 365.

Definition all_below (n : nat) (f : Z -> bool) : bool := forallb (fun i => f (Z.of_nat i)) (seq 0 n).

Definition year_ok (y : Z) : bool :=
  (year_of_era (year_start y) =? y) && (year_of_era (year_start (y + 1) - 1) =? y) &&
  (year_start (y + 1) - year_start y =? year_length y).

Definition date_eqb (a b : date) : bool :=
  (a.1.1 =? b.1.1) && (a.1.2 =? b.1.2) && (a.2 =? b.2).

(** One day forward inside a March-based year of either length: year carry, month
    and day. *)
Definition days_in_month_of (leap : bool) (m : Z) : Z :=
  if m =? 2 then (if leap then 29 else 28)
  else if (m =? 4) || (m =? 6) || (m =? 9) || (m =? 11) then 30 else 31.

Definition day_ok (leap : bool) (doy : Z) : bool :=
  let md := month_day doy in
  let last := doy =? (if leap then 365 else 364) in
  let md' := if last then (3, 1) else month_day (doy + 1) in
  let carry := (if md'.1 <=? 2 then 1 else 0) - (if md.1 <=? 2 then 1 else 0) in
  (1 <=? md.1) && (md.1 <=? 12) && (1 <=? md.2) && (md.2 <=? 31) &&
  (if md.2 <? days_in_month_of leap md.1
   then date_eqb (carry, md'.1, md'.2) (0, md.1, md.2 + 1)
   else if md.1 <? 12 then date_eqb (carry + (if last then 1 else 0), md'.1, md'.2) (0, md.1 + 1, 1)
   else date_eqb (carry, md'.1, md'.2) (1, 1, 1)).

Lemma all_below_spec n f x : all_below n f = true -> 0 <= x < Z.of_nat n -> f x = true.
Proof.
  unfold all_below. rewrite forallb_forall. intros H Hx.
  rewrite <- (Z2Nat.id x) by lia. apply H, in_seq. lia.
Qed.

Lemma years_ok : all_below 400 year_ok = true.
Proof. vm_compute. reflexivity. Qed.

Lemma days_ok (leap : bool) : all_below (if leap then 366%nat else 365%nat) (day_ok leap) = true.
Proof. destruct leap; vm_compute; reflexivity. Qed.

Lemma date_eqb_eq a b : date_eqb a b = true -> a = b.
Proof. destruct a as [[]], b as [[]]. unfold date_eqb. simpl. intros. bool_to_prop. by subst. Qed.

Lemma year_of_era_step d : 0 <= d < 146096 -> year_of_era d <= year_of_era (d + 1).
Proof. intros. unfold year_of_era. apply Z.div_le_mono; [lia|]. Z.to_euclidean_division_equations. lia. Qed.

Lemma year_of_era_mono d d' : 0 <= d <= d' -> d' <= 146096 -> year_of_era d <= year_of_era d'.
Proof.
  intros Hd. replace d' with (d + Z.of_nat (Z.to_nat (d' - d))) by lia.
  generalize (Z.to_nat (d' - d)). induction n as [|n IH]; intros Hd'; [rewrite Z.add_0_r; lia|].
  etransitivity; [apply IH; lia|]. rewrite Nat2Z.inj_succ, <- Z.add_1_r, Z.add_assoc.
  apply year_of_era_step. lia.
Qed.

Lemma year_ok_below y :
  0 <= y < 400 ->
  year_start (y + 1) = year_start y + year_length y /\
  0 <= year_start y /\ year_start (y + 1) <= 146097 /\
  forall doe, year_start y <= doe < year_start (y + 1) -> year_of_era doe = y.
Proof.
  intros Hy. pose proof (all_below_spec _ _ y years_ok Hy) as Hok. unfold year_ok in Hok. bool_to_prop.
  assert (0 <= year_start y /\ year_start (y + 1) <= 146097) as [Hs He].
  { unfold year_start. split; Z.to_euclidean_division_equations; lia. }
  split_and!; [lia|done|done|]. intros doe Hd.
  pose proof (year_of_era_mono (year_start y) doe).
  pose proof (year_of_era_mono doe (year_start (y + 1) - 1)). lia.
Qed.

(** Every day of the era lies in the year the conversion computes. *)
Lemma year_of_era_spec doe :
  0 <= doe < 146097 ->
  0 <= year_of_era doe < 400 /\
  year_start (year_of_era doe) <= doe < year_start (year_of_era doe) + year_length (year_of_era doe).
Proof.
  intros Hdoe.
  assert (exists y, 0 <= y < 400 /\ year_start y <= doe < year_start (y + 1)) as (y & Hy & Hd).
  { assert (forall n : nat, doe < year_start (Z.of_nat n) -> exists y, 0 <= y < Z.of_nat n /\
      year_start y <= doe < year_start (y + 1)) as H.
    { induction n as [|n IH]; [intros Hn; change (year_start (Z.of_nat 0)) with 0 in Hn; lia|]. intros Hn.
      destruct (Z.lt_ge_cases doe (year_start (Z.of_nat n))) as [Hl|Hg].
      - destruct (IH Hl) as (y & ? & ?). exists y. split; [lia|done].
      - exists (Z.of_nat n). split; [lia|]. split; [done|]. replace (Z.of_nat n + 1) with (Z.of_nat (S n)) by lia. done. }
    apply (H 400%nat). change (year_start (Z.of_nat 400)) with 146097. lia. }
  destruct (year_ok_below y Hy) as (El & _ & _ & Hu). rewrite (Hu doe Hd). lia.
Qed.

Lemma era_doy doe :
  0 <= doe < 146097 ->
  let y := year_of_era doe in
  doe - (365 * y + y / 4 - y / 100) = doe - year_start y /\
  0 <= doe - year_start y < year_length y.
Proof.
  intros Hdoe y. destruct (year_of_era_spec doe Hdoe) as [Hy Hd]. fold y in Hy, Hd.
  split; [|lia]. unfold year_start. rewrite (Z.div_small y 400) by lia. lia.
Qed.

Lemma day_ok_doe doe :
  0 <= doe < 146097 ->
  day_ok (is_leap (year_of_era doe + 1)) (doe - year_start (year_of_era doe)) = true.
Proof.
  intros Hdoe. destruct (era_doy doe Hdoe) as [_ Hr]. unfold year_length in Hr.
  eapply all_below_spec; [apply days_ok|]. destruct (is_leap _); simpl in *; lia.
Qed.

Lemma era_range doe :
  0 <= doe < 146097 ->
  let '(y, m, d) := era_date doe in 0 <= y <= 400 /\ 1 <= m <= 12 /\ 1 <= d <= 31.
Proof.
  intros Hdoe. pose proof (day_ok_doe doe Hdoe) as Hok. destruct (era_doy doe Hdoe) as [E _].
  destruct (year_of_era_spec doe Hdoe) as [Hy _].
  unfold day_ok in Hok. bool_to_prop. unfold era_date. cbv zeta. rewrite E.
  match goal with H : (if _ then _ else _) = true |- _ => clear H end.
  destruct (_ <=? 2); lia.
Qed.

(** The successor of every day of the era is its calendar successor. *)
Lemma era_step doe :
  0 <= doe < 146097 ->
  next_date (era_date doe) =
  (if doe =? 146096 then shift_years 400 (era_date 0) else era_date (doe + 1)).
Proof.
  intros Hdoe. pose proof (day_ok_doe doe Hdoe) as Hok. destruct (era_doy doe Hdoe) as [E Hr].
  destruct (year_of_era_spec doe Hdoe) as [Hy _].
  set (y := year_of_era doe) in *. set (doy := doe - year_start y) in *.
  assert (Hnext : (if doe =? 146096 then shift_years 400 (era_date 0) else era_date (doe + 1)) =
    let last := doy =? (if is_leap (y + 1) then 365 else 364) in
    let md' := if last then (3, 1) else month_day (doy + 1) in
    (y + (if last then 1 else 0) + (if md'.1 <=? 2 then 1 else 0), md'.1, md'.2)).
  { destruct (Z.eqb_spec doe 146096) as [->|Hne]; [vm_compute; reflexivity|].
    destruct (year_ok_below y Hy) as (El & Hs & He & Hu).
    destruct (era_doy (doe + 1) ltac:(lia)) as [E' _]. cbv zeta. unfold era_date. rewrite E'.
    unfold year_length in *.
    destruct (Z.eqb_spec doy (if is_leap (y + 1) then 365 else 364)) as [Hl|Hl].
    - assert (doe + 1 = year_start (y + 1)) as -> by (destruct (is_leap (y + 1)); lia).
      assert (y + 1 < 400) as Hy1.
      { destruct (decide (y + 1 = 400)) as [E4|]; [|lia]. rewrite E4 in *.
        change (year_start 400) with 146097 in *. destruct (is_leap 400); lia. }
      destruct (year_ok_below (y + 1) ltac:(lia)) as (El1 & _ & _ & ->).
      + rewrite Z.sub_diag. change (month_day 0) with (3, 1). simpl. do 2 f_equal. lia.
      + unfold year_length in El1. destruct (is_leap (y + 1 + 1)); lia.
    - rewrite (Hu (doe + 1)) by (destruct (is_leap (y + 1)); lia).
      replace (doe + 1 - year_start y) with (doy + 1) by lia.
      destruct (_ <=? 2); do 2 f_equal; lia. }
  rewrite Hnext. clear Hnext. unfold era_date. fold y. rewrite E.
  unfold day_ok in Hok. bool_to_prop.
  match goal with H : (if _ then _ else _) = true |- _ => rename H into Hstep end.
  unfold next_date.
  assert (days_in_month (if (month_day doy).1 <=? 2 then y + 1 else y) (month_day doy).1 =
          days_in_month_of (is_leap (y + 1)) (month_day doy).1) as ->.
  { unfold days_in_month, days_in_month_of. destruct (Z.eqb_spec (month_day doy).1 2) as [->|]; done. }
  revert Hstep. cbv zeta.
  destruct (month_day doy) as [m d], (month_day (doy + 1)) as [m' d'].
  unfold date_eqb. destruct (doy =? _); cbn [fst snd] in *;
    (destruct (_ <? days_in_month_of _ _); [|destruct (_ <? 12)]); intros Hq; bool_to_prop;
    repeat match goal with H : context [_ <=? 2] |- _ => revert H end;
    repeat destruct (_ <=? 2); intros;
    repeat match goal with |- (_, _) = (_, _) => f_equal end; lia.
Qed.

Lemma is_leap_shift y k : is_leap (y + 400 * k) = is_leap y.
Proof.
  unfold is_leap.
  replace (y + 400 * k) with (y + (100 * k) * 4) at 1 by lia. rewrite Z.mod_add by lia.
  replace (y + 400 * k) with (y + (4 * k) * 100) at 1 by lia. rewrite Z.mod_add by lia.
  replace (y + 400 * k) with (y + k * 400) by lia. by rewrite Z.mod_add by lia.
Qed.

(** The calendar rule is periodic in 400 years. *)
Lemma next_date_shift k d : next_date (shift_years (400 * k) d) = shift_years (400 * k) (next_date d).
Proof.
  destruct d as [[y m] d]. unfold shift_years, next_date. simpl.
  assert (days_in_month (y + 400 * k) m = days_in_month y m) as ->
    by (unfold days_in_month; by rewrite is_leap_shift).
  repeat case_match; simpl; do 2 f_equal; lia.
Qed.

Definition max_days : Z := 2 ^ 64 / 1000000000 / 86400.

(** The date part of the conversion is the era computation, with no truncation on
    the days a 64-bit nanosecond counter can reach. *)
Lemma unix_date_era secs :
  0 <= secs / 86400 <= max_days ->
  let z := secs / 86400 + 719468 in
  date_of (unix_secs_to_ymd_hms secs) = shift_years (400 * (z / 146097)) (era_date (z mod 146097)).
Proof.
  intros Hd z. unfold unix_secs_to_ymd_hms, date_of. cbn [yr mo dy].
  assert (Hmax : max_days = 213503) by reflexivity.
  rewrite as_signed_id by lia. fold z.
  rewrite (proj2 (Z.leb_le 0 z)) by lia.
  rewrite Z.quot_div_nonneg by lia.
  assert (z - z / 146097 * 146097 = z mod 146097) as -> by (rewrite Z.mod_eq; lia).
  pose proof (Z.mod_pos_bound z 146097 ltac:(lia)) as Hdoe.
  rewrite (as_unsigned_id 64) by lia.
  pose proof (era_range (z mod 146097) Hdoe) as Hr.
  unfold era_date, month_day, year_of_era in Hr. unfold era_date, month_day, year_of_era, shift_years.
  set (doe := z mod 146097) in *.
  set (yoe := (doe - doe / 1460 + doe / 36524 - doe / 146096) / 365) in *.
  set (mp := (5 * (doe - (365 * yoe + yoe / 4 - yoe / 100)) + 2) / 153) in *.
  cbn [fst snd] in *. set (m := if mp <? 10 then mp + 3 else mp - 9) in *.
  assert (0 <= z / 146097 <= 10) by (split; [apply Z.div_pos|apply Z.div_le_upper_bound]; lia).
  bool_to_prop.
  assert (-1 <= yoe <= 400) by (destruct (m <=? 2); lia).
  rewrite (as_signed_id 64 yoe) by lia.
  rewrite !(as_unsigned_id 8) by lia.
  rewrite as_unsigned_id by (destruct (m <=? 2); lia).
  destruct (m <=? 2); do 2 f_equal; lia.
Qed.
End timestamp.
Export timestamp.

Section timestamp_properties.

(** Successive days of the conversion are successive calendar dates. *)
Lemma unix_date_step n :
  0 <= n < max_days ->
  date_of (unix_secs_to_ymd_hms ((n + 1) * 86400)) =
  next_date (date_of (unix_secs_to_ymd_hms (n * 86400))).
Proof.
  intros Hn. rewrite !unix_date_era by (rewrite Z.div_mul by lia; lia).
  rewrite !Z.div_mul by lia. rewrite next_date_shift.
  set (z := n + 719468). replace (n + 1 + 719468) with (z + 1) by lia.
  pose proof (Z.mod_pos_bound z 146097 ltac:(lia)) as Hdoe.
  rewrite (era_step _ Hdoe).
  pose proof (Z.div_mod z 146097 ltac:(lia)) as E.
  case_match eqn:Ez; bool_to_prop.
  - assert ((z + 1) / 146097 = z / 146097 + 1) as -> by (symmetry; apply Z.div_unique with 0; lia).
    assert ((z + 1) mod 146097 = 0) as -> by (symmetry; apply Z.mod_unique with (z / 146097 + 1); lia).
    unfold shift_years; simpl. do 2 f_equal. lia.
  - assert ((z + 1) / 146097 = z / 146097) as -> by (symmetry; apply Z.div_unique with (z mod 146097 + 1); lia).
    assert ((z + 1) mod 146097 = z mod 146097 + 1) as ->; [|done].
    symmetry. apply Z.mod_unique with (z / 146097); lia.
Qed.

Lemma unix_date_midnight (n : nat) :
  Z.of_nat n <= max_days ->
  date_of (unix_secs_to_ymd_hms (Z.of_nat n * 86400)) = calendar n.
Proof.
  induction n as [|n IH]; intros Hn; [vm_compute; reflexivity|].
  rewrite Nat2Z.inj_succ, <- Z.add_1_r, unix_date_step by lia. cbn [calendar]. f_equal. apply IH. lia.
Qed.

(** The date depends on the day only. *)
Lemma unix_date_day secs :
  date_of (unix_secs_to_ymd_hms secs) = date_of (unix_secs_to_ymd_hms (secs / 86400 * 86400)).
Proof. unfold unix_secs_to_ymd_hms, date_of. cbn [yr mo dy]. by rewrite Z.div_mul by lia. Qed.

(** C11: for every timestamp (any 64-bit nanosecond count), the calendar conversion
    yields the Gregorian date reached from 1 January 1970 by stepping one day at a
    time, and an hour, minute and second that recompose the time of day. *)
Theorem timestamp_calendar_correct (t : Timestamp) :
  0 <= as_nanos t < 2 ^ 64 ->
  let secs := as_nanos t / 1000000000 in
  let c := unix_secs_to_ymd_hms secs in
  date_of c = calendar (Z.to_nat (secs / 86400)) /\
  0 <= hh c < 24 /\ 0 <= mi c < 60 /\ 0 <= ss c < 60 /\
  hh c * 3600 + mi c * 60 + ss c = secs mod 86400.
Proof.
  intros Ht secs c.
  assert (0 <= secs / 86400 <= max_days) as Hd.
  { split; [apply Z.div_pos; [apply Z.div_pos|]; lia|].
    unfold max_days. do 2 (apply Z.div_le_mono; [lia|]). lia. }
  split.
  - unfold c. rewrite unix_date_day. rewrite <- unix_date_midnight by lia. do 2 f_equal. lia.
  - unfold c, unix_secs_to_ymd_hms. cbn [hh mi ss].
    pose proof (Z.mod_pos_bound secs 86400 ltac:(lia)) as Hs. set (s := secs mod 86400) in *.
    rewrite !as_unsigned_id; Z.to_euclidean_division_equations; lia.
Qed.

Lemma timestamp_calendar_correct_witness :
  to_string (from_nanos 1709210096123456789) = "2024-02-29T12:34:56.123456789Z"%string /\
  date_of (unix_secs_to_ymd_hms 68169600) = calendar 789.
Proof.
  split; [vm_compute; reflexivity|].
  apply (timestamp_calendar_correct (from_nanos 68169600000000000)).
  vm_compute. split; [discriminate|reflexivity].
Defined.
End timestamp_properties.
