(* ===== verification/Ledger.v ===== *)
(** * core/ledger: accounts, transfers, double entry, wire conversion

    The domain model of the ledger crate: [account], [transfer], the double-entry
    rules, the conversion to TigerBeetle's minor units, the operation counters and
    the [LedgerClient] interface every business component is written against. *)

From stdpp Require Import base numbers list gmap strings.
From Stdlib Require Import ZArith Lia.
From S2P Require Import Prelude External ExternalModel Common Timestamp.

(** ** account.rs *)
Module account.
Record AccountFlags : Type := MkAccountFlags {
  debits_must_not_exceed_credits : bool;
  credits_must_not_exceed_debits : bool;
  linked : bool;
}.

Definition default_flags : AccountFlags := MkAccountFlags false false false.

Section account.
Context `{DL : DecimalLib, CL : CurrencyLib}.

Record Account : Type := MkAccount {
  id : AccountId;
  ledger_id : LedgerId;
  currency : Currency;
  code : Z;
  flags : AccountFlags;
  debits_posted : Amount;
  credits_posted : Amount;
  timestamp : Timestamp;
}.

(** [clock] is the reading of the system clock. *)
Definition new (clock : Z) (i : AccountId) (l : LedgerId) (c : Currency) (cd : Z)
    (f : AccountFlags) : Account :=
  MkAccount i l c cd f (amount.zero c) (amount.zero c) (now clock).

Definition balance (a : Account) : BlazerResult Amount :=
  map_err (fun _ => AmountOverflow) (amount.checked_sub (credits_posted a) (debits_posted a)).

Definition can_debit (a : Account) (amt : Amount) : bool :=
  if debits_must_not_exceed_credits (flags a)
  then match balance a with
       | Ok bal => dec_geb (amount.value bal) (amount.value amt)
       | Err _ => false
       end
  else true.

Definition set_debits (a : Account) (d : Amount) : Account :=
  MkAccount (id a) (ledger_id a) (currency a) (code a) (flags a) d (credits_posted a) (timestamp a).
Definition set_credits (a : Account) (c : Amount) : Account :=
  MkAccount (id a) (ledger_id a) (currency a) (code a) (flags a) (debits_posted a) c (timestamp a).

Definition apply_debit (a : Account) (amt : Amount) : BlazerResult Account :=
  let? d := amount.checked_add (debits_posted a) amt in Ok (set_debits a d).
Definition apply_credit (a : Account) (amt : Amount) : BlazerResult Account :=
  let? c := amount.checked_add (credits_posted a) amt in Ok (set_credits a c).

Definition validate (a : Account) : BlazerResult unit :=
  if is_zero (id a) then Err (ValidationError "account id must not be zero")
  else if code a =? 0 then Err (ValidationError "account code must be greater than 0")
  else Ok tt.
End account.
End account.
Abbreviation Account := account.Account.

(** ** transfer.rs *)
Module transfer.
Record TransferFlags : Type := MkTransferFlags {
  linked : bool;
  pending : bool;
  post_pending_transfer : bool;
  void_pending_transfer : bool;
}.

#[global] Instance TransferFlags_eq_dec : EqDecision TransferFlags.
Proof. solve_decision. Defined.

Definition default_flags : TransferFlags := MkTransferFlags false false false false.

Section transfer.
Context `{DL : DecimalLib, CL : CurrencyLib, UL : UuidLib}.

Record Transfer : Type := MkTransfer {
  id : TransferId;
  debit_account_id : AccountId;
  credit_account_id : AccountId;
  amount : Amount;
  ledger_id : LedgerId;
  code : Z;
  flags : TransferFlags;
  pending_id : option TransferId;
  timestamp : Timestamp;
}.

Definition validate (t : Transfer) : BlazerResult unit :=
  if uuid_is_nil (as_uuid (id t))
  then Err (ValidationError "transfer id must not be the nil UUID")
  else if bool_decide (debit_account_id t = credit_account_id t)
  then Err (ValidationError "debit and credit accounts must be different (no self-transfers)")
  else if dec_is_zero (amount.value (amount t))
  then Err (ValidationError "transfer amount must be greater than zero")
  else if 8 <? scale (amount.value (amount t))
  then Err (InvalidAmountScale (scale (amount.value (amount t))))
  else Ok tt.

Definition new_with_flags (clock : Z) (i : TransferId) (d c : AccountId) (amt : Amount)
    (l : LedgerId) (cd : Z) (f : TransferFlags) (p : option TransferId) : BlazerResult Transfer :=
  let t := MkTransfer i d c amt l cd f p (now clock) in
  let? _ := validate t in Ok t.

Definition new (clock : Z) (i : TransferId) (d c : AccountId) (amt : Amount)
    (l : LedgerId) (cd : Z) : BlazerResult Transfer :=
  let t := MkTransfer i d c amt l cd default_flags None (now clock) in
  let? _ := validate t in Ok t.

Definition from_ledger (clock : Z) (i : TransferId) (d c : AccountId) (amt : Amount)
    (l : LedgerId) (cd : Z) (f : TransferFlags) : Transfer :=
  MkTransfer i d c amt l cd f None (now clock).
End transfer.
End transfer.
Abbreviation Transfer := transfer.Transfer.

(** ** double_entry.rs *)
Module double_entry.
Section double_entry.
Context `{DL : DecimalLib, CL : CurrencyLib, UL : UuidLib}.

Definition validate_transfer (t : Transfer) (debit_account credit_account : Account)
    : BlazerResult unit :=
  let amt := transfer.amount t in
  if bool_decide (transfer.debit_account_id t = transfer.credit_account_id t)
  then Err (ValidationError "self-transfer not allowed")
  else if dec_is_zero (amount.value amt)
  then Err (ValidationError "zero amount transfer")
  else if negb (bool_decide (amount.currency amt = account.currency debit_account))
  then Err (CurrencyMismatch (code (account.currency debit_account)) (code (amount.currency amt)))
  else if negb (bool_decide (amount.currency amt = account.currency credit_account))
  then Err (CurrencyMismatch (code (account.currency credit_account)) (code (amount.currency amt)))
  else if negb (account.can_debit debit_account amt)
  then let available := match account.balance debit_account with
                        | Ok b => dec_to_string (amount.value b)
                        | Err _ => "0"%string
                        end in
       Err (InsufficientFunds available (dec_to_string (amount.value amt)))
  else Ok tt.

Definition validate_account (a : Account) : BlazerResult unit := account.validate a.
End double_entry.
End double_entry.

(** ** convert.rs *)
Module convert.
Section convert.
Context `{DL : DecimalLib, CL : CurrencyLib, UL : UuidLib}.

Definition one_of (s : string) (l : list string) : bool := existsb (String.eqb s) l.

Definition currency_scale (c : Currency) : Z :=
  if one_of (code c) ["JPY"; "VND"; "KRW"; "CLP"; "ISK"; "PYG"; "UGX"; "XOF"; "GNF"; "IDR"]
  then 1
  else if one_of (code c) ["BTC"; "XBT"] then 100000000
  else if one_of (code c) ["ETH"] then 1000000000000000000
  else 100.

Definition amount_to_minor_units (a : Amount) : BlazerResult Z :=
  let scale_decimal := dec_from_u64 (currency_scale (amount.currency a)) in
  let? scaled := ok_or (dec_checked_mul (amount.value a) scale_decimal) AmountOverflow in
  if negb (dec_is_zero (dec_fract scaled)) then Err AmountOverflow
  else ok_or (dec_to_u128 scaled) AmountOverflow.

Definition minor_units_to_amount (minor_units : Z) (c : Currency) : BlazerResult Amount :=
  let scale_decimal := dec_from_u64 (currency_scale c) in
  let? minor_decimal := ok_or (dec_from_str (string_of_Z minor_units)) AmountOverflow in
  let? v := ok_or (dec_checked_div minor_decimal scale_decimal) AmountOverflow in
  amount.new v c.

Definition account_id_to_u128 (i : AccountId) : Z := as_u64 i.
Definition u128_to_account_id (r : Z) : AccountId := from_u64 (as_unsigned 64 r).
Definition transfer_id_to_u128 (i : TransferId) : Z := from_be_bytes (uuid_as_bytes (as_uuid i)).
Definition u128_to_transfer_id (r : Z) : TransferId := id_from_bytes (to_be_bytes 16 r).
Definition ledger_id_to_u32 (i : LedgerId) : Z := LedgerId_value i.
Definition transaction_id_to_u128 (i : TransactionId) : Z := as_u64 i.

Definition ledger_code (v : Z) : option string :=
  if v =? 1 then Some "USD"%string
  else if v =? 2 then Some "EUR"%string
  else if v =? 3 then Some "GBP"%string
  else if v =? 4 then Some "JPY"%string
  else if v =? 5 then Some "VND"%string
  else if v =? 6 then Some "BTC"%string
  else if v =? 7 then Some "ETH"%string
  else None.

Definition ledger_id_to_currency (i : LedgerId) : BlazerResult Currency :=
  match ledger_code (LedgerId_value i) with
  | None => Err (ValidationError ("unknown ledger_id: " +:+ string_of_Z (LedgerId_value i)))
  | Some cd => ok_or (from_code cd) (ValidationError ("bad currency code: " +:+ cd))
  end.
End convert.
End convert.

(** ** metrics.rs: thirteen atomic counters, each modulo [2^64]. *)
Module metrics.
Inductive counter :=
  | accounts_created_total | accounts_created_errors
  | account_lookups_total | account_lookups_errors
  | transfers_created_total | transfers_created_errors
  | transfers_batch_total | transfers_batch_partial_failures | transfers_batch_transport_errors
  | transfer_lookups_total | transfer_lookups_errors
  | batch_account_lookups_total | batch_account_lookups_errors.

#[global] Instance counter_eq_dec : EqDecision counter.
Proof. solve_decision. Defined.

Definition LedgerMetrics : Type := counter -> Z.

Definition new : LedgerMetrics := fun _ => 0.

(** [fetch_add(n, Relaxed)] on one counter; every [inc_*] method is an instance. *)
Definition add (k : counter) (n : Z) (m : LedgerMetrics) : LedgerMetrics :=
  fun k' => if bool_decide (k = k') then as_unsigned 64 (m k' + n) else m k'.
Definition inc (k : counter) (m : LedgerMetrics) : LedgerMetrics := add k 1 m.
End metrics.

(** ** client.rs: the ledger interface

    An implementation with state [S] is a record of state-passing operations (the
    methods are [async] with interior mutability).  The law is what the batching
    engine relies on: one result per submitted transfer, in order. *)
Section client.
Context `{DL : DecimalLib, CL : CurrencyLib, UL : UuidLib}.

Class LedgerClient (S : Type) := {
  create_account : Account -> S -> BlazerResult AccountId * S;
  create_transfer : Transfer -> S -> BlazerResult TransferId * S;
  get_account : AccountId -> S -> BlazerResult Account * S;
  get_transfer : TransferId -> S -> BlazerResult Transfer * S;
  create_transfers_batch : list Transfer -> S -> list (BlazerResult TransferId) * S;
  get_account_balances : list AccountId -> S -> BlazerResult (list Account) * S;
}.

Class LedgerClientLaws (S : Type) `{!LedgerClient S} : Prop := {
  batch_length ts s : length (create_transfers_batch ts s).1 = length ts;
  (** A committed slot reports the identifier of the transfer in that slot. *)
  batch_ids ts s i t j :
    ts !! i = Some t -> (create_transfers_batch ts s).1 !! i = Some (Ok j) -> j = transfer.id t;
}.

(** The default method: sequential [create_transfer] calls. *)
Fixpoint default_batch {S : Type} (create : Transfer -> S -> BlazerResult TransferId * S)
    (ts : list Transfer) (s : S) : list (BlazerResult TransferId) * S :=
  match ts with
  | [] => ([], s)
  | t :: ts => let '(r, s1) := create t s in
               let '(rs, s2) := default_batch create ts s1 in
               (r :: rs, s2)
  end.

Lemma default_batch_length {S : Type} create ts (s : S) :
  length (default_batch create ts s).1 = length ts.
Proof.
  revert s. induction ts as [|t ts IH]; intros s; [done|]. simpl.
  destruct (create t s) as [r s1]. specialize (IH s1).
  destruct (default_batch create ts s1). simpl in *. lia.
Qed.

Lemma default_batch_ids {S : Type} create ts (s : S) i t j :
  (forall t s j, (create t s).1 = Ok j -> j = transfer.id t) ->
  ts !! i = Some t -> (default_batch create ts s).1 !! i = Some (Ok j) -> j = transfer.id t.
Proof.
  intros Hc. revert s i. induction ts as [|t' ts IH]; intros s i Ht Hr; [done|]. simpl in Hr.
  destruct (create t' s) as [r s1] eqn:E. specialize (IH s1).
  destruct (default_batch create ts s1) as [rs s2]. destruct i as [|i]; simpl in *.
  - simplify_eq. apply (Hc t s j). by rewrite E.
  - by eapply IH.
Qed.
End client.
Global Arguments LedgerClient {DL CL UL} S.
Global Arguments LedgerClientLaws {DL CL UL} S {_}.

(** ** Lemmas on the domain model *)
Section ledger_lemmas.
Context `{DL : DecimalLib, DLa : !DecimalLaws, CL : CurrencyLib, CLa : !CurrencyLaws, UL : UuidLib, ULa : !UuidLaws}.

Lemma transfer_validate_ok (t : Transfer) :
  transfer.validate t = Ok tt <->
  uuid_is_nil (as_uuid (transfer.id t)) = false /\
  transfer.debit_account_id t <> transfer.credit_account_id t /\
  raw (amount.value (transfer.amount t)) <> 0 /\
  scale (amount.value (transfer.amount t)) <= 8.
Proof.
  unfold transfer.validate. rewrite dec_is_zero_spec.
  destruct (uuid_is_nil _); [naive_solver|].
  case_bool_decide; [naive_solver|].
  destruct (Z.eqb_spec (raw (amount.value (transfer.amount t))) 0); [naive_solver|].
  destruct (Z.ltb_spec 8 (scale (amount.value (transfer.amount t)))); [|naive_solver].
  split; [done|]. intros (_ & _ & _ & ?). lia.
Qed.

(** The only scales of real currencies are 1 and 100. *)
Lemma currency_scale_iso (c : Currency) :
  convert.currency_scale c = 1 \/ convert.currency_scale c = 100.
Proof.
  assert (Hno : Forall (fun s => code c <> s) ["BTC"; "ETH"; "XBT"]%string).
  { eapply Forall_impl; [apply crypto_codes|]. intros s Hs <-. by rewrite from_code_code in Hs. }
  rewrite !Forall_cons in Hno. destruct Hno as (H1 & H2 & H3 & _).
  unfold convert.currency_scale, convert.one_of. cbn [existsb].
  apply String.eqb_neq in H1, H2, H3.
  case_match; [by left|]. rewrite H1, H2, H3. simpl. by right.
Qed.

Lemma raw_integer (d : Decimal) n : mantissa d = n -> scale d = 0 -> raw d = n * one.
Proof. intros Em Es. unfold raw. by rewrite Em, Es. Qed.

(** Dividing an integer number of minor units by the currency scale is exact. *)
Lemma minor_units_quotient n c :
  0 <= n < 2 ^ 64 ->
  exists a, convert.minor_units_to_amount n c = Ok a /\ amount.guarded a /\
    amount.currency a = c /\
    raw (amount.value a) * convert.currency_scale c = n * one /\
    scale (amount.value a) <= 2.
Proof.
  intros Hn. destruct (dec_from_str_int n) as (d & Ed & Em & Es); [lia|].
  pose proof (currency_scale_iso c) as Hk. set (k := convert.currency_scale c) in *.
  destruct (dec_from_u64_spec k) as [Ekm Eks]; [lia|].
  assert (exists s, 0 <= s <= 2 /\ 10 ^ (28 - s) * k = one) as (s & Hs & Ek).
  { destruct Hk as [->| ->]; [exists 0|exists 2]; split; done || lia. }
  destruct (dec_div_exact d (dec_from_u64 k) n s) as (q & Eq & Hq & Hsq); try done; try lia.
  { rewrite (raw_integer _ _ Ekm Eks). unfold one. lia. }
  { rewrite (raw_integer _ _ Ekm Eks), (raw_integer _ _ Em Es).
    transitivity (n * (10 ^ (28 - s) * k) * one); [ring|]. by rewrite Ek. }
  pose proof dec_half_max as Hh. rewrite raw_MAX in Hh.
  assert (0 <= raw q < 2 ^ 64 * one) as Hr.
  { rewrite Hq. pose proof (pow10_pos s ltac:(lia)).
    assert (10 ^ (28 - s) <= one) by (unfold one; apply Z.pow_le_mono_r; lia). nia. }
  exists (amount.MkAmount q c).
  assert (amount.guarded (amount.MkAmount q c)) as Hg.
  { unfold amount.guarded, amount.wf, amount.MAX_SCALE, one in *. simpl. lia. }
  split_and!; [|done|done| |simpl; lia].
  - unfold convert.minor_units_to_amount. rewrite Ed. simpl. fold k. rewrite Eq. simpl.
    by apply amount.new_ok_iff.
  - cbn [amount.value]. rewrite Hq. fold k. rewrite <- Z.mul_assoc. by rewrite Ek.
Qed.

Lemma amount_to_minor_units_exact (a : Amount) n :
  0 <= n < 2 ^ 64 ->
  raw (amount.value a) * convert.currency_scale (amount.currency a) = n * one ->
  scale (amount.value a) <= amount.MAX_SCALE ->
  convert.amount_to_minor_units a = Ok n.
Proof.
  unfold amount.MAX_SCALE. intros Hn E Hs. set (k := convert.currency_scale (amount.currency a)) in *.
  pose proof (currency_scale_iso (amount.currency a)) as Hk. fold k in Hk.
  destruct (dec_from_u64_spec k) as [Ekm Eks]; [lia|].
  pose proof (scale_bound (amount.value a)) as Hb.
  assert (mantissa (amount.value a) * k * 10 ^ (28 - scale (amount.value a)) = n * one) as Em
    by (unfold raw in E; lia).
  assert (10 ^ 20 <= 10 ^ (28 - scale (amount.value a))) as Hp by (apply Z.pow_le_mono_r; lia).
  destruct (dec_mul_exact (amount.value a) (dec_from_u64 k)) as (r & Er & Hr).
  - lia.
  - rewrite Ekm. unfold one in *. assert (0 <= mantissa (amount.value a) * k) by nia. nia.
  - rewrite (raw_integer _ _ Ekm Eks) in Hr.
    assert (raw r = n * one) as Hrn by (unfold one in *; nia).
    unfold convert.amount_to_minor_units. fold k. rewrite Er. simpl.
    rewrite dec_is_zero_spec, dec_fract_spec, Hrn, Z.rem_mul by (unfold one; lia). simpl.
    rewrite dec_to_u128_spec, Hrn by (rewrite Hrn; unfold one; lia).
    rewrite Z.div_mul by (unfold one; lia). done.
Qed.

(** C13: a 64-bit amount in minor units survives the trip through the decimal domain
    type for every ISO currency: [minor_units_to_amount] always succeeds and
    [amount_to_minor_units] returns the same integer. *)
Theorem minor_units_roundtrip (n : Z) (c : Currency) :
  0 <= n < 2 ^ 64 ->
  exists a, convert.minor_units_to_amount n c = Ok a /\
            convert.amount_to_minor_units a = Ok n.
Proof.
  intros Hn. destruct (minor_units_quotient n c Hn) as (a & Ea & _ & <- & E & Hs).
  exists a. split; [done|]. apply amount_to_minor_units_exact; unfold amount.MAX_SCALE; (done || lia).
Qed.

(** identifiers survive the conversion to TigerBeetle's 128-bit integers and back:
    account identifiers by zero extension, transfer identifiers by the big-endian
    reading of their sixteen bytes, which is also onto. *)
Theorem tigerbeetle_id_roundtrip (a : AccountId) (t : TransferId) (r : Z) :
  u64_id_wf a -> 0 <= r < 2 ^ 128 ->
  convert.u128_to_account_id (convert.account_id_to_u128 a) = a /\
  convert.u128_to_transfer_id (convert.transfer_id_to_u128 t) = t /\
  convert.transfer_id_to_u128 (convert.u128_to_transfer_id r) = r.
Proof.
  intros Ha Hr. destruct a as [a], t as [t]. unfold u64_id_wf, u64_max in Ha. cbn [as_u64] in Ha.
  unfold convert.u128_to_account_id, convert.account_id_to_u128, convert.u128_to_transfer_id,
    convert.transfer_id_to_u128, from_u64, id_from_bytes. cbn [as_u64 as_uuid]. split_and!.
  - f_equal. apply as_unsigned_id. lia.
  - f_equal. rewrite to_from_be_bytes, uuid_from_as_bytes;
      [done|apply uuid_as_bytes_length|apply uuid_as_bytes_range].
  - rewrite uuid_as_from_bytes by auto with blz. by apply from_to_be_bytes.
Qed.

(** the ledgers declared for Bitcoin and Ether have no currency: reconstructing an
    amount on them always fails with a validation error. *)
Theorem crypto_ledgers_unusable (l : LedgerId) :
  l = LedgerId_BTC \/ l = LedgerId_ETH ->
  exists msg, convert.ledger_id_to_currency l = Err (ValidationError msg).
Proof.
  pose proof crypto_codes as Hc. rewrite !Forall_cons in Hc. destruct Hc as (Hb & He & _ & _).
  unfold convert.ledger_id_to_currency.
  intros [-> | ->]; simpl; [rewrite Hb|rewrite He]; by eexists.
Qed.
End ledger_lemmas.

Module ledger_examples.
Import common_examples.

Definition tid (n : Z) : TransferId := UuidId (UL := uid.lib) (uid.of_Z n).

Lemma minor_units_roundtrip_witness :
  exists a, convert.minor_units_to_amount 10001 cur.USD = Ok a /\
            convert.amount_to_minor_units a = Ok 10001.
Proof. apply (minor_units_roundtrip (DL := dec.lib) (CL := cur.lib) 10001 cur.USD). lia. Defined.

Lemma tigerbeetle_id_roundtrip_witness :
  convert.u128_to_account_id (convert.account_id_to_u128 (U64Id 42)) = U64Id 42 /\
  convert.u128_to_transfer_id (convert.transfer_id_to_u128 (tid 7)) = tid 7 /\
  convert.transfer_id_to_u128 (convert.u128_to_transfer_id 12345) = 12345.
Proof.
  apply (tigerbeetle_id_roundtrip (UL := uid.lib) (U64Id 42) (tid 7) 12345);
    [unfold u64_id_wf, u64_max; cbn; lia|lia].
Defined.

Lemma crypto_ledgers_unusable_witness :
  exists msg, convert.ledger_id_to_currency LedgerId_BTC = Err (ValidationError msg).
Proof. apply (crypto_ledgers_unusable (CL := cur.lib)). by left. Defined.
End ledger_examples.
