(* ===== verification/InMemory.v ===== *)
(** * core/ledger/mock.rs: the in-memory and the fault-injecting ledger clients

    [mock] translates [InMemoryLedgerClient], [fault] the wrapper
    [FaultInjectingLedgerClient].  [book] is the abstract ledger they are compared
    with: a set of open accounts and an append-only journal of exact entries, from
    which every balance is computed. *)

From stdpp Require Import base numbers list gmap strings.
From Stdlib Require Import ZArith Lia.
From S2P Require Import Prelude External ExternalModel Common Timestamp Ledger.

(** ** InMemoryLedgerClient *)
Module mock.
Section mock.
Context `{DL : DecimalLib, CL : CurrencyLib, UL : UuidLib}.

Record InMemoryLedgerClient : Type := MkClient {
  accounts : gmap AccountId Account;
  transfers : gmap TransferId Transfer;
  unbounded : bool;
  metrics : metrics.LedgerMetrics;
}.

Definition new : InMemoryLedgerClient := MkClient ∅ ∅ false metrics.new.
Definition new_unbounded : InMemoryLedgerClient := MkClient ∅ ∅ true metrics.new.

Definition account_count (s : InMemoryLedgerClient) : nat := size (accounts s).
Definition transfer_count (s : InMemoryLedgerClient) : nat := size (transfers s).

Definition set_accounts (m : gmap AccountId Account) (s : InMemoryLedgerClient) :=
  MkClient m (transfers s) (unbounded s) (metrics s).
Definition set_transfers (m : gmap TransferId Transfer) (s : InMemoryLedgerClient) :=
  MkClient (accounts s) m (unbounded s) (metrics s).
Definition count (k : metrics.counter) (n : Z) (s : InMemoryLedgerClient) :=
  MkClient (accounts s) (transfers s) (unbounded s) (metrics.add k n (metrics s)).
Definition bump (k : metrics.counter) (s : InMemoryLedgerClient) := count k 1 s.

Definition account_not_found (i : AccountId) : BlazerError :=
  NotFound "Account" (u64_to_string i).

Definition create_account (a : Account) (s : InMemoryLedgerClient)
    : BlazerResult AccountId * InMemoryLedgerClient :=
  let i := account.id a in
  match accounts s !! i with
  | Some _ => (Err (Duplicate "Account" (u64_to_string i)), bump metrics.accounts_created_errors s)
  | None => (Ok i, bump metrics.accounts_created_total (set_accounts (<[i := a]> (accounts s)) s))
  end.

(** The two [?] on missing accounts return without touching the error counter; the
    debit is written to the map before the credit is attempted. *)
Definition create_transfer (t : Transfer) (s : InMemoryLedgerClient)
    : BlazerResult TransferId * InMemoryLedgerClient :=
  let debit_id := transfer.debit_account_id t in
  let credit_id := transfer.credit_account_id t in
  let amt := transfer.amount t in
  if unbounded s then (Ok (transfer.id t), bump metrics.transfers_created_total s)
  else
  match accounts s !! debit_id with
  | None => (Err (account_not_found debit_id), s)
  | Some debit_account =>
  match accounts s !! credit_id with
  | None => (Err (account_not_found credit_id), s)
  | Some credit_account =>
  match double_entry.validate_transfer t debit_account credit_account with
  | Err e => (Err e, bump metrics.transfers_created_errors s)
  | Ok _ =>
  match account.apply_debit debit_account amt with
  | Err e => (Err e, bump metrics.transfers_created_errors s)
  | Ok debit_account' =>
  let s1 := set_accounts (<[debit_id := debit_account']> (accounts s)) s in
  match accounts s1 !! credit_id with
  | None => (Err (Internal "credit account vanished under lock"), s1)
  | Some credit_account1 =>
  match account.apply_credit credit_account1 amt with
  | Err e => (Err e, bump metrics.transfers_created_errors s1)
  | Ok credit_account' =>
  let s2 := set_accounts (<[credit_id := credit_account']> (accounts s1)) s1 in
  let s3 := set_transfers (<[transfer.id t := t]> (transfers s2)) s2 in
  (Ok (transfer.id t), bump metrics.transfers_created_total s3)
  end end end end end end.

Definition get_account (i : AccountId) (s : InMemoryLedgerClient)
    : BlazerResult Account * InMemoryLedgerClient :=
  let s := bump metrics.account_lookups_total s in
  let result := ok_or (accounts s !! i) (account_not_found i) in
  (result, if is_err result then bump metrics.account_lookups_errors s else s).

Definition get_transfer (i : TransferId) (s : InMemoryLedgerClient)
    : BlazerResult Transfer * InMemoryLedgerClient :=
  let s := bump metrics.transfer_lookups_total s in
  let result := ok_or (transfers s !! i) (NotFound "Transfer" (id_to_string i)) in
  (result, if is_err result then bump metrics.transfer_lookups_errors s else s).

Definition get_account_balances (l : list AccountId) (s : InMemoryLedgerClient)
    : BlazerResult (list Account) * InMemoryLedgerClient :=
  let s := count metrics.batch_account_lookups_total (Z.of_nat (length l)) s in
  (Ok (omap (fun i => accounts s !! i) l), s).

Global Instance client : LedgerClient InMemoryLedgerClient := {|
  Ledger.create_account := create_account;
  Ledger.create_transfer := create_transfer;
  Ledger.get_account := get_account;
  Ledger.get_transfer := get_transfer;
  Ledger.create_transfers_batch := default_batch create_transfer;
  Ledger.get_account_balances := get_account_balances;
|}.

Lemma create_transfer_id t s j : (create_transfer t s).1 = Ok j -> j = transfer.id t.
Proof. unfold create_transfer. by repeat case_match; simpl; intros [= <-]. Qed.

Global Instance client_laws : LedgerClientLaws InMemoryLedgerClient.
Proof.
  split.
  - intros. apply default_batch_length.
  - intros ts s i t j. apply default_batch_ids. exact create_transfer_id.
Qed.
End mock.
End mock.

(** ** FaultInjectingLedgerClient *)
Module fault.
Section fault.
Context `{DL : DecimalLib, CL : CurrencyLib, UL : UuidLib}.
Context {S : Type} `{LC : !LedgerClient S, LCa : !LedgerClientLaws S}.

Record FaultInjectingLedgerClient : Type := MkFault { inner : S; remaining_faults : Z }.

Definition new (s : S) (fault_count : Z) : FaultInjectingLedgerClient := MkFault s fault_count.

Definition injected : BlazerError := LedgerTransient "injected transient fault for testing".

(** A delegated method. *)
Definition delegate {A} (op : S -> A * S) (f : FaultInjectingLedgerClient)
    : A * FaultInjectingLedgerClient :=
  let '(r, s) := op (inner f) in (r, MkFault s (remaining_faults f)).

Definition create_transfers_batch (ts : list Transfer) (f : FaultInjectingLedgerClient)
    : list (BlazerResult TransferId) * FaultInjectingLedgerClient :=
  if 0 <? remaining_faults f
  then ((fun _ => Err injected) <$> ts, MkFault (inner f) (remaining_faults f - 1))
  else delegate (Ledger.create_transfers_batch ts) f.

Global Instance client : LedgerClient FaultInjectingLedgerClient := {|
  Ledger.create_account a := delegate (Ledger.create_account a);
  Ledger.create_transfer t := delegate (Ledger.create_transfer t);
  Ledger.get_account i := delegate (Ledger.get_account i);
  Ledger.get_transfer i := delegate (Ledger.get_transfer i);
  Ledger.create_transfers_batch := create_transfers_batch;
  Ledger.get_account_balances l := delegate (Ledger.get_account_balances l);
|}.

Global Instance client_laws : LedgerClientLaws FaultInjectingLedgerClient.
Proof using LCa.
  split; cbn; unfold create_transfers_batch, delegate.
  - intros ts f. case_match; simpl; [apply length_fmap|].
    rewrite <- (batch_length ts (inner f)). by destruct (Ledger.create_transfers_batch _ _).
  - intros ts f i t j Ht. case_match; simpl.
    + rewrite list_lookup_fmap, Ht. done.
    + pose proof (batch_ids ts (inner f) i t j Ht).
      by destruct (Ledger.create_transfers_batch _ _).
Qed.
End fault.
Arguments FaultInjectingLedgerClient S : clear implicits.
End fault.

(** ** The abstract ledger

    Accounts are open with a currency and the overdraft constraint; an entry of the
    journal (newest first) moves an exact amount, in units of [10^-28]. *)
Module book.
Section book.
Context `{CL : CurrencyLib}.

Record entry : Type := MkEntry { e_debit : AccountId; e_credit : AccountId; e_amount : Z }.

Record Book : Type := MkBook {
  opened : gmap AccountId (Currency * bool);
  journal : list entry;
}.

Definition empty : Book := MkBook ∅ [].

Definition debits (j : list entry) (i : AccountId) : Z :=
  Zsum_with (fun e => if bool_decide (e_debit e = i) then e_amount e else 0) j.
Definition credits (j : list entry) (i : AccountId) : Z :=
  Zsum_with (fun e => if bool_decide (e_credit e = i) then e_amount e else 0) j.
Definition volume (j : list entry) : Z := Zsum_with e_amount j.

Inductive Reject :=
  | AlreadyOpen | UnknownAccount | SelfTransfer | ZeroAmount | WrongCurrency | NoFunds.

Definition open_account (i : AccountId) (cur : Currency) (constrained : bool) (b : Book)
    : Result Book Reject :=
  if bool_decide (is_Some (opened b !! i)) then Err AlreadyOpen
  else Ok (MkBook (<[i := (cur, constrained)]> (opened b)) (journal b)).

Definition move (d c : AccountId) (amt : Z) (cur : Currency) (b : Book) : Result Book Reject :=
  match opened b !! d, opened b !! c with
  | Some (dcur, constrained), Some (ccur, _) =>
      if bool_decide (d = c) then Err SelfTransfer
      else if amt =? 0 then Err ZeroAmount
      else if negb (bool_decide (cur = dcur)) then Err WrongCurrency
      else if negb (bool_decide (cur = ccur)) then Err WrongCurrency
      else if constrained && negb (debits (journal b) d + amt <=? credits (journal b) d)
      then Err NoFunds
      else Ok (MkBook (opened b) (MkEntry d c amt :: journal b))
  | _, _ => Err UnknownAccount
  end.

Definition entry_wf (o : gmap AccountId (Currency * bool)) (e : entry) : Prop :=
  0 <= e_amount e /\ e_debit e <> e_credit e /\
  exists cur fd fc, o !! e_debit e = Some (cur, fd) /\ o !! e_credit e = Some (cur, fc).

Definition constrained_ok (b : Book) : Prop :=
  forall i cur, opened b !! i = Some (cur, true) -> debits (journal b) i <= credits (journal b) i.

Definition wf (b : Book) : Prop :=
  Forall (entry_wf (opened b)) (journal b) /\ constrained_ok b.

(** The accounts of one currency. *)
Definition accounts_of (cur : Currency) (b : Book) : list AccountId :=
  (filter (fun p => p.2.1 = cur) (map_to_list (opened b))).*1.
End book.

Section book_lemmas.
Context `{CL : CurrencyLib}.

Lemma debits_bound j i :
  Forall (fun e => 0 <= e_amount e) j -> 0 <= debits j i <= volume j.
Proof.
  rewrite Forall_forall. intros H. split.
  - apply Zsum_with_nonneg. intros e He. pose proof (H e He). case_bool_decide; lia.
  - apply Zsum_with_le. intros e He. pose proof (H e He). case_bool_decide; lia.
Qed.

Lemma credits_bound j i :
  Forall (fun e => 0 <= e_amount e) j -> 0 <= credits j i <= volume j.
Proof.
  rewrite Forall_forall. intros H. split.
  - apply Zsum_with_nonneg. intros e He. pose proof (H e He). case_bool_decide; lia.
  - apply Zsum_with_le. intros e He. pose proof (H e He). case_bool_decide; lia.
Qed.

Lemma wf_amounts b : wf b -> Forall (fun e => 0 <= e_amount e) (journal b).
Proof. intros [H _]. eapply Forall_impl; [exact H|]. by intros e [? _]. Qed.

(** No account has a journal entry before it is opened. *)
Lemma wf_fresh b i : wf b -> opened b !! i = None ->
  debits (journal b) i = 0 /\ credits (journal b) i = 0.
Proof.
  intros [H _] Hi. rewrite Forall_forall in H.
  split; apply Zsum_with_zero; intros e He; case_bool_decide as E; try done;
    destruct (H e He) as (_ & _ & cur & fd & fc & Hd & Hc); rewrite E in *; congruence.
Qed.

Lemma move_ok d c amt cur b b' :
  move d c amt cur b = Ok b' ->
  exists fd fc, opened b !! d = Some (cur, fd) /\ opened b !! c = Some (cur, fc) /\
    d <> c /\ amt <> 0 /\
    (fd = true -> debits (journal b) d + amt <= credits (journal b) d) /\
    b' = MkBook (opened b) (MkEntry d c amt :: journal b).
Proof.
  unfold move. intros H. repeat case_match; simplify_eq; bool_to_prop.
  repeat match goal with H : bool_decide _ = _ |- _ => revert H; case_bool_decide; intros end; try done.
  subst. eexists _, _. split_and!; try done.
  intros ->. match goal with H : true && _ = false |- _ => simpl in H end. bool_to_prop. lia.
Qed.

Lemma open_account_wf i cur f b b' : wf b -> open_account i cur f b = Ok b' -> wf b'.
Proof.
  intros Hw. unfold open_account. case_bool_decide as E; [done|]. intros [= <-].
  rewrite <- eq_None_not_Some in E. destruct (wf_fresh b i Hw E) as [Ed Ec].
  destruct Hw as [Hj Hc]. split; simpl.
  - eapply Forall_impl; [exact Hj|]. intros e (H0 & Hne & cu & fd & fc & Hd & Hcr).
    split_and!; [done..|]. exists cu, fd, fc. rewrite !lookup_insert_ne; [done|congruence..].
  - intros k cu Hk. simpl in *. destruct (decide (k = i)) as [->|Hki]; [lia|].
    rewrite lookup_insert_ne in Hk by done. exact (Hc k cu Hk).
Qed.

Lemma move_wf d c amt cur b b' :
  wf b -> 0 <= amt -> move d c amt cur b = Ok b' -> wf b'.
Proof.
  intros [Hj Hc] Hamt (fd & fc & Hd & Hcr & Hne & Hnz & Hf & ->)%move_ok. split; simpl.
  - constructor; [|done]. split_and!; [done..|]. by exists cur, fd, fc.
  - intros k cu Hk. simpl in *. specialize (Hc k cu Hk).
    repeat case_bool_decide; subst; simplify_eq; try lia.
Qed.

Lemma accounts_of_spec cur b i :
  i ∈ accounts_of cur b <-> exists f, opened b !! i = Some (cur, f).
Proof.
  unfold accounts_of. rewrite list_elem_of_fmap. split.
  - intros ([k [cu f]] & -> & [E H]%list_elem_of_filter). simpl in E. subst.
    exists f. by apply elem_of_map_to_list.
  - intros [f H]. exists (i, (cur, f)). split; [done|].
    apply list_elem_of_filter. split; [done|]. by apply elem_of_map_to_list.
Qed.

Lemma accounts_of_NoDup cur b : NoDup (accounts_of cur b).
Proof.
  unfold accounts_of. apply NoDup_fmap_fst.
  - intros i x y [_ Hx]%list_elem_of_filter [_ Hy]%list_elem_of_filter.
    apply elem_of_map_to_list in Hx, Hy. congruence.
  - apply NoDup_filter, NoDup_map_to_list.
Qed.

(** Every entry credits what it debits, within one currency. *)
Lemma balanced cur b : wf b ->
  Zsum_with (fun i => credits (journal b) i - debits (journal b) i) (accounts_of cur b) = 0.
Proof.
  intros [Hj _]. set (l := accounts_of cur b).
  assert (Hl : NoDup l) by apply accounts_of_NoDup.
  assert (Hin : forall i cu f, opened b !! i = Some (cu, f) -> i ∈ l <-> cu = cur).
  { intros i cu f Hi. unfold l. rewrite accounts_of_spec. split.
    - intros [f' Hf']. congruence.
    - intros ->. by exists f. }
  induction (journal b) as [|e j IH]; [by apply Zsum_with_zero|].
  apply Forall_cons in Hj as [(Ha & Hne & cu & fd & fc & Hd & Hc) Hj]. specialize (IH Hj).
  rewrite (Zsum_with_ext _ (fun i =>
    ((if bool_decide (e_credit e = i) then e_amount e else 0)
     + (if bool_decide (e_debit e = i) then - e_amount e else 0))
    + (credits j i - debits j i))).
  2: { intros i _. simpl. repeat case_bool_decide; lia. }
  rewrite !Zsum_with_add. unfold credits, debits in *. rewrite IH, Z.add_0_r.
  pose proof (Hin _ _ _ Hd) as Id. pose proof (Hin _ _ _ Hc) as Ic.
  destruct (decide (cu = cur)) as [E|E].
  - rewrite (Zsum_with_single _ l (e_credit e)), (Zsum_with_single _ l (e_debit e));
      try tauto; rewrite ?bool_decide_true by done; try lia;
      intros; rewrite bool_decide_false by congruence; done.
  - rewrite !Zsum_with_zero; [done| |]; intros i Hi; case_bool_decide; try done; subst; tauto.
Qed.
End book_lemmas.
End book.

(** ** Simulation of the abstract ledger by the in-memory client *)
Section simulation.
Context `{DL : DecimalLib, DLa : !DecimalLaws, CL : CurrencyLib, UL : UuidLib}.

Definition rawa (a : Amount) : Z := raw (amount.value a).

(** The account stored under [i] agrees with the journal. *)
Record acct_rel (j : list book.entry) (i : AccountId) (a : Account) (p : Currency * bool) : Prop := {
  ar_cur : account.currency a = p.1;
  ar_flag : account.debits_must_not_exceed_credits (account.flags a) = p.2;
  ar_dwf : amount.wf (account.debits_posted a);
  ar_cwf : amount.wf (account.credits_posted a);
  ar_dcur : amount.currency (account.debits_posted a) = p.1;
  ar_ccur : amount.currency (account.credits_posted a) = p.1;
  ar_d : rawa (account.debits_posted a) = book.debits j i;
  ar_c : rawa (account.credits_posted a) = book.credits j i;
}.

Definition Sim (s : mock.InMemoryLedgerClient) (b : book.Book) : Prop :=
  mock.unbounded s = false /\
  forall i, option_Forall2 (acct_rel (book.journal b) i) (mock.accounts s !! i) (book.opened b !! i).

(** Which error of the client stands for which rejection of the book. *)
Definition rejects (r : book.Reject) (e : BlazerError) : Prop :=
  match r, e with
  | book.AlreadyOpen, Duplicate _ _ | book.UnknownAccount, NotFound _ _
  | book.SelfTransfer, ValidationError _ | book.ZeroAmount, ValidationError _
  | book.WrongCurrency, CurrencyMismatch _ _ | book.NoFunds, InsufficientFunds _ _ => True
  | _, _ => False
  end.

Lemma wf_zero (c : Currency) : amount.wf (amount.zero c) /\ rawa (amount.zero c) = 0.
Proof.
  unfold amount.wf, rawa, amount.MAX_SCALE, amount.zero. cbn [amount.value].
  rewrite raw_ZERO, (proj2 dec_ZERO_spec). lia.
Qed.

Lemma fits_le r r' : 0 <= r <= r' -> fits r' amount.MAX_SCALE -> fits r amount.MAX_SCALE.
Proof. unfold fits. lia. Qed.

(** Exact posting on one side of an account. *)
Lemma post_exact (p amt : Amount) (cur : Currency) v :
  amount.wf p -> amount.wf amt -> amount.currency p = cur -> amount.currency amt = cur ->
  rawa p = v -> fits (v + rawa amt) amount.MAX_SCALE ->
  exists q, amount.checked_add p amt = Ok q /\ amount.wf q /\ amount.currency q = cur /\
            rawa q = v + rawa amt.
Proof.
  intros Hp Ha Ep Ea Ev Hf.
  destruct (checked_add_exact p amt Hp Ha) as (q & Eq & Hc & Hr).
  { congruence. } { unfold rawa in *. by rewrite Ev. }
  exists q. split_and!; [done|exact (amount.checked_add_wf _ _ _ Hp Ha Eq)|congruence|].
  unfold rawa in *. lia.
Qed.

Lemma can_debit_spec j i a p amt :
  acct_rel j i a p -> amount.wf amt -> fits (book.credits j i) amount.MAX_SCALE ->
  account.can_debit a amt =
    negb (p.2 && negb (book.debits j i + rawa amt <=? book.credits j i)).
Proof.
  intros [_ Hf Hd Hc Edc Ecc Ed Ec] [Ha _] Hfit. unfold account.can_debit. rewrite Hf.
  destruct p.2; [simpl|done]. unfold account.balance. fold (rawa amt) in Ha.
  destruct (Z.leb_spec (book.debits j i) (book.credits j i)) as [Hle|Hgt].
  - destruct (checked_sub_exact (account.credits_posted a) (account.debits_posted a))
      as (bal & -> & _ & Hr); [done|done|congruence| | |].
    { fold (rawa (account.credits_posted a)). by rewrite Ec. }
    { fold (rawa (account.credits_posted a)) (rawa (account.debits_posted a)). lia. }
    simpl. rewrite dec_geb_spec by apply _. fold (rawa amt). unfold rawa in *. rewrite Hr, Ec, Ed.
    rewrite negb_involutive. apply eq_true_iff_eq. rewrite !Z.leb_le. lia.
  - unfold amount.checked_sub. rewrite bool_decide_true by congruence. simpl.
    rewrite dec_gtb_spec by apply _. unfold rawa in *. rewrite Ec, Ed.
    rewrite (proj2 (Z.ltb_lt _ _)) by lia. simpl.
    symmetry. rewrite negb_involutive. apply Z.leb_gt. lia.
Qed.

(** An entry between other accounts does not concern this one. *)
Lemma acct_rel_other j e i a p :
  acct_rel j i a p -> i <> book.e_debit e -> i <> book.e_credit e -> acct_rel (e :: j) i a p.
Proof.
  intros [] Hd Hc. split; try done; simpl; rewrite bool_decide_false by congruence; lia.
Qed.

Lemma acct_rel_debit j d c v a p q :
  acct_rel j d a p -> d <> c -> amount.wf q -> amount.currency q = p.1 ->
  rawa q = book.debits j d + v ->
  acct_rel (book.MkEntry d c v :: j) d (account.set_debits a q) p.
Proof.
  intros [] Hne Hw Hc Hr. split; try done; simpl.
  - rewrite bool_decide_true by done. lia.
  - rewrite bool_decide_false by congruence. lia.
Qed.

Lemma acct_rel_credit j d c v a p q :
  acct_rel j c a p -> d <> c -> amount.wf q -> amount.currency q = p.1 ->
  rawa q = book.credits j c + v ->
  acct_rel (book.MkEntry d c v :: j) c (account.set_credits a q) p.
Proof.
  intros [] Hne Hw Hc Hr. split; try done; simpl.
  - rewrite bool_decide_false by congruence. lia.
  - rewrite bool_decide_true by done. lia.
Qed.

Definition book_transfer (t : Transfer) (b : book.Book) : Result book.Book book.Reject :=
  book.move (transfer.debit_account_id t) (transfer.credit_account_id t)
    (rawa (transfer.amount t)) (amount.currency (transfer.amount t)) b.

(** The double-entry checks agree with the guards of the book. *)
Lemma validate_transfer_spec j t da ca pd pc :
  acct_rel j (transfer.debit_account_id t) da pd ->
  acct_rel j (transfer.credit_account_id t) ca pc ->
  amount.wf (transfer.amount t) ->
  fits (book.credits j (transfer.debit_account_id t)) amount.MAX_SCALE ->
  forall o, o !! transfer.debit_account_id t = Some pd -> o !! transfer.credit_account_id t = Some pc ->
  match book_transfer t (book.MkBook o j) with
  | Ok _ => double_entry.validate_transfer t da ca = Ok tt
  | Err r => exists e, double_entry.validate_transfer t da ca = Err e /\ rejects r e
  end.
Proof.
  intros Hd Hc Ha Hf o Ho Hoc.
  unfold book_transfer, book.move, double_entry.validate_transfer. simpl. rewrite Ho, Hoc.
  rewrite (can_debit_spec j _ da pd _ Hd Ha Hf), (ar_cur _ _ _ _ Hd), (ar_cur _ _ _ _ Hc).
  rewrite dec_is_zero_spec. fold (rawa (transfer.amount t)).
  destruct pd as [dcur dc], pc as [ccur cc]. simpl.
  case_bool_decide; [by eexists|]. destruct (rawa _ =? 0); [by eexists|].
  case_bool_decide; simpl; [|by eexists]. case_bool_decide; simpl; [|by eexists].
  rewrite negb_involutive. destruct (dc && _); [by eexists|done].
Qed.

(** One transfer: the client accepts it exactly when the book does, a rejection
    carries the matching error, and no account or transfer changes then. *)
Lemma create_transfer_sim (t : Transfer) s b :
  Sim s b -> book.wf b -> amount.wf (transfer.amount t) ->
  fits (book.volume (book.journal b) + rawa (transfer.amount t)) amount.MAX_SCALE ->
  match book_transfer t b with
  | Ok b' => exists s', mock.create_transfer t s = (Ok (transfer.id t), s') /\ Sim s' b' /\
               mock.transfers s' = <[transfer.id t := t]> (mock.transfers s)
  | Err r => exists e s', mock.create_transfer t s = (Err e, s') /\ rejects r e /\ Sim s' b /\
               mock.accounts s' = mock.accounts s /\ mock.transfers s' = mock.transfers s
  end.
Proof.
  intros Hsim Hw Ha Hfit. destruct b as [o j]. destruct Hsim as [Hu Hacc]. simpl in *.
  pose proof (book.wf_amounts _ Hw) as Hpos. simpl in Hpos.
  set (d := transfer.debit_account_id t). set (c := transfer.credit_account_id t).
  pose proof (book.debits_bound j d Hpos). pose proof (book.credits_bound j d Hpos).
  pose proof (book.credits_bound j c Hpos).
  assert (0 <= rawa (transfer.amount t)) by apply Ha.
  unfold mock.create_transfer. rewrite Hu. fold d c.
  pose proof (Hacc d) as Hd. pose proof (Hacc c) as Hc.
  destruct (mock.accounts s !! d) as [da|] eqn:Eda.
  2: { inversion Hd as [|Hn]. unfold book_transfer, book.move. simpl. fold d.
       replace (o !! d) with (@None (Currency * bool)). eexists _, s. by split_and!. }
  inversion Hd as [? pd Rd Edd Eod|]. subst.
  destruct (mock.accounts s !! c) as [ca|] eqn:Eca.
  2: { inversion Hc as [|Hn]. unfold book_transfer, book.move. simpl. fold d c.
       rewrite <- Eod. replace (o !! c) with (@None (Currency * bool)). destruct pd.
       eexists _, s. by split_and!. }
  inversion Hc as [? pc Rc Ecc Eoc|]. subst.
  pose proof (validate_transfer_spec j t da ca pd pc Rd Rc Ha ltac:(eapply fits_le; [|exact Hfit]; fold d; lia)
    o (eq_sym Eod) (eq_sym Eoc)) as Hv.
  destruct (book_transfer t _) as [b'|r] eqn:Ebt.
  2: { destruct Hv as (e & -> & Hre). eexists e, _. by split_and!. }
  rewrite Hv. apply book.move_ok in Ebt as (fd & fc & Hod & Hoc & Hne & Hnz & Hfunds & ->).
  simpl in *. fold d in Hod, Hfunds, Hne. fold c in Hoc, Hne.
  assert (pd = (amount.currency (transfer.amount t), fd)) as -> by congruence.
  assert (pc = (amount.currency (transfer.amount t), fc)) as -> by congruence.
  destruct (post_exact _ (transfer.amount t) _ _ (ar_dwf _ _ _ _ Rd) Ha (ar_dcur _ _ _ _ Rd) eq_refl
    (ar_d _ _ _ _ Rd)) as (qd & Eqd & Wqd & Cqd & Rqd); [eapply fits_le; [|exact Hfit]; lia|].
  destruct (post_exact _ (transfer.amount t) _ _ (ar_cwf _ _ _ _ Rc) Ha (ar_ccur _ _ _ _ Rc) eq_refl
    (ar_c _ _ _ _ Rc)) as (qc & Eqc & Wqc & Cqc & Rqc); [eapply fits_le; [|exact Hfit]; lia|].
  unfold account.apply_debit at 1. rewrite Eqd. simpl. rewrite lookup_insert_ne, Eca by done.
  unfold account.apply_credit. rewrite Eqc. simpl. eexists _. split_and!; [done| |done].
  split; [done|]. intros i. simpl.
  destruct (decide (i = c)) as [->|Hic].
  { rewrite lookup_insert_eq, Hoc. constructor. by apply acct_rel_credit. }
  rewrite lookup_insert_ne by done. destruct (decide (i = d)) as [->|Hid].
  { rewrite lookup_insert_eq, Hod. constructor. by apply acct_rel_debit. }
  rewrite lookup_insert_ne by done. specialize (Hacc i).
  destruct Hacc as [a p Hr|]; constructor. by apply acct_rel_other.
Qed.
End simulation.

(** ** Sequences of operations *)
Section traces.
Context `{DL : DecimalLib, CL : CurrencyLib, UL : UuidLib}.

(** The state-changing calls of a client: an account built by [Account::new], or a
    transfer. *)
Inductive Op :=
  | OpenAccount (clock : Z) (i : AccountId) (l : LedgerId) (c : Currency) (cd : Z)
      (f : account.AccountFlags)
  | Submit (t : Transfer).

Definition run_op {S} `{!LedgerClient S} (op : Op) (s : S) : bool * S :=
  match op with
  | OpenAccount clock i l c cd f =>
      let '(r, s) := create_account (account.new clock i l c cd f) s in (is_ok r, s)
  | Submit t => let '(r, s) := create_transfer t s in (is_ok r, s)
  end.

Fixpoint run_ops {S} `{!LedgerClient S} (ops : list Op) (s : S) : list bool * S :=
  match ops with
  | [] => ([], s)
  | op :: ops => let '(r, s) := run_op op s in
                 let '(rs, s) := run_ops ops s in (r :: rs, s)
  end.

Definition book_op (op : Op) (b : book.Book) : bool * book.Book :=
  let r := match op with
           | OpenAccount _ i _ c _ f =>
               book.open_account i c (account.debits_must_not_exceed_credits f) b
           | Submit t => book_transfer t b
           end in
  match r with Ok b' => (true, b') | Err _ => (false, b) end.

Fixpoint book_ops (ops : list Op) (b : book.Book) : list bool * book.Book :=
  match ops with
  | [] => ([], b)
  | op :: ops => let '(r, b) := book_op op b in
                 let '(rs, b) := book_ops ops b in (r :: rs, b)
  end.

Definition op_wf (op : Op) : Prop :=
  match op with Submit t => amount.wf (transfer.amount t) | _ => True end.
Definition op_volume (op : Op) : Z :=
  match op with Submit t => rawa (transfer.amount t) | _ => 0 end.

(** The amounts submitted in total leave room for exact sums at eight decimals. *)
Definition room (ops : list Op) : Prop :=
  Forall op_wf ops /\ fits (Zsum_with op_volume ops) amount.MAX_SCALE.

(** Credits minus debits over the accounts of one currency. *)
Definition net (cur : Currency) (s : mock.InMemoryLedgerClient) : Z :=
  Zsum_with (fun p => rawa (account.credits_posted p.2) - rawa (account.debits_posted p.2))
    (filter (fun p : AccountId * Account => account.currency p.2 = cur)
            (map_to_list (mock.accounts s))).
End traces.

Section trace_lemmas.
Context `{DL : DecimalLib, DLa : !DecimalLaws, CL : CurrencyLib, UL : UuidLib}.

Lemma Sim_new : Sim mock.new book.empty.
Proof. split; [done|]. intros i. simpl. rewrite !lookup_empty. constructor. Qed.

Lemma create_account_sim clock i l c cd f s b :
  Sim s b -> book.wf b ->
  match book.open_account i c (account.debits_must_not_exceed_credits f) b with
  | Ok b' => exists s', mock.create_account (account.new clock i l c cd f) s = (Ok i, s') /\ Sim s' b'
  | Err r => exists e s', mock.create_account (account.new clock i l c cd f) s = (Err e, s') /\
               rejects r e /\ Sim s' b
  end.
Proof.
  intros [Hu Hacc] Hw. pose proof (Hacc i) as Hi. unfold book.open_account, mock.create_account. simpl.
  destruct (book.opened b !! i) eqn:Eb; inversion Hi as [? ? ? Es|]; subst.
  - rewrite bool_decide_true by done. eexists _, _. by split_and!.
  - rewrite bool_decide_false by (rewrite <- eq_None_not_Some; done). eexists. split; [done|].
    destruct (book.wf_fresh b i Hw Eb) as [Ed Ec]. destruct (wf_zero c) as [Wz Rz].
    split; [done|]. intros k. simpl. destruct (decide (k = i)) as [->|Hk].
    + rewrite !lookup_insert_eq. constructor. split; try done; simpl; lia.
    + by rewrite !lookup_insert_ne.
Qed.

Lemma op_sim op s b :
  Sim s b -> book.wf b -> op_wf op ->
  fits (book.volume (book.journal b) + op_volume op) amount.MAX_SCALE ->
  exists s', run_op op s = ((book_op op b).1, s') /\ Sim s' (book_op op b).2 /\
    book.wf (book_op op b).2 /\
    book.volume (book.journal (book_op op b).2) <= book.volume (book.journal b) + op_volume op.
Proof.
  intros Hs Hw Ho Hf. destruct op as [clock i l c cd f|t]; unfold run_op, book_op; simpl in *.
  - pose proof (create_account_sim clock i l c cd f s b Hs Hw) as H.
    destruct (book.open_account _ _ _ _) as [b'|r] eqn:E; simpl.
    + destruct H as (s' & -> & Hs'). exists s'. split_and!; [done..| |].
      * by eapply book.open_account_wf.
      * unfold book.open_account in E. case_bool_decide; simplify_eq. simpl. lia.
    + destruct H as (e & s' & -> & _ & Hs'). exists s'. split_and!; try done. lia.
  - pose proof (create_transfer_sim t s b Hs Hw Ho Hf) as H.
    assert (0 <= rawa (transfer.amount t)) by apply Ho.
    destruct (book_transfer t b) as [b'|r] eqn:E; simpl.
    + destruct H as (s' & -> & Hs' & _). exists s'. split_and!; [done..| |].
      * by eapply book.move_wf.
      * apply book.move_ok in E as (? & ? & _ & _ & _ & _ & _ & ->). simpl. lia.
    + destruct H as (e & s' & -> & _ & Hs' & _). exists s'. split_and!; try done. lia.
Qed.

Lemma ops_sim ops s b :
  Sim s b -> book.wf b -> Forall op_wf ops ->
  fits (book.volume (book.journal b) + Zsum_with op_volume ops) amount.MAX_SCALE ->
  exists s', run_ops ops s = ((book_ops ops b).1, s') /\ Sim s' (book_ops ops b).2 /\
    book.wf (book_ops ops b).2.
Proof.
  revert s b. induction ops as [|op ops IH]; intros s b Hs Hw Ho Hf; [by exists s|].
  apply Forall_cons in Ho as [Hop Ho]. simpl in Hf.
  assert (0 <= Zsum_with op_volume ops) as Hr.
  { apply Zsum_with_nonneg. rewrite Forall_forall in Ho. intros o Hin. specialize (Ho o Hin).
    destruct o; [done|apply Ho]. }
  assert (0 <= op_volume op) as Hv by (destruct op; [done|apply Hop]).
  assert (0 <= book.volume (book.journal b)) as Hb.
  { apply Zsum_with_nonneg. pose proof (book.wf_amounts b Hw) as H. by rewrite Forall_forall in H. }
  destruct (op_sim op s b Hs Hw Hop) as (s1 & E1 & Hs1 & Hw1 & Hv1).
  { eapply fits_le; [|exact Hf]. lia. }
  simpl. rewrite E1. destruct (book_op op b) as [r b1]. simpl in *.
  destruct (IH s1 b1 Hs1 Hw1 Ho) as (s2 & E2 & Hs2 & Hw2).
  { eapply fits_le; [|exact Hf]. split; [|lia].
    assert (0 <= book.volume (book.journal b1)); [|lia].
    apply Zsum_with_nonneg. pose proof (book.wf_amounts b1 Hw1) as H. by rewrite Forall_forall in H. }
  rewrite E2. destruct (book_ops ops b1) as [rs b2]. by exists s2.
Qed.

(** The final state of a run from the empty ledger. *)
Lemma run_from_new ops :
  room ops -> exists s, run_ops ops mock.new = ((book_ops ops book.empty).1, s) /\
    Sim s (book_ops ops book.empty).2 /\ book.wf (book_ops ops book.empty).2.
Proof.
  intros [Ho Hf]. apply ops_sim; [apply Sim_new| |done|done].
  split; [constructor|]. intros i cur. simpl. by rewrite lookup_empty.
Qed.

Lemma Sim_net cur s b : Sim s b -> book.wf b -> net cur s = 0.
Proof.
  intros [_ Hacc] Hw. rewrite <- (book.balanced cur b Hw). unfold net.
  set (l := filter _ _).
  assert (Hl : forall i a, (i, a) ∈ l <-> mock.accounts s !! i = Some a /\ account.currency a = cur).
  { intros i a. unfold l. rewrite list_elem_of_filter, elem_of_map_to_list. simpl. tauto. }
  transitivity (Zsum_with (fun i => book.credits (book.journal b) i - book.debits (book.journal b) i) l.*1).
  - rewrite Zsum_with_fmap. apply Zsum_with_ext. intros [i a] [Hi _]%Hl. specialize (Hacc i).
    rewrite Hi in Hacc. inversion Hacc as [? p Hr|]; subst. simpl. by rewrite (ar_d _ _ _ _ Hr), (ar_c _ _ _ _ Hr).
  - apply Zsum_with_perm, NoDup_Permutation; [|apply book.accounts_of_NoDup|].
    { apply NoDup_fmap_fst.
      - intros i x y [Hx _]%Hl [Hy _]%Hl. congruence.
      - apply NoDup_filter, NoDup_map_to_list. }
    intros i. rewrite list_elem_of_fmap, book.accounts_of_spec. specialize (Hacc i). split.
    + intros ([k a] & -> & [Hi Hc]%Hl). simpl in Hacc. rewrite Hi in Hacc.
      inversion Hacc as [? [cu f] Hr|]; subst. exists f. by rewrite (ar_cur _ _ _ _ Hr).
    + intros [f Hf]. rewrite Hf in Hacc. inversion Hacc as [a ? Hr Ha|]; subst.
      exists (i, a). split; [done|]. apply Hl. split; [done|]. exact (ar_cur _ _ _ _ Hr).
Qed.

(** C1: the in-memory ledger refines the abstract book, as long as the amounts submitted
    are well formed and their total is below 2^96 units of the eighth decimal ([room]): any
    such sequence of account openings and transfer submissions from the empty ledger is
    accepted and rejected exactly as the book does, and at the end every stored balance
    equals the sum of the journal entries.  Beyond that total it is false
    ([failed_credit_keeps_debit]). *)
Theorem inmemory_refines_book (ops : list Op) :
  room ops ->
  exists s, run_ops ops mock.new = ((book_ops ops book.empty).1, s) /\
            Sim s (book_ops ops book.empty).2.
Proof. intros H. destruct (run_from_new ops H) as (s & E & Hs & _). by exists s. Qed.

(** C6: money is conserved: after any sequence of operations, rejected ones included, whose
    amounts are well formed and sum to less than 2^96 units of the eighth decimal ([room]),
    the credits posted in each currency equal the debits posted in it.  Beyond that total a
    failed credit leaves its debit posted ([failed_credit_keeps_debit]). *)
Theorem inmemory_conservation (ops : list Op) (cur : Currency) :
  room ops -> net cur (run_ops ops mock.new).2 = 0.
Proof.
  intros H. destruct (run_from_new ops H) as (s & -> & Hs & Hw). by eapply Sim_net.
Qed.

(** C9: an account opened with [debits_must_not_exceed_credits] never has more debits
    than credits posted, whatever operations are submitted to the ledger, as long as their
    amounts are well formed and sum to less than 2^96 units of the eighth decimal
    ([room]). *)
Theorem inmemory_no_overdraft (ops : list Op) (i : AccountId) (a : Account) :
  room ops ->
  mock.accounts (run_ops ops mock.new).2 !! i = Some a ->
  account.debits_must_not_exceed_credits (account.flags a) = true ->
  rawa (account.debits_posted a) <= rawa (account.credits_posted a).
Proof.
  intros H. destruct (run_from_new ops H) as (s & -> & [_ Hacc] & [_ Hc]). simpl. intros Ha Hf.
  specialize (Hacc i). rewrite Ha in Hacc. inversion Hacc as [? [cu f] Hr Ea Eo|]; subst.
  rewrite (ar_d _ _ _ _ Hr), (ar_c _ _ _ _ Hr). rewrite (ar_flag _ _ _ _ Hr) in Hf. simpl in Hf. subst f.
  by apply (Hc i cu).
Qed.

(** one submitted transfer, on every branch: the client accepts it exactly when both
    accounts exist and differ, the amount is non-zero, the currencies agree and a
    constrained account has the funds; acceptance stores the transfer and moves the
    exact amount; rejection carries the error of its cause and changes no balance. *)
Theorem inmemory_transfer_step (t : Transfer) s b :
  Sim s b -> book.wf b -> amount.wf (transfer.amount t) ->
  fits (book.volume (book.journal b) + rawa (transfer.amount t)) amount.MAX_SCALE ->
  match book_transfer t b with
  | Ok b' => exists s', mock.create_transfer t s = (Ok (transfer.id t), s') /\ Sim s' b' /\
               (mock.get_transfer (transfer.id t) s').1 = Ok t
  | Err r => exists e s', mock.create_transfer t s = (Err e, s') /\ rejects r e /\
               mock.accounts s' = mock.accounts s /\ mock.transfers s' = mock.transfers s
  end.
Proof.
  intros Hs Hw Ha Hf. pose proof (create_transfer_sim t s b Hs Hw Ha Hf) as H.
  destruct (book_transfer t b) as [b'|r].
  - destruct H as (s' & E & Hs' & Ht). exists s'. split_and!; [done..|].
    unfold mock.get_transfer. simpl. by rewrite Ht, lookup_insert_eq.
  - destruct H as (e & s' & E & Hr & _ & Hacc & Ht). by exists e, s'.
Qed.
End trace_lemmas.

Module inmemory_examples.
Import common_examples ledger_examples.

Lemma usd_raw m s : 0 <= m < 2 ^ 96 -> 0 <= s <= 8 ->
  amount.wf (usd m s) /\ rawa (usd m s) = m * 10 ^ (28 - s).
Proof.
  intros Hm Hs. unfold usd, dec.mk_or_zero, dec.mk.
  assert (dec.valid (m, s) = true) as Hv.
  { unfold dec.valid. cbn [fst snd]. rewrite Z.abs_eq by lia.
    rewrite !andb_true_iff, Z.ltb_lt, !Z.leb_le. lia. }
  destruct (decide _) as [H|]; [|done].
  assert (rawa (amount.MkAmount (exist _ (m, s) H : Decimal (DecimalLib := dec.lib)) cur.USD)
    = m * 10 ^ (28 - s)) as E by done.
  unfold amount.wf. split; [|done]. split; [|change (s <= 8); lia].
  unfold rawa in E. rewrite E. pose proof (pow10_pos s). nia.
Qed.

Definition acc (n : Z) : AccountId := U64Id n.
Definition constrained := account.MkAccountFlags true false false.
Definition open_usd (n : Z) (f : account.AccountFlags) : Op :=
  OpenAccount 0 (acc n) LedgerId_USD cur.USD 1 f.
Definition pay_flags (f : transfer.TransferFlags) (n d c m s : Z) : Transfer :=
  transfer.MkTransfer (tid n) (acc d) (acc c) (usd m s) LedgerId_USD 1 f None (now 0).
Definition pay := pay_flags transfer.default_flags.

Definition demo : list Op :=
  [open_usd 1 account.default_flags; open_usd 2 constrained;
   Submit (pay 10 1 2 10000 2); Submit (pay 11 2 1 3000 2); Submit (pay 12 2 1 10000 2)].

Lemma demo_room : room demo.
Proof.
  destruct (usd_raw 10000 2 ltac:(lia) ltac:(lia)) as [W1 R1], (usd_raw 3000 2 ltac:(lia) ltac:(lia)) as [W2 R2].
  split; [by repeat constructor|]. unfold fits, demo. cbn [Zsum_with foldr op_volume pay pay_flags transfer.amount open_usd].
  rewrite R1, R2. unfold amount.MAX_SCALE. vm_compute. done.
Qed.

(** The third transfer exceeds the funds of the constrained account. *)
Lemma inmemory_refines_book_witness :
  (book_ops demo book.empty).1 = [true; true; true; true; false] /\
  exists s, run_ops demo mock.new = ((book_ops demo book.empty).1, s) /\
            Sim s (book_ops demo book.empty).2.
Proof.
  split; [vm_refl|].
  apply (inmemory_refines_book (DL := dec.lib) (CL := cur.lib) (UL := uid.lib) demo), demo_room.
Defined.

Lemma inmemory_conservation_witness : net cur.USD (run_ops demo mock.new).2 = 0.
Proof.
  apply (inmemory_conservation (DL := dec.lib) (CL := cur.lib) (UL := uid.lib) demo cur.USD), demo_room.
Defined.

(** The constrained account of a state, with its postings in units of [10^-28]. *)
Definition postings (s : mock.InMemoryLedgerClient (UL := uid.lib)) (n : Z) : option (Z * Z) :=
  (fun a => (rawa (account.debits_posted a), rawa (account.credits_posted a))) <$>
    mock.accounts s !! acc n.

Lemma inmemory_no_overdraft_witness :
  postings (run_ops demo mock.new).2 2 = Some (30 * one, 100 * one) /\
  exists a, mock.accounts (run_ops demo mock.new).2 !! acc 2 = Some a /\
    rawa (account.debits_posted a) <= rawa (account.credits_posted a).
Proof.
  split; [vm_refl|].
  destruct (mock.accounts (run_ops demo mock.new).2 !! acc 2) as [a|] eqn:E.
  - exists a. split; [done|].
    apply (inmemory_no_overdraft (DL := dec.lib) (CL := cur.lib) (UL := uid.lib) demo (acc 2) a demo_room E).
    assert ((fun a => account.debits_must_not_exceed_credits (account.flags a)) <$>
      mock.accounts (run_ops demo mock.new).2 !! acc 2 = Some true) as Hf by vm_refl.
    rewrite E in Hf. by injection Hf.
  - assert (bool_decide (is_Some (mock.accounts (run_ops demo mock.new).2 !! acc 2)) = true) as Hs by vm_refl.
    rewrite E in Hs. discriminate Hs.
Defined.

(** On the empty ledger every transfer is rejected with [NotFound]. *)
Lemma inmemory_transfer_step_witness :
  exists e s', mock.create_transfer (pay 10 1 2 10000 2) mock.new = (Err e, s') /\
    rejects book.UnknownAccount e /\
    mock.accounts s' = ∅ /\ mock.transfers s' = ∅.
Proof.
  apply (inmemory_transfer_step (DL := dec.lib) (CL := cur.lib) (UL := uid.lib)
    (pay 10 1 2 10000 2) mock.new book.empty).
  - apply Sim_new.
  - split; [constructor|]. intros i cur. simpl. by rewrite lookup_empty.
  - apply usd_raw; lia.
  - unfold fits, pay, pay_flags. cbn [transfer.amount]. destruct (usd_raw 10000 2 ltac:(lia) ltac:(lia)) as [_ ->].
    vm_compute. done.
Defined.

Definition big : Z := 2 ^ 94.
Definition overflow_ops : list Op :=
  [open_usd 1 account.default_flags; open_usd 2 account.default_flags; open_usd 3 account.default_flags;
   Submit (pay 11 1 3 big 0); Submit (pay 12 1 3 big 0); Submit (pay 13 1 3 big 0);
   Submit (pay 14 2 3 big 0)].

(** the debit and the credit of a transfer are not atomic.  When the credit overflows,
    [create_transfer] returns [AmountOverflow] but the debit stays posted: the books are
    out of balance by the amount of the failed transfer, and no transfer is recorded. *)
Theorem failed_credit_keeps_debit :
  let outcomes := (run_ops overflow_ops mock.new).1 in
  let s := (run_ops overflow_ops mock.new).2 in
  outcomes = [true; true; true; true; true; true; false] /\
  (mock.create_transfer (pay 14 2 3 big 0) (run_ops (take 6 overflow_ops) mock.new).2).1 = Err AmountOverflow /\
  postings s 2 = Some (big * one, 0) /\ postings s 3 = Some (0, 3 * big * one) /\
  is_err (mock.get_transfer (tid 14) s).1 = true /\
  net cur.USD s = - (big * one).
Proof. cbv zeta. split_and!; vm_refl. Qed.

(** the in-memory ledger does not emulate two rules of the real one: submitting a
    transfer twice under one identifier moves the money twice, and a transfer with the
    [pending] flag is posted at once, and so is the one that is meant to void it. *)
Theorem inmemory_duplicate_and_pending :
  let base := [open_usd 1 account.default_flags; open_usd 2 account.default_flags] in
  let twice := (run_ops (base ++ [Submit (pay 10 1 2 500 2); Submit (pay 10 1 2 500 2)]) mock.new) in
  let reserved := (run_ops (base ++ [Submit (pay_flags (transfer.MkTransferFlags false true false false) 10 1 2 500 2);
                                     Submit (pay_flags (transfer.MkTransferFlags false false false true) 11 1 2 500 2)]) mock.new) in
  twice.1 = [true; true; true; true] /\ postings twice.2 1 = Some (10 * one, 0) /\
  mock.transfer_count twice.2 = 1%nat /\
  reserved.1 = [true; true; true; true] /\ postings reserved.2 1 = Some (10 * one, 0).
Proof. cbv zeta. split_and!; vm_refl. Qed.
End inmemory_examples.
