(* ===== verification/TigerBeetle.v ===== *)
(** * core/ledger/tigerbeetle.rs: the production ledger client

    [TigerBeetleClient] translates domain objects to TigerBeetle's wire records and the
    cluster's answers back.  The client handle of the crate is the parameter
    [TbClient]; everything around it, in particular the bookkeeping of the batched
    commit, is translated here. *)

From stdpp Require Import base numbers list gmap strings.
From Stdlib Require Import ZArith Lia.
From S2P Require Import Prelude External ExternalModel Common Timestamp Ledger InMemory.

Module tigerbeetle.
Section tigerbeetle.
Context `{DL : DecimalLib, CL : CurrencyLib, UL : UuidLib}.

(** *** Conversion helpers *)

Definition domain_transfer_to_tb (t : Transfer) : BlazerResult TbTransfer :=
  let tb_id := convert.transfer_id_to_u128 (transfer.id t) in
  let debit_id := convert.account_id_to_u128 (transfer.debit_account_id t) in
  let credit_id := convert.account_id_to_u128 (transfer.credit_account_id t) in
  let ledger := convert.ledger_id_to_u32 (transfer.ledger_id t) in
  let? amount := convert.amount_to_minor_units (transfer.amount t) in
  let f := transfer.flags t in
  let pending := match transfer.pending_id t with
                 | Some p => convert.transfer_id_to_u128 p
                 | None => 0
                 end in
  Ok (MkTbTransfer tb_id debit_id credit_id amount pending ledger (transfer.code t)
        (transfer.linked f) (transfer.pending f) (transfer.post_pending_transfer f)
        (transfer.void_pending_transfer f) (numeric (amount.currency (transfer.amount t)))).

Definition account_to_tb (a : Account) : TbAccount :=
  let f := account.flags a in
  MkTbAccount (convert.account_id_to_u128 (account.id a))
    (convert.ledger_id_to_u32 (account.ledger_id a)) (account.code a)
    (account.debits_must_not_exceed_credits f) (account.credits_must_not_exceed_debits f)
    (account.linked f) (numeric (account.currency a)) 0 0.

(** [u16::try_from(numeric).unwrap_or(0)], then the table of the currency crate. *)
Definition currency_of_user_data (n : Z) : BlazerResult Currency :=
  ok_or (from_numeric (if n <=? u16_max then n else 0))
    (InvalidCurrency ("unknown numeric code: " +:+ string_of_Z n)).

Definition tb_account_to_blazil (clock : Z) (tb : TbAccount) : BlazerResult Account :=
  let i := convert.u128_to_account_id (tba_id tb) in
  let? cur := currency_of_user_data (tba_user_data_32 tb) in
  let? l := LedgerId_new (tba_ledger tb) in
  let f := account.MkAccountFlags (tba_DEBITS_MUST_NOT_EXCEED_CREDITS tb)
             (tba_CREDITS_MUST_NOT_EXCEED_DEBITS tb) (tba_LINKED tb) in
  let a := account.new clock i l cur (tba_code tb) f in
  let? a := if 0 <? tba_debits_posted tb
            then let? d := convert.minor_units_to_amount (tba_debits_posted tb) cur in
                 account.apply_debit a d
            else Ok a in
  if 0 <? tba_credits_posted tb
  then let? c := convert.minor_units_to_amount (tba_credits_posted tb) cur in
       account.apply_credit a c
  else Ok a.

Definition tb_transfer_to_blazil (clock : Z) (tb : TbTransfer) : BlazerResult Transfer :=
  let debit_id := convert.u128_to_account_id (tbt_debit_account_id tb) in
  let credit_id := convert.u128_to_account_id (tbt_credit_account_id tb) in
  let transfer_id := convert.u128_to_transfer_id (tbt_id tb) in
  let? l := LedgerId_new (tbt_ledger tb) in
  let? cur := currency_of_user_data (tbt_user_data_32 tb) in
  let? amount := convert.minor_units_to_amount (tbt_amount tb) cur in
  let f := transfer.MkTransferFlags (tbt_LINKED tb) (tbt_PENDING tb)
             (tbt_POST_PENDING_TRANSFER tb) (tbt_VOID_PENDING_TRANSFER tb) in
  Ok (transfer.from_ledger clock transfer_id debit_id credit_id amount l (tbt_code tb) f).

(** *** The client *)
Context {T : Type} `{TB : !TbClient T}.

(** [clock] is the reading of the system clock during the call. *)
Record TigerBeetleClient : Type := MkTbState {
  inner : T;
  metrics : metrics.LedgerMetrics;
  clock : Z;
}.

Definition set_inner (i : T) (s : TigerBeetleClient) := MkTbState i (metrics s) (clock s).
Definition count (k : metrics.counter) (n : Z) (s : TigerBeetleClient) :=
  MkTbState (inner s) (metrics.add k n (metrics s)) (clock s).
Definition bump (k : metrics.counter) (s : TigerBeetleClient) := count k 1 s.

(** A request through the handle. *)
Definition call {A} (op : T -> A * T) (s : TigerBeetleClient) : A * TigerBeetleClient :=
  let '(r, i) := op (inner s) in (r, set_inner i s).

Definition probe (s : TigerBeetleClient) : BlazerResult unit * TigerBeetleClient :=
  let '(r, s) := call (tb_lookup_accounts [0]) s in
  (match r with
   | Ok _ => Ok tt
   | Err e => Err (error.Ledger ("TigerBeetle probe failed: " +:+ e))
   end, s).

Definition create_account (a : Account) (s : TigerBeetleClient)
    : BlazerResult AccountId * TigerBeetleClient :=
  let s := bump metrics.account_lookups_total s in
  let '(r, s) := call (tb_create_accounts [account_to_tb a]) s in
  match r with
  | Ok _ => (Ok (account.id a), bump metrics.accounts_created_total s)
  | Err e => (Err (error.Ledger ("create_accounts failed: " +:+ e)),
              bump metrics.accounts_created_errors s)
  end.

Definition create_transfer (t : Transfer) (s : TigerBeetleClient)
    : BlazerResult TransferId * TigerBeetleClient :=
  match domain_transfer_to_tb t with
  | Err e => (Err e, s)
  | Ok tb =>
      let '(r, s) := call (tb_create_transfers [tb]) s in
      match r with
      | Ok _ => (Ok (transfer.id t), bump metrics.transfers_created_total s)
      | Err e => (Err (error.Ledger ("create_transfers failed: " +:+ tb_display e)),
                  bump metrics.transfers_created_errors s)
      end
  end.

Abbreviation slot := (option (BlazerResult TransferId)).

(** The first loop of the batch: convert, remember the original index of every
    submitted transfer, store conversion errors in their slot. *)
Fixpoint prepare (i : nat) (ts : list Transfer) (results : list slot)
    (tb_transfers : list TbTransfer) (tb_to_orig : list nat)
    : list slot * list TbTransfer * list nat :=
  match ts with
  | [] => (results, tb_transfers, tb_to_orig)
  | t :: ts =>
      match domain_transfer_to_tb t with
      | Ok tb => prepare (S i) ts results (tb_transfers ++ [tb]) (tb_to_orig ++ [i])
      | Err e => prepare (S i) ts (<[i := Some (Err e)]> results) tb_transfers tb_to_orig
      end
  end.

(** The loops over [tb_to_orig]: [verdict] is the body's value at a submitted
    position and its original index. *)
Fixpoint set_slots (verdict : nat -> nat -> BlazerResult TransferId) (tb_pos : nat)
    (tb_to_orig : list nat) (results : list slot) : list slot :=
  match tb_to_orig with
  | [] => results
  | orig_i :: rest =>
      set_slots verdict (S tb_pos) rest (<[orig_i := Some (verdict tb_pos orig_i)]> results)
  end.

(** [transfers[orig_i].id()]; the index is always in range. *)
Definition id_at (ts : list Transfer) (orig_i : nat) : BlazerResult TransferId :=
  ok_or (transfer.id <$> ts !! orig_i) (Internal "index out of bounds").

Definition error_map (l : list (Z * string)) : gmap nat string :=
  foldl (fun m e => <[Z.to_nat e.1 := e.2]> m) ∅ l.

Definition not_set : BlazerError := error.Ledger "internal error: transfer result not set".

Definition api_error (kind : string) (tb_pos : nat) : BlazerError :=
  error.Ledger ("TB transfer error " +:+ kind +:+ " at batch index " +:+ string_of_Z (Z.of_nat tb_pos)).
Definition transport_error (e : TbCreateError) : BlazerError :=
  LedgerTransient ("create_transfers transport error (retryable): " +:+ tb_display e).

Definition create_transfers_batch (ts : list Transfer) (s : TigerBeetleClient)
    : list (BlazerResult TransferId) * TigerBeetleClient :=
  match ts with
  | [] => ([], s)
  | _ =>
      let '(results, tb_transfers, tb_to_orig) :=
        prepare 0 ts (replicate (length ts) None) [] [] in
      let '(results, s) :=
        match tb_transfers with
        | [] => (results, s)
        | _ =>
            let s := count metrics.transfers_batch_total (Z.of_nat (length tb_transfers)) s in
            let '(r, s) := call (tb_create_transfers tb_transfers) s in
            match r with
            | Ok _ => (set_slots (fun _ orig_i => id_at ts orig_i) 0 tb_to_orig results, s)
            | Err (TbApi l) =>
                let m := error_map l in
                let verdict tb_pos orig_i :=
                  match m !! tb_pos with
                  | Some kind => if contains "Exist" kind then id_at ts orig_i
                                 else Err (api_error kind tb_pos)
                  | None => id_at ts orig_i
                  end in
                (set_slots verdict 0 tb_to_orig results,
                 bump metrics.transfers_batch_partial_failures s)
            | Err e =>
                (set_slots (fun _ _ => Err (transport_error e)) 0 tb_to_orig results,
                 bump metrics.transfers_batch_transport_errors s)
            end
        end in
      ((fun o => default (Err not_set) o) <$> results, s)
  end.

Definition get_account (i : AccountId) (s : TigerBeetleClient)
    : BlazerResult Account * TigerBeetleClient :=
  let s := bump metrics.account_lookups_total s in
  let '(r, s) := call (tb_lookup_accounts [convert.account_id_to_u128 i]) s in
  match r with
  | Ok results => (let? tb := ok_or (last results) (NotFound "Account" (u64_to_string i)) in
                   tb_account_to_blazil (clock s) tb, s)
  | Err e => (Err (error.Ledger ("lookup_accounts failed: " +:+ e)),
              bump metrics.account_lookups_errors s)
  end.

Definition get_transfer (i : TransferId) (s : TigerBeetleClient)
    : BlazerResult Transfer * TigerBeetleClient :=
  let s := bump metrics.transfer_lookups_total s in
  let '(r, s) := call (tb_lookup_transfers [convert.transfer_id_to_u128 i]) s in
  match r with
  | Ok results => (let? tb := ok_or (last results) (NotFound "Transfer" (id_to_string i)) in
                   tb_transfer_to_blazil (clock s) tb, s)
  | Err e => (Err (error.Ledger ("lookup_transfers failed: " +:+ e)),
              bump metrics.transfer_lookups_errors s)
  end.

(** [collect::<Result<Vec<_>, _>>()]: the first error, or all values. *)
Fixpoint collect {A} (l : list (BlazerResult A)) : BlazerResult (list A) :=
  match l with
  | [] => Ok []
  | r :: l => let? a := r in let? l := collect l in Ok (a :: l)
  end.

Definition get_account_balances (l : list AccountId) (s : TigerBeetleClient)
    : BlazerResult (list Account) * TigerBeetleClient :=
  match l with
  | [] => (Ok [], s)
  | _ =>
      let s := count metrics.batch_account_lookups_total (Z.of_nat (length l)) s in
      let '(r, s) := call (tb_lookup_accounts (convert.account_id_to_u128 <$> l)) s in
      match r with
      | Ok tbs => (collect (tb_account_to_blazil (clock s) <$> tbs), s)
      | Err e => (Err (error.Ledger ("lookup_accounts (batch) failed: " +:+ e)),
                  bump metrics.batch_account_lookups_errors s)
      end
  end.

Global Instance client : LedgerClient TigerBeetleClient := {|
  Ledger.create_account := create_account;
  Ledger.create_transfer := create_transfer;
  Ledger.get_account := get_account;
  Ledger.get_transfer := get_transfer;
  Ledger.create_transfers_batch := create_transfers_batch;
  Ledger.get_account_balances := get_account_balances;
|}.
End tigerbeetle.
Arguments TigerBeetleClient T : clear implicits.
End tigerbeetle.

(** ** The batched commit against its per-slot reading *)
Section batch.
Context `{DL : DecimalLib, CL : CurrencyLib, UL : UuidLib}.
Context {T : Type} `{TB : !TbClient T}.
Import tigerbeetle.

(** What is submitted: the transfers that convert, in order. *)
Definition submitted (ts : list Transfer) : list TbTransfer :=
  omap (fun t => ok_opt (domain_transfer_to_tb t)) ts.

(** The cluster's verdict on the transfer at submitted position [pos]. *)
Definition verdict (r : Result unit TbCreateError) (pos : nat) (t : Transfer)
    : BlazerResult TransferId :=
  match r with
  | Ok _ => Ok (transfer.id t)
  | Err (TbApi l) =>
      match error_map l !! pos with
      | Some kind => if contains "Exist" kind then Ok (transfer.id t) else Err (api_error kind pos)
      | None => Ok (transfer.id t)
      end
  | Err e => Err (transport_error e)
  end.

(** One result per transfer: its conversion error, or the verdict at its rank among
    the converted ones. *)
Fixpoint batch_spec (v : nat -> Transfer -> BlazerResult TransferId) (pos : nat)
    (ts : list Transfer) : list (BlazerResult TransferId) :=
  match ts with
  | [] => []
  | t :: ts => match domain_transfer_to_tb t with
               | Ok _ => v pos t :: batch_spec v (S pos) ts
               | Err e => Err e :: batch_spec v pos ts
               end
  end.

Definition conversion_slots (ts : list Transfer) : list (option (BlazerResult TransferId)) :=
  (fun t => match domain_transfer_to_tb t with Ok _ => None | Err e => Some (Err e) end) <$> ts.

Fixpoint converted_indices (i : nat) (ts : list Transfer) : list nat :=
  match ts with
  | [] => []
  | t :: ts => match domain_transfer_to_tb t with
               | Ok _ => i :: converted_indices (S i) ts
               | Err _ => converted_indices (S i) ts
               end
  end.

Lemma insert_middle {A} (pre : list A) x y l n :
  n = length pre -> <[n := x]> (pre ++ y :: l) = pre ++ x :: l.
Proof. intros ->. rewrite insert_app_r_alt, Nat.sub_diag by lia. done. Qed.

Lemma prepare_spec ts pre tbs orig i :
  i = length pre ->
  prepare i ts (pre ++ replicate (length ts) None) tbs orig =
    (pre ++ conversion_slots ts, tbs ++ submitted ts, orig ++ converted_indices i ts).
Proof.
  revert i pre tbs orig. induction ts as [|t ts IH]; intros i pre tbs orig Hi; simpl.
  - by rewrite !app_nil_r.
  - destruct (domain_transfer_to_tb t) as [tb|e] eqn:E; simpl.
    + change (pre ++ None :: replicate (length ts) None)
        with (pre ++ [None] ++ replicate (length ts) None).
      rewrite (app_assoc pre), IH by (rewrite length_app; simpl; lia).
      simpl. rewrite ?E. by rewrite <- !app_assoc.
    + rewrite insert_middle by done.
      change (pre ++ Some (Err e) :: replicate (length ts) None)
        with (pre ++ [Some (Err e)] ++ replicate (length ts) None).
      rewrite (app_assoc pre), IH by (rewrite length_app; simpl; lia).
      simpl. rewrite ?E. by rewrite <- !app_assoc.
Qed.

Lemma set_slots_spec (g : nat -> nat -> BlazerResult TransferId) v all ts before pre pos :
  all = before ++ ts -> length pre = length before ->
  (forall p k t, all !! k = Some t -> g p k = v p t) ->
  set_slots g pos (converted_indices (length before) ts) (pre ++ conversion_slots ts) =
    pre ++ (Some <$> batch_spec v pos ts).
Proof.
  intros Hall Hlen Hg. revert before pre pos Hall Hlen.
  induction ts as [|t ts IH]; intros before pre pos Hall Hlen; [done|].
  assert (all !! length before = Some t) as Ht.
  { rewrite Hall, lookup_app_r, Nat.sub_diag by lia. done. }
  assert (forall x p,
    set_slots g p (converted_indices (S (length before)) ts) (pre ++ x :: conversion_slots ts) =
    pre ++ x :: (Some <$> batch_spec v p ts)) as IH'.
  { intros x p. specialize (IH (before ++ [t]) (pre ++ [x]) p).
    rewrite !length_app, !Nat.add_1_r, <- !app_assoc in IH. apply IH; [done|simpl; lia]. }
  unfold conversion_slots in *. simpl. destruct (domain_transfer_to_tb t) as [tb|e]; simpl.
  - rewrite insert_middle by done. rewrite (Hg _ _ _ Ht). apply IH'.
  - apply IH'.
Qed.

Lemma unwrap_some (l : list (BlazerResult TransferId)) :
  (fun o => default (Err not_set) o) <$> (Some <$> l) = l.
Proof. rewrite <- list_fmap_compose. apply list_fmap_id. Qed.

(** With nothing to submit every slot is a conversion error. *)
Lemma batch_spec_none v pos ts :
  submitted ts = [] -> (Some <$> batch_spec v pos ts) = conversion_slots ts.
Proof.
  unfold submitted, conversion_slots. induction ts as [|t ts IH]; [done|]. simpl.
  destruct (domain_transfer_to_tb t); simpl; [done|].
  intros H. f_equal. by apply IH.
Qed.

Lemma batch_spec_length v pos ts : length (batch_spec v pos ts) = length ts.
Proof.
  revert pos. induction ts as [|t ts IH]; intros pos; [done|]. simpl.
  destruct (domain_transfer_to_tb t); simpl; by rewrite IH.
Qed.

Lemma batch_spec_ids v pos ts i t j :
  (forall p t j, v p t = Ok j -> j = transfer.id t) ->
  ts !! i = Some t -> batch_spec v pos ts !! i = Some (Ok j) -> j = transfer.id t.
Proof.
  intros Hv. revert pos i. induction ts as [|t' ts IH]; intros pos i Ht Hr; [done|]. simpl in Hr.
  destruct (domain_transfer_to_tb t'), i; simplify_eq/=; eauto.
Qed.

Lemma verdict_id r p t j : verdict r p t = Ok j -> j = transfer.id t.
Proof. unfold verdict. repeat case_match; congruence. Qed.

Lemma batch_is_spec (ts : list Transfer) (s : TigerBeetleClient T) :
  (create_transfers_batch ts s).1 =
    batch_spec (verdict (tb_create_transfers (submitted ts) (inner s)).1) 0 ts.
Proof.
  destruct ts as [|t ts]; [done|]. set (l := t :: ts). unfold create_transfers_batch.
  change (match l with [] => ([], s) | _ :: _ => ?x end) with x.
  pose proof (prepare_spec l [] [] [] 0%nat eq_refl) as Hp. rewrite !app_nil_l in Hp. rewrite Hp.
  destruct (submitted l) as [|tb tbs] eqn:Es; cbn [fst].
  { rewrite <- (batch_spec_none (verdict (tb_create_transfers [] (inner s)).1) 0 l Es). apply unwrap_some. }
  unfold call. cbn [inner count]. destruct (tb_create_transfers _ (inner s)) as [r i]. cbn [fst].
  assert (forall g, (forall p k u, l !! k = Some u -> g p k = verdict r p u) ->
    (fun o => default (Err not_set) o) <$> set_slots g 0 (converted_indices 0 l) (conversion_slots l) =
    batch_spec (verdict r) 0 l) as Hg.
  { intros g Hg. pose proof (set_slots_spec g (verdict r) l l [] [] 0 eq_refl eq_refl Hg) as H.
    rewrite !app_nil_l in H. simpl length in H. rewrite H. apply unwrap_some. }
  destruct r as [u|[errs|e]]; cbn [fst]; apply Hg; intros p k u' Hu; unfold id_at; rewrite ?Hu; try done;
    simpl; by repeat case_match.
Qed.

Global Instance client_laws : LedgerClientLaws (TigerBeetleClient T).
Proof.
  split; cbn [Ledger.create_transfers_batch client].
  - intros ts s. rewrite batch_is_spec. apply batch_spec_length.
  - intros ts s i t j Ht. rewrite batch_is_spec. by apply batch_spec_ids, Ht; apply verdict_id.
Qed.

(** C5: the index bookkeeping of the batched commit is right: the result vector is, slot
    by slot in submission order, the conversion error of a transfer that cannot be
    encoded, and otherwise the cluster's verdict at the transfer's own position among
    the encoded ones (an [Exists] verdict counts as committed, a failed request as a
    transient error).  In particular no slot is ever left unset. *)
Theorem tigerbeetle_batch_correct (ts : list Transfer) (s : TigerBeetleClient T) :
  (create_transfers_batch ts s).1 =
    batch_spec (verdict (tb_create_transfers (submitted ts) (inner s)).1) 0 ts.
Proof. apply batch_is_spec. Qed.
End batch.

(** ** Wire round trips *)
Section roundtrip.
Context `{DL : DecimalLib, DLa : !DecimalLaws, CL : CurrencyLib, CLa : !CurrencyLaws, UL : UuidLib, ULa : !UuidLaws}.
Import tigerbeetle.

(** The amount is a whole number [n] of minor units of its currency. *)
Definition in_minor_units (a : Amount) (n : Z) : Prop :=
  raw (amount.value a) * convert.currency_scale (amount.currency a) = n * one.

Lemma currency_of_numeric (c : Currency) : currency_of_user_data (numeric c) = Ok c.
Proof.
  unfold currency_of_user_data. pose proof (numeric_range c).
  rewrite (proj2 (Z.leb_le _ _)) by (unfold u16_max; lia). by rewrite from_numeric_numeric.
Qed.

Lemma account_id_wire (i : AccountId) :
  u64_id_wf i -> convert.u128_to_account_id (convert.account_id_to_u128 i) = i.
Proof.
  destruct i as [v]. unfold u64_id_wf, u64_max. intros Hv. cbn [as_u64] in Hv.
  unfold convert.u128_to_account_id, convert.account_id_to_u128, from_u64. cbn [as_u64].
  f_equal. apply as_unsigned_id. lia.
Qed.

Lemma transfer_id_wire (i : TransferId) :
  convert.u128_to_transfer_id (convert.transfer_id_to_u128 i) = i.
Proof.
  destruct i as [u]. unfold convert.u128_to_transfer_id, convert.transfer_id_to_u128, id_from_bytes.
  cbn [as_uuid]. f_equal.
  rewrite to_from_be_bytes, uuid_from_as_bytes;
    [done|apply uuid_as_bytes_length|apply uuid_as_bytes_range].
Qed.

Lemma ledger_id_wire (l : LedgerId) :
  LedgerId_value l <> 0 -> LedgerId_new (LedgerId_value l) = Ok l.
Proof.
  intros H. unfold LedgerId_new. destruct (Z.eqb_spec (LedgerId_value l) 0); [done|]. by destruct l.
Qed.

Lemma in_minor_units_unique (a b : Amount) n :
  amount.currency a = amount.currency b -> in_minor_units a n -> in_minor_units b n ->
  raw (amount.value a) = raw (amount.value b).
Proof.
  unfold in_minor_units. intros <-. pose proof (currency_scale_iso (amount.currency a)). nia.
Qed.

(** a transfer whose amount is a whole number of minor units survives the trip to
    TigerBeetle's wire record and back: identifiers, ledger, code, flags, currency and
    the exact value.  The link to a pending transfer is on the wire but is dropped on
    the way back. *)
Theorem tb_transfer_roundtrip (t : Transfer) (n clock : Z) :
  u64_id_wf (transfer.debit_account_id t) -> u64_id_wf (transfer.credit_account_id t) ->
  LedgerId_value (transfer.ledger_id t) <> 0 ->
  amount.wf (transfer.amount t) -> 0 <= n < 2 ^ 64 -> in_minor_units (transfer.amount t) n ->
  exists tb t', domain_transfer_to_tb t = Ok tb /\ tb_transfer_to_blazil clock tb = Ok t' /\
    transfer.id t' = transfer.id t /\
    transfer.debit_account_id t' = transfer.debit_account_id t /\
    transfer.credit_account_id t' = transfer.credit_account_id t /\
    transfer.ledger_id t' = transfer.ledger_id t /\ transfer.code t' = transfer.code t /\
    transfer.flags t' = transfer.flags t /\
    amount.currency (transfer.amount t') = amount.currency (transfer.amount t) /\
    raw (amount.value (transfer.amount t')) = raw (amount.value (transfer.amount t)) /\
    tbt_pending_id tb = match transfer.pending_id t with
                        | Some p => convert.transfer_id_to_u128 p
                        | None => 0
                        end /\
    transfer.pending_id t' = None.
Proof.
  intros Hd Hc Hl [_ Hs] Hn Hm. destruct t as [i d c amt l cd f p ts]. cbn in *.
  unfold domain_transfer_to_tb. cbn. rewrite (amount_to_minor_units_exact amt n Hn Hm Hs). cbn.
  eexists _. destruct (minor_units_quotient n (amount.currency amt) Hn) as (a & Ea & _ & Ec & Em & _).
  rewrite <- Ec in Em. eexists _. split; [done|]. unfold tb_transfer_to_blazil. cbn.
  rewrite ledger_id_wire, currency_of_numeric by done. cbn. rewrite Ea. cbn. split; [done|]. cbn.
  rewrite transfer_id_wire, !account_id_wire by done. destruct f. split_and!; try done.
  by apply (in_minor_units_unique a amt n).
Qed.

(** an account read back from the cluster has the identity, ledger, currency, code and
    flags it was created with, and balances that are exactly the posted minor units. *)
Theorem tb_account_roundtrip (a : Account) (d c clock : Z) :
  u64_id_wf (account.id a) -> LedgerId_value (account.ledger_id a) <> 0 ->
  0 <= d < 2 ^ 64 -> 0 <= c < 2 ^ 64 ->
  let w := account_to_tb a in
  let tb := MkTbAccount (tba_id w) (tba_ledger w) (tba_code w)
              (tba_DEBITS_MUST_NOT_EXCEED_CREDITS w) (tba_CREDITS_MUST_NOT_EXCEED_DEBITS w)
              (tba_LINKED w) (tba_user_data_32 w) d c in
  exists a', tb_account_to_blazil clock tb = Ok a' /\
    account.id a' = account.id a /\ account.ledger_id a' = account.ledger_id a /\
    account.currency a' = account.currency a /\ account.code a' = account.code a /\
    account.flags a' = account.flags a /\
    in_minor_units (account.debits_posted a') d /\ in_minor_units (account.credits_posted a') c.
Proof.
  intros Hi Hl Hd Hc. destruct a as [i l cur cd f dp cp ts]. cbn in *.
  unfold tb_account_to_blazil. cbn. rewrite currency_of_numeric. cbn.
  rewrite ledger_id_wire, account_id_wire by done. cbn.
  assert (Hpost : forall n, 0 <= n < 2 ^ 64 -> exists q,
    (if 0 <? n then let? x := convert.minor_units_to_amount n cur in
                    amount.checked_add (amount.zero cur) x
     else Ok (amount.zero cur)) = Ok q /\ in_minor_units q n).
  { intros n Hn. destruct (Z.ltb_spec 0 n).
    - destruct (minor_units_quotient n cur Hn) as (x & Ex & [Wx Gx] & Ec & Em & _).
      rewrite Ex. cbn [rbind].
      destruct (checked_add_exact (amount.zero cur) x) as (q & Eq & Hqc & Hqr).
      + unfold amount.wf, amount.MAX_SCALE, amount.zero. cbn [amount.value].
        rewrite raw_ZERO, (proj2 dec_ZERO_spec). lia.
      + done.
      + done.
      + cbn. rewrite raw_ZERO. destruct Wx as [Wx _].
        unfold fits, amount.MAX_SCALE, one in *. rewrite Z.abs_eq by lia.
        change (10 ^ (28 - 8)) with (10 ^ 20).
        destruct (currency_scale_iso cur) as [E|E]; rewrite E in Em; lia.
      + exists q. split; [done|]. unfold in_minor_units. rewrite Hqc, Hqr. cbn.
        by rewrite raw_ZERO.
    - exists (amount.zero cur). split; [done|]. unfold in_minor_units. cbn. rewrite raw_ZERO. replace n with 0 by lia. done. }
  destruct (Hpost d Hd) as (qd & Ed & Md), (Hpost c Hc) as (qc & Ec & Mc).
  exists (account.MkAccount i l cur cd f qd qc (now clock)).
  split; [|by destruct f; split_and!].
  unfold account.apply_debit, account.apply_credit, account.new. cbn. destruct f.
  destruct (0 <? d), (0 <? c); cbn in *;
    repeat (match goal with
    | H : rbind ?m _ = Ok _ |- _ => destruct m; cbn in H |- *; [|done]
    | H : amount.checked_add _ _ = Ok _ |- _ => rewrite H; cbn
    end); by simplify_eq.
Qed.
End roundtrip.

Module tigerbeetle_examples.
Import common_examples ledger_examples inmemory_examples tigerbeetle.

(** A cluster that answers every batch with the same outcome and stores nothing. *)
Definition canned (r : Result unit TbCreateError) : TbClient unit := {|
  tb_create_accounts _ s := (Ok tt, s);
  tb_create_transfers _ s := (r, s);
  tb_lookup_accounts _ s := (Ok [], s);
  tb_lookup_transfers _ s := (Ok [], s);
  tb_display _ := "session closed"%string;
|}.

Definition one_batch (r : Result unit TbCreateError) (ts : list Transfer) :=
  (create_transfers_batch (TB := canned r) ts (MkTbState tt metrics.new 0)).1.

(** The second transfer has a tenth of a cent and is not submitted, so the third is at
    submitted position 1. *)
Definition mixed : list Transfer := [pay 1 1 2 500 2; pay 2 1 2 5001 3; pay 3 1 2 700 2; pay 4 1 2 100 2].

Example batch_positions :
  one_batch (Err (TbApi [(1, "ExceedsCredits"%string); (2, "Exists"%string)])) mixed =
    [Ok (tid 1); Err AmountOverflow; Err (api_error "ExceedsCredits" 1); Ok (tid 4)].
Proof. vm_refl. Qed.

Example batch_transport :
  is_transient <$> omap (fun r => match r with Err e => Some e | Ok _ => None end)
    (one_batch (Err (TbSend "session closed")) mixed) = [true; false; true; true].
Proof. vm_refl. Qed.

Lemma demo_wf m s : 0 <= m < 2 ^ 96 -> 0 <= s <= 8 -> amount.wf (usd m s).
Proof. intros. by apply usd_raw. Qed.

Lemma tb_transfer_roundtrip_witness :
  exists tb t', domain_transfer_to_tb (pay 7 1 2 500 2) = Ok tb /\ tb_transfer_to_blazil 0 tb = Ok t' /\
    transfer.id t' = tid 7 /\ rawa (transfer.amount t') = 5 * one.
Proof.
  destruct (tb_transfer_roundtrip (DL := dec.lib) (CL := cur.lib) (UL := uid.lib) (pay 7 1 2 500 2) 500 0)
    as (tb & t' & E & E' & Hi & _ & _ & _ & _ & _ & _ & Hr & _);
    [unfold u64_id_wf, u64_max; cbn; lia|unfold u64_id_wf, u64_max; cbn; lia|done|by apply demo_wf|lia|unfold in_minor_units; vm_refl|].
  exists tb, t'. split_and!; [done..|]. unfold rawa. rewrite Hr. vm_refl.
Defined.

Lemma tb_account_roundtrip_witness :
  exists a', tb_account_to_blazil 0 (MkTbAccount 9 1 1 true false false 840 250 1000) = Ok a' /\
    account.id a' = acc 9 /\ in_minor_units (account.debits_posted a') 250.
Proof.
  destruct (tb_account_roundtrip (DL := dec.lib) (CL := cur.lib)
    (account.new (DL := dec.lib) (CL := cur.lib) 0 (acc 9) LedgerId_USD cur.USD 1 constrained) 250 1000 0)
    as (a' & E & Hi & _ & _ & _ & _ & Hd & _);
    [unfold u64_id_wf, u64_max; cbn; lia|done|lia|lia|].
  exists a'. split_and!; [exact E|done..].
Defined.
End tigerbeetle_examples.
