(* ===== verification/Event.v ===== *)
(** * core/engine/event.rs: transaction events

    The bit-packed control flags, the outcome of a transaction and the event that
    travels through the ring buffer. *)

From stdpp Require Import base numbers list gmap strings.
From Stdlib Require Import ZArith Lia Btauto.
From S2P Require Import Prelude External ExternalModel Common Timestamp.

(** ** EventFlags: one byte *)
Module event_flags.
Record EventFlags : Type := MkFlags { raw_byte : Z }.

#[global] Instance EventFlags_eq_dec : EqDecision EventFlags.
Proof. solve_decision. Defined.

Definition RISK_CHECK : Z := 1.
Definition PENDING : Z := 2.
Definition SKIP_PUBLISH : Z := 4.
Definition POSTED : Z := 8.
Definition VOIDED : Z := 16.

Definition default : EventFlags := MkFlags 0.
Definition from_raw (b : Z) : EventFlags := MkFlags b.
Definition to_raw (f : EventFlags) : Z := raw_byte f.

(** [!m] on a byte. *)
Definition not_u8 (m : Z) : Z := Z.lxor m 255.

Definition get_bit (m : Z) (f : EventFlags) : bool := negb (Z.land (raw_byte f) m =? 0).
Definition set_bit (m : Z) (v : bool) (f : EventFlags) : EventFlags :=
  if v then MkFlags (Z.lor (raw_byte f) m) else MkFlags (Z.land (raw_byte f) (not_u8 m)).

Definition requires_risk_check : EventFlags -> bool := get_bit RISK_CHECK.
Definition set_requires_risk_check : bool -> EventFlags -> EventFlags := set_bit RISK_CHECK.
Definition is_pending : EventFlags -> bool := get_bit PENDING.
Definition set_is_pending : bool -> EventFlags -> EventFlags := set_bit PENDING.
Definition skip_publish : EventFlags -> bool := get_bit SKIP_PUBLISH.
Definition set_skip_publish : bool -> EventFlags -> EventFlags := set_bit SKIP_PUBLISH.
Definition is_posted : EventFlags -> bool := get_bit POSTED.
Definition set_is_posted : bool -> EventFlags -> EventFlags := set_bit POSTED.
Definition is_voided : EventFlags -> bool := get_bit VOIDED.
Definition set_is_voided : bool -> EventFlags -> EventFlags := set_bit VOIDED.

(** The five flags and their bit positions. *)
Inductive flag := FRiskCheck | FPending | FSkipPublish | FPosted | FVoided.
#[global] Instance flag_eq_dec : EqDecision flag.
Proof. solve_decision. Defined.

Definition get (k : flag) : EventFlags -> bool :=
  match k with
  | FRiskCheck => requires_risk_check | FPending => is_pending
  | FSkipPublish => skip_publish | FPosted => is_posted | FVoided => is_voided
  end.
Definition set (k : flag) : bool -> EventFlags -> EventFlags :=
  match k with
  | FRiskCheck => set_requires_risk_check | FPending => set_is_pending
  | FSkipPublish => set_skip_publish | FPosted => set_is_posted | FVoided => set_is_voided
  end.
Definition pos (k : flag) : Z :=
  match k with FRiskCheck => 0 | FPending => 1 | FSkipPublish => 2 | FPosted => 3 | FVoided => 4 end.

Definition wf (f : EventFlags) : Prop := 0 <= raw_byte f < 256.

Lemma get_testbit k f : get k f = Z.testbit (raw_byte f) (pos k).
Proof.
  destruct k; unfold get, requires_risk_check, is_pending, skip_publish, is_posted, is_voided, get_bit, pos;
    rewrite <- land_pow2_testbit by lia; done.
Qed.

Lemma set_testbit k v f i : wf f -> 0 <= i < 8 ->
  Z.testbit (raw_byte (set k v f)) i = if bool_decide (i = pos k) then v else Z.testbit (raw_byte f) i.
Proof.
  intros _ Hi. assert (Hs : set k v f = set_bit (2 ^ pos k) v f) by (destruct k; done).
  assert (0 <= pos k) as Hp by (destruct k; cbn; lia).
  rewrite Hs. unfold set_bit, not_u8. destruct v; cbn [raw_byte].
  - rewrite Z.lor_spec, Z.pow2_bits_eqb by done.
    destruct (Z.eqb_spec (pos k) i); case_bool_decide; try congruence; btauto.
  - change 255 with (Z.ones 8). rewrite Z.land_spec, Z.lxor_spec, Z.pow2_bits_eqb by done.
    rewrite Z.ones_spec_low by lia.
    destruct (Z.eqb_spec (pos k) i); case_bool_decide; try congruence; btauto.
Qed.

Lemma byte_high x : 0 <= x < 256 <-> 0 <= x /\ Z.shiftr x 8 = 0.
Proof.
  rewrite Z.shiftr_div_pow2 by lia. change (2 ^ 8) with 256. split.
  - intros H. split; [lia|]. by apply Z.div_small.
  - intros [H0 H]. split; [done|]. apply Z.div_small_iff in H; lia.
Qed.

Lemma set_wf k v f : wf f -> wf (set k v f).
Proof.
  unfold wf. intros Hf. assert (Hs : set k v f = set_bit (2 ^ pos k) v f) by (destruct k; done).
  rewrite Hs. unfold set_bit, not_u8. apply byte_high in Hf as [H0 H8]. apply byte_high.
  destruct v; cbn [raw_byte].
  - split; [apply Z.lor_nonneg; destruct k; cbn; lia|].
    rewrite Z.shiftr_lor, H8. by destruct k.
  - split; [apply Z.land_nonneg; by left|]. by rewrite Z.shiftr_land, H8.
Qed.

(** C34: the packed flags behave as five independent booleans in one byte: a setter
    makes its getter return the value set, leaves every other flag as it was, and the
    packed byte stays a byte. *)
Theorem event_flags_independent (k k' : flag) (v : bool) (f : EventFlags) :
  wf f ->
  wf (set k v f) /\ get k' (set k v f) = (if bool_decide (k' = k) then v else get k' f).
Proof.
  intros Hf. split; [by apply set_wf|]. rewrite !get_testbit, set_testbit by (done || destruct k'; cbn; lia).
  assert (bool_decide (pos k' = pos k) = bool_decide (k' = k)) as -> by (by destruct k, k').
  done.
Qed.

Lemma event_flags_independent_witness :
  wf (set FPosted true (from_raw 5)) /\ get FRiskCheck (set FPosted true (from_raw 5)) = true.
Proof. apply (event_flags_independent FPosted FRiskCheck true (from_raw 5)). unfold wf; cbn; lia. Defined.
End event_flags.
Abbreviation EventFlags := event_flags.EventFlags.

(** ** TransactionResult and TransactionEvent *)
Module event.
Section event.
Context `{UL : UuidLib}.

Inductive TransactionResult : Type :=
  | Committed (transfer_id : TransferId) (timestamp : Timestamp)
  | Rejected (reason : BlazerError).

Record TransactionEvent : Type := MkEvent {
  sequence : Z;
  transaction_id : TransactionId;
  debit_account_id : AccountId;
  credit_account_id : AccountId;
  amount_units : Z;
  ingestion_timestamp : Timestamp;
  ledger_id : LedgerId;
  code : Z;
  flags : EventFlags;
  pending_transfer_id : TransferId;
}.

Definition new (clock : Z) (i : TransactionId) (d c : AccountId) (amt : Z) (l : LedgerId) (cd : Z)
    : TransactionEvent :=
  MkEvent (-1) i d c amt (now clock) l cd event_flags.default (id_from_bytes (replicate 16 0)).
End event.
End event.
Abbreviation TransactionEvent := event.TransactionEvent.
Abbreviation TransactionResult := event.TransactionResult.
