(* ===== verification/RingBuffer.v ===== *)
(** * core/engine: sequences and the pre-allocated ring buffers

    [sequence] is the padded atomic counter, [ring_buffer] the single-producer buffer of
    transaction events, [generic_ring_buffer] its generic sibling whose [publish] is a
    [fetch_max].  Each atomic access is one transition of the components that use it
    (see [Pipeline]). *)

From stdpp Require Import base numbers list gmap strings.
From Stdlib Require Import ZArith Lia.
From S2P Require Import Prelude External Common.

Module sequence.
Definition INITIAL_VALUE : Z := -1.
Definition new (initial : Z) : Z := initial.
Definition get (s : Z) : Z := s.
Definition set (v : Z) (s : Z) : Z := v.
(** [fetch_add(1) + 1] on an [AtomicI64]: the new value. *)
Definition increment (s : Z) : Z := as_signed 64 (s + 1).
End sequence.

(** [iter().min()] of a non-empty list. *)
Fixpoint list_min (x : Z) (l : list Z) : Z :=
  match l with [] => x | y :: l => Z.min x (list_min y l) end.

Lemma list_min_le x l g : g ∈ x :: l -> list_min x l <= g.
Proof.
  revert x. induction l as [|y l IH]; intros x Hg; simpl in *.
  - apply list_elem_of_singleton in Hg as ->. lia.
  - apply elem_of_cons in Hg as [->|Hg]; [lia|]. specialize (IH y Hg). lia.
Qed.

Module ring_buffer.
Section ring_buffer.
Context {E : Type}.

Record RingBuffer : Type := MkRing {
  slots : list E;
  capacity : Z;
  mask : Z;
  claim : Z;
  cursor : Z;
  gating_sequences : list Z;
}.

(** [default_event] draws fresh identifiers, one event per slot. *)
Definition new (default_event : nat -> E) (cap : Z) : BlazerResult RingBuffer :=
  if negb (is_power_of_two cap)
  then Err (ValidationError ("RingBuffer capacity must be a power of two, got " +:+ string_of_Z cap))
  else Ok (MkRing (default_event <$> seq 0 (Z.to_nat cap)) cap (cap - 1)
             sequence.INITIAL_VALUE sequence.INITIAL_VALUE []).

Definition next_sequence (rb : RingBuffer) : Z * RingBuffer :=
  let s := sequence.increment (claim rb) in
  (s, MkRing (slots rb) (capacity rb) (mask rb) s (cursor rb) (gating_sequences rb)).

Definition publish (s : Z) (rb : RingBuffer) : RingBuffer :=
  MkRing (slots rb) (capacity rb) (mask rb) (claim rb) (sequence.set s (cursor rb)) (gating_sequences rb).

(** [(sequence as usize) & mask] *)
Definition index (rb : RingBuffer) (s : Z) : nat := Z.to_nat (Z.land (as_unsigned 64 s) (mask rb)).

(** Reading and writing through [get] and [get_mut]. *)
Definition get (rb : RingBuffer) (s : Z) : option E := slots rb !! index rb s.
Definition set_slot (s : Z) (e : E) (rb : RingBuffer) : RingBuffer :=
  MkRing (<[index rb s := e]> (slots rb)) (capacity rb) (mask rb) (claim rb) (cursor rb)
    (gating_sequences rb).

(** Returns the index of the new gate. *)
Definition add_gating_sequence (rb : RingBuffer) : nat * RingBuffer :=
  (length (gating_sequences rb),
   MkRing (slots rb) (capacity rb) (mask rb) (claim rb) (cursor rb)
     (gating_sequences rb ++ [sequence.INITIAL_VALUE])).

Definition set_gate (w : nat) (s : Z) (rb : RingBuffer) : RingBuffer :=
  MkRing (slots rb) (capacity rb) (mask rb) (claim rb) (cursor rb) (<[w := s]> (gating_sequences rb)).

Definition has_available_capacity (rb : RingBuffer) : bool :=
  match gating_sequences rb with
  | [] => true
  | g :: gs =>
      let next_claim := sequence.get (claim rb) + 1 in
      let min_gate := list_min g gs in
      next_claim - min_gate <? as_signed 64 (capacity rb)
  end.
End ring_buffer.
Arguments RingBuffer E : clear implicits.

Section lemmas.
Context {E : Type}.
Implicit Types rb : RingBuffer E.

(** Shape invariant of every buffer built by [new]. *)
Record shape (rb : RingBuffer E) : Prop := {
  sh_pow : exists k, 0 <= k <= 62 /\ capacity rb = 2 ^ k;
  sh_mask : mask rb = capacity rb - 1;
  sh_len : Z.of_nat (length (slots rb)) = capacity rb;
}.

Lemma capacity_pos rb : shape rb -> 0 < capacity rb < 2 ^ 63.
Proof.
  intros [(k & Hk & ->) _ _]. split; [apply Z.pow_pos_nonneg; lia|].
  apply Z.pow_lt_mono_r; lia.
Qed.

Lemma ring_index_mod rb s : shape rb -> Z.of_nat (index rb s) = s mod capacity rb.
Proof.
  intros Hsh. pose proof (capacity_pos rb Hsh). destruct Hsh as [(k & Hk & Ek) Hm _].
  unfold index. rewrite Hm, Ek, land_mask_mod, as_unsigned_mod by lia. rewrite Ek in *.
  apply Z2Nat.id, Z.mod_pos_bound. lia.
Qed.

Lemma ring_index_lt rb s : shape rb -> (index rb s < length (slots rb))%nat.
Proof.
  intros Hsh. pose proof (ring_index_mod rb s Hsh) as Hi. pose proof (capacity_pos rb Hsh).
  pose proof (sh_len rb Hsh). pose proof (Z.mod_pos_bound s (capacity rb)). lia.
Qed.

(** Within one lap of each other, sequences share a slot only when equal. *)
Lemma ring_index_inj rb s s' :
  shape rb -> index rb s = index rb s' -> - capacity rb < s - s' < capacity rb -> s = s'.
Proof.
  intros Hsh Heq Hd. pose proof (capacity_pos rb Hsh).
  apply (mod_eq_close s s' (capacity rb)); [lia| |done].
  rewrite <- !ring_index_mod by done. by rewrite Heq.
Qed.

(** A whole lap apart they always collide. *)
Lemma index_wrap rb s : shape rb -> index rb (s + capacity rb) = index rb s.
Proof.
  intros Hsh. pose proof (capacity_pos rb Hsh). apply Nat2Z.inj. rewrite !ring_index_mod by done.
  rewrite <- (Z.mul_1_l (capacity rb)) at 1. apply Z.mod_add. lia.
Qed.

Lemma get_set_same rb s e : shape rb -> get (set_slot s e rb) s = Some e.
Proof.
  intros Hsh. unfold get, set_slot, index. simpl. apply list_lookup_insert_eq. by apply ring_index_lt.
Qed.

Lemma get_set_other rb s s' e :
  index rb s <> index rb s' -> get (set_slot s e rb) s' = get rb s'.
Proof. intros H. unfold get, set_slot, index in *. simpl. by apply list_lookup_insert_ne. Qed.

Lemma has_available_capacity_spec rb :
  shape rb -> has_available_capacity rb = true <->
  forall g, g ∈ gating_sequences rb -> claim rb + 1 - g < capacity rb.
Proof.
  intros Hsh. pose proof (capacity_pos rb Hsh) as Hc. unfold has_available_capacity.
  rewrite as_signed_id by lia. destruct (gating_sequences rb) as [|g gs].
  { split; [|done]. intros _ g Hg. by apply elem_of_nil in Hg. }
  rewrite Z.ltb_lt. unfold sequence.get. split.
  - intros H k Hk. pose proof (list_min_le g gs k Hk). lia.
  - intros H. assert (list_min g gs ∈ g :: gs) as Hin; [|by apply H in Hin].
    clear. revert g. induction gs as [|y gs IH]; intros g; simpl; [set_solver|].
    specialize (IH y). destruct (Z.min_spec g (list_min y gs)) as [[_ ->]|[_ ->]]; set_solver.
Qed.

Lemma ring_new_ok d cap (rb : RingBuffer E) :
  0 <= cap < 2 ^ 63 -> new d cap = Ok rb ->
  shape rb /\ claim rb = -1 /\ cursor rb = -1 /\ gating_sequences rb = [] /\ capacity rb = cap.
Proof.
  intros Hc. unfold new. destruct (is_power_of_two cap) eqn:Ep; simpl; [|done]. intros [= <-].
  apply is_power_of_two_spec in Ep as (k & Hk & ->); [|lia]. simpl.
  split_and!; try done. split; simpl.
  - exists k. split; [|done]. split; [done|].
    destruct (Z.le_gt_cases k 62); [done|]. assert (2 ^ 63 <= 2 ^ k) by (apply Z.pow_le_mono_r; lia). lia.
  - done.
  - rewrite length_fmap, length_seq. lia.
Qed.
End lemmas.
End ring_buffer.
Abbreviation RingBuffer := ring_buffer.RingBuffer.
