(* ===== verification/Pipeline.v ===== *)
(** * core/engine/pipeline.rs: builder, producer and worker threads

    The running system is a transition system.  The producer executes [publish_event]
    one atomic access at a time, each worker executes the loop of [PipelineRunner::run]
    one iteration of the batch loop at a time, and [stop] may happen at any moment.  A
    schedule is a list of actions; [published] and [handled] record what was handed to
    the buffer and to the handlers. *)

From stdpp Require Import base numbers list gmap strings.
From Stdlib Require Import ZArith Lia.
From S2P Require Import Prelude External Common RingBuffer.

Module pipeline.
Import ring_buffer.

Section pipeline.
Context {E : Type}.
(** The net effect on the slot of one pass of the handler chain (the handlers get
    the event by mutable reference). *)
Variable handle : Z -> bool -> E -> E.

Inductive Producer :=
  | PIdle
  | PChecked (e : E)
  | PClaimed (s : Z) (e : E)
  | PWritten (s : Z) (e : E).

(** Where a worker is in its loop: about to load the cursor, about to load the
    shutdown flag, in the batch loop with a loaded cursor, about to store its gate,
    or returned. *)
Inductive Phase := Poll | Idle | Batch (c : Z) | Gate | Stopped.

Record Worker : Type := MkWorker {
  consumer_seq : Z;
  phase : Phase;
  handled : list (Z * E * bool);
}.

Record State : Type := MkState {
  rb : RingBuffer E;
  producer : Producer;
  workers : list Worker;
  shutdown : bool;
  published : list E;
}.

(** *** PipelineBuilder: [b_result_ring] is the size of the result ring it holds. *)
Record PipelineBuilder : Type := MkBuilder {
  b_capacity : Z;
  b_num_workers : nat;
  b_result_ring : Z;
}.
Definition builder_new : PipelineBuilder := MkBuilder 65536 1 65536.
Definition with_capacity (c : Z) (b : PipelineBuilder) : PipelineBuilder :=
  MkBuilder c (b_num_workers b) (if is_power_of_two c then c else b_result_ring b).
(** [None] is the failed assertion. *)
Definition with_workers (n : nat) (b : PipelineBuilder) : option PipelineBuilder :=
  if bool_decide (0 < n)%nat then Some (MkBuilder (b_capacity b) n (b_result_ring b)) else None.

Fixpoint add_gates (n : nat) (rb : RingBuffer E) : RingBuffer E :=
  match n with O => rb | S n => add_gates n (add_gating_sequence rb).2 end.

Definition start_worker (shard_id : nat) : Worker := MkWorker (Z.of_nat shard_id - 1) Poll [].

Definition build (default_event : nat -> E) (b : PipelineBuilder) : BlazerResult State :=
  let? ring := ring_buffer.new default_event (b_capacity b) in
  Ok (MkState (add_gates (b_num_workers b) ring) PIdle
        (start_worker <$> seq 0 (b_num_workers b)) false []).

(** *** Pipeline::publish_event, as one call of the single producer *)
Definition publish_event (e : E) (r : RingBuffer E) : BlazerResult Z * RingBuffer E :=
  if negb (has_available_capacity r) then (Err (RingBufferFull 1), r)
  else let '(s, r) := next_sequence r in
       let r := set_slot s e r in
       (Ok s, publish s r).

(** *** One iteration of the worker loop *)
Definition worker_step (num_shards : Z) (w : nat) (wk : Worker) (s : State)
    : option (Worker * RingBuffer E) :=
  let cs := consumer_seq wk in
  match phase wk with
  | Poll => Some (MkWorker cs (if cs <? cursor (rb s) then Batch (cursor (rb s)) else Idle) (handled wk), rb s)
  | Idle => Some (MkWorker cs (if shutdown s then Stopped else Poll) (handled wk), rb s)
  | Batch c =>
      if cs <? c then
        let q := cs + num_shards in
        if c <? q then Some (MkWorker cs Gate (handled wk), rb s)
        else
          let end_of_batch := c - (num_shards - 1) <=? q in
          match get (rb s) q with
          | None => None
          | Some e => Some (MkWorker q (Batch c) (handled wk ++ [(q, e, end_of_batch)]),
                            set_slot q (handle q end_of_batch e) (rb s))
          end
      else Some (MkWorker cs Gate (handled wk), rb s)
  | Gate => Some (MkWorker cs Poll (handled wk), set_gate w cs (rb s))
  | Stopped => None
  end.

Inductive Action := ABegin (e : E) | AClaim | AWrite | APublish | AStop | AWorker (w : nat).

Definition num_shards (s : State) : Z := Z.of_nat (length (workers s)).

Definition step (a : Action) (s : State) : option State :=
  match a, producer s with
  | ABegin e, PIdle =>
      if has_available_capacity (rb s)
      then Some (MkState (rb s) (PChecked e) (workers s) (shutdown s) (published s))
      else None
  | AClaim, PChecked e =>
      let '(q, r) := next_sequence (rb s) in
      Some (MkState r (PClaimed q e) (workers s) (shutdown s) (published s))
  | AWrite, PClaimed q e =>
      Some (MkState (set_slot q e (rb s)) (PWritten q e) (workers s) (shutdown s) (published s))
  | APublish, PWritten q e =>
      Some (MkState (publish q (rb s)) PIdle (workers s) (shutdown s) (published s ++ [e]))
  | AStop, _ => Some (MkState (rb s) (producer s) (workers s) true (published s))
  | AWorker w, _ =>
      match workers s !! w with
      | None => None
      | Some wk =>
          match worker_step (num_shards s) w wk s with
          | None => None
          | Some (wk', r) =>
              Some (MkState r (producer s) (<[w := wk']> (workers s)) (shutdown s) (published s))
          end
      end
  | _, _ => None
  end.

Fixpoint run (acts : list Action) (s : State) : option State :=
  match acts with
  | [] => Some s
  | a :: acts => match step a s with None => None | Some s' => run acts s' end
  end.

(** A call of [publish_event] that nothing interleaves with. *)
Definition produce (e : E) : list Action := [ABegin e; AClaim; AWrite; APublish].
End pipeline.
Arguments Producer E : clear implicits.
Arguments Worker E : clear implicits.
Arguments State E : clear implicits.
Arguments Action E : clear implicits.
End pipeline.

(** ** The invariant of the running system *)
Section invariant.
Context {E : Type}.
Variable handle : Z -> bool -> E -> E.
Import ring_buffer pipeline.
Implicit Types (s : State E) (wk : Worker E) (r : RingBuffer E).

(** Worker [w] of [n] owns the sequences congruent to [w - 1]. *)
Definition owned (n : Z) (w : nat) (q : Z) : Prop := (q - (Z.of_nat w - 1)) mod n = 0.

Record worker_ok (n : Z) (r : RingBuffer E) (pub : list E) (w : nat) wk : Prop := {
  wo_gate : exists g, gating_sequences r !! w = Some g /\ g <= consumer_seq wk;
  wo_seq : consumer_seq wk = Z.of_nat w - 1 + n * Z.of_nat (length (handled wk));
  wo_handled : forall i q e b, handled wk !! i = Some (q, e, b) ->
    q = Z.of_nat w - 1 + n * (Z.of_nat i + 1) /\ pub !! Z.to_nat q = Some e;
  wo_phase : forall c, phase wk = Batch c -> c <= cursor r;
  wo_reach : handled wk = [] \/ consumer_seq wk <= cursor r;
  wo_pending : forall q, consumer_seq wk < q <= cursor r -> owned n w q ->
    get r q = pub !! Z.to_nat q;
}.

Record Inv (k : Z) s : Prop := {
  inv_shape : shape (rb s);
  inv_gates : length (gating_sequences (rb s)) = length (workers s);
  inv_workers : (0 < length (workers s))%nat;
  inv_cursor : cursor (rb s) = Z.of_nat (length (published s)) - 1;
  inv_bound : claim (rb s) < k;
  inv_lap : forall g, g ∈ gating_sequences (rb s) -> cursor (rb s) - g < capacity (rb s);
  inv_producer : match producer s with
    | PIdle => claim (rb s) = cursor (rb s)
    | PChecked _ => claim (rb s) = cursor (rb s) /\
        forall g, g ∈ gating_sequences (rb s) -> cursor (rb s) + 1 - g < capacity (rb s)
    | PClaimed q e => claim (rb s) = q /\ q = cursor (rb s) + 1 /\
        forall g, g ∈ gating_sequences (rb s) -> q - g < capacity (rb s)
    | PWritten q e => claim (rb s) = q /\ q = cursor (rb s) + 1 /\
        (forall g, g ∈ gating_sequences (rb s) -> q - g < capacity (rb s)) /\
        get (rb s) q = Some e
    end;
  inv_worker : forall w wk, workers s !! w = Some wk ->
    worker_ok (num_shards s) (rb s) (published s) w wk;
}.

(** A change of the buffer that keeps the gates, the cursor and every slot the worker
    still has to read. *)
Lemma worker_ok_frame n r r' pub w wk :
  worker_ok n r pub w wk ->
  gating_sequences r' !! w = gating_sequences r !! w -> cursor r' = cursor r ->
  (forall q, consumer_seq wk < q <= cursor r -> owned n w q -> get r' q = get r q) ->
  worker_ok n r' pub w wk.
Proof.
  intros [Hg Hs Hh Hp Hr Hq] Eg Ec Eq. split; rewrite ?Eg, ?Ec; try done.
  intros q Hlt Ho. rewrite Eq; [by apply Hq|done|done].
Qed.

(** The sequence a worker still has to read is less than a lap behind. *)
Lemma pending_window n r pub w wk q hi :
  worker_ok n r pub w wk -> (forall g, g ∈ gating_sequences r -> hi - g < capacity r) ->
  consumer_seq wk < q -> hi - q < capacity r.
Proof.
  intros [(g & Hg & Hle) _ _ _ _ _] Hlap Hq.
  specialize (Hlap g (list_elem_of_lookup_2 _ _ _ Hg)). lia.
Qed.

Lemma consumer_seq_ge (s : State E) r pub w wk :
  worker_ok (num_shards s) r pub w wk -> -1 <= consumer_seq wk.
Proof.
  intros H. rewrite (wo_seq _ _ _ _ _ H). unfold num_shards.
  pose proof (Z.mul_nonneg_nonneg (Z.of_nat (length (workers s))) (Z.of_nat (length (handled wk)))). lia.
Qed.

Lemma step_begin k e s s' : Inv k s -> step handle (ABegin e) s = Some s' -> Inv k s'.
Proof.
  intros [Hsh Hg Hn Hc Hb Hl Hp Hw]. simpl. destruct (producer s) eqn:Ep; try done.
  destruct (has_available_capacity (rb s)) eqn:Ea; [|done]. intros [= <-].
  pose proof (proj1 (has_available_capacity_spec _ Hsh) Ea) as Hroom. split; simpl; try done.
  split; [done|]. intros g Hin. specialize (Hroom g Hin). lia.
Qed.

Lemma step_claim k s s' : Inv k s -> k < 2 ^ 63 - 1 -> step handle AClaim s = Some s' -> Inv (k + 1) s'.
Proof.
  intros [Hsh Hg Hn Hc Hb Hl Hp Hw] Hk. simpl. destruct (producer s) eqn:Ep; try done.
  intros [= <-]. destruct Hp as [Hcl Hroom].
  assert (sequence.increment (claim (rb s)) = claim (rb s) + 1) as Einc.
  { unfold sequence.increment. apply as_signed_id; lia. }
  split; simpl; try done.
  - by destruct Hsh.
  - lia.
  - rewrite Einc. split_and!; [done|lia|]. intros g Hin. specialize (Hroom g Hin). lia.
  - intros w wk Hwk. by eapply worker_ok_frame; [by apply Hw|..].
Qed.

Lemma step_write k s s' : Inv k s -> step handle AWrite s = Some s' -> Inv k s'.
Proof.
  intros [Hsh Hg Hn Hc Hb Hl Hp Hw]. simpl. destruct (producer s) as [| |q e|] eqn:Ep; try done.
  intros [= <-]. destruct Hp as (Hcl & Hq & Hroom). split; simpl; try done.
  - destruct Hsh as [Hpow Hm Hlen]. split; simpl; [done|done|]. by rewrite length_insert.
  - split_and!; try done. by apply get_set_same.
  - intros w wk Hwk. specialize (Hw w wk Hwk). eapply worker_ok_frame; [done..|].
    intros p Hlt Ho. apply get_set_other. intros Heq.
    pose proof (pending_window _ _ _ _ _ p q Hw Hroom ltac:(lia)).
    apply ring_index_inj in Heq; [lia|done|lia].
Qed.

Lemma step_publish k s s' : Inv k s -> step handle APublish s = Some s' -> Inv k s'.
Proof.
  intros [Hsh Hg Hn Hc Hb Hl Hp Hw]. simpl. destruct (producer s) as [| | |q e] eqn:Ep; try done.
  intros [= <-]. destruct Hp as (Hcl & Hq & Hroom & Hslot). unfold sequence.set.
  split; simpl; try done.
  - by destruct Hsh.
  - unfold sequence.set. rewrite length_app. simpl. lia.
  - intros w wk Hwk. destruct (Hw w wk Hwk) as [Wg Ws Wh Wp Wr Wq]. split; simpl; try done.
    + intros i p x b Hi. destruct (Wh i p x b Hi) as [-> Hx]. split; [done|].
      by apply lookup_app_l_Some.
    + intros c Hph. specialize (Wp c Hph). unfold sequence.set. lia.
    + destruct Wr as [|Wr]; [by left|right]. unfold sequence.set. lia.
    + unfold sequence.set. intros p Hlt Ho. destruct (decide (p = q)) as [->|Hne].
      * transitivity (Some e); [exact Hslot|]. symmetry. apply list_lookup_middle. lia.
      * change (get (publish q (rb s)) p) with (get (rb s) p).
        rewrite (Wq p ltac:(lia) Ho). symmetry. apply lookup_app_l.
        pose proof (consumer_seq_ge _ _ _ _ _ (Hw w wk Hwk)). lia.
Qed.

Definition with_worker (w : nat) wk r s : State E :=
  MkState r (producer s) (<[w := wk]> (workers s)) (shutdown s) (published s).

Lemma num_shards_with_worker w wk r s : num_shards (with_worker w wk r s) = num_shards s.
Proof. unfold num_shards, with_worker. simpl. by rewrite length_insert. Qed.

(** Only the worker changed. *)
Lemma Inv_local k s w wk wk' :
  Inv k s -> workers s !! w = Some wk ->
  worker_ok (num_shards s) (rb s) (published s) w wk' -> Inv k (with_worker w wk' (rb s) s).
Proof.
  intros [Hsh Hg Hn Hc Hb Hl Hp Hw] Hwk Hok. split; simpl; rewrite ?length_insert; try done.
  rewrite num_shards_with_worker. intros w2 wk2 H2.
  destruct (decide (w2 = w)) as [->|Hne].
  - rewrite list_lookup_insert_eq in H2 by (by eapply lookup_lt_Some). by simplify_eq.
  - rewrite list_lookup_insert_ne in H2 by done. by apply Hw.
Qed.

Lemma worker_ok_phase n r pub w wk ph :
  worker_ok n r pub w wk -> (forall c, ph = Batch c -> c <= cursor r) ->
  worker_ok n r pub w (MkWorker (consumer_seq wk) ph (handled wk)).
Proof. intros [] Hph. by split. Qed.

(** Storing the gate: gates only grow. *)
Lemma Inv_gate k s w wk :
  Inv k s -> workers s !! w = Some wk ->
  Inv k (with_worker w (MkWorker (consumer_seq wk) Poll (handled wk))
           (set_gate w (consumer_seq wk) (rb s)) s).
Proof.
  intros [Hsh Hg Hn Hc Hb Hl Hp Hw] Hwk. pose proof (Hw w wk Hwk) as Hok.
  destruct (wo_gate _ _ _ _ _ Hok) as (g0 & Hg0 & Hle0).
  assert (w < length (gating_sequences (rb s)))%nat as Hlt by (by eapply lookup_lt_Some).
  assert (Hgates : forall hi, (forall g, g ∈ gating_sequences (rb s) -> hi - g < capacity (rb s)) ->
    forall g, g ∈ <[w := consumer_seq wk]> (gating_sequences (rb s)) -> hi - g < capacity (rb s)).
  { intros hi H g [i Hi]%list_elem_of_lookup. destruct (decide (i = w)) as [->|Hne].
    - rewrite list_lookup_insert_eq in Hi by done. simplify_eq.
      specialize (H g0 (list_elem_of_lookup_2 _ _ _ Hg0)). lia.
    - rewrite list_lookup_insert_ne in Hi by done. apply H. by eapply list_elem_of_lookup_2. }
  split; simpl; rewrite ?length_insert; try done.
  - by destruct Hsh.
  - by apply Hgates.
  - destruct (producer s); naive_solver.
  - rewrite num_shards_with_worker. intros w2 wk2 H2. destruct (decide (w2 = w)) as [->|Hne].
    + rewrite list_lookup_insert_eq in H2 by (by eapply lookup_lt_Some). simplify_eq.
      destruct Hok as [_ Hs Hh Hph Hr Hq]. split; simpl; try done.
      exists (consumer_seq wk). by rewrite list_lookup_insert_eq.
    + rewrite list_lookup_insert_ne in H2 by done.
      eapply worker_ok_frame; [by apply Hw| |done|done]. simpl. by apply list_lookup_insert_ne.
Qed.

Lemma owned_next n w m : n <> 0 -> owned n w (Z.of_nat w - 1 + n * m).
Proof. intros H. unfold owned. replace (_ - _) with (m * n) by lia. by apply Z.mod_mul. Qed.

Lemma owned_unique n w w' q :
  Z.of_nat w < n -> Z.of_nat w' < n -> owned n w q -> owned n w' q -> w = w'.
Proof.
  unfold owned. intros Hw Hw' H H'. apply Nat2Z.inj.
  apply (mod_eq_close _ _ n); [lia| |lia].
  apply Z.mod_divide in H as [a Ha], H' as [b Hb]; try lia.
  replace (Z.of_nat w) with (Z.of_nat w' + (b - a) * n) by lia. apply Z.mod_add. lia.
Qed.

(** Handing one event to the handlers. *)
Lemma Inv_process k s w wk c e b :
  Inv k s -> workers s !! w = Some wk -> phase wk = Batch c ->
  let q := consumer_seq wk + num_shards s in
  q <= c -> get (rb s) q = Some e ->
  Inv k (with_worker w (MkWorker q (Batch c) (handled wk ++ [(q, e, b)]))
           (set_slot q (handle q b e) (rb s)) s).
Proof.
  intros HI Hwk Hph q Hqc He. pose proof HI as [Hsh Hg Hn Hc Hb Hl Hp Hw].
  pose proof (Hw w wk Hwk) as Hok. pose proof (wo_phase _ _ _ _ _ Hok c Hph) as Hcc.
  assert (0 < num_shards s) as Hns by (unfold num_shards; lia).
  assert (q = consumer_seq wk + num_shards s) as Eq0 by done. clearbody q.
  assert (q = Z.of_nat w - 1 + num_shards s * (Z.of_nat (length (handled wk)) + 1)) as Eq
    by (rewrite Eq0, (wo_seq _ _ _ _ _ Hok); lia).
  assert (owned (num_shards s) w q) as Hoq by (rewrite Eq; apply owned_next; lia).
  assert (Hother : forall w2 wk2 q2, workers s !! w2 = Some wk2 -> consumer_seq wk2 < q2 <= cursor (rb s) ->
    q2 <> q -> get (set_slot q (handle q b e) (rb s)) q2 = get (rb s) q2).
  { intros w2 wk2 q2 H2 Hr Hne. apply get_set_other. intros Heq. apply Hne.
    pose proof (pending_window _ _ _ _ _ q2 _ (Hw w2 wk2 H2) Hl ltac:(lia)).
    pose proof (pending_window _ _ _ _ _ q _ Hok Hl ltac:(lia)).
    symmetry. apply (ring_index_inj (rb s)); [done|done|lia]. }
  split; simpl; rewrite ?length_insert; try done.
  - destruct Hsh as [Hpow Hm Hlen]. split; simpl; [done|done|]. by rewrite length_insert.
  - destruct (producer s) as [| | |q0 e0]; try done. destruct Hp as (? & -> & Hroom & Hs0).
    split_and!; try done. rewrite get_set_other; [done|]. intros Heq.
    pose proof (pending_window _ _ _ _ _ q _ Hok Hroom ltac:(lia)).
    apply ring_index_inj in Heq; [lia|done|lia].
  - rewrite num_shards_with_worker. intros w2 wk2 H2. destruct (decide (w2 = w)) as [->|Hne].
    + rewrite list_lookup_insert_eq in H2 by (by eapply lookup_lt_Some). injection H2 as <-.
      pose proof (wo_pending _ _ _ _ _ Hok q ltac:(lia) Hoq) as Hpub. rewrite He in Hpub.
      pose proof Hok as [Wg Ws Wh Wp Wr Wq]. split; simpl.
      * destruct Wg as (g & Hgw & Hle). exists g. split; [done|lia].
      * rewrite length_app. simpl. lia.
      * intros i p x b' Hi. apply lookup_app_Some in Hi as [Hi|[Hle Hi]]; [by eapply Wh|].
        apply list_lookup_singleton_Some in Hi as [Hi Hx]. injection Hx as <- <- <-.
        split; [|done]. rewrite Eq. assert (i = length (handled wk)) as -> by lia. done.
      * intros c' [= <-]. done.
      * right. lia.
      * intros p Hlt Ho. transitivity (get (rb s) p); [|by apply Wq; [lia|]].
        apply (Hother w wk p Hwk); lia.
    + rewrite list_lookup_insert_ne in H2 by done. eapply worker_ok_frame; [by apply Hw|done|done|].
      intros p Hlt Ho. apply (Hother w2 wk2 p H2 Hlt). intros ->. apply Hne.
      apply lookup_lt_Some in H2, Hwk. eapply (owned_unique (num_shards s)); unfold num_shards in *; eauto; lia.
Qed.

Lemma step_worker k w s s' : Inv k s -> step handle (AWorker w) s = Some s' -> Inv k s'.
Proof.
  intros HI. simpl. destruct (workers s !! w) as [wk|] eqn:Hwk; [|destruct (producer s); done].
  intros Hstep. assert (match worker_step handle (num_shards s) w wk s with
    | Some (wk', r) => Inv k (with_worker w wk' r s) | None => True end) as Hgoal.
  2: { destruct (worker_step handle (num_shards s) w wk s) as [[wk' r]|];
         [|by destruct (producer s)].
       assert (s' = with_worker w wk' r s) as ->; [|done].
       unfold with_worker. destruct (producer s); congruence. }
  clear Hstep. unfold worker_step. pose proof (inv_worker _ _ HI w wk Hwk) as Hok.
  destruct (phase wk) as [| |c| |] eqn:Hph; try done.
  - eapply Inv_local; [done..|]. apply worker_ok_phase; [done|]. intros c.
    destruct (_ <? _); intros [= <-]; lia.
  - eapply Inv_local; [done..|]. apply worker_ok_phase; [done|]. by destruct (shutdown s).
  - destruct (Z.ltb_spec (consumer_seq wk) c) as [Hlt|Hge].
    + destruct (Z.ltb_spec c (consumer_seq wk + num_shards s)) as [Hgt|Hle].
      { eapply Inv_local; [done..|]. by apply worker_ok_phase. }
      destruct (get (rb s) _) as [e|] eqn:He; [|done].
      by apply (Inv_process k s w wk c e).
    + eapply Inv_local; [done..|]. by apply worker_ok_phase.
  - by apply Inv_gate.
Qed.

Lemma Inv_weaken k k' s : Inv k s -> k <= k' -> Inv k' s.
Proof. intros [] Hk. split; try done. lia. Qed.

Lemma step_inv k a s s' :
  Inv k s -> k < 2 ^ 63 - 1 -> step handle a s = Some s' -> Inv (k + 1) s'.
Proof.
  intros HI Hk Hs. destruct a.
  - eapply Inv_weaken; [by eapply step_begin|lia].
  - by eapply step_claim.
  - eapply Inv_weaken; [by eapply step_write|lia].
  - eapply Inv_weaken; [by eapply step_publish|lia].
  - simpl in Hs. assert (s' = MkState (rb s) (producer s) (workers s) true (published s)) as ->
      by (destruct (producer s); congruence).
    destruct HI. split; simpl; try done. lia.
  - eapply Inv_weaken; [by eapply step_worker|lia].
Qed.

Lemma run_inv acts k s s' :
  Inv k s -> k + Z.of_nat (length acts) < 2 ^ 63 - 1 -> run handle acts s = Some s' ->
  Inv (k + Z.of_nat (length acts)) s'.
Proof.
  revert k s. induction acts as [|a acts IH]; intros k s HI Hk Hr; simpl in Hr.
  - simplify_eq. eapply Inv_weaken; [done|lia].
  - destruct (step handle a s) as [s1|] eqn:Ha; [|done].
    assert (Inv (k + 1) s1) as H1 by (eapply step_inv; [done|simpl in Hk; lia|done]).
    eapply Inv_weaken; [eapply IH; [done| |done]|]; simpl in *; lia.
Qed.
End invariant.

(** ** The state a builder produces *)
Section build.
Context {E : Type}.
Variable handle : Z -> bool -> E -> E.
Variable default_event : nat -> E.
Import ring_buffer pipeline.

Lemma add_gates_spec n (r : RingBuffer E) :
  add_gates n r = MkRing (slots r) (capacity r) (mask r) (claim r) (cursor r)
                    (gating_sequences r ++ replicate n (-1)).
Proof.
  revert r. induction n as [|n IH]; intros [sl cap m cl cu gs]; simpl.
  - by rewrite app_nil_r.
  - rewrite IH. simpl. by rewrite <- app_assoc.
Qed.

(** A builder that can run: a capacity that fits a 63-bit size and a worker. *)
Definition builder_ok (b : PipelineBuilder) : Prop :=
  0 <= b_capacity b < 2 ^ 63 /\ (0 < b_num_workers b)%nat.

Lemma build_inv b s : builder_ok b -> build default_event b = Ok s ->
  Inv 0 s /\ length (workers s) = b_num_workers b /\ capacity (rb s) = b_capacity b.
Proof.
  intros [Hcap Hn]. unfold build. destruct (ring_buffer.new default_event (b_capacity b)) as [r|e] eqn:Er; [|done].
  simpl. intros [= <-]. apply ring_new_ok in Er as (Hsh & Hcl & Hcu & Hg & Hc); [|done]. simpl.
  rewrite add_gates_spec, Hg, Hcl, Hcu. simpl. pose proof (capacity_pos r Hsh).
  rewrite length_fmap, length_seq. split_and!; try done.
  assert (forall g, g ∈ replicate (b_num_workers b) (-1) -> g = -1) as Hrep
    by (by intros g [? ?]%elem_of_replicate).
  split; simpl; rewrite ?length_fmap, ?length_seq, ?length_replicate; try done.
  - by destruct Hsh.
  - intros g Hin. rewrite (Hrep g Hin). lia.
  - intros w wk Hw. apply list_lookup_fmap_Some in Hw as (i & -> & Hi).
    apply lookup_seq in Hi as [-> Hlt]. simpl. split; simpl; try done.
    + exists (-1). rewrite lookup_replicate_2 by lia. split; [done|lia].
    + lia.
    + by left.
    + intros q Hq. lia.
Qed.

(** The states reachable from a built pipeline in fewer than [2^62] steps, before any
    64-bit sequence can wrap. *)
Definition reachable (b : PipelineBuilder) (s : State E) : Prop :=
  builder_ok b /\ exists acts s0, build default_event b = Ok s0 /\ run handle acts s0 = Some s /\
    Z.of_nat (length acts) < 2 ^ 62.

Lemma run_workers acts s s' : run handle acts s = Some s' -> length (workers s') = length (workers s).
Proof.
  revert s. induction acts as [|a acts IH]; intros s Hr; simpl in Hr; [by simplify_eq|].
  destruct (step handle a s) as [s1|] eqn:Hs; [|done]. rewrite (IH s1 Hr).
  unfold step in Hs. repeat case_match; simplify_eq; simpl; by rewrite ?length_insert.
Qed.

Lemma step_capacity a s s' : step handle a s = Some s' -> capacity (rb s') = capacity (rb s).
Proof. unfold step, worker_step. intros Hs. by repeat (case_match; simplify_eq/=). Qed.

Lemma run_capacity acts s s' : run handle acts s = Some s' -> capacity (rb s') = capacity (rb s).
Proof.
  revert s. induction acts as [|a acts IH]; intros s Hr; simpl in Hr; [by simplify_eq|].
  destruct (step handle a s) as [s1|] eqn:Hs; [|done].
  by rewrite (IH s1 Hr), (step_capacity a s s1 Hs).
Qed.

Lemma reachable_inv b s : reachable b s ->
  Inv (2 ^ 62) s /\ length (workers s) = b_num_workers b /\ capacity (rb s) = b_capacity b.
Proof.
  intros (Hb & acts & s0 & Hs0 & Hr & Hlen). destruct (build_inv b s0 Hb Hs0) as (HI & Hn & Hc).
  split_and!.
  - eapply Inv_weaken; [eapply run_inv; [done| |done]|]; lia.
  - by rewrite (run_workers _ _ _ Hr).
  - by rewrite (run_capacity _ _ _ Hr).
Qed.

(** C2: for every interleaving of the producer, any number of workers and a stop, what a
    worker hands to its handlers is exactly what the producer published: the i-th event
    of worker [w] out of [n] has sequence [w - 1 + n * (i + 1)] and is the event that was
    published under that sequence.  No slot is overwritten before it is read, although
    the handlers write to the slots too. *)
Theorem pipeline_delivers_published (b : PipelineBuilder) (s : State E) w wk i q e eob :
  reachable b s -> workers s !! w = Some wk -> handled wk !! i = Some (q, e, eob) ->
  q = Z.of_nat w - 1 + Z.of_nat (b_num_workers b) * (Z.of_nat i + 1) /\
  published s !! Z.to_nat q = Some e.
Proof.
  intros Hr Hw Hi. destruct (reachable_inv b s Hr) as (HI & Hn & _). rewrite <- Hn.
  exact (wo_handled _ _ _ _ _ (inv_worker _ _ HI w wk Hw) i q e eob Hi).
Qed.

(** with one worker nothing is lost, repeated or reordered: the events handled so far
    are the first events published, in order. *)
Theorem single_worker_in_order (b : PipelineBuilder) (s : State E) wk :
  b_num_workers b = 1%nat -> reachable b s -> workers s !! 0%nat = Some wk ->
  (fun x => (x.1.1, x.1.2)) <$> handled wk =
    imap (fun i e => (Z.of_nat i, e)) (take (length (handled wk)) (published s)).
Proof.
  intros H1 Hr Hw. apply list_eq. intros i. rewrite list_lookup_fmap, list_lookup_imap.
  destruct (handled wk !! i) as [[[q e] eob]|] eqn:Hi; simpl.
  - destruct (reachable_inv b s Hr) as (HI & Hn & _).
    destruct (wo_handled _ _ _ _ _ (inv_worker _ _ HI 0%nat wk Hw) i q e eob Hi) as [Eq He].
    unfold num_shards in Eq. rewrite Hn, H1 in Eq. assert (q = Z.of_nat i) as -> by lia.
    rewrite Nat2Z.id in He. rewrite lookup_take_lt by (by eapply lookup_lt_Some). by rewrite He.
  - rewrite lookup_take_ge; [done|]. by apply lookup_ge_None.
Qed.

(** C10: backpressure keeps the producer within one lap of the slowest worker: never more
    than [capacity - 1] published events are unacknowledged by any gate. *)
Theorem pipeline_backpressure (b : PipelineBuilder) (s : State E) g :
  reachable b s -> g ∈ gating_sequences (rb s) ->
  Z.of_nat (length (published s)) - 1 - g < b_capacity b.
Proof.
  intros Hr Hg. destruct (reachable_inv b s Hr) as (HI & _ & <-).
  rewrite <- (inv_cursor _ _ HI). by apply (inv_lap _ _ HI).
Qed.

(** with [n > 1] workers the first [n - 1] events are never handled by anyone: worker
    [w] starts at [w - 1] but adds [n] before it handles its first event, so sequences
    [0 .. n - 2] belong to no worker. *)
Theorem multi_worker_skips_first (b : PipelineBuilder) (s : State E) w wk i q e eob :
  reachable b s -> workers s !! w = Some wk -> handled wk !! i = Some (q, e, eob) ->
  Z.of_nat (b_num_workers b) - 1 <= q.
Proof.
  intros Hr Hw Hi. destruct (reachable_inv b s Hr) as (HI & Hn & _).
  destruct (wo_handled _ _ _ _ _ (inv_worker _ _ HI w wk Hw) i q e eob Hi) as [-> _].
  unfold num_shards. rewrite Hn. nia.
Qed.
End build.

(** ** Progress of a single worker, and two ways a worker fails to finish *)
Section progress.
Context {E : Type}.
Variable handle : Z -> bool -> E -> E.
Variable default_event : nat -> E.
Import ring_buffer pipeline.
Implicit Types (s : State E) (wk : Worker E).

Lemma run_app acts1 acts2 s :
  run handle (acts1 ++ acts2) s =
    match run handle acts1 s with Some s' => run handle acts2 s' | None => None end.
Proof.
  revert s. induction acts1 as [|a acts1 IH]; intros s; simpl; [done|].
  by destruct (step handle a s).
Qed.

Lemma run_cons a acts s :
  run handle (a :: acts) s = match step handle a s with Some s' => run handle acts s' | None => None end.
Proof. done. Qed.

(** What worker steps leave alone. *)
Definition same_input s s' : Prop :=
  published s' = published s /\ shutdown s' = shutdown s /\ length (workers s') = length (workers s).

(** From [s], some number of steps of worker 0 alone reaches a state with [P]. *)
Definition worker_reaches k s (P : State E -> Worker E -> Prop) : Prop :=
  exists m s' wk, run handle (replicate m (AWorker 0)) s = Some s' /\ Inv k s' /\
    workers s' !! 0%nat = Some wk /\ same_input s s' /\ P s' wk.

Lemma worker_reaches_here k s wk (P : State E -> Worker E -> Prop) :
  Inv k s -> workers s !! 0%nat = Some wk -> P s wk -> worker_reaches k s P.
Proof. intros HI Hw HP. exists 0%nat, s, wk. by split_and!. Qed.

Lemma worker_reaches_step k s s1 P :
  step handle (AWorker 0) s = Some s1 -> same_input s s1 -> worker_reaches k s1 P -> worker_reaches k s P.
Proof.
  intros Hs (Ep & Es & El) (m & s' & wk & Hr & HI & Hw & (Ep' & Es' & El') & HP).
  exists (S m), s', wk. rewrite replicate_S, run_cons, Hs. split_and!; try done. split_and!; congruence.
Qed.

Lemma worker_reaches_trans k s P Q :
  worker_reaches k s P ->
  (forall s' wk, Inv k s' -> workers s' !! 0%nat = Some wk -> same_input s s' -> P s' wk ->
     worker_reaches k s' Q) ->
  worker_reaches k s Q.
Proof.
  intros (m & s' & wk & Hr & HI & Hw & Hsame & HP) Hnext.
  destruct (Hnext s' wk HI Hw Hsame HP) as (m2 & s2 & wk2 & Hr2 & HI2 & Hw2 & (Ep2 & Es2 & El2) & HQ).
  exists (m + m2)%nat, s2, wk2. rewrite replicate_add, run_app, Hr.
  destruct Hsame as (? & ? & ?). split_and!; try done. split_and!; congruence.
Qed.

(** The step of worker 0, as an update of its record. *)
Lemma step_worker_0 k s wk wk' r :
  Inv k s -> workers s !! 0%nat = Some wk -> worker_step handle (num_shards s) 0 wk s = Some (wk', r) ->
  step handle (AWorker 0) s = Some (with_worker 0 wk' r s) /\
  Inv k (with_worker 0 wk' r s) /\ workers (with_worker 0 wk' r s) !! 0%nat = Some wk' /\
  same_input s (with_worker 0 wk' r s).
Proof.
  intros HI Hw Hs.
  assert (step handle (AWorker 0) s = Some (with_worker 0 wk' r s)) as Hstep.
  { simpl. rewrite Hw, Hs. unfold with_worker. by destruct (producer s). }
  split_and!; [done|exact (step_worker handle k 0 s _ HI Hstep)| |].
  - simpl. apply list_lookup_insert_eq. by eapply lookup_lt_Some.
  - unfold same_input. simpl. by rewrite length_insert.
Qed.

Lemma drain_batch k s wk c m :
  Inv k s -> length (workers s) = 1%nat -> workers s !! 0%nat = Some wk -> phase wk = Batch c ->
  c - consumer_seq wk <= Z.of_nat m ->
  worker_reaches k s (fun _ wk' => phase wk' = Gate /\ c <= consumer_seq wk').
Proof.
  revert s wk. induction m as [|m IH]; intros s wk HI Hn Hw Hph Hm.
  - eapply worker_reaches_step.
    + eapply step_worker_0; [done..|]. unfold worker_step. rewrite Hph.
      rewrite (proj2 (Z.ltb_ge _ _)) by lia. done.
    + unfold same_input. simpl. by rewrite length_insert.
    + eapply worker_reaches_here; [eapply Inv_local; [done..|]; apply worker_ok_phase; [|done] | |].
      * by apply (inv_worker _ _ HI).
      * simpl. apply list_lookup_insert_eq. lia.
      * simpl. split; [done|lia].
  - destruct (Z.ltb_spec (consumer_seq wk) c) as [Hlt|Hge]; [|by apply (IH s wk); lia || done].
    assert (num_shards s = 1) as Hns by (unfold num_shards; lia).
    destruct (lookup_lt_is_Some_2 (slots (rb s)) (index (rb s) (consumer_seq wk + 1))) as [e He].
    { apply ring_index_lt, HI. }
    destruct (step_worker_0 k s wk
      (MkWorker (consumer_seq wk + 1) (Batch c) (handled wk ++ [(consumer_seq wk + 1, e, c - 0 <=? consumer_seq wk + 1)]))
      (set_slot (consumer_seq wk + 1) (handle (consumer_seq wk + 1) (c - 0 <=? consumer_seq wk + 1) e) (rb s)))
      as (Hs & HI' & Hw' & Hsame); [done|done| |].
    { unfold worker_step. rewrite Hph, Hns. rewrite (proj2 (Z.ltb_lt _ _)) by lia.
      rewrite (proj2 (Z.ltb_ge _ _)) by lia. unfold get. by rewrite He. }
    eapply worker_reaches_step; [done..|]. eapply IH; [done| |done|done|simpl; lia].
    by rewrite (proj2 (proj2 Hsame)).
Qed.

(** From the batch loop, through the gate store, back to polling. *)
Lemma finish_batch k s wk c :
  Inv k s -> length (workers s) = 1%nat -> workers s !! 0%nat = Some wk -> phase wk = Batch c ->
  worker_reaches k s (fun _ wk' => phase wk' = Poll /\ c <= consumer_seq wk').
Proof.
  intros HI Hn Hw Hph. eapply worker_reaches_trans.
  { apply (drain_batch k s wk c (Z.to_nat (c - consumer_seq wk))); [done..|lia]. }
  intros s1 wk1 HI1 Hw1 _ [Hph1 Hc1].
  destruct (step_worker_0 k s1 wk1 (MkWorker (consumer_seq wk1) Poll (handled wk1))
    (set_gate 0 (consumer_seq wk1) (rb s1))) as (Hs & HI' & Hw' & Hsame); [done|done| |].
  { unfold worker_step. by rewrite Hph1. }
  eapply worker_reaches_step; [done..|]. by eapply worker_reaches_here.
Qed.

(** One worker never runs ahead of the cursor. *)
Lemma single_le_cursor k s wk :
  Inv k s -> length (workers s) = 1%nat -> workers s !! 0%nat = Some wk -> consumer_seq wk <= cursor (rb s).
Proof.
  intros HI Hn Hw. pose proof (inv_worker _ _ HI 0%nat wk Hw) as Hok.
  destruct (wo_reach _ _ _ _ _ Hok) as [Hnil|]; [|done].
  rewrite (wo_seq _ _ _ _ _ Hok), Hnil. pose proof (inv_cursor _ _ HI). simpl. lia.
Qed.

Lemma poll_catches_up k s wk :
  Inv k s -> length (workers s) = 1%nat -> workers s !! 0%nat = Some wk -> phase wk = Poll ->
  worker_reaches k s (fun s' wk' => consumer_seq wk' = cursor (rb s')).
Proof.
  intros HI Hn Hw Hph. pose proof (single_le_cursor k s wk HI Hn Hw) as Hle.
  destruct (decide (consumer_seq wk = cursor (rb s))) as [Heq|Hne]; [by eapply worker_reaches_here|].
  destruct (step_worker_0 k s wk (MkWorker (consumer_seq wk) (Batch (cursor (rb s))) (handled wk)) (rb s))
    as (Hs & HI' & Hw' & Hsame); [done|done| |].
  { unfold worker_step. rewrite Hph. by rewrite (proj2 (Z.ltb_lt _ _)) by lia. }
  eapply worker_reaches_step; [done..|]. eapply worker_reaches_trans.
  { eapply (finish_batch k _ _ (cursor (rb s))); [done| |done|done]. by rewrite (proj2 (proj2 Hsame)). }
  intros s2 wk2 HI2 Hw2 (Ep & _ & El) [_ Hc]. eapply worker_reaches_here; [done..|].
  pose proof (single_le_cursor k s2 wk2 HI2 ltac:(destruct Hsame as (_ & _ & E1); congruence) Hw2).
  pose proof (inv_cursor _ _ HI2). pose proof (inv_cursor _ _ HI).
  destruct Hsame as (Ep1 & _ & _). rewrite Ep, Ep1 in *. lia.
Qed.

Lemma worker_catches_up k s wk :
  Inv k s -> length (workers s) = 1%nat -> workers s !! 0%nat = Some wk ->
  phase wk <> Stopped -> (phase wk = Idle -> shutdown s = false) ->
  worker_reaches k s (fun s' wk' => consumer_seq wk' = cursor (rb s')).
Proof.
  intros HI Hn Hw Hns Hidle.
  assert (worker_reaches k s (fun s' wk' => phase wk' = Poll)) as HP.
  { destruct (phase wk) as [| |c| |] eqn:Hph; [by eapply worker_reaches_here| | | |done].
    - destruct (step_worker_0 k s wk (MkWorker (consumer_seq wk) Poll (handled wk)) (rb s))
        as (Hs & HI' & Hw' & Hsame); [done|done|by unfold worker_step; rewrite Hph, Hidle|].
      eapply worker_reaches_step; [done..|]. by eapply worker_reaches_here.
    - destruct (finish_batch k s wk c HI Hn Hw Hph) as (m & s' & wk' & H1 & H2 & H3 & H4 & H5 & _).
      by exists m, s', wk'.
    - destruct (step_worker_0 k s wk (MkWorker (consumer_seq wk) Poll (handled wk))
        (set_gate 0 (consumer_seq wk) (rb s))) as (Hs & HI' & Hw' & Hsame);
        [done|done|by unfold worker_step; rewrite Hph|].
      eapply worker_reaches_step; [done..|]. by eapply worker_reaches_here. }
  eapply worker_reaches_trans; [done|]. intros s' wk' HI' Hw' (_ & _ & El) Hph.
  eapply poll_catches_up; [done|congruence|done|done].
Qed.

(** The handled events of a single worker, from the invariant. *)
Lemma single_handled k s wk :
  Inv k s -> length (workers s) = 1%nat -> workers s !! 0%nat = Some wk ->
  (fun x => x.1.2) <$> handled wk = take (length (handled wk)) (published s).
Proof.
  intros HI Hn Hw. apply list_eq. intros i. rewrite list_lookup_fmap.
  destruct (handled wk !! i) as [[[q e] eob]|] eqn:Hi; simpl.
  - destruct (wo_handled _ _ _ _ _ (inv_worker _ _ HI 0%nat wk Hw) i q e eob Hi) as [Eq He].
    unfold num_shards in Eq. rewrite Hn in Eq. replace (Z.to_nat q) with i in He by lia.
    by rewrite lookup_take_lt by (by eapply lookup_lt_Some).
  - symmetry. apply lookup_take_ge. by apply lookup_ge_None.
Qed.

(** C33: progress: in every reachable state of a single-worker pipeline whose worker has
    not decided to exit, finitely many steps of the worker alone bring it to the point
    where it has handled exactly the published events, all of them and in order. *)
Theorem single_worker_catches_up (b : PipelineBuilder) s wk :
  b_num_workers b = 1%nat -> reachable handle default_event b s -> workers s !! 0%nat = Some wk ->
  phase wk <> Stopped -> (phase wk = Idle -> shutdown s = false) ->
  exists m s' wk', run handle (replicate m (AWorker 0)) s = Some s' /\ workers s' !! 0%nat = Some wk' /\
    published s' = published s /\ (fun x => x.1.2) <$> handled wk' = published s.
Proof.
  intros H1 Hr Hw Hns Hidle. destruct (reachable_inv handle default_event b s Hr) as (HI & Hn & _).
  destruct (worker_catches_up _ s wk HI ltac:(congruence) Hw Hns Hidle)
    as (m & s' & wk' & Hrun & HI' & Hw' & (Ep & _ & El) & Hc).
  assert (length (workers s') = 1%nat) as Hn' by congruence.
  exists m, s', wk'. split_and!; [done..|]. rewrite (single_handled _ s' wk' HI' Hn' Hw').
  pose proof (wo_seq _ _ _ _ _ (inv_worker _ _ HI' 0%nat wk' Hw')) as Hseq.
  pose proof (inv_cursor _ _ HI'). unfold num_shards in Hseq. rewrite Hn' in Hseq.
  rewrite Ep in *. apply take_ge. lia.
Qed.

(** with several workers [stop] can hang: a worker that is behind the cursor by less
    than the number of workers goes round its loop forever, because it looks at the
    shutdown flag only when it has caught up with the cursor.  However many steps it
    takes, it has not returned and has handled nothing more. *)
Theorem lagging_worker_never_stops s w wk m :
  workers s !! w = Some wk -> phase wk = Poll ->
  consumer_seq wk < cursor (rb s) -> cursor (rb s) < consumer_seq wk + num_shards s ->
  exists s' wk', run handle (replicate m (AWorker w)) s = Some s' /\ workers s' !! w = Some wk' /\
    phase wk' <> Stopped /\ handled wk' = handled wk.
Proof.
  intros Hw Hph Hlt Hgt.
  assert (forall s wk, workers s !! w = Some wk ->
    (phase wk = Poll \/ phase wk = Batch (cursor (rb s)) \/ phase wk = Gate) ->
    consumer_seq wk < cursor (rb s) -> cursor (rb s) < consumer_seq wk + num_shards s ->
    exists s' wk', run handle (replicate m (AWorker w)) s = Some s' /\ workers s' !! w = Some wk' /\
      phase wk' <> Stopped /\ handled wk' = handled wk) as H; [|by apply (H s wk); auto].
  clear. induction m as [|m IH]; intros s wk Hw Hph Hlt Hgt.
  { exists s, wk. simpl. split_and!; try done. by destruct Hph as [->|[->| ->]]. }
  assert (exists ph r, worker_step handle (num_shards s) w wk s =
      Some (MkWorker (consumer_seq wk) ph (handled wk), r) /\ cursor r = cursor (rb s) /\
      (ph = Poll \/ ph = Batch (cursor r) \/ ph = Gate)) as (ph & r & Hs & Hcr & Hph').
  { unfold worker_step. rewrite (proj2 (Z.ltb_lt _ _) Hlt).
    destruct Hph as [->|[->| ->]]; rewrite ?(proj2 (Z.ltb_lt _ _) Hlt), ?(proj2 (Z.ltb_lt _ _) Hgt);
      eexists _, _; (split; [done|]); simpl; auto. }
  change (replicate (S m) (AWorker w)) with (AWorker (E := E) w :: replicate m (AWorker w)). simpl.
  rewrite Hw, Hs.
  destruct (IH (with_worker w (MkWorker (consumer_seq wk) ph (handled wk)) r s)
    (MkWorker (consumer_seq wk) ph (handled wk))) as (s' & wk' & Hr & Hrest).
  - simpl. apply list_lookup_insert_eq. by eapply lookup_lt_Some.
  - done.
  - simpl. lia.
  - rewrite num_shards_with_worker. simpl. lia.
  - exists s', wk'. unfold with_worker in Hr. destruct (producer s); by rewrite Hr.
Qed.
End progress.

(** ** Batches are closed, and the sequential reading of [publish_event] *)
Section batches.
Context {E : Type}.
Variable handle : Z -> bool -> E -> E.
Variable default_event : nat -> E.
Import ring_buffer pipeline.
Implicit Types (s : State E) (wk : Worker E).

(** The last event handled ended its batch, or the worker is still in the batch loop
    with more of its own events to come. *)
Definition closed (n : Z) wk : Prop :=
  match last (handled wk) with
  | None => True
  | Some (q, _, eob) =>
      q = consumer_seq wk /\
      (eob = true \/ match phase wk with Batch c => q + n <= c | _ => False end)
  end.

Lemma worker_step_closed n w wk s wk' r :
  0 < n -> closed n wk -> worker_step handle n w wk s = Some (wk', r) -> closed n wk'.
Proof.
  unfold closed, worker_step. intros Hn Hc Hs.
  destruct (phase wk) as [| |c| |] eqn:Hph; simplify_eq/=; try done.
  - destruct (last (handled wk)) as [[[q e] eob]|]; naive_solver.
  - destruct (last (handled wk)) as [[[q e] eob]|]; naive_solver.
  - destruct (Z.ltb_spec (consumer_seq wk) c); [destruct (Z.ltb_spec c (consumer_seq wk + n))|].
    + simplify_eq/=. destruct (last (handled wk)) as [[[q e] eob]|]; [|done].
      destruct Hc as [-> [Hc|Hc]]; [by split; [|left]|lia].
    + destruct (get (rb s) _) as [e|]; simplify_eq/=. rewrite last_snoc. split; [done|].
      destruct (Z.leb_spec (c - (n - 1)) (consumer_seq wk + n)); [by left|right; lia].
    + simplify_eq/=. destruct (last (handled wk)) as [[[q e] eob]|]; [|done].
      destruct Hc as [-> [Hc|Hc]]; [by split; [|left]|lia].
Qed.

Definition all_closed s : Prop :=
  (0 < length (workers s))%nat /\ forall w wk, workers s !! w = Some wk -> closed (num_shards s) wk.

Lemma step_closed a s s' : all_closed s -> step handle a s = Some s' -> all_closed s'.
Proof.
  intros [Hn Hc] Hs. unfold step in Hs. destruct a as [| | | | |w].
  6: { assert (exists wk wk' r, workers s !! w = Some wk /\ worker_step handle (num_shards s) w wk s = Some (wk', r) /\
           s' = with_worker w wk' r s) as (wk & wk' & r & Hw & Hws & ->).
       { unfold with_worker. destruct (workers s !! w) as [wk|]; [|by destruct (producer s)].
         destruct (worker_step handle (num_shards s) w wk s) as [[wk' r]|] eqn:Ew; [|by destruct (producer s)].
         exists wk, wk', r. split_and!; [done..|]. destruct (producer s); congruence. }
       split; [simpl; by rewrite length_insert|]. rewrite num_shards_with_worker. simpl.
       intros w2 wk2 H2. destruct (decide (w2 = w)) as [->|Hne].
       - rewrite list_lookup_insert_eq in H2 by (by eapply lookup_lt_Some). injection H2 as <-.
         eapply worker_step_closed; [unfold num_shards; lia|by apply (Hc w wk)|done].
       - rewrite list_lookup_insert_ne in H2 by done. by apply (Hc w2). }
  all: destruct (producer s); simplify_eq/=; try done; repeat case_match; simplify_eq/=; by split.
Qed.

(** batches are always closed: whenever a worker is not inside its batch loop, the last
    event it handed to the handlers carried [end_of_batch = true]; inside the loop, an
    event without the mark is followed by another one of the same batch. *)
Theorem pipeline_batches_closed (b : PipelineBuilder) s w wk :
  reachable handle default_event b s -> workers s !! w = Some wk -> closed (num_shards s) wk.
Proof.
  intros ([Hcap Hnw] & acts & s0 & Hs0 & Hr & _) Hw.
  assert (all_closed s0) as H0.
  { unfold build in Hs0. destruct (ring_buffer.new _ _); simplify_eq/=.
    split; simpl; rewrite ?length_fmap, ?length_seq; [done|]. intros v wv Hv.
    apply list_lookup_fmap_Some in Hv as (i & -> & _). done. }
  assert (all_closed s) as [_ Hc]; [|by apply (Hc w)].
  clear Hs0 Hw. revert s0 H0 Hr. induction acts as [|a acts IH]; intros s0 H0 Hr; simpl in Hr; [by simplify_eq|].
  destruct (step handle a s0) as [s1|] eqn:Hs; [|done]. eapply IH; [|done]. by eapply step_closed.
Qed.

(** [publish_event] refuses exactly when claiming would bring the producer a full lap
    ahead of some gate, and then changes nothing; otherwise the event is in the slot of
    the returned sequence, which is both claimed and published.  It is the sequential
    composition of the four producer actions. *)
Theorem publish_event_spec (e : E) (s : State E) :
  shape (rb s) -> -1 <= claim (rb s) < 2 ^ 63 - 1 -> producer s = PIdle ->
  let '(res, r) := publish_event e (rb s) in
  match res with
  | Err err => err = RingBufferFull 1 /\ r = rb s /\
      exists g, g ∈ gating_sequences (rb s) /\ capacity (rb s) <= claim (rb s) + 1 - g
  | Ok q => q = claim (rb s) + 1 /\ claim r = q /\ cursor r = q /\ get r q = Some e /\
      gating_sequences r = gating_sequences (rb s) /\
      run handle (produce e) s =
        Some (MkState r PIdle (workers s) (shutdown s) (published s ++ [e]))
  end.
Proof.
  intros Hsh Hcl Hp. unfold publish_event, produce. simpl. rewrite Hp.
  assert (sequence.increment (claim (rb s)) = claim (rb s) + 1) as Einc.
  { unfold sequence.increment. apply as_signed_id; lia. }
  destruct (has_available_capacity (rb s)) eqn:Ha; simpl.
  - rewrite Einc. split_and!; try done.
    exact (get_set_same (rb s) (claim (rb s) + 1) e Hsh).
  - split_and!; [done..|]. pose proof (has_available_capacity_spec _ Hsh) as [_ Hspec].
    destruct (decide (Exists (fun g => capacity (rb s) <= claim (rb s) + 1 - g) (gating_sequences (rb s))))
      as [Hex|Hno].
    { apply Exists_exists in Hex as (g & Hg & Hge). by exists g. }
    rewrite Hspec in Ha; [done|]. intros g Hg. rewrite Exists_exists in Hno.
    destruct (Z.lt_ge_cases (claim (rb s) + 1 - g) (capacity (rb s))); [done|].
    exfalso. apply Hno. exists g. split; [done|lia].
Qed.

(** The configurations a builder can be in. *)
Inductive builder_reach : PipelineBuilder -> Prop :=
  | br_new : builder_reach builder_new
  | br_capacity b c : builder_reach b -> 0 <= c -> builder_reach (with_capacity c b)
  | br_workers b n b' : builder_reach b -> with_workers n b = Some b' -> builder_reach b'.

(** every pipeline that builds has a positive number of workers and a result ring of
    exactly the capacity of its ring buffer (the alias-freedom of the result ring rests
    on it); a capacity that is not a power of two is refused. *)
Theorem builder_rings_agree (b : PipelineBuilder) :
  builder_reach b ->
  (0 < b_num_workers b)%nat /\
  match build default_event b with
  | Ok s => b_result_ring b = capacity (rb s) /\ is_power_of_two (b_capacity b) = true
  | Err e => (exists msg, e = ValidationError msg) /\ is_power_of_two (b_capacity b) = false
  end.
Proof.
  intros Hr.
  assert ((0 < b_num_workers b)%nat /\
    (is_power_of_two (b_capacity b) = true -> b_result_ring b = b_capacity b)) as [Hn Hring].
  { induction Hr as [|b c Hr [Hn IH] Hc|b n b' Hr [Hn IH] Hw]; simpl.
    - split; [lia|done].
    - split; [done|]. by intros ->.
    - unfold with_workers in Hw. case_bool_decide; simplify_eq. simpl. done. }
  split; [done|]. unfold build, ring_buffer.new.
  destruct (is_power_of_two (b_capacity b)) eqn:Ep; simpl.
  - rewrite add_gates_spec. simpl. by rewrite Hring.
  - split; [by eexists|done].
Qed.
End batches.

(** ** Schedules, evaluated *)
Module pipeline_examples.
Import ring_buffer pipeline.

(** Events are numbers, handlers add a thousand to the slot. *)
Definition hnd (q : Z) (eob : bool) (e : Z) : Z := e + 1000.
Definition dflt (n : nat) : Z := 0.
Definition cfg (n : nat) : PipelineBuilder := MkBuilder 4 n 4.
Definition init (n : nat) : State Z :=
  match build dflt (cfg n) with
  | Ok s => s
  | Err _ => MkState (MkRing [] 0 0 0 0 []) PIdle [] false []
  end.

Definition view (acts : list (Action Z)) (n : nat) : option (list (list (Z * Z * bool)) * list Z) :=
  (fun s => (handled <$> workers s, published s)) <$> run hnd acts (init n).

Definition turns (k : nat) (w : nat) : list (Action Z) := replicate k (AWorker w).

Lemma cfg_ok n : (0 < n)%nat -> builder_ok (cfg n).
Proof. intros H. split; [simpl; lia|done]. Qed.

Definition runs (acts : list (Action Z)) (n : nat) : bool :=
  match run hnd acts (init n) with Some _ => true | None => false end.

Definition final (acts : list (Action Z)) (n : nat) : State Z :=
  match run hnd acts (init n) with Some s => s | None => init n end.

Lemma reachable_final n acts :
  (0 < n)%nat -> runs acts n = true -> Z.of_nat (length acts) < 2 ^ 62 ->
  reachable hnd dflt (cfg n) (final acts n).
Proof.
  intros Hn Hr Hl. split; [by apply cfg_ok|]. exists acts, (init n). unfold runs, final in *.
  destruct (run hnd acts (init n)); [done|discriminate Hr].
Qed.

(** Two producer calls, one worker interleaved between them. *)
Definition schedule1 : list (Action Z) :=
  produce 10 ++ [AWorker 0] ++ [ABegin 20; AClaim] ++ turns 2 0 ++ [AWrite; APublish] ++ turns 4 0.

Example schedule1_view : view schedule1 1 = Some ([[(0, 10, true); (1, 20, true)]], [10; 20]).
Proof. vm_refl. Qed.

Lemma schedule1_reachable : reachable hnd dflt (cfg 1) (final schedule1 1).
Proof. apply reachable_final; [lia|vm_refl|simpl; lia]. Qed.

Definition worker1 : Worker Z := MkWorker 1 Gate [(0, 10, true); (1, 20, true)].

Lemma pipeline_delivers_published_witness :
  (1 : Z) = Z.of_nat 0 - 1 + Z.of_nat 1 * (Z.of_nat 1 + 1) /\
  published (final schedule1 1) !! Z.to_nat 1 = Some 20.
Proof.
  exact (pipeline_delivers_published hnd dflt (cfg 1) (final schedule1 1) 0 worker1 1 1 20 true
           schedule1_reachable eq_refl eq_refl).
Defined.

Lemma single_worker_in_order_witness :
  (fun x => (x.1.1, x.1.2)) <$> handled worker1 =
    imap (fun i e => (Z.of_nat i, e)) (take 2 (published (final schedule1 1))).
Proof.
  exact (single_worker_in_order hnd dflt (cfg 1) (final schedule1 1) worker1 eq_refl schedule1_reachable eq_refl).
Defined.

Lemma pipeline_backpressure_witness : Z.of_nat (length (published (final schedule1 1))) - 1 - 0 < 4.
Proof.
  apply (pipeline_backpressure hnd dflt (cfg 1) (final schedule1 1) 0 schedule1_reachable).
  vm_compute. left.
Defined.

Lemma single_worker_catches_up_witness :
  exists m s' wk', run hnd (replicate m (AWorker 0)) (final (produce 10 ++ produce 20) 1) = Some s' /\
    workers s' !! 0%nat = Some wk' /\ published s' = [10; 20] /\ (fun x => x.1.2) <$> handled wk' = [10; 20].
Proof.
  apply (single_worker_catches_up hnd dflt (cfg 1) (final (produce 10 ++ produce 20) 1) (start_worker 0)).
  - done.
  - apply reachable_final; [lia|vm_refl|simpl; lia].
  - done.
  - done.
  - done.
Defined.

Lemma pipeline_batches_closed_witness : closed 1 worker1.
Proof.
  exact (pipeline_batches_closed hnd dflt (cfg 1) (final schedule1 1) 0 worker1 schedule1_reachable eq_refl).
Defined.

Lemma publish_event_spec_witness :
  exists r, publish_event 10 (rb (init 1)) = (Ok 0, r) /\ get r 0 = Some 10.
Proof.
  pose proof (publish_event_spec hnd 10 (init 1)) as H.
  destruct (publish_event 10 (rb (init 1))) as [[q|err] r] eqn:E.
  - destruct H as (-> & _ & _ & Hg & _); [|vm_compute; split; congruence|done|by exists r].
    split; [exists 2; split; [lia|done]|done|done].
  - exfalso. discriminate E.
Defined.

Lemma builder_rings_agree_witness :
  (0 < 1)%nat /\ match build dflt (with_capacity 1024 builder_new) with
  | Ok s => b_result_ring (with_capacity 1024 builder_new) = capacity (rb s) /\ is_power_of_two 1024 = true
  | Err e => (exists msg, e = ValidationError msg) /\ is_power_of_two 1024 = false
  end.
Proof. apply (builder_rings_agree dflt (with_capacity 1024 builder_new)). constructor; [constructor|lia]. Defined.

(** Three events, two workers, both run until idle or cycling: event 0 is nobody's. *)
Definition schedule2 : list (Action Z) :=
  produce 10 ++ produce 20 ++ produce 30 ++ turns 4 0 ++ turns 4 1.

Lemma multi_worker_skips_first_witness :
  view schedule2 2 = Some ([[(1, 20, true)]; [(2, 30, true)]], [10; 20; 30]) /\ Z.of_nat 2 - 1 <= 1.
Proof.
  split; [vm_refl|].
  apply (multi_worker_skips_first hnd dflt (cfg 2) (final schedule2 2) 0
           (MkWorker 1 Poll [(1, 20, true)]) 0 1 20 true).
  - apply reachable_final; [lia|vm_refl|simpl; lia].
  - vm_refl.
  - done.
Defined.

(** After [stop], worker 0 of two keeps cycling one event behind the cursor. *)
Definition schedule3 : list (Action Z) :=
  produce 10 ++ produce 20 ++ produce 30 ++ turns 4 0 ++ [AStop].

Lemma lagging_worker_never_stops_witness :
  exists s' wk', run hnd (replicate 1000 (AWorker 0)) (final schedule3 2) = Some s' /\
    workers s' !! 0%nat = Some wk' /\ phase wk' <> Stopped /\ handled wk' = [(1, 20, true)].
Proof.
  apply (lagging_worker_never_stops hnd (final schedule3 2) 0 (MkWorker 1 Poll [(1, 20, true)]) 1000);
    [vm_refl|done|vm_compute; done|vm_compute; done].
Defined.

(** an event published before [stop] can be lost: the worker loads the cursor, finds
    nothing, the producer then publishes and stops the pipeline, and the worker exits on
    the flag without looking at the cursor again. *)
Theorem stop_can_lose_events :
  (fun s => (handled <$> workers s, phase <$> workers s, published s)) <$>
    run hnd ([AWorker 0] ++ produce 10 ++ [AStop; AWorker 0]) (init 1)
  = Some ([[]], [Stopped], [10]).
Proof. vm_refl. Qed.
End pipeline_examples.
