(* ===== verification/Rings.v ===== *)
(** * core/engine: the generic ring buffer and the result ring

    [generic_ring_buffer] differs from [ring_buffer] in [publish] only; several producers
    are modelled as interleaved operations.  [result_ring] is the array of committed
    results, compared with the finite map it stands for. *)

From stdpp Require Import base numbers list gmap strings.
From Stdlib Require Import ZArith Lia.
From S2P Require Import Prelude External ExternalModel Common RingBuffer.

Module generic_ring_buffer.
Import ring_buffer.
Section generic.
Context {T : Type}.

Definition new (default : T) (cap : Z) : BlazerResult (RingBuffer T) :=
  if negb (is_power_of_two cap)
  then Err (ValidationError ("GenericRingBuffer capacity must be a power of two, got " +:+ string_of_Z cap))
  else Ok (MkRing (replicate (Z.to_nat cap) default) cap (cap - 1)
             sequence.INITIAL_VALUE sequence.INITIAL_VALUE []).

(** [cursor.fetch_max(sequence)] *)
Definition publish (s : Z) (r : RingBuffer T) : RingBuffer T :=
  MkRing (slots r) (capacity r) (mask r) (claim r) (Z.max (cursor r) s) (gating_sequences r).

(** One atomic access of some producer. *)
Inductive Op := Next | Write (s : Z) (v : T) | Publish (s : Z).

Definition apply_op (o : Op) (r : RingBuffer T) : RingBuffer T :=
  match o with
  | Next => (next_sequence r).2
  | Write s v => set_slot s v r
  | Publish s => publish s r
  end.

Definition apply_ops (os : list Op) (r : RingBuffer T) : RingBuffer T :=
  foldl (fun r o => apply_op o r) r os.

(** The sequences published by a schedule. *)
Definition published (os : list Op) : list Z :=
  omap (fun o => match o with Publish s => Some s | _ => None end) os.

Lemma apply_ops_cursor os r :
  cursor (apply_ops os r) = foldr Z.max (cursor r) (published os).
Proof.
  revert r. induction os as [|o os IH]; intros r; [done|]. simpl. rewrite IH.
  destruct o as [|s v|s]; simpl; [done|done|].
  clear. induction (published os) as [|x l IHl]; simpl; lia.
Qed.

(** the cursor of the generic buffer never moves backwards, whatever the order in
    which producers publish: after any interleaving it is the maximum of its old value
    and the published sequences. *)
Theorem generic_cursor_monotone (os : list Op) (r : RingBuffer T) :
  cursor r <= cursor (apply_ops os r) /\
  (forall s, Publish s ∈ os -> s <= cursor (apply_ops os r)) /\
  (cursor (apply_ops os r) = cursor r \/ Publish (cursor (apply_ops os r)) ∈ os).
Proof.
  rewrite apply_ops_cursor.
  assert (Hp : forall s, s ∈ published os <-> Publish s ∈ os).
  { intros s. unfold published. rewrite list_elem_of_omap. split.
    - intros ([] & Ho & [=]); by subst.
    - intros H. by exists (Publish s). }
  setoid_rewrite <- Hp. generalize (published os) as l. intros l. clear Hp.
  induction l as [|x l (IH1 & IH2 & IH3)]; simpl.
  - split_and!; [lia| |by left]. intros s Hs. by apply elem_of_nil in Hs.
  - split_and!; [lia| |].
    + intros s [->|Hs]%elem_of_cons; [lia|]. specialize (IH2 s Hs). lia.
    + destruct (Z.max_spec x (foldr Z.max (cursor r) l)) as [[_ ->]|[_ ->]]; set_solver.
Qed.
End generic.

(** the generic buffer is not safe for several producers, although it is documented
    to be.  Producer A claims 0, producer B claims 1, writes and publishes it: the
    cursor says that 0 is published while nothing was written to its slot, and a
    consumer reads the default value there. *)
Theorem generic_publish_exposes_unwritten :
  exists r, new (0 : Z) 4 = Ok r /\
    let r' := apply_ops [Next; Next; Write 1 77; Publish 1] r in
    claim r' = 1 /\ cursor r' = 1 /\ get r' 0 = Some 0 /\ get r' 1 = Some 77 /\
    published [Next; Next; Write 1 (77 : Z); Publish 1] = [1].
Proof. eexists. split; [reflexivity|]. vm_compute. done. Qed.
End generic_ring_buffer.

(** ** ResultRing *)
Module result_ring.
Section result_ring.
Context `{UL : UuidLib}.

(** [status] holds [COMMITTED] as [true]; [transfer_ids] holds the raw bytes, [None]
    where never written. *)
Record ResultRing : Type := MkResultRing {
  status : list bool;
  transfer_ids : list (option (list Z));
  mask : Z;
}.

(** [None] is the failed assertion. *)
Definition new (cap : Z) : option ResultRing :=
  if is_power_of_two cap
  then Some (MkResultRing (replicate (Z.to_nat cap) false) (replicate (Z.to_nat cap) None) (cap - 1))
  else None.

Definition index (r : ResultRing) (s : Z) : nat := Z.to_nat (Z.land (as_unsigned 64 s) (mask r)).

Definition insert (s : Z) (i : TransferId) (r : ResultRing) : ResultRing :=
  let idx := index r s in
  MkResultRing (<[idx := true]> (status r)) (<[idx := Some (uuid_as_bytes (as_uuid i))]> (transfer_ids r)) (mask r).

Definition try_remove (s : Z) (r : ResultRing) : option TransferId * ResultRing :=
  let idx := index r s in
  if default false (status r !! idx)
  then (id_from_bytes <$> mjoin (transfer_ids r !! idx),
        MkResultRing (<[idx := false]> (status r)) (transfer_ids r) (mask r))
  else (None, r).

Definition contains (s : Z) (r : ResultRing) : bool := default false (status r !! index r s).
End result_ring.

Section refinement.
Context `{UL : UuidLib, ULa : !UuidLaws}.

(** The ring of [2^k] slots stands for the map [m] of outstanding results, whose keys lie
    in one window of [2^k] sequences. *)
Record Rep (k lo : Z) (r : ResultRing) (m : gmap Z TransferId) : Prop := {
  rep_k : 0 <= k <= 62;
  rep_mask : mask r = 2 ^ k - 1;
  rep_slen : Z.of_nat (length (status r)) = 2 ^ k;
  rep_tlen : Z.of_nat (length (transfer_ids r)) = 2 ^ k;
  rep_window : forall s i, m !! s = Some i -> lo <= s < lo + 2 ^ k;
  rep_slot : forall s, lo <= s < lo + 2 ^ k ->
    match m !! s with
    | Some i => status r !! index r s = Some true /\
                transfer_ids r !! index r s = Some (Some (uuid_as_bytes (as_uuid i)))
    | None => status r !! index r s = Some false
    end;
}.

Lemma slot_index_mod k r s : 0 <= k <= 62 -> mask r = 2 ^ k - 1 -> Z.of_nat (index r s) = s mod 2 ^ k.
Proof.
  intros Hk Hm. unfold index. rewrite Hm, land_mask_mod, as_unsigned_mod by lia.
  apply Z2Nat.id, Z.mod_pos_bound. apply Z.pow_pos_nonneg; lia.
Qed.

Lemma slot_index_lt k lo r m s : Rep k lo r m ->
  (index r s < length (status r))%nat /\ (index r s < length (transfer_ids r))%nat.
Proof.
  intros [Hk Hm Hs Ht _ _]. pose proof (slot_index_mod k r s Hk Hm).
  pose proof (Z.mod_pos_bound s (2 ^ k) ltac:(apply Z.pow_pos_nonneg; lia)). lia.
Qed.

Lemma slot_index_inj k lo r m s s' : Rep k lo r m ->
  lo <= s < lo + 2 ^ k -> lo <= s' < lo + 2 ^ k -> index r s = index r s' -> s = s'.
Proof.
  intros [Hk Hm _ _ _ _] H H' E. apply (mod_eq_close _ _ (2 ^ k)); [apply Z.pow_pos_nonneg; lia| |lia].
  rewrite <- !(slot_index_mod k r) by done. by rewrite E.
Qed.

Lemma rep_insert k lo r m s i : Rep k lo r m -> lo <= s < lo + 2 ^ k ->
  Rep k lo (insert s i r) (<[s := i]> m).
Proof.
  intros HR Hs. pose proof HR as [Hk Hm Hl Ht Hw Hslot].
  split; simpl; rewrite ?length_insert; try done.
  - intros s' i' H. destruct (decide (s' = s)) as [->|Hne]; [done|].
    rewrite lookup_insert_ne in H by done. by eapply Hw.
  - intros s' Hs'. change (index (insert s i r) s') with (index r s').
    destruct (slot_index_lt k lo r m s HR). destruct (decide (s' = s)) as [->|Hne].
    + rewrite lookup_insert_eq, !list_lookup_insert_eq by lia. done.
    + assert (index r s <> index r s') by (intros E; apply Hne; symmetry; by eapply slot_index_inj).
      rewrite lookup_insert_ne, !list_lookup_insert_ne by done. by apply Hslot.
Qed.

Lemma rep_remove k lo r m s : Rep k lo r m -> lo <= s < lo + 2 ^ k ->
  (try_remove s r).1 = m !! s /\ Rep k lo (try_remove s r).2 (delete s m).
Proof.
  intros HR Hs. pose proof HR as [Hk Hm Hl Ht Hw Hslot]. unfold try_remove.
  pose proof (Hslot s Hs) as Hi. destruct (m !! s) as [i|] eqn:Em.
  - destruct Hi as [-> Hb]. simpl. rewrite Hb. simpl. split.
    + unfold id_from_bytes. rewrite uuid_from_as_bytes. by destruct i.
    + split; simpl; rewrite ?length_insert; try done.
      * intros s' i' [_ H]%lookup_delete_Some. by eapply Hw.
      * intros s' Hs'. change (index (MkResultRing _ _ _) s') with (index r s').
        destruct (slot_index_lt k lo r m s HR). destruct (decide (s' = s)) as [->|Hne].
        -- rewrite lookup_delete_eq, list_lookup_insert_eq by lia. done.
        -- assert (index r s <> index r s') by (intros E; apply Hne; symmetry; by eapply slot_index_inj).
           rewrite lookup_delete_ne, list_lookup_insert_ne by done. by apply Hslot.
  - rewrite Hi. simpl. split; [done|]. by rewrite delete_id.
Qed.

(** The window moves past a sequence that has no result waiting. *)
Lemma rep_shift k lo r m : Rep k lo r m -> m !! lo = None -> Rep k (lo + 1) r m.
Proof.
  intros HR Hn. pose proof HR as [Hk Hm Hl Ht Hw Hslot]. assert (0 < 2 ^ k) by (apply Z.pow_pos_nonneg; lia).
  split; try done.
  - intros s i Hs. destruct (decide (s = lo)) as [->|]; [congruence|]. apply Hw in Hs. lia.
  - intros s Hs. destruct (decide (s = lo + 2 ^ k)) as [->|]; [|apply Hslot; lia].
    destruct (m !! (lo + 2 ^ k)) as [i|] eqn:E; [apply Hw in E; lia|].
    assert (index r (lo + 2 ^ k) = index r lo) as ->.
    { apply Nat2Z.inj. rewrite !(slot_index_mod k) by done. replace (lo + 2 ^ k) with (lo + 1 * 2 ^ k) by lia. by rewrite Z.mod_add by lia. }
    pose proof (Hslot lo ltac:(lia)) as Hs0. by rewrite Hn in Hs0.
Qed.

(** within one window of sequences as long as the ring, the result ring is a finite
    map: [insert] adds the binding, [try_remove] returns and deletes it, [contains]
    tells whether there is one, and no other outstanding result is touched. *)
Theorem result_ring_is_map (k lo : Z) (r : ResultRing) (m : gmap Z TransferId) (s : Z) (i : TransferId) :
  Rep k lo r m -> lo <= s < lo + 2 ^ k ->
  Rep k lo (insert s i r) (<[s := i]> m) /\
  (try_remove s r).1 = m !! s /\ Rep k lo (try_remove s r).2 (delete s m) /\
  contains s r = bool_decide (is_Some (m !! s)).
Proof.
  intros HR Hs. destruct (rep_remove k lo r m s HR Hs) as [H1 H2].
  split_and!; [by apply rep_insert|done|done|]. unfold contains.
  pose proof (rep_slot _ _ _ _ HR s Hs) as Hi. destruct (m !! s).
  - destruct Hi as [-> _]. by rewrite bool_decide_true.
  - rewrite Hi. rewrite bool_decide_false; [done|]. apply is_Some_None.
Qed.

Lemma rep_new k lo : 0 <= k <= 62 ->
  exists r, new (2 ^ k) = Some r /\ Rep k lo r ∅.
Proof.
  intros Hk. unfold new. assert (0 < 2 ^ k) by (apply Z.pow_pos_nonneg; lia).
  rewrite (proj2 (is_power_of_two_spec (2 ^ k) ltac:(lia))) by (exists k; lia).
  eexists. split; [done|]. split; simpl; rewrite ?length_replicate; try done; try lia.
  intros s _. rewrite lookup_empty. apply lookup_replicate_2.
  apply Nat2Z.inj_lt. rewrite (slot_index_mod k) by done. rewrite Z2Nat.id by lia.
  apply Z.mod_pos_bound. lia.
Qed.
End refinement.
End result_ring.

Module rings_examples.
Import common_examples result_ring.
Definition tid (n : Z) : TransferId := UuidId (UL := uid.lib) (uid.of_Z n).

Lemma result_ring_is_map_witness :
  exists r, new (2 ^ 2) = Some r /\ (try_remove 7 r).1 = None /\ contains 7 r = false /\
    Rep 2 5 (insert 7 (tid 9) r) {[7 := tid 9]}.
Proof.
  destruct (rep_new 2 5 ltac:(lia)) as (r & Er & HR). exists r.
  destruct (result_ring_is_map (UL := uid.lib) 2 5 r ∅ 7 (tid 9) HR ltac:(lia)) as (H1 & H2 & _ & H4).
  split_and!; [done|by rewrite H2|by rewrite H4|done].
Defined.

(** Beyond the window results collide: sequence 3 and 7 share a slot of a ring of four. *)
Example result_ring_aliases :
  (fun r => (try_remove 3 (insert 7 (tid 2) (insert 3 (tid 1) r))).1) <$> new 4 = Some (Some (tid 2)).
Proof. vm_refl. Qed.
End rings_examples.
