(* ===== verification/Handlers.v ===== *)
(** * core/engine/handlers: validation, risk, ledger and publish

    The four stages of the transaction pipeline and their composition.  The ledger stage
    is written against the [LedgerClient] interface; the batches it spawns are tasks in
    flight, executed later and in any order by [complete_task]. *)

From stdpp Require Import base numbers list gmap strings.
From Stdlib Require Import ZArith Lia SpecFloat.
From S2P Require Import Prelude External ExternalModel Common Timestamp Ledger Event Rings.

(** ** validation.rs *)
Module validation.
Section validation.
Context `{UL : UuidLib}.

Definition validate (e : TransactionEvent) : BlazerResult unit :=
  if is_zero (event.transaction_id e)
  then Err (ValidationError "transaction_id must not be zero")
  else if is_zero (event.debit_account_id e)
  then Err (ValidationError "debit_account_id must not be zero")
  else if is_zero (event.credit_account_id e)
  then Err (ValidationError "credit_account_id must not be zero")
  else if bool_decide (event.debit_account_id e = event.credit_account_id e)
  then Err (ValidationError "debit_account_id must not equal credit_account_id")
  else if event.amount_units e =? 0
  then Err (ValidationError "amount_units must be greater than zero")
  else Ok tt.

Abbreviation Results := (gmap Z TransactionResult).

Definition on_event (e : TransactionEvent) (s : Z) (results : Results) : Results :=
  match results !! s with
  | Some _ => results
  | None => match validate e with
            | Err reason => <[s := event.Rejected reason]> results
            | Ok _ => results
            end
  end.
End validation.
End validation.

(** ** risk.rs: an [f32] is a binary32 value of the standard library's [spec_float]. *)
Module risk_handler.
Definition f32_zero : spec_float := S754_zero false.
Definition f32_one : spec_float := S754_finite false 8388608 (-23).

(** [x.clamp(0.0, 1.0)]: a NaN stays. *)
Definition clamp01 (x : spec_float) : spec_float :=
  if SFltb x f32_zero then f32_zero
  else if SFltb f32_one x then f32_one
  else x.

Section risk.
Context `{UL : UuidLib}.
(** The text [{:.3}] of a float. *)
Variable fmt3 : spec_float -> string.

Definition FraudScorer : Type := AccountId -> Z -> spec_float.
Definition NoopFraudScorer : FraudScorer := fun _ _ => f32_zero.

Record RiskHandler : Type := MkRisk {
  max_amount_units : Z;
  fraud_threshold : spec_float;
  fraud_scorer : FraudScorer;
}.

Definition new (max : Z) : RiskHandler := MkRisk max f32_one NoopFraudScorer.
Definition with_fraud_scorer (max : Z) (scorer : FraudScorer) (threshold : spec_float) : RiskHandler :=
  MkRisk max (clamp01 threshold) scorer.

Definition fraud_message (score threshold : spec_float) : string :=
  "fraud score " +:+ fmt3 score +:+ " meets or exceeds threshold " +:+ fmt3 threshold.

Definition on_event (h : RiskHandler) (e : TransactionEvent) (s : Z)
    (results : gmap Z TransactionResult) : gmap Z TransactionResult :=
  match results !! s with
  | Some _ => results
  | None =>
      if negb (event_flags.requires_risk_check (event.flags e)) then results
      else if max_amount_units h <? event.amount_units e
      then <[s := event.Rejected (ValidationError "transaction exceeds maximum amount limit")]> results
      else
        let score := fraud_scorer h (event.debit_account_id e) (event.amount_units e) in
        if SFleb (fraud_threshold h) score
        then <[s := event.Rejected (ValidationError (fraud_message score (fraud_threshold h)))]> results
        else results
  end.
End risk.
End risk_handler.

(** ** ledger.rs *)
Module ledger_handler.
Definition MAX_TB_BATCH_SIZE : nat := 8190.
Definition BATCH_FLUSH_TIMEOUT_US : Z := 3000.
Definition MAX_TRANSIENT_RETRIES : nat := 5.
Definition TRANSIENT_BACKOFF_BASE_MS : Z := 50.
Definition MAX_CONCURRENT_BATCHES : nat := 8.

Section ledger.
Context `{DL : DecimalLib, CL : CurrencyLib, UL : UuidLib}.
Context {S : Type} `{LC : !LedgerClient S}.

(** What a call draws from outside: the random transfer identifier, the monotonic
    clock in microseconds, the wall clock. *)
Record Env : Type := MkEnv { fresh_id : TransferId; instant_us : Z; wall : Z }.

(** A spawned batch: the transfers of the deferred events and of the current one. *)
Record Task : Type := MkTask {
  all_transfers : list Transfer;
  prev_sequences : list Z;
  current_seq : Z;
}.

(** State shared through [Arc]s: the results map, the optional result ring, the tasks
    in flight (their number is [active_tasks]) and the ledger behind the client. *)
Record World : Type := MkWorld {
  results : gmap Z TransactionResult;
  result_ring : option result_ring.ResultRing;
  in_flight : list Task;
  client : S;
}.

Record LedgerHandler : Type := MkHandler {
  batch_started_at : option Z;
  deferred_transfers : list Transfer;
  deferred_sequences : list Z;
}.

Definition new : LedgerHandler := MkHandler None [] [].

Definition set_results (r : gmap Z TransactionResult) (w : World) : World :=
  MkWorld r (result_ring w) (in_flight w) (client w).

Definition reject (s : Z) (reason : BlazerError) (w : World) : World :=
  set_results (<[s := event.Rejected reason]> (results w)) w.

Definition reconstruct_amount (e : TransactionEvent) : BlazerResult Amount :=
  let? c := convert.ledger_id_to_currency (event.ledger_id e) in
  convert.minor_units_to_amount (event.amount_units e) c.

(** The two-phase flags select the kind of transfer; any other combination is an
    immediate one. *)
Definition build_transfer (env : Env) (e : TransactionEvent) (amt : Amount) : BlazerResult Transfer :=
  let mk flags pending_id :=
    transfer.new_with_flags (wall env) (fresh_id env) (event.debit_account_id e)
      (event.credit_account_id e) amt (event.ledger_id e) (event.code e) flags pending_id in
  let f := event.flags e in
  match event_flags.is_pending f, event_flags.is_posted f, event_flags.is_voided f with
  | true, false, false => mk (transfer.MkTransferFlags false true false false) None
  | false, true, false =>
      mk (transfer.MkTransferFlags false false true false) (Some (event.pending_transfer_id e))
  | false, false, true =>
      mk (transfer.MkTransferFlags false false false true) (Some (event.pending_transfer_id e))
  | _, _, _ =>
      transfer.new (wall env) (fresh_id env) (event.debit_account_id e)
        (event.credit_account_id e) amt (event.ledger_id e) (event.code e)
  end.

Definition batch_age_exceeded (env : Env) (h : LedgerHandler) : bool :=
  match batch_started_at h with
  | Some started => BATCH_FLUSH_TIMEOUT_US <=? saturating_sub (instant_us env) started
  | None => false
  end.

Definition should_flush (env : Env) (end_of_batch : bool) (h : LedgerHandler) : bool :=
  end_of_batch || (MAX_TB_BATCH_SIZE <=? length (deferred_transfers h) + 1)%nat
  || batch_age_exceeded env h.

(** [None]: the thread spins because [MAX_CONCURRENT_BATCHES] tasks are in flight; the
    call is taken again after one of them completes. *)
Definition on_event (env : Env) (e : TransactionEvent) (s : Z) (end_of_batch : bool)
    (h : LedgerHandler) (w : World) : option (LedgerHandler * World) :=
  match results w !! s with
  | Some _ => Some (h, w)
  | None =>
  match reconstruct_amount e with
  | Err reason => Some (h, reject s reason w)
  | Ok amt =>
  match build_transfer env e amt with
  | Err reason => Some (h, reject s reason w)
  | Ok t =>
  if negb (should_flush env end_of_batch h) then
    let started := match deferred_transfers h with
                   | [] => Some (instant_us env)
                   | _ => batch_started_at h
                   end in
    Some (MkHandler started (deferred_transfers h ++ [t]) (deferred_sequences h ++ [s]), w)
  else if (MAX_CONCURRENT_BATCHES <=? length (in_flight w))%nat then None
  else
    let task := MkTask (deferred_transfers h ++ [t]) (deferred_sequences h) s in
    Some (MkHandler None [] [],
          MkWorld (results w) (result_ring w) (in_flight w ++ [task]) (client w))
  end end end.

(** *** The spawned task *)

Definition all_transient (rs : list (BlazerResult TransferId)) : bool :=
  forallb (fun r => match r with Err e => is_transient e | Ok _ => false end) rs.

(** [TRANSIENT_BACKOFF_BASE_MS * (1 << attempt.min(4))] *)
Definition backoff_ms (attempt : Z) : Z := TRANSIENT_BACKOFF_BASE_MS * Z.shiftl 1 (Z.min attempt 4).

(** The retry loop with [remaining = MAX_TRANSIENT_RETRIES - attempt]; also returns the
    delays slept. *)
Fixpoint submit (remaining : nat) (attempt : Z) (ts : list Transfer) (c : S)
    : list (BlazerResult TransferId) * S * list Z :=
  let '(rs, c) := create_transfers_batch ts c in
  match remaining with
  | O => (rs, c, [])
  | Datatypes.S remaining =>
      if negb (all_transient rs) then (rs, c, [])
      else
        let attempt := attempt + 1 in
        let '(rs, c, delays) := submit remaining attempt ts c in
        (rs, c, backoff_ms attempt :: delays)
  end.

Definition write_result (now_ : Z) (s : Z) (r : BlazerResult TransferId) (w : World) : World :=
  match r with
  | Ok i => match result_ring w with
            | Some ring => MkWorld (results w) (Some (result_ring.insert s i ring)) (in_flight w) (client w)
            | None => set_results (<[s := event.Committed i (now now_)]> (results w)) w
            end
  | Err e => set_results (<[s := event.Rejected e]> (results w)) w
  end.

(** The loop over [prev_sequences]; [tb_results[i]] is always in range. *)
Fixpoint write_results (now_ : Z) (i : nat) (seqs : list Z) (rs : list (BlazerResult TransferId))
    (w : World) : World :=
  match seqs with
  | [] => w
  | s :: seqs =>
      write_results now_ (1 + i) seqs rs
        (match rs !! i with Some r => write_result now_ s r w | None => w end)
  end.

Definition run_task (now_ : Z) (t : Task) (w : World) : World * list Z :=
  let '(rs, c, delays) := submit MAX_TRANSIENT_RETRIES 0 (all_transfers t) (client w) in
  let w := MkWorld (results w) (result_ring w) (in_flight w) c in
  let w := write_results now_ 0 (prev_sequences t) rs w in
  let w := match rs !! length (prev_sequences t) with
           | Some r => write_result now_ (current_seq t) r w
           | None => w
           end in
  (w, delays).

(** The [k]-th task in flight runs to its end and leaves the counter. *)
Definition complete_task (now_ : Z) (k : nat) (w : World) : option World :=
  match in_flight w !! k with
  | None => None
  | Some t =>
      let w' := (run_task now_ t w).1 in
      Some (MkWorld (results w') (result_ring w') (delete k (in_flight w)) (client w'))
  end.
End ledger.
Arguments World {_ _ _} S.
End ledger_handler.

(** ** publish.rs *)
Module publish_handler.
Section publish.
Context `{UL : UuidLib}.

Record PublishHandler : Type := MkPublish {
  published_count : Z;
  rejected_count : Z;
  deferred : list Z;
}.

Definition new : PublishHandler := MkPublish 0 0 [].

Definition record (r : TransactionResult) (h : PublishHandler) : PublishHandler :=
  match r with
  | event.Committed _ _ => MkPublish (published_count h + 1) (rejected_count h) (deferred h)
  | event.Rejected _ => MkPublish (published_count h) (rejected_count h + 1) (deferred h)
  end.

Definition flush_deferred (results : gmap Z TransactionResult) (h : PublishHandler) : PublishHandler :=
  foldl (fun h s => match results !! s with Some r => record r h | None => h end)
    (MkPublish (published_count h) (rejected_count h) []) (deferred h).

Definition on_event (results : gmap Z TransactionResult) (e : TransactionEvent) (s : Z)
    (end_of_batch : bool) (h : PublishHandler) : PublishHandler :=
  if event_flags.skip_publish (event.flags e)
  then if end_of_batch then flush_deferred results h else h
  else match results !! s with
       | None => MkPublish (published_count h) (rejected_count h) (deferred h ++ [s])
       | Some r => let h := record r h in
                   if end_of_batch then flush_deferred results h else h
       end.
End publish.
End publish_handler.

(** ** The chain wired by the transport's entry point *)
Module chain.
Section chain.
Context `{DL : DecimalLib, CL : CurrencyLib, UL : UuidLib}.
Context {S : Type} `{LC : !LedgerClient S}.
Variable fmt3 : spec_float -> string.
Import ledger_handler.

Record Chain : Type := MkChain {
  risk : risk_handler.RiskHandler;
  ledger : LedgerHandler;
  publish : publish_handler.PublishHandler;
}.

Definition on_event (env : Env) (e : TransactionEvent) (s : Z) (end_of_batch : bool)
    (c : Chain) (w : World S) : option (Chain * World S) :=
  let w := set_results (validation.on_event e s (results w)) w in
  let w := set_results (risk_handler.on_event fmt3 (risk c) e s (results w)) w in
  match ledger_handler.on_event env e s end_of_batch (ledger c) w with
  | None => None
  | Some (l, w) =>
      Some (MkChain (risk c) l (publish_handler.on_event (results w) e s end_of_batch (publish c)), w)
  end.
End chain.
End chain.
