(* ===== verification/HandlerProps.v ===== *)
(** * Properties of the handler chain

    The accounting of every sequence from the event to its answer, the batch and task
    limits, the retry loop against the [LedgerClient] interface, and the behaviour of
    each stage. *)

From stdpp Require Import base numbers list gmap strings.
From Stdlib Require Import ZArith Lia SpecFloat.
From S2P Require Import Prelude External ExternalModel Common Timestamp Ledger InMemory TigerBeetle.
From S2P Require Import Event Rings Handlers.

(** ** Validation and risk *)
Section stages.
Context `{UL : UuidLib}.

(** validation accepts an event exactly when the three identifiers are non-zero, the
    two accounts differ and the amount is non-zero; an event that already has a result
    is left alone, and an invalid one gets a [Rejected] result with a validation error. *)
Theorem validation_spec (e : TransactionEvent) (s : Z) (results : gmap Z TransactionResult) :
  let valid := as_u64 (event.transaction_id e) <> 0 /\ as_u64 (event.debit_account_id e) <> 0 /\
               as_u64 (event.credit_account_id e) <> 0 /\
               event.debit_account_id e <> event.credit_account_id e /\ event.amount_units e <> 0 in
  (validation.validate e = Ok tt <-> valid) /\
  match results !! s with
  | Some _ => validation.on_event e s results = results
  | None => (valid /\ validation.on_event e s results = results) \/
            (~ valid /\ exists msg, validation.on_event e s results =
                          <[s := event.Rejected (ValidationError msg)]> results)
  end.
Proof.
  intros valid.
  assert (validation.validate e = Ok tt /\ valid \/
          (exists msg, validation.validate e = Err (ValidationError msg)) /\ ~ valid) as Hv.
  { unfold validation.validate, is_zero, valid.
    destruct (Z.eqb_spec (as_u64 (event.transaction_id e)) 0); [right; split; [by eexists|tauto]|].
    destruct (Z.eqb_spec (as_u64 (event.debit_account_id e)) 0); [right; split; [by eexists|tauto]|].
    destruct (Z.eqb_spec (as_u64 (event.credit_account_id e)) 0); [right; split; [by eexists|tauto]|].
    case_bool_decide; [right; split; [by eexists|tauto]|].
    destruct (Z.eqb_spec (event.amount_units e) 0); [right; split; [by eexists|tauto]|]. left. tauto. }
  unfold validation.on_event. destruct Hv as [[-> Hv]|[[msg ->] Hv]].
  - split; [tauto|]. destruct (results !! s); [done|by left].
  - split; [split; [done|tauto]|]. destruct (results !! s); [done|right]. split; [done|by eexists].
Qed.

(** the risk stage with the default scorer is the amount limit: it adds a rejection
    exactly when the event has no result yet, is flagged for a risk check and exceeds
    the limit. *)
Theorem risk_default_spec (fmt3 : spec_float -> string) (max : Z) (e : TransactionEvent) (s : Z)
    (results : gmap Z TransactionResult) :
  risk_handler.on_event fmt3 (risk_handler.new max) e s results =
    if bool_decide (results !! s = None) && event_flags.requires_risk_check (event.flags e)
       && (max <? event.amount_units e)
    then <[s := event.Rejected (ValidationError "transaction exceeds maximum amount limit")]> results
    else results.
Proof.
  unfold risk_handler.on_event. destruct (results !! s) eqn:Es.
  - by rewrite bool_decide_false.
  - rewrite bool_decide_true by done. simpl.
    by destruct (event_flags.requires_risk_check (event.flags e)), (max <? event.amount_units e).
Qed.
End stages.

(** ** The retry loop *)
Section retry.
Context `{DL : DecimalLib, CL : CurrencyLib, UL : UuidLib}.
Context {S : Type} `{LC : !LedgerClient S, LCa : !LedgerClientLaws S}.
Import ledger_handler.

Lemma submit_length n a ts (c : S) : length (submit n a ts c).1.1 = length ts.
Proof using LCa.
  revert a c. induction n as [|n IH]; intros a c; simpl;
    pose proof (batch_length ts c) as Hl; destruct (create_transfers_batch ts c) as [rs c1]; simpl in *; [done|].
  destruct (negb (all_transient rs)); [done|]. specialize (IH (a + 1) c1).
  destruct (submit n (a + 1) ts c1) as [[rs2 c2] ds]. done.
Qed.

Lemma submit_ids n a ts (c : S) i t j :
  ts !! i = Some t -> (submit n a ts c).1.1 !! i = Some (Ok j) -> j = transfer.id t.
Proof using LCa.
  intros Ht. revert a c. induction n as [|n IH]; intros a c; simpl;
    pose proof (batch_ids ts c i t j Ht) as Hi; destruct (create_transfers_batch ts c) as [rs c1]; simpl in *; [done|].
  destruct (negb (all_transient rs)); [done|]. specialize (IH (a + 1) c1).
  destruct (submit n (a + 1) ts c1) as [[rs2 c2] ds]. done.
Qed.

Lemma submit_faults n a ts (c : S) f :
  ts <> [] -> all_transient (create_transfers_batch ts c).1 = false ->
  0 <= f <= Z.of_nat n ->
  submit n a ts (fault.MkFault c f) =
    ((create_transfers_batch ts c).1, fault.MkFault (create_transfers_batch ts c).2 0,
     (fun k => backoff_ms (a + 1 + Z.of_nat k)) <$> seq 0 (Z.to_nat f)).
Proof.
  intros Hne Hnt. revert a f. induction n as [|n IH]; intros a f Hf; simpl;
    unfold fault.create_transfers_batch; cbn [fault.remaining_faults fault.inner].
  - assert (f = 0) as -> by lia. cbn. unfold fault.delegate. cbn [fault.inner].
    by destruct (create_transfers_batch ts c).
  - destruct (Z.ltb_spec 0 f) as [Hpos|Hz].
    + assert (all_transient ((fun _ => Err fault.injected) <$> ts) = true) as Ht.
      { unfold all_transient. rewrite forallb_forall. intros r Hr.
        apply list_elem_of_In, list_elem_of_fmap in Hr as (? & -> & _). done. }
      rewrite Ht. simpl. rewrite (IH (a + 1) (f - 1)) by lia.
      f_equal. replace (Z.to_nat f) with (Datatypes.S (Z.to_nat (f - 1))) by lia. simpl.
      f_equal; [f_equal; lia|]. rewrite <- fmap_S_seq, <- list_fmap_compose.
      apply list_fmap_ext. intros i k _. simpl. f_equal. lia.
    + assert (f = 0) as -> by lia. unfold fault.delegate. cbn [fault.inner fault.remaining_faults].
      destruct (create_transfers_batch ts c) as [rs c1]. simpl in *. by rewrite Hnt.
Qed.

(** a batch survives up to five transient faults of the ledger: the task returns the
    results of the first attempt that reaches the ledger, which sees the batch exactly
    once, after the delays 100, 200, 400, 800 and 800 ms, one per fault. *)
Theorem retry_survives_faults (ts : list Transfer) (c : S) (f : Z) :
  ts <> [] -> all_transient (create_transfers_batch ts c).1 = false -> 0 <= f <= 5 ->
  submit MAX_TRANSIENT_RETRIES 0 ts (fault.new c f) =
    ((create_transfers_batch ts c).1, fault.new (create_transfers_batch ts c).2 0,
     take (Z.to_nat f) [100; 200; 400; 800; 800]).
Proof.
  intros Hne Hnt Hf. unfold fault.new. rewrite submit_faults; [|done|done|unfold MAX_TRANSIENT_RETRIES; lia].
  f_equal. assert (f = 0 \/ f = 1 \/ f = 2 \/ f = 3 \/ f = 4 \/ f = 5) as H by lia.
  by destruct H as [->|[->|[->|[->|[->| ->]]]]].
Qed.

(** C14: the retry loop always ends: for every client and batch it sleeps at most five
    times and at most 2300 ms in total, and it returns one result per transfer. *)
Theorem retry_terminates (ts : list Transfer) (c : S) :
  let '(rs, _, delays) := submit MAX_TRANSIENT_RETRIES 0 ts c in
  length rs = length ts /\ (length delays <= 5)%nat /\ Zsum_with id delays <= 2300.
Proof using LCa.
  assert (Hd : forall n a (c : S), 0 <= a -> let ds := (submit n a ts c).2 in
    exists m, (m <= n)%nat /\ ds = (fun k => backoff_ms (a + 1 + Z.of_nat k)) <$> seq 0 m).
  { induction n as [|n IH]; intros a c0 Ha; simpl; destruct (create_transfers_batch ts c0) as [rs c1].
    { by exists 0%nat. }
    destruct (negb (all_transient rs)). { exists 0%nat. split; [lia|done]. }
    destruct (IH (a + 1) c1 ltac:(lia)) as (m & Hm & Em). destruct (submit n (a + 1) ts c1) as [[rs2 c2] ds].
    simpl in *. exists (Datatypes.S m). split; [lia|]. rewrite Em. simpl. f_equal; [f_equal; lia|].
    rewrite <- fmap_S_seq, <- list_fmap_compose. apply list_fmap_ext. intros i k _. simpl. f_equal. lia. }
  pose proof (submit_length MAX_TRANSIENT_RETRIES 0 ts c) as Hl.
  destruct (Hd MAX_TRANSIENT_RETRIES 0 c ltac:(lia)) as (m & Hm & Em).
  destruct (submit MAX_TRANSIENT_RETRIES 0 ts c) as [[rs c'] ds]. simpl in *. subst ds.
  unfold MAX_TRANSIENT_RETRIES in Hm. split_and!; [done|by rewrite length_fmap, length_seq|].
  assert (m = 0 \/ m = 1 \/ m = 2 \/ m = 3 \/ m = 4 \/ m = 5)%nat as H by lia.
  by destruct H as [->|[->|[->|[->|[->| ->]]]]].
Qed.
End retry.

(** ** Accounting of sequences *)
Section accounting.
Context `{DL : DecimalLib, CL : CurrencyLib, UL : UuidLib}.
Context {S : Type} `{LC : !LedgerClient S, LCa : !LedgerClientLaws S}.
Variable fmt3 : spec_float -> string.
Import ledger_handler chain.
Implicit Types (w : World S) (h : LedgerHandler) (t : Task).

(** What can happen: the worker hands an event to the chain, or a spawned task ends. *)
Inductive Act :=
  | Handle (env : Env) (e : TransactionEvent) (s : Z) (end_of_batch : bool)
  | Finish (wall_clock : Z) (k : nat).

Definition act (a : Act) (p : Chain * World S) : option (Chain * World S) :=
  match a with
  | Handle env e s eob => chain.on_event fmt3 env e s eob p.1 p.2
  | Finish clk k => (fun w => (p.1, w)) <$> complete_task clk k p.2
  end.

Fixpoint acts (l : list Act) (p : Chain * World S) : option (Chain * World S) :=
  match l with
  | [] => Some p
  | a :: l => match act a p with None => None | Some p' => acts l p' end
  end.

(** The sequences handed to the chain with the transfer identifier drawn for them. *)
Definition issued (l : list Act) : list (Z * TransferId) :=
  omap (fun a => match a with Handle env _ s _ => Some (s, fresh_id env) | Finish _ _ => None end) l.

Definition answered (s : Z) w : Prop :=
  is_Some (results w !! s) \/ exists ring, result_ring w = Some ring /\ result_ring.contains s ring = true.

Definition task_seqs t : list Z := prev_sequences t ++ [current_seq t].

(** Where a sequence can be on its way to an answer. *)
Definition accounted (s : Z) h w : Prop :=
  answered s w \/ s ∈ deferred_sequences h \/ exists t, t ∈ in_flight w /\ s ∈ task_seqs t.

Definition ring_ok (o : option result_ring.ResultRing) : Prop :=
  match o with
  | None => True
  | Some r => exists k, 0 <= k <= 62 /\ result_ring.mask r = 2 ^ k - 1 /\
                        Z.of_nat (length (result_ring.status r)) = 2 ^ k
  end.

Record chain_ok (iss : list (Z * TransferId)) h w : Prop := {
  co_ring : ring_ok (result_ring w);
  co_deferred : Forall2 (fun s x => (s, transfer.id x) ∈ iss) (deferred_sequences h) (deferred_transfers h);
  co_batch : (length (deferred_transfers h) < MAX_TB_BATCH_SIZE)%nat;
  co_tasks : Forall (fun t => Forall2 (fun s x => (s, transfer.id x) ∈ iss) (task_seqs t) (all_transfers t) /\
                              (length (all_transfers t) <= MAX_TB_BATCH_SIZE)%nat) (in_flight w);
  co_window : (length (in_flight w) <= MAX_CONCURRENT_BATCHES)%nat;
  co_committed : forall s i ts, results w !! s = Some (event.Committed i ts) -> (s, i) ∈ iss;
  co_all : forall s i, (s, i) ∈ iss -> accounted s h w;
}.

Lemma batch_size_pos : (0 < MAX_TB_BATCH_SIZE)%nat.
Proof. by apply Nat.ltb_lt. Qed.

Lemma ring_insert_ok s i r : ring_ok (Some r) -> ring_ok (Some (result_ring.insert s i r)) /\
  result_ring.contains s (result_ring.insert s i r) = true /\
  forall s', result_ring.contains s' r = true -> result_ring.contains s' (result_ring.insert s i r) = true.
Proof.
  intros (k & Hk & Hm & Hl). split; [|split].
  - exists k. simpl. by rewrite length_insert.
  - unfold result_ring.contains. simpl. change (result_ring.index (result_ring.insert s i r) s) with (result_ring.index r s).
    rewrite list_lookup_insert_eq; [done|]. pose proof (result_ring.slot_index_mod k r s Hk Hm).
    pose proof (Z.mod_pos_bound s (2 ^ k) ltac:(apply Z.pow_pos_nonneg; lia)). lia.
  - intros s'. unfold result_ring.contains. simpl.
    change (result_ring.index (result_ring.insert s i r) s') with (result_ring.index r s').
    destruct (decide (result_ring.index r s' = result_ring.index r s)) as [->|Hne].
    + intros H. rewrite list_lookup_insert_eq; [done|].
      destruct (result_ring.status r !! result_ring.index r s) eqn:E; [by eapply lookup_lt_Some|done].
    + by rewrite list_lookup_insert_ne.
Qed.

(** Writing one outcome answers its sequence and keeps every other answer. *)
Lemma write_result_answers clk s r w :
  ring_ok (result_ring w) ->
  ring_ok (result_ring (write_result clk s r w)) /\ answered s (write_result clk s r w) /\
  (forall s', answered s' w -> answered s' (write_result clk s r w)) /\
  client (write_result clk s r w) = client w /\ in_flight (write_result clk s r w) = in_flight w.
Proof.
  intros Hr.
  assert (Hmap : forall v, let w' := set_results (<[s := v]> (results w)) w in
    answered s w' /\ forall s', answered s' w -> answered s' w').
  { intros v. simpl. split; [left; simpl; by rewrite lookup_insert_eq|].
    intros s' [H|H]; [left|by right]. simpl. destruct (decide (s' = s)) as [->|Hne].
    - by rewrite lookup_insert_eq.
    - by rewrite lookup_insert_ne. }
  destruct r as [i|e]; simpl.
  - destruct (result_ring w) as [ring|] eqn:Er; simpl.
    + destruct (ring_insert_ok s i ring) as (H1 & H2 & H3); [done|].
      split_and!; [done|right; by eexists| |done|done].
      intros s' [H|(r' & Hr' & Hc)]; [by left|right]. rewrite Er in Hr'. simplify_eq. eexists. split; [done|]. by apply H3.
    + rewrite Er. destruct (Hmap (event.Committed i (now clk))) as [H1 H2]. split_and!; done.
  - destruct (Hmap (event.Rejected e)) as [H1 H2]. split_and!; done.
Qed.

Lemma write_result_committed clk s r w s' i ts :
  results (write_result clk s r w) !! s' = Some (event.Committed i ts) ->
  results w !! s' = Some (event.Committed i ts) \/ (s' = s /\ r = Ok i).
Proof.
  destruct r as [j|e]; simpl.
  - destruct (result_ring w); simpl; [by left|]. destruct (decide (s' = s)) as [->|Hne].
    + rewrite lookup_insert_eq. intros [= <- _]. by right.
    + rewrite lookup_insert_ne by done. by left.
  - destruct (decide (s' = s)) as [->|Hne]; [by rewrite lookup_insert_eq|].
    rewrite lookup_insert_ne by done. by left.
Qed.

Lemma write_results_answers clk seqs rs n w :
  ring_ok (result_ring w) -> (n + length seqs <= length rs)%nat ->
  let w' := write_results clk n seqs rs w in
  ring_ok (result_ring w') /\ (forall s, s ∈ seqs -> answered s w') /\
  (forall s, answered s w -> answered s w') /\ client w' = client w /\ in_flight w' = in_flight w /\
  (forall s i ts, results w' !! s = Some (event.Committed i ts) ->
     results w !! s = Some (event.Committed i ts) \/
     exists k, seqs !! k = Some s /\ rs !! (n + k)%nat = Some (Ok i)).
Proof.
  revert n w. induction seqs as [|s seqs IH]; intros n w Hr Hlen; simpl in *.
  { split_and!; try done; [|by left]. intros s Hs. by apply elem_of_nil in Hs. }
  destruct (lookup_lt_is_Some_2 rs n) as [r Hrn]; [lia|]. rewrite Hrn.
  destruct (write_result_answers clk s r w Hr) as (H1 & H2 & H3 & H4 & H5).
  destruct (IH (Datatypes.S n) (write_result clk s r w) H1 ltac:(lia)) as (I1 & I2 & I3 & I4 & I5 & I6).
  split_and!; [done| | |congruence|congruence|].
  - intros s' [->|Hs']%elem_of_cons; [by apply I3|by apply I2].
  - intros s' Hs'. by apply I3, H3.
  - intros s' i ts Hc. destruct (I6 s' i ts Hc) as [Hold|(k & Hk & Hrk)].
    + destruct (write_result_committed _ _ _ _ _ _ _ Hold) as [|[-> ->]]; [by left|].
      right. exists 0%nat. by rewrite Nat.add_0_r.
    + right. exists (Datatypes.S k). by rewrite Nat.add_succ_r.
Qed.

(** A task that ends answers all its sequences, with identifiers of its own transfers. *)
Lemma run_task_answers clk t w :
  ring_ok (result_ring w) -> length (all_transfers t) = length (task_seqs t) ->
  let w' := (run_task clk t w).1 in
  ring_ok (result_ring w') /\ (forall s, s ∈ task_seqs t -> answered s w') /\
  (forall s, answered s w -> answered s w') /\
  (forall s i ts, results w' !! s = Some (event.Committed i ts) ->
     results w !! s = Some (event.Committed i ts) \/
     exists k x, task_seqs t !! k = Some s /\ all_transfers t !! k = Some x /\ i = transfer.id x).
Proof using LCa.
  intros Hr Hlen. unfold run_task.
  pose proof (submit_length MAX_TRANSIENT_RETRIES 0 (all_transfers t) (client w)) as Hsl.
  pose proof (submit_ids MAX_TRANSIENT_RETRIES 0 (all_transfers t) (client w)) as Hids.
  destruct (submit MAX_TRANSIENT_RETRIES 0 (all_transfers t) (client w)) as [[rs c] ds]. simpl in Hsl, Hids. cbn [fst].
  unfold task_seqs in Hlen. rewrite length_app in Hlen. simpl in Hlen.
  set (w0 := MkWorld (results w) (result_ring w) (in_flight w) c).
  destruct (write_results_answers clk (prev_sequences t) rs 0 w0) as (I1 & I2 & I3 & _ & _ & I6); [done|simpl; lia|].
  set (w1 := write_results clk 0 (prev_sequences t) rs w0) in *.
  destruct (lookup_lt_is_Some_2 rs (length (prev_sequences t))) as [r Hrn]; [lia|]. rewrite Hrn.
  destruct (write_result_answers clk (current_seq t) r w1 I1) as (H1 & H2 & H3 & _).
  assert (Hget : forall k s i, task_seqs t !! k = Some s -> rs !! k = Some (Ok i) ->
    exists x, all_transfers t !! k = Some x /\ i = transfer.id x).
  { intros k s i Hk Hrk. destruct (lookup_lt_is_Some_2 (all_transfers t) k) as [x Hx].
    - apply lookup_lt_Some in Hrk. rewrite <- Hsl. exact Hrk.
    - exists x. split; [done|]. by eapply Hids. }
  split_and!; [done| |intros s Hs; by apply H3, I3|].
  - intros s Hs. unfold task_seqs in Hs. apply elem_of_app in Hs as [Hs|Hs]; [by apply H3, I2|].
    apply list_elem_of_singleton in Hs as ->. done.
  - intros s i ts Hc. destruct (write_result_committed _ _ _ _ _ _ _ Hc) as [Hold|[-> ->]].
    + destruct (I6 s i ts Hold) as [|(k & Hk & Hrk)]; [by left|right].
      assert (task_seqs t !! k = Some s) as Hk' by (by apply lookup_app_l_Some).
      destruct (Hget k s i Hk' Hrk) as (x & Hx & ->). by exists k, x.
    + right. assert (task_seqs t !! length (prev_sequences t) = Some (current_seq t)) as Hk
        by (by apply list_lookup_middle).
      destruct (Hget _ _ _ Hk Hrn) as (x & Hx & ->). by exists (length (prev_sequences t)), x.
Qed.

Lemma chain_ok_finish iss h w clk k w' :
  chain_ok iss h w -> complete_task clk k w = Some w' -> chain_ok iss h w'.
Proof using LCa.
  intros [Hring Hdef Hb Ht Hwin Hcom Hall] Hc. unfold complete_task in Hc.
  destruct (in_flight w !! k) as [t|] eqn:Hk; [|done]. simplify_eq/=.
  pose proof (Forall_lookup_1 _ _ _ _ Ht Hk) as [Hti Htb].
  destruct (run_task_answers clk t w Hring (eq_sym (Forall2_length _ _ _ Hti))) as (I1 & I2 & I3 & I4).
  assert (Hans : forall s, answered s (run_task clk t w).1 ->
    answered s (MkWorld (results (run_task clk t w).1) (result_ring (run_task clk t w).1)
                  (delete k (in_flight w)) (client (run_task clk t w).1))) by done.
  split; simpl; try done.
  - by apply Forall_delete.
  - rewrite length_delete by done. lia.
  - intros s i ts H. destruct (I4 s i ts H) as [|(j & x & Hj & Hx & ->)]; [by eapply Hcom|].
    by apply (Forall2_lookup_lr _ _ _ _ _ _ Hti Hj Hx).
  - intros s i Hs. destruct (Hall s i Hs) as [Ha|[Hd|(t' & Ht' & Hs')]].
    + left. by apply Hans, I3.
    + right; by left.
    + apply list_elem_of_lookup in Ht' as [j Hj]. destruct (decide (j = k)) as [->|Hne].
      * rewrite Hk in Hj. simplify_eq. left. by apply Hans, I2.
      * right; right. exists t'. split; [|done]. simpl.
        destruct (decide (j < k)%nat).
        -- eapply (list_elem_of_lookup_2 _ j). by rewrite list_lookup_delete_lt.
        -- eapply (list_elem_of_lookup_2 _ (j - 1)). rewrite list_lookup_delete_ge by lia.
           by replace (Datatypes.S (j - 1)) with j by lia.
Qed.

Lemma chain_ok_extend iss h w s i :
  chain_ok iss h w -> accounted s h w -> chain_ok (iss ++ [(s, i)]) h w.
Proof.
  intros [Hring Hdef Hb Ht Hwin Hcom Hall] Hs. split; try done.
  - eapply Forall2_impl; [done|]. set_solver.
  - eapply Forall_impl; [done|]. intros t [H1 H2]. split; [|done]. eapply Forall2_impl; [done|]. set_solver.
  - intros s' j ts H. specialize (Hcom s' j ts H). set_solver.
  - intros s' j [H|H]%elem_of_app; [by eapply Hall|].
    apply list_elem_of_singleton in H. by simplify_eq.
Qed.

(** The map gains at most a rejection of [s]. *)
Definition adds_rejection (s : Z) (r r' : gmap Z TransactionResult) : Prop :=
  r' = r \/ (r !! s = None /\ exists e, r' = <[s := event.Rejected e]> r).

Lemma chain_ok_rejection iss h w s r' :
  chain_ok iss h w -> adds_rejection s (results w) r' -> chain_ok iss h (set_results r' w).
Proof.
  intros Hok [->|[Hn [e ->]]]; [by destruct w|].
  destruct Hok as [Hring Hdef Hb Ht Hwin Hcom Hall]. split; try done; simpl.
  - intros s' i ts. destruct (decide (s' = s)) as [->|Hne]; [by rewrite lookup_insert_eq|].
    rewrite lookup_insert_ne by done. apply Hcom.
  - intros s' i H. destruct (Hall s' i H) as [[Ha|Ha]|Ha]; [left; left| |by right].
    + simpl. destruct (decide (s' = s)) as [->|Hne]; [by rewrite lookup_insert_eq|by rewrite lookup_insert_ne].
    + left; by right.
Qed.

Lemma validation_adds e s r : adds_rejection s r (validation.on_event e s r).
Proof.
  unfold validation.on_event. destruct (r !! s) eqn:E; [by left|].
  destruct (validation.validate e); [by left|]. right. split; [done|by eexists].
Qed.

Lemma risk_adds (rh : risk_handler.RiskHandler) e s r : adds_rejection s r (risk_handler.on_event fmt3 rh e s r).
Proof.
  unfold risk_handler.on_event. destruct (r !! s) eqn:E; [by left|].
  repeat case_match; (by left) || (right; split; [done|by eexists]).
Qed.

Lemma build_transfer_id env e amt (x : Transfer) :
  build_transfer env e amt = Ok x -> transfer.id x = fresh_id env.
Proof.
  unfold build_transfer, transfer.new_with_flags, transfer.new.
  intros H. repeat case_match; apply rbind_ok in H as (? & _ & [= <-]); done.
Qed.

Lemma chain_ok_ledger iss env e s eob h w h' w' :
  chain_ok iss h w -> ledger_handler.on_event env e s eob h w = Some (h', w') ->
  chain_ok (iss ++ [(s, fresh_id env)]) h' w'.
Proof.
  intros Hok. unfold ledger_handler.on_event.
  destruct (results w !! s) eqn:Es.
  { intros [= <- <-]. apply chain_ok_extend; [done|]. left; left. by rewrite Es. }
  assert (Hrej : forall reason, chain_ok (iss ++ [(s, fresh_id env)]) h (reject s reason w)).
  { intros reason. apply chain_ok_extend.
    - eapply chain_ok_rejection; [done|]. right. split; [done|by eexists].
    - left; left. simpl. by rewrite lookup_insert_eq. }
  destruct (reconstruct_amount e) as [amt|reason]; [|by intros [= <- <-]].
  destruct (build_transfer env e amt) as [x|reason] eqn:Ex; [|by intros [= <- <-]].
  apply build_transfer_id in Ex. pose proof Hok as [Hring Hdef Hb Ht Hwin Hcom Hall].
  assert (Hdef' : Forall2 (fun s x => (s, transfer.id x) ∈ iss ++ [(s, fresh_id env)])
    (deferred_sequences h) (deferred_transfers h)) by (eapply Forall2_impl; [done|]; set_solver).
  assert (Hnew : Forall2 (fun q x => (q, transfer.id x) ∈ iss ++ [(s, fresh_id env)])
    (deferred_sequences h ++ [s]) (deferred_transfers h ++ [x])).
  { apply Forall2_app; [eapply Forall2_impl; [exact Hdef|]; set_solver|].
    constructor; [|done]. rewrite Ex. set_solver. }
  assert (Htasks : Forall (fun t => Forall2 (fun q x => (q, transfer.id x) ∈ iss ++ [(s, fresh_id env)])
      (task_seqs t) (all_transfers t) /\ (length (all_transfers t) <= MAX_TB_BATCH_SIZE)%nat) (in_flight w)).
  { eapply Forall_impl; [exact Ht|]. intros t [H1 H2]. split; [|done]. eapply Forall2_impl; [done|]. set_solver. }
  unfold should_flush. destruct (negb _) eqn:Ef.
  - intros [= <- <-]. bool_to_prop. match goal with H : (_ <=? _)%nat = false |- _ => apply Nat.leb_gt in H end.
    split; simpl; try done.
    + rewrite length_app. simpl. lia.
    + intros q i ts H'. specialize (Hcom q i ts H'). set_solver.
    + intros q i [H'|H']%elem_of_app.
      * destruct (Hall q i H') as [|[|]]; [by left|right; left; set_solver|by right; right].
      * apply list_elem_of_singleton in H'. simplify_eq. right; left. set_solver.
  - destruct (MAX_CONCURRENT_BATCHES <=? length (in_flight w))%nat eqn:Em; [done|].
    apply Nat.leb_gt in Em. intros [= <- <-]. split; simpl; try done.
    + apply batch_size_pos.
    + apply Forall_app. split; [done|]. constructor; [|done]. simpl. split; [done|].
      rewrite length_app. simpl. lia.
    + rewrite length_app. simpl. lia.
    + intros q i ts H'. specialize (Hcom q i ts H'). set_solver.
    + intros q i [H'|H']%elem_of_app.
      * destruct (Hall q i H') as [|[Hd|(t & Hin & Hq)]]; [by left| |].
        -- right; right. eexists. split; [apply elem_of_app; right; by apply list_elem_of_singleton|].
           unfold task_seqs. simpl. set_solver.
        -- right; right. exists t. split; [set_solver|done].
      * apply list_elem_of_singleton in H'. simplify_eq. right; right. eexists.
        split; [apply elem_of_app; right; by apply list_elem_of_singleton|]. unfold task_seqs. simpl. set_solver.
Qed.

Lemma chain_ok_act iss a c w c' w' :
  chain_ok iss (ledger c) w -> act a (c, w) = Some (c', w') -> chain_ok (iss ++ issued [a]) (ledger c') w'.
Proof using LCa.
  intros Hok. destruct a as [env e s eob|clk k]; simpl.
  - unfold chain.on_event.
    destruct (ledger_handler.on_event _ _ _ _ _ _) as [[h' w1]|] eqn:El; [|done]. intros [= <- <-]. simpl.
    eapply chain_ok_ledger; [|exact El].
    eapply chain_ok_rejection; [|apply risk_adds]. eapply chain_ok_rejection; [done|apply validation_adds].
  - rewrite app_nil_r. destruct (complete_task clk k w) as [w1|] eqn:Ec; [|done]. intros [= <- <-].
    by eapply chain_ok_finish.
Qed.

Definition initial (max : Z) (ring : option result_ring.ResultRing) (c : S) : Chain * World S :=
  (MkChain (risk_handler.new max) ledger_handler.new publish_handler.new, MkWorld ∅ ring [] c).

Lemma acts_ok l iss c w c' w' :
  chain_ok iss (ledger c) w -> acts l (c, w) = Some (c', w') -> chain_ok (iss ++ issued l) (ledger c') w'.
Proof using LCa.
  revert iss c w. induction l as [|a l IH]; intros iss c w Hok Hr.
  - simpl in *. simplify_eq. by rewrite app_nil_r.
  - cbn [acts] in Hr. destruct (act a (c, w)) as [[c1 w1]|] eqn:Ea; [|done].
    apply (chain_ok_act iss) in Ea; [|done]. specialize (IH _ c1 w1 Ea Hr).
    replace (issued (a :: l)) with (issued [a] ++ issued l) by (by destruct a).
    by rewrite app_assoc.
Qed.

Lemma initial_ok max ring c : ring_ok ring ->
  chain_ok [] (ledger (initial max ring c).1) (initial max ring c).2.
Proof.
  intros Hr. split; simpl; try done.
  - apply batch_size_pos.
  - unfold MAX_CONCURRENT_BATCHES. lia.
  - intros s i H. by apply elem_of_nil in H.
Qed.

(** C3: no transaction is lost by the handler chain.  Whatever the interleaving of events
    and finishing tasks, every sequence handed to the chain has an answer, waits in the
    current batch, or belongs to a task in flight; in particular, when the batch is
    empty and no task is in flight every event has been answered. *)
Theorem chain_accounts_for_all (l : list Act) (max : Z) ring (c : S) c' w' :
  ring_ok ring -> acts l (initial max ring c) = Some (c', w') ->
  (forall s i, (s, i) ∈ issued l -> accounted s (ledger c') w') /\
  (deferred_sequences (ledger c') = [] -> in_flight w' = [] ->
   forall s i, (s, i) ∈ issued l -> answered s w').
Proof using LCa.
  intros Hr Ha. pose proof (acts_ok l [] _ _ c' w' (initial_ok max ring c Hr) Ha) as [_ _ _ _ _ _ Hall].
  split; [done|]. intros Hd Hf s i Hs. destruct (Hall s i Hs) as [|[H|(t & H & _)]]; [done| |].
  - rewrite Hd in H. by apply elem_of_nil in H.
  - rewrite Hf in H. by apply elem_of_nil in H.
Qed.

(** the limits hold in every interleaving: a batch never exceeds the 8190 transfers of
    the TigerBeetle protocol, at most eight tasks are in flight, and every transfer of a
    task stands at the position of its sequence. *)
Theorem ledger_batch_limits (l : list Act) (max : Z) ring (c : S) c' w' :
  ring_ok ring -> acts l (initial max ring c) = Some (c', w') ->
  (length (deferred_transfers (ledger c')) < 8190)%nat /\
  (length (in_flight w') <= 8)%nat /\
  Forall (fun t => (length (all_transfers t) <= 8190)%nat /\
  length (all_transfers t) = length (prev_sequences t ++ [current_seq t])) (in_flight w').
Proof using LCa.
  intros Hr Ha. pose proof (acts_ok l [] _ _ c' w' (initial_ok max ring c Hr) Ha) as [_ _ Hb Ht Hw _ _].
  split_and!; [done|done|]. eapply Forall_impl; [exact Ht|]. intros t [H1 H2]. split; [done|].
  symmetry. by eapply Forall2_length.
Qed.

(** a committed result is never attributed to the wrong event: the transfer identifier
    reported for a sequence is one that was drawn for an event of that sequence. *)
Theorem committed_results_sound (l : list Act) (max : Z) ring (c : S) c' w' s i ts :
  ring_ok ring -> acts l (initial max ring c) = Some (c', w') ->
  results w' !! s = Some (event.Committed i ts) -> (s, i) ∈ issued l.
Proof using LCa.
  intros Hr Ha. pose proof (acts_ok l [] _ _ c' w' (initial_ok max ring c Hr) Ha) as [_ _ _ _ _ Hc _].
  apply Hc.
Qed.
End accounting.

(** ** From the event to the wire *)
Section wire.
Context `{DL : DecimalLib, DLa : !DecimalLaws, CL : CurrencyLib, CLa : !CurrencyLaws, UL : UuidLib, ULa : !UuidLaws}.
Import ledger_handler.

(** The kind of transfer the two-phase flags ask for. *)
Definition two_phase_flags (f : EventFlags) : transfer.TransferFlags :=
  match event_flags.is_pending f, event_flags.is_posted f, event_flags.is_voided f with
  | true, false, false => transfer.MkTransferFlags false true false false
  | false, true, false => transfer.MkTransferFlags false false true false
  | false, false, true => transfer.MkTransferFlags false false false true
  | _, _, _ => transfer.default_flags
  end.

Lemma build_transfer_fields env e amt t :
  build_transfer env e amt = Ok t ->
  transfer.amount t = amt /\ transfer.debit_account_id t = event.debit_account_id e /\
  transfer.credit_account_id t = event.credit_account_id e /\ transfer.code t = event.code e /\
  transfer.ledger_id t = event.ledger_id e /\ transfer.flags t = two_phase_flags (event.flags e) /\
  transfer.validate t = Ok tt.
Proof.
  unfold build_transfer, two_phase_flags, transfer.new_with_flags, transfer.new.
  intros H. repeat case_match; apply rbind_ok in H as ([] & Hv & [= <-]); by split_and!.
Qed.

Lemma stage_encodes (env : Env) (e : TransactionEvent) (amt : Amount) (t : Transfer) :
  0 <= event.amount_units e < 2 ^ 64 ->
  reconstruct_amount e = Ok amt -> build_transfer env e amt = Ok t ->
  exists tb, tigerbeetle.domain_transfer_to_tb t = Ok tb /\
    tbt_amount tb = event.amount_units e /\
    tbt_debit_account_id tb = as_u64 (event.debit_account_id e) /\
    tbt_credit_account_id tb = as_u64 (event.credit_account_id e) /\
    tbt_code tb = event.code e /\
    tbt_PENDING tb = transfer.pending (two_phase_flags (event.flags e)) /\
    tbt_POST_PENDING_TRANSFER tb = transfer.post_pending_transfer (two_phase_flags (event.flags e)) /\
    tbt_VOID_PENDING_TRANSFER tb = transfer.void_pending_transfer (two_phase_flags (event.flags e)).
Proof.
  intros Hu Ha Ht. apply build_transfer_fields in Ht as (Eamt & Ed & Ec & Ecd & _ & Ef & _).
  unfold reconstruct_amount in Ha. apply rbind_ok in Ha as (c & _ & Hm).
  destruct (minor_units_quotient _ c Hu) as (a & Ea & _ & Ecur & Eq & Hs). rewrite Ea in Hm. simplify_eq.
  unfold tigerbeetle.domain_transfer_to_tb.
  rewrite (amount_to_minor_units_exact (transfer.amount t) (event.amount_units e)); [|done|done|].
  - simpl. eexists. split; [done|]. simpl. rewrite Ed, Ec, Ecd, Ef. by split_and!.
  - unfold amount.MAX_SCALE. lia.
Qed.

(** what the ledger stage submits is what the client sent: a transfer it builds from an
    event always encodes for TigerBeetle, with exactly the amount units, accounts, code
    and two-phase kind of the event. *)
Theorem ledger_stage_encodes (env : Env) (e : TransactionEvent) (amt : Amount) (t : Transfer) :
  0 <= event.amount_units e < 2 ^ 64 ->
  reconstruct_amount e = Ok amt -> build_transfer env e amt = Ok t ->
  exists tb, tigerbeetle.domain_transfer_to_tb t = Ok tb /\
    tbt_amount tb = event.amount_units e /\
    tbt_debit_account_id tb = as_u64 (event.debit_account_id e) /\
    tbt_credit_account_id tb = as_u64 (event.credit_account_id e) /\
    tbt_code tb = event.code e /\
    tbt_PENDING tb = transfer.pending (two_phase_flags (event.flags e)) /\
    tbt_POST_PENDING_TRANSFER tb = transfer.post_pending_transfer (two_phase_flags (event.flags e)) /\
    tbt_VOID_PENDING_TRANSFER tb = transfer.void_pending_transfer (two_phase_flags (event.flags e)).
Proof. apply stage_encodes. Qed.
End wire.

(** ** The publish stage *)
Section publish.
Context `{UL : UuidLib}.
Import publish_handler.

Definition counted (h : PublishHandler) : Z :=
  published_count h + rejected_count h + Z.of_nat (length (deferred h)).

Lemma record_counts r h : deferred (record r h) = deferred h /\ counted (record r h) = counted h + 1.
Proof. destruct r; unfold counted; simpl; split; (done || lia). Qed.

Lemma flush_counts results h : counted (flush_deferred results h) <= counted h.
Proof.
  unfold flush_deferred. set (f := fun h s => match results !! s with Some r => record r h | None => h end).
  assert (forall l h0, counted (foldl f h0 l) <= counted h0 + Z.of_nat (length l)) as H.
  { induction l as [|s l IH]; intros h0; simpl; [lia|]. etransitivity; [apply IH|].
    unfold f. destruct (results !! s); [rewrite (proj2 (record_counts _ _))|]; lia. }
  etransitivity; [apply H|]. unfold counted. simpl. lia.
Qed.

(** the publish stage counts every event at most once: after any sequence of events,
    with any contents of the results map at each of them, the published, rejected and
    still deferred events together do not exceed the events seen. *)
Theorem publish_counts_once (l : list (gmap Z TransactionResult * TransactionEvent * Z * bool)) :
  counted (foldl (fun h x => on_event x.1.1.1 x.1.1.2 x.1.2 x.2 h) new l) <= Z.of_nat (length l).
Proof.
  assert (forall h, counted (foldl (fun h x => on_event x.1.1.1 x.1.1.2 x.1.2 x.2 h) h l)
                    <= counted h + Z.of_nat (length l)) as H; [|specialize (H new); done].
  induction l as [|[[[rs e] s] eob] l IH]; intros h; simpl; [lia|].
  etransitivity; [apply IH|]. assert (counted (on_event rs e s eob h) <= counted h + 1); [|lia].
  unfold on_event. destruct (event_flags.skip_publish (event.flags e)).
  { destruct eob; [pose proof (flush_counts rs h)|]; lia. }
  destruct (rs !! s) as [r|].
  - pose proof (record_counts r h) as [_ Hr]. destruct eob; [pose proof (flush_counts rs (record r h))|]; lia.
  - unfold counted. simpl. rewrite length_app. simpl. lia.
Qed.
End publish.

(** ** Evaluated scenarios *)
Module handler_examples.
Import common_examples ledger_examples inmemory_examples ledger_handler chain.

Definition fmt (x : spec_float) : string := "".
Definition env (n us : Z) : Env := MkEnv (ledger_examples.tid n) us 0.
Definition pay_event (n d c units : Z) : TransactionEvent :=
  event.new (UL := uid.lib) 0 (U64Id n) (acc d) (acc c) units LedgerId_USD 1.
Definition ledger0 : mock.InMemoryLedgerClient :=
  (run_ops [open_usd 1 account.default_flags; open_usd 2 account.default_flags] mock.new).2.
Definition start := initial (S := mock.InMemoryLedgerClient) 100000 None ledger0.

Definition scenario : list Act :=
  [Handle (env 50 0) (pay_event 1 1 2 500) 0 false;
   Handle (env 51 10) (pay_event 2 1 1 500) 1 false;
   Handle (env 52 20) (pay_event 3 2 1 300) 2 true;
   Finish 7 0].

(** What is left to do after a run, and the results. *)
Definition summary (p : Chain * World mock.InMemoryLedgerClient) :=
  (deferred_sequences (ledger p.1), length (in_flight p.2), results p.2 !! 0, results p.2 !! 2).

Example scenario_results :
  summary <$> acts fmt scenario start =
    Some ([], 0%nat, Some (event.Committed (ledger_examples.tid 50) (now 7)),
          Some (event.Committed (ledger_examples.tid 52) (now 7))).
Proof. vm_refl. Qed.

Lemma scenario_runs : { p | acts fmt scenario start = Some p }.
Proof.
  destruct (acts fmt scenario start) as [p|] eqn:E; [by exists p|].
  pose proof scenario_results as H. rewrite E in H. discriminate H.
Defined.

Lemma chain_accounts_for_all_witness :
  exists c' w', acts fmt scenario start = Some (c', w') /\ answered 0 w' /\ answered 1 w' /\ answered 2 w'.
Proof.
  destruct scenario_runs as [[c' w'] E]. exists c', w'. split; [done|].
  pose proof scenario_results as H. rewrite E in H. simpl in H. injection H as Hd Hf _ _.
  apply nil_length_inv in Hf.
  destruct (chain_accounts_for_all (LC := mock.client) fmt scenario 100000 None ledger0 c' w' I E) as [_ Ha].
  change (issued scenario) with [(0, ledger_examples.tid 50); (1, ledger_examples.tid 51); (2, ledger_examples.tid 52)] in Ha.
  split_and!; (eapply Ha; [done|done|]); rewrite !elem_of_cons; eauto.
Defined.

Lemma ledger_batch_limits_witness :
  exists c' w', acts fmt scenario start = Some (c', w') /\ (length (in_flight w') <= 8)%nat.
Proof.
  destruct scenario_runs as [[c' w'] E]. exists c', w'. split; [done|].
  apply (ledger_batch_limits (LC := mock.client) fmt scenario 100000 None ledger0 c' w' I E).
Defined.

Lemma committed_results_sound_witness : (2, ledger_examples.tid 52) ∈ issued scenario.
Proof.
  destruct scenario_runs as [[c' w'] E].
  pose proof scenario_results as H. rewrite E in H. simpl in H. injection H as _ _ _ Hr.
  exact (committed_results_sound (LC := mock.client) fmt scenario 100000 None ledger0 c' w' 2 _ _ I E Hr).
Defined.

Definition one_transfer : list Transfer := [pay 10 1 2 500 2].

Lemma retry_survives_faults_witness :
  submit MAX_TRANSIENT_RETRIES 0 one_transfer (fault.new ledger0 3) =
    ((create_transfers_batch one_transfer ledger0).1, fault.new (create_transfers_batch one_transfer ledger0).2 0,
     [100; 200; 400]).
Proof.
  apply (retry_survives_faults (LC := mock.client) one_transfer ledger0 3); [done|vm_refl|lia].
Defined.

Lemma retry_terminates_witness :
  let '(rs, _, delays) := submit MAX_TRANSIENT_RETRIES 0 one_transfer (fault.new ledger0 100) in
  length rs = 1%nat /\ (length delays <= 5)%nat /\ Zsum_with id delays <= 2300.
Proof.
  exact (retry_terminates (LC := fault.client) (LCa := fault.client_laws) one_transfer (fault.new ledger0 100)).
Defined.

Lemma ledger_stage_encodes_witness :
  exists amt t tb, reconstruct_amount (pay_event 1 1 2 500) = Ok amt /\
    build_transfer (env 50 0) (pay_event 1 1 2 500) amt = Ok t /\
    tigerbeetle.domain_transfer_to_tb t = Ok tb /\ tbt_amount tb = 500.
Proof.
  assert (is_ok (reconstruct_amount (DL := dec.lib) (CL := cur.lib) (pay_event 1 1 2 500)) = true) as H1 by vm_refl.
  destruct (reconstruct_amount (DL := dec.lib) (CL := cur.lib) (pay_event 1 1 2 500)) as [amt|] eqn:Ea; [|discriminate H1].
  assert (is_ok (match reconstruct_amount (DL := dec.lib) (CL := cur.lib) (pay_event 1 1 2 500) with
    | Ok a => build_transfer (env 50 0) (pay_event 1 1 2 500) a | Err e => Err e end) = true) as H2 by vm_refl.
  rewrite Ea in H2. destruct (build_transfer (env 50 0) (pay_event 1 1 2 500) amt) as [t|] eqn:Et; [|discriminate H2].
  destruct (ledger_stage_encodes (DL := dec.lib) (CL := cur.lib) (UL := uid.lib) (env 50 0) (pay_event 1 1 2 500) amt t)
    as (tb & Htb & Hamt & _); [cbn [pay_event event.new event.amount_units]; lia|exact Ea|exact Et|].
  exists amt, t, tb. exact (conj eq_refl (conj Et (conj Htb Hamt))).
Defined.

(** an event that is rejected at the end of a batch does not flush the batch.  The
    transfer deferred before it stays in the handler with no task in flight: it gets no
    answer until some later event arrives. *)
Theorem rejected_end_of_batch_strands_batch :
  summary <$> acts fmt [Handle (env 50 0) (pay_event 1 1 2 500) 0 false;
                        Handle (env 51 10) (pay_event 2 1 1 500) 1 true] start
  = Some ([0], 0%nat, None, None).
Proof. vm_refl. Qed.

(** the delays of the retry loop are not the documented ones: a ledger that never
    recovers is retried after 100, 200, 400, 800 and 800 ms (2300 ms in all), where the
    constants are documented as 50, 100, 200, 400 and 800 ms (1550 ms). *)
Theorem retry_delays_differ_from_doc :
  (submit MAX_TRANSIENT_RETRIES 0 one_transfer (fault.new ledger0 100)).2 = [100; 200; 400; 800; 800] /\
  [100; 200; 400; 800; 800] <> [50; 100; 200; 400; 800].
Proof. split; [vm_refl|done]. Qed.
End handler_examples.
