(* ===== verification/Sharded.v ===== *)
(** * core/engine: sharded pipelines and cross-shard routing

    [sharded] translates [sharded_pipeline.rs]: the shard-count helpers, the routing mask,
    construction, resizing, publishing with its bounded wait, and the merged results.
    [cross_shard] translates [cross_shard.rs].  A shard is the ring buffer of its pipeline
    and its private results map. *)

From stdpp Require Import base numbers list gmap strings.
From Stdlib Require Import ZArith Lia.
From S2P Require Import Prelude External Common RingBuffer Pipeline.

Module sharded.
Definition MAX_SHARD_COUNT : Z := 8.
Definition MAX_RING_CAPACITY_PER_SHARD : Z := 1048576.

(** The doubling loop; three doublings reach the maximum. *)
Fixpoint double_while (fuel : nat) (n limit : Z) : Z :=
  match fuel with
  | O => n
  | S fuel => if n * 2 <=? limit then double_while fuel (n * 2) limit else n
  end.

(** [cpus] is [available_parallelism], [None] when it is an error. *)
Definition default_shard_count (cpus : option Z) : Z :=
  let desired := Z.max (default 4 cpus / 2) 1 in
  double_while 4 1 (Z.min desired MAX_SHARD_COUNT).

Definition valid_count (n : Z) : bool := (1 <=? n) && (n <=? MAX_SHARD_COUNT) && is_power_of_two n.

(** [var] is the environment variable; the result is [None] when the assertion fails. *)
Definition from_env (var : option string) (cpus : option Z) : option Z :=
  match var ≫= parse_u64 with
  | Some n => if valid_count n then Some n else None
  | None => Some (default_shard_count cpus)
  end.

Definition route_to_shard (account_id shard_count : Z) : Z := Z.land account_id (shard_count - 1).

Section sharded.
Context {E R : Type}.
Variable default_event : nat -> E.
Variable debit_account_id : E -> Z.

Record Shard : Type := MkShard { ring : RingBuffer E; results : gmap Z R }.

Record ShardedPipeline : Type := MkSharded {
  shards : list Shard;
  shard_count : Z;
  capacity_per_shard : Z;
}.

Definition build_shard (cap : Z) : BlazerResult Shard :=
  let b := pipeline.with_capacity cap pipeline.builder_new in
  let? s := pipeline.build default_event b in
  Ok (MkShard (pipeline.rb s) ∅).

Fixpoint build_shards (n : nat) (cap : Z) : BlazerResult (list Shard) :=
  match n with
  | O => Ok []
  | S n => let? s := build_shard cap in let? l := build_shards n cap in Ok (s :: l)
  end.

Definition new (count cap : Z) : BlazerResult ShardedPipeline :=
  let? l := build_shards (Z.to_nat count) cap in Ok (MkSharded l count cap).

(** The old shards are stopped and dropped with their results; [None] is a failed
    assertion or expectation. *)
Definition resize (new_count : Z) (p : ShardedPipeline) : option ShardedPipeline :=
  if valid_count new_count
  then match build_shards (Z.to_nat new_count) (capacity_per_shard p) with
       | Ok l => Some (MkSharded l new_count (capacity_per_shard p))
       | Err _ => None
       end
  else None.

(** The wait of at most 128 rounds; [progress r] is what the shard's worker does during
    round [r]. *)
Fixpoint wait_capacity (fuel : nat) (rounds : nat) (progress : nat -> RingBuffer E -> RingBuffer E)
    (r : RingBuffer E) : bool * RingBuffer E :=
  if ring_buffer.has_available_capacity r then (true, r)
  else match fuel with
       | O => (false, r)
       | S fuel => wait_capacity fuel (S rounds) progress (progress rounds r)
       end.

Definition publish_event (progress : nat -> RingBuffer E -> RingBuffer E) (e : E) (p : ShardedPipeline)
    : option (BlazerResult Z * ShardedPipeline) :=
  let shard_id := Z.to_nat (route_to_shard (debit_account_id e) (shard_count p)) in
  match shards p !! shard_id with
  | None => None
  | Some s =>
      let '(free, r) := wait_capacity 128 0 progress (ring s) in
      let '(res, r) := if free then pipeline.publish_event e r else (Err (RingBufferFull 1), r) in
      Some (res, MkSharded (<[shard_id := MkShard r (results s)]> (shards p)) (shard_count p) (capacity_per_shard p))
  end.

Definition unique_key (shard_id : nat) (k : Z) : Z := Z.lor (Z.shiftl (Z.of_nat shard_id) 48) k.

(** The combined map, in shard order. *)
Definition merged (p : ShardedPipeline) : gmap Z R :=
  list_to_map (reverse (mjoin (imap (fun i s => prod_map (unique_key i) id <$> map_to_list (results s)) (shards p)))).

Definition shard_results (i : nat) (p : ShardedPipeline) : option (gmap Z R) := results <$> shards p !! i.
End sharded.
End sharded.

Module cross_shard.
Record CrossShardTransfer : Type := MkCross {
  src_account_id : Z; dst_account_id : Z; amount : Z; transfer_id : Z }.

Inductive CrossShardRoute := Local (shard : Z) | Remote (src_shard dst_shard : Z).

Definition new (src dst amt i : Z) : CrossShardTransfer := MkCross src dst amt i.

Definition route_cross_shard (t : CrossShardTransfer) (shard_count : Z) : CrossShardRoute :=
  let src := sharded.route_to_shard (src_account_id t) shard_count in
  let dst := sharded.route_to_shard (dst_account_id t) shard_count in
  if src =? dst then Local src else Remote src dst.
End cross_shard.

Section routing.
Import sharded.

Lemma route_mod a n : is_power_of_two n = true -> 0 <= n -> route_to_shard a n = a mod n.
Proof.
  intros Hp Hn. apply is_power_of_two_spec in Hp as (k & Hk & ->); [|done].
  by apply land_mask_mod.
Qed.

Lemma valid_count_spec n : valid_count n = true <-> n = 1 \/ n = 2 \/ n = 4 \/ n = 8.
Proof.
  split.
  - unfold valid_count, MAX_SHARD_COUNT. intros H. bool_to_prop.
    assert (n = 1 \/ n = 2 \/ n = 3 \/ n = 4 \/ n = 5 \/ n = 6 \/ n = 7 \/ n = 8) as Hn by lia.
    destruct Hn as [->|[->|[->|[->|[->|[->|[->| ->]]]]]]]; try done; tauto.
  - by intros [->|[->|[->| ->]]].
Qed.

(** with a validated shard count the mask is reduction modulo the count: every account
    has exactly one shard, in range, and a transfer is local exactly when both accounts
    are congruent; the default count and every count accepted from the environment are
    powers of two between 1 and 8. *)
Theorem shard_routing (a b amt i n : Z) (var : option string) (cpus : option Z) :
  valid_count n = true -> 0 <= a -> 0 <= b ->
  route_to_shard a n = a mod n /\ 0 <= route_to_shard a n < n /\
  cross_shard.route_cross_shard (cross_shard.new a b amt i) n =
    (if a mod n =? b mod n then cross_shard.Local (a mod n)
     else cross_shard.Remote (a mod n) (b mod n)) /\
  match from_env var cpus with Some m => valid_count m = true | None => True end.
Proof.
  intros Hn Ha Hb. pose proof Hn as Hv. unfold valid_count in Hn. bool_to_prop.
  assert (forall x, route_to_shard x n = x mod n) as Hr by (intros; apply route_mod; [done|lia]).
  unfold cross_shard.route_cross_shard. simpl. rewrite !Hr. split_and!; try done.
  - apply Z.mod_pos_bound. lia.
  - apply Z.mod_pos_bound. lia.
  - unfold from_env. destruct (var ≫= parse_u64) as [m|]; [by destruct (valid_count m) eqn:E|].
    unfold default_shard_count. apply valid_count_spec.
    set (d := Z.min _ _). assert (1 <= d <= 8) as Hd by (unfold d, MAX_SHARD_COUNT; lia). clearbody d.
    assert (d = 1 \/ d = 2 \/ d = 3 \/ d = 4 \/ d = 5 \/ d = 6 \/ d = 7 \/ d = 8) as Hc by lia.
    destruct Hc as [->|[->|[->|[->|[->|[->|[->| ->]]]]]]]; vm_compute; auto.
Qed.

Lemma shard_routing_witness : route_to_shard 42 4 = 2.
Proof. destruct (shard_routing 42 99 10 1 4 None None) as (-> & _); [done|lia|lia|done]. Defined.

(** The constructor does not validate the count: of three shards, the middle one is
    never routed to. *)
Lemma unvalidated_count_starves_shard a : 0 <= a -> route_to_shard a 3 <> 1.
Proof.
  intros Ha H. unfold route_to_shard in H. change (3 - 1) with 2 in H.
  assert (Z.testbit (Z.land a 2) 0 = Z.testbit 1 0) as Hb by (by rewrite H).
  rewrite Z.land_spec in Hb. change (Z.testbit 2 0) with false in Hb. by rewrite andb_false_r in Hb.
Qed.
End routing.

Section merge.
Context {E R : Type}.
Import sharded.

Lemma key_arith i k : 0 <= k < 2 ^ 48 -> unique_key i k = Z.of_nat i * 2 ^ 48 + k.
Proof.
  intros Hk. unfold unique_key. rewrite Z.shiftl_mul_pow2 by lia.
  pose proof (Z.add_lor_land (Z.of_nat i * 2 ^ 48) k) as H.
  assert (Z.land (Z.of_nat i * 2 ^ 48) k = 0) as E0; [|lia].
  apply Z.bits_inj'. intros n Hn. rewrite Z.land_spec, Z.bits_0.
  destruct (Z.lt_ge_cases n 48); [by rewrite Z.mul_pow2_bits_low by lia|].
  rewrite <- (Z.mod_small k (2 ^ 48)) by done. rewrite Z.mod_pow2_bits_high by lia. apply andb_false_r.
Qed.

Lemma key_inj i j k l :
  0 <= k < 2 ^ 48 -> 0 <= l < 2 ^ 48 -> unique_key i k = unique_key j l -> i = j /\ k = l.
Proof. intros Hk Hl. rewrite !key_arith by done. lia. Qed.

(** Every sequence of every shard fits the 48 bits left for it. *)
Definition sequences_fit (p : ShardedPipeline (E := E) (R := R)) : Prop :=
  Forall (fun s => forall k r, results s !! k = Some r -> 0 <= k < 2 ^ 48) (shards p).

(** merging the shards' results loses and confuses nothing: while sequences fit in 48
    bits, the combined map holds a value under [(shard << 48) | sequence] exactly when
    that shard holds it under that sequence, and it holds nothing else. *)
Theorem merged_results_faithful (p : ShardedPipeline (E := E) (R := R)) :
  sequences_fit p ->
  (forall i s k, shards p !! i = Some s -> 0 <= k < 2 ^ 48 ->
     merged p !! unique_key i k = results s !! k) /\
  (forall q r, merged p !! q = Some r ->
     exists i s k, shards p !! i = Some s /\ q = unique_key i k /\ results s !! k = Some r).
Proof.
  intros Hfit. unfold sequences_fit in Hfit. rewrite Forall_lookup in Hfit.
  set (l := mjoin (imap (fun i s => prod_map (unique_key i) id <$> map_to_list (results s)) (shards p))).
  assert (Hl : forall q r, (q, r) ∈ l <->
    exists i s k, shards p !! i = Some s /\ q = unique_key i k /\ results s !! k = Some r).
  { intros q r. unfold l. rewrite list_elem_of_join. split.
    - intros (lst & Hin & [i Hlst]%list_elem_of_lookup).
      rewrite list_lookup_imap in Hlst. apply fmap_Some in Hlst as (s & Hs & ->).
      apply list_elem_of_fmap in Hin as ([k v] & Heq & Hkv). simplify_eq/=.
      apply elem_of_map_to_list in Hkv. by exists i, s, k.
    - intros (i & s & k & Hs & -> & Hr).
      exists (prod_map (unique_key i) id <$> map_to_list (results s)). split.
      + apply list_elem_of_fmap. exists (k, r). split; [done|]. by apply elem_of_map_to_list.
      + apply (list_elem_of_lookup_2 _ i). by rewrite list_lookup_imap, Hs. }
  assert (Hfun : forall q r r', (q, r) ∈ l -> (q, r') ∈ l -> r = r').
  { intros q r r' (i & s & k & Hs & -> & Hr)%Hl (i' & s' & k' & Hs' & Hq & Hr')%Hl.
    apply key_inj in Hq as [-> ->]; [|exact (Hfit _ _ Hs _ _ Hr)|exact (Hfit _ _ Hs' _ _ Hr')]. congruence. }
  assert (Hm : forall q r, merged p !! q = Some r <-> (q, r) ∈ l).
  { intros q r. unfold merged. fold l. split.
    - intros H%elem_of_list_to_map_2. by rewrite elem_of_reverse in H.
    - intros H. apply elem_of_list_to_map_1'; [|by apply elem_of_reverse_2].
      intros r' H'. rewrite elem_of_reverse in H'. by eapply Hfun. }
  split.
  - intros i s k Hs Hk. apply option_eq. intros r. rewrite Hm, Hl. split.
    + intros (i' & s' & k' & Hs' & Hq & Hr). apply key_inj in Hq as [-> ->]; [congruence|done|exact (Hfit _ _ Hs' _ _ Hr)].
    + intros Hr. by exists i, s, k.
  - intros q r H. by apply Hl, Hm.
Qed.
End merge.

Section publishing.
Context {E R : Type}.
Variable debit_account_id : E -> Z.
Import sharded.

Lemma wait_capacity_spec fuel rounds progress (r : RingBuffer E) :
  (wait_capacity fuel rounds progress r).1 = ring_buffer.has_available_capacity (wait_capacity fuel rounds progress r).2.
Proof.
  revert rounds r. induction fuel as [|fuel IH]; intros rounds r; simpl;
    destruct (ring_buffer.has_available_capacity r) eqn:Eh; simpl; auto.
Qed.

(** publishing on a sharded pipeline of a validated size always finds its shard, touches
    no other shard, keeps every results map, and is refused only with [RingBufferFull],
    after the wait has ended with the shard's buffer still full. *)
Theorem sharded_publish_isolated progress (e : E) (p : ShardedPipeline (E := E) (R := R)) :
  valid_count (shard_count p) = true -> length (shards p) = Z.to_nat (shard_count p) ->
  0 <= debit_account_id e ->
  exists res p', publish_event debit_account_id progress e p = Some (res, p') /\
    let i := Z.to_nat (debit_account_id e mod shard_count p) in
    (forall j, j <> i -> shards p' !! j = shards p !! j) /\
    (forall j, shard_results j p' = shard_results j p) /\
    match res with
    | Ok q => exists s, shards p' !! i = Some s /\ ring_buffer.claim (ring s) = q /\ ring_buffer.cursor (ring s) = q
    | Err err => err = RingBufferFull 1 /\
        exists s, shards p' !! i = Some s /\ ring_buffer.has_available_capacity (ring s) = false
    end.
Proof.
  intros Hv Hlen Ha. pose proof Hv as Hv'. unfold valid_count in Hv. bool_to_prop.
  unfold publish_event. rewrite route_mod by (done || lia).
  set (i := Z.to_nat _).
  pose proof (Z.mod_pos_bound (debit_account_id e) (shard_count p) ltac:(lia)).
  destruct (lookup_lt_is_Some_2 (shards p) i) as [s Hs]; [unfold i; lia|]. rewrite Hs.
  pose proof (wait_capacity_spec 128 0 progress (ring s)) as Hw.
  destruct (wait_capacity 128 0 progress (ring s)) as [free r]. simpl in Hw. subst free.
  assert (i < length (shards p))%nat as Hi by (by eapply lookup_lt_Some).
  assert (Hiso : forall r', (forall j, j <> i -> <[i := MkShard r' (results s)]> (shards p) !! j = shards p !! j) /\
    (forall j, results <$> <[i := MkShard r' (results s)]> (shards p) !! j = results <$> shards p !! j) /\
    <[i := MkShard r' (results s)]> (shards p) !! i = Some (MkShard r' (results s))).
  { intros r'. split_and!.
    - intros j Hj. by apply list_lookup_insert_ne.
    - intros j. destruct (decide (j = i)) as [->|Hj].
      + by rewrite list_lookup_insert_eq, Hs.
      + by rewrite list_lookup_insert_ne.
    - by apply list_lookup_insert_eq. }
  unfold pipeline.publish_event, shard_results.
  destruct (ring_buffer.has_available_capacity r) eqn:Eh; simpl;
    eexists _, _; (split; [done|]); simpl;
    match goal with |- context [MkShard ?r' (results s)] => destruct (Hiso r') as (K1 & K2 & K3) end;
    split_and!; try done; eexists; (split; [exact K3|]); done.
Qed.
End publishing.

Module sharded_examples.
Import sharded.

Definition demo : ShardedPipeline (E := Z) (R := Z) :=
  match new (R := Z) (fun _ => 0) 2 4 with
  | Ok p => MkSharded (imap (fun i s => MkShard (ring s) {[ 5 := Z.of_nat i ]}) (shards p)) 2 4
  | Err _ => MkSharded [] 0 0
  end.

Lemma merged_results_faithful_witness : merged demo !! unique_key 1 5 = Some 1.
Proof.
  destruct (merged_results_faithful demo) as [H _].
  - apply Forall_lookup. intros i s Hs k r Hk.
    destruct i as [|[|i]]; [| |discriminate Hs]; injection Hs as <-; simpl in Hk;
      apply lookup_singleton_Some in Hk as [<- _]; lia.
  - erewrite H; [|done|lia]. done.
Defined.

Lemma sharded_publish_isolated_witness :
  exists res p', publish_event id (fun _ r => r) 7 demo = Some (res, p') /\ shards p' !! 0%nat = shards demo !! 0%nat.
Proof.
  destruct (sharded_publish_isolated id (fun _ r => r) 7 demo) as (res & p' & Ep & Hiso & _); [done|done|done|].
  exists res, p'. split; [done|]. by apply Hiso.
Defined.
End sharded_examples.
