(* ===== verification/RateLimit.v ===== *)
(** * core/transport/rate_limit.rs: the lock-free token bucket

    [token_bucket] has the sequential reading of [refill] and [try_consume] and the
    concurrent one: any number of threads, each at a program point of [try_consume], one
    atomic access per step.  A thread reads the system clock when it starts; the reading
    is arbitrary, so the clock may also jump. *)

From stdpp Require Import base numbers list.
From Stdlib Require Import ZArith Lia.
From S2P Require Import Prelude.

Module token_bucket.
Record TokenBucket : Type := MkBucket {
  tokens : Z;
  last_refill_ns : Z;
  rate : Z;
  capacity : Z;
}.

Definition new (now_ns rate_ cap : Z) : TokenBucket :=
  MkBucket (as_signed 64 cap) now_ns rate_ (as_signed 64 cap).

Definition set_tokens (t : Z) (b : TokenBucket) := MkBucket t (last_refill_ns b) (rate b) (capacity b).
Definition set_last (l : Z) (b : TokenBucket) := MkBucket (tokens b) l (rate b) (capacity b).

(** [(rate * elapsed) / 10^9] in 128-bit arithmetic. *)
Definition tokens_to_add (b : TokenBucket) (now_ns last_ns : Z) : Z :=
  rate b * saturating_sub now_ns last_ns / 1000000000.

(** [(current + tokens_to_add as i64).min(capacity)] *)
Definition refilled (b : TokenBucket) (add current : Z) : Z :=
  Z.min (current + as_signed 64 add) (capacity b).

(** *** Sequential reading *)

Definition refill (now_ns : Z) (b : TokenBucket) : TokenBucket :=
  let elapsed := saturating_sub now_ns (last_refill_ns b) in
  let add := tokens_to_add b now_ns (last_refill_ns b) in
  if elapsed =? 0 then b
  else if add =? 0 then b
  else set_tokens (refilled b add (tokens b)) (set_last now_ns b).

Definition try_consume (now_ns : Z) (b : TokenBucket) : bool * TokenBucket :=
  let b := refill now_ns b in
  if tokens b <=? 0 then (false, b) else (true, set_tokens (tokens b - 1) b).

Definition available (b : TokenBucket) : Z := tokens b.

(** *** Concurrent reading: the program points of [try_consume]. *)
Inductive Pc :=
  | Idle
  | LoadLast (now_ns : Z)
  | CasLast (now_ns last_ns add : Z)
  | AddLoad (add : Z)
  | AddCas (add current : Z)
  | ConsumeLoad
  | ConsumeCas (current : Z).

Record State : Type := MkState {
  bucket : TokenBucket;
  threads : list Pc;
  granted : Z;
  rejected : Z;
}.

Inductive Action := Start (i : nat) (now_ns : Z) | Go (i : nat).

Definition pc_step (pc : Pc) (b : TokenBucket) : Pc * TokenBucket * option bool :=
  match pc with
  | Idle => (Idle, b, None)
  | LoadLast n =>
      let last := last_refill_ns b in
      let add := tokens_to_add b n last in
      if saturating_sub n last =? 0 then (ConsumeLoad, b, None)
      else if add =? 0 then (ConsumeLoad, b, None)
      else (CasLast n last add, b, None)
  | CasLast n last add =>
      if last_refill_ns b =? last then (AddLoad add, set_last n b, None) else (ConsumeLoad, b, None)
  | AddLoad add => (AddCas add (tokens b), b, None)
  | AddCas add current =>
      if tokens b =? current then (ConsumeLoad, set_tokens (refilled b add current) b, None)
      else (AddLoad add, b, None)
  | ConsumeLoad => if tokens b <=? 0 then (Idle, b, Some false) else (ConsumeCas (tokens b), b, None)
  | ConsumeCas current =>
      if tokens b =? current then (Idle, set_tokens (current - 1) b, Some true)
      else (ConsumeLoad, b, None)
  end.

Definition step (a : Action) (s : State) : option State :=
  match a with
  | Start i n => match threads s !! i with
                 | Some Idle => Some (MkState (bucket s) (<[i := LoadLast n]> (threads s)) (granted s) (rejected s))
                 | _ => None
                 end
  | Go i => match threads s !! i with
            | None | Some Idle => None
            | Some pc =>
                let '(pc, b, r) := pc_step pc (bucket s) in
                Some (MkState b (<[i := pc]> (threads s))
                        (match r with Some true => granted s + 1 | _ => granted s end)
                        (match r with Some false => rejected s + 1 | _ => rejected s end))
            end
  end.

Fixpoint run (l : list Action) (s : State) : option State :=
  match l with
  | [] => Some s
  | a :: l => match step a s with None => None | Some s' => run l s' end
  end.

Definition initial (b : TokenBucket) (n : nat) : State := MkState b (replicate n Idle) 0 0.
End token_bucket.

Section token_bucket_proofs.
Import token_bucket.

(** A configuration whose arithmetic stays in 64 bits for every 64-bit clock reading. *)
Definition config_ok (b : TokenBucket) : Prop := 0 <= rate b < 2 ^ 28 /\ 0 <= capacity b < 2 ^ 61.

Definition reading_ok (a : Action) : Prop :=
  match a with Start _ n => 0 <= n < 2 ^ 64 | Go _ => True end.

(** Tokens a thread has taken from the clock but not yet put in the bucket. *)
Definition pending (pc : Pc) : Z :=
  match pc with AddLoad add | AddCas add _ => add | _ => 0 end.

(** The facts a thread relies on at its program point. *)
Definition pc_ok (b : TokenBucket) (pc : Pc) : Prop :=
  match pc with
  | LoadLast n => 0 <= n < 2 ^ 64
  | CasLast n last add => 0 <= n < 2 ^ 64 /\ last <= n /\ 0 <= last /\
      0 <= add < 2 ^ 63 - 2 ^ 61 /\ add * 1000000000 <= rate b * (n - last)
  | AddLoad add | AddCas add _ => 0 <= add < 2 ^ 63 - 2 ^ 61
  | ConsumeCas c => 0 < c
  | _ => True
  end.

Record bucket_inv (b0 : TokenBucket) (s : State) : Prop := {
  bi_rate : rate (bucket s) = rate b0;
  bi_cap : capacity (bucket s) = capacity b0;
  bi_tokens : 0 <= tokens (bucket s) <= capacity b0;
  bi_last : last_refill_ns b0 <= last_refill_ns (bucket s) < 2 ^ 64;
  bi_pcs : Forall (pc_ok (bucket s)) (threads s);
  (** Everything granted or grantable came from the initial burst or from the clock. *)
  bi_budget : (tokens (bucket s) + granted s + Zsum_with pending (threads s) - tokens b0) * 1000000000
                <= rate b0 * (last_refill_ns (bucket s) - last_refill_ns b0);
}.

Lemma Forall_pc_ok b b' l : rate b' = rate b -> Forall (pc_ok b) l -> Forall (pc_ok b') l.
Proof. intros E H. eapply Forall_impl; [exact H|]. intros []; simpl; by rewrite ?E. Qed.

Lemma tokens_to_add_bound b n last :
  config_ok b -> 0 <= n < 2 ^ 64 -> 0 <= last ->
  0 <= tokens_to_add b n last < 2 ^ 63 - 2 ^ 61 /\
  tokens_to_add b n last * 1000000000 <= rate b * saturating_sub n last.
Proof.
  intros [Hr _] Hn Hl. unfold tokens_to_add. set (e := saturating_sub n last).
  assert (0 <= e < 2 ^ 64) as He by (unfold e, saturating_sub; lia).
  assert (0 <= rate b * e <= 2 ^ 28 * 2 ^ 64) as Hre by nia.
  pose proof (Z.div_mod (rate b * e) 1000000000 ltac:(lia)).
  pose proof (Z.mod_pos_bound (rate b * e) 1000000000 ltac:(lia)). lia.
Qed.

(** One step of a thread, as a change of the budget. *)
Lemma pc_step_ok b0 b pc pc' b' r :
  config_ok b0 -> rate b = rate b0 -> capacity b = capacity b0 ->
  0 <= tokens b <= capacity b0 -> 0 <= last_refill_ns b < 2 ^ 64 ->
  pc_ok b pc -> pc_step pc b = (pc', b', r) ->
  rate b' = rate b0 /\ capacity b' = capacity b0 /\ 0 <= tokens b' <= capacity b0 /\
  last_refill_ns b <= last_refill_ns b' < 2 ^ 64 /\ pc_ok b' pc' /\
  (tokens b' + (match r with Some true => 1 | _ => 0 end) + pending pc' - tokens b - pending pc) * 1000000000
    <= rate b0 * (last_refill_ns b' - last_refill_ns b).
Proof.
  intros Hc Hr Hcap Ht Hl Hpc Hs. pose proof Hc as [Hr0 Hc0].
  destruct pc as [|n|n last add|add|add cur| |cur]; simpl in Hs, Hpc.
  - simplify_eq. simpl. split_and!; lia || done.
  - assert (config_ok b) as Hcb by (unfold config_ok; rewrite Hr, Hcap; done).
    pose proof (tokens_to_add_bound b n (last_refill_ns b) Hcb Hpc ltac:(lia)) as [Hb1 Hb2].
    unfold saturating_sub in *.
    destruct (Z.eqb_spec (Z.max 0 (n - last_refill_ns b)) 0); [simplify_eq; simpl; split_and!; lia || done|].
    destruct (Z.eqb_spec (tokens_to_add b n (last_refill_ns b)) 0); simplify_eq; simpl; split_and!; try done; try lia.
  - destruct Hpc as (Hn & Hln & Hl0 & Ha & Hadd).
    destruct (Z.eqb_spec (last_refill_ns b) last); simplify_eq; simpl; split_and!; try done; try lia.
    all: try (rewrite <- Hr; lia).
  - simplify_eq. simpl. split_and!; lia || done.
  - destruct (Z.eqb_spec (tokens b) cur); simplify_eq; simpl; [|split_and!; lia || done].
    unfold refilled. rewrite as_signed_id by lia. split_and!; try done; lia.
  - destruct (Z.leb_spec (tokens b) 0); simplify_eq; simpl; split_and!; lia || done.
  - destruct (Z.eqb_spec (tokens b) cur); simplify_eq; simpl; split_and!; lia || done.
Qed.

Lemma bucket_step_inv b0 a s s' :
  config_ok b0 -> 0 <= last_refill_ns b0 -> bucket_inv b0 s -> reading_ok a -> step a s = Some s' ->
  bucket_inv b0 s'.
Proof.
  intros Hc Hl0 [Ir Ic It Il Ip Ib] Ha Hs. destruct a as [i n|i]; simpl in Hs.
  - destruct (threads s !! i) as [[]|] eqn:Hi; simplify_eq. split; simpl; try done.
    + apply Forall_insert; [done|]. exact Ha.
    + rewrite (Zsum_with_insert _ _ _ _ _ Hi). simpl. lia.
  - destruct (threads s !! i) as [pc|] eqn:Hi; [|done].
    destruct (pc_step pc (bucket s)) as [[pc' b'] r] eqn:Hp.
    assert (s' = MkState b' (<[i := pc']> (threads s))
      (match r with Some true => granted s + 1 | _ => granted s end)
      (match r with Some false => rejected s + 1 | _ => rejected s end)) as ->.
    { destruct pc; simplify_eq/=; try done; rewrite Hp in Hs; by simplify_eq. }
    pose proof (Forall_lookup_1 _ _ _ _ Ip Hi) as Hpc.
    destruct (pc_step_ok b0 (bucket s) pc pc' b' r Hc Ir Ic It ltac:(lia) Hpc Hp)
      as (E1 & E2 & E3 & E4 & E5 & E6).
    split; simpl; try done; try lia.
    + apply Forall_insert; [|done]. eapply Forall_pc_ok; [|done]. congruence.
    + rewrite (Zsum_with_insert _ _ _ _ _ Hi). destruct r as [[]|]; nia.
Qed.

Lemma run_bucket_inv b0 l s s' :
  config_ok b0 -> 0 <= last_refill_ns b0 -> bucket_inv b0 s -> Forall reading_ok l -> run l s = Some s' ->
  bucket_inv b0 s'.
Proof.
  intros Hc Hl0. revert s. induction l as [|a l IH]; intros s HI Hl Hr; simpl in Hr; [by simplify_eq|].
  apply Forall_cons in Hl as [Ha Hl]. destruct (step a s) as [s1|] eqn:Hs; [|done].
  apply (IH s1); try done. by apply (bucket_step_inv b0 a s).
Qed.

(** C7: the limiter never over-issues.  For any number of threads, any interleaving of
    their atomic accesses and any clock readings, the requests granted are at most the
    initial burst plus [rate] per second of clock time accounted for in
    [last_refill_ns], and the bucket stays between empty and its capacity. *)
Theorem token_bucket_never_over_issues (rate_ cap start : Z) (n : nat) (l : list Action) (s : State) :
  0 <= rate_ < 2 ^ 28 -> 0 <= cap < 2 ^ 61 -> 0 <= start < 2 ^ 64 ->
  Forall reading_ok l -> run l (initial (new start rate_ cap) n) = Some s ->
  (granted s - cap) * 1000000000 <= rate_ * (last_refill_ns (bucket s) - start) /\
  0 <= tokens (bucket s) <= cap /\ start <= last_refill_ns (bucket s) < 2 ^ 64.
Proof.
  intros Hr Hc Hst Hl Hrun. set (b0 := new start rate_ cap).
  assert (as_signed 64 cap = cap) as Ecap by (apply as_signed_id; lia).
  assert (bucket_inv b0 (initial b0 n)) as H0.
  { assert (Zsum_with pending (replicate n Idle) = 0) as Ez.
    { apply Zsum_with_zero. by intros x [-> _]%elem_of_replicate. }
    split; simpl; rewrite ?Ecap, ?Ez; try done; try lia. by apply Forall_replicate. }
  destruct (run_bucket_inv b0 l _ s ltac:(split; simpl; rewrite ?Ecap; done) ltac:(simpl; lia) H0 Hl Hrun)
    as [I1 I2 I3 I4 I5 I6]. simpl in *. rewrite Ecap in *.
  assert (0 <= Zsum_with pending (threads s)) as Hp.
  { apply Zsum_with_nonneg. intros pc Hin. rewrite Forall_forall in I5. specialize (I5 pc Hin).
    destruct pc; simpl in *; lia. }
  split_and!; lia.
Qed.

(** a thread that runs [try_consume] without interference does what the sequential
    reading says, in at most six steps. *)
Theorem try_consume_uncontended (b : TokenBucket) (now_ns g r : Z) :
  exists k, (k <= 6)%nat /\
    run (Start 0 now_ns :: replicate k (Go 0)) (MkState b [Idle] g r) =
      let '(ok, b') := try_consume now_ns b in
      Some (MkState b' [Idle] (if ok then g + 1 else g) (if ok then r else r + 1)).
Proof.
  unfold try_consume, refill.
  destruct (saturating_sub now_ns (last_refill_ns b) =? 0) eqn:Ee.
  { destruct (tokens b <=? 0) eqn:Et.
    - exists 2%nat. split; [lia|]. simpl. rewrite Ee. simpl. by rewrite Et.
    - exists 3%nat. split; [lia|]. simpl. rewrite Ee. simpl. rewrite Et. simpl. by rewrite Z.eqb_refl. }
  destruct (tokens_to_add b now_ns (last_refill_ns b) =? 0) eqn:Ea.
  { destruct (tokens b <=? 0) eqn:Et.
    - exists 2%nat. split; [lia|]. simpl. rewrite Ee, Ea. simpl. by rewrite Et.
    - exists 3%nat. split; [lia|]. simpl. rewrite Ee, Ea. simpl. rewrite Et. simpl. by rewrite Z.eqb_refl. }
  set (t := refilled b _ (tokens b)).
  destruct (t <=? 0) eqn:Et.
  - exists 5%nat. split; [lia|]. simpl. rewrite Ee, Ea. simpl. rewrite Z.eqb_refl. simpl. rewrite Z.eqb_refl. simpl.
    change (refilled (set_last now_ns b) (tokens_to_add b now_ns (last_refill_ns b)) (tokens b)) with t.
    by rewrite Et.
  - exists 6%nat. split; [lia|]. simpl. rewrite Ee, Ea. simpl. rewrite Z.eqb_refl. simpl. rewrite Z.eqb_refl. simpl.
    change (refilled (set_last now_ns b) (tokens_to_add b now_ns (last_refill_ns b)) (tokens b)) with t.
    rewrite Et. simpl. rewrite Z.eqb_refl. done.
Qed.
End token_bucket_proofs.

Module rate_limit_examples.
Import token_bucket.

(** Two threads racing on one token: one wins, the other retries and is rejected. *)
Definition race : list Action :=
  [Start 0 0; Start 1 0; Go 0; Go 1; Go 0; Go 1; Go 1; Go 0; Go 0].

Example race_result :
  (fun s => (granted s, rejected s, tokens (bucket s))) <$> run race (initial (new 0 1000 1) 2) = Some (1, 1, 0).
Proof. reflexivity. Qed.

Lemma token_bucket_never_over_issues_witness :
  exists s, run race (initial (new 0 1000 1) 2) = Some s /\ 0 <= tokens (bucket s) <= 1.
Proof.
  assert (run race (initial (new 0 1000 1) 2) = Some (MkState (MkBucket 0 0 1000 1) [Idle; Idle] 1 1)) as E
    by vm_refl.
  eexists. split; [exact E|].
  apply (token_bucket_never_over_issues 1000 1 0 2 race); [lia|lia|lia| |exact E].
  unfold race. repeat constructor; simpl; lia.
Defined.

(** Two requests at each of the given times. *)
Definition pairs (times : list Z) (b : TokenBucket) : Z :=
  (foldl (fun p t => let '(g, b) := p in
     let '(r1, b) := try_consume t b in
     let '(r2, b) := try_consume t b in
     (g + (if r1 then 1 else 0) + (if r2 then 1 else 0), b)) (0, b) times).1.

(** under load the refill is not at the configured rate: each refill moves
    [last_refill_ns] to the present and forgets the fraction of a token it could not
    add.  A bucket of 1000 tokens per second asked twice every 1.999 ms grants half of
    the 200 tokens that 200 ms are worth. *)
Theorem refill_forgets_fractions :
  let b := set_tokens 0 (new 0 1000 10) in
  pairs ((fun k => Z.of_nat k * 1999000) <$> seq 1 100) b = 100 /\
  tokens_to_add b (100 * 1999000) 0 = 199.
Proof. split; vm_compute; reflexivity. Qed.
End rate_limit_examples.
