(* ===== verification/Metrics.v ===== *)
(** Engine counters and four-lane checks: core/engine/src/metrics.rs (module [metrics]) and the
    scalar paths of core/engine/src/simd.rs (module [simd]).  The counters are relaxed atomics:
    a read-modify-write sees the newest value, while a plain load, or a failed
    [compare_exchange_weak], may return any value stored so far, so the peak is kept with the
    list of its values, newest first.  [record_committed] runs as a program with one step per
    atomic access; any number of threads are interleaved by [step]. *)

From stdpp Require Import base numbers list relations.
From S2P Require Import Prelude.

(** ** metrics.rs *)
Module metrics.
Record EngineMetrics : Type := MkMetrics {
  events_published : Z;
  events_committed : Z;
  events_rejected : Z;
  total_latency_ns : Z;
  peak_ns : list Z;
  ring_util_x10000 : Z;
}.

Definition new : EngineMetrics := MkMetrics 0 0 0 0 [0] 0.

(** [fetch_add] *)
Definition fetch_add (n x : Z) : Z := as_unsigned 64 (x + n).

Definition newest (l : list Z) : Z := hd 0 l.

Definition record_published (m : EngineMetrics) : EngineMetrics :=
  MkMetrics (fetch_add 1 (events_published m)) (events_committed m) (events_rejected m)
    (total_latency_ns m) (peak_ns m) (ring_util_x10000 m).
Definition record_rejected (m : EngineMetrics) : EngineMetrics :=
  MkMetrics (events_published m) (events_committed m) (fetch_add 1 (events_rejected m))
    (total_latency_ns m) (peak_ns m) (ring_util_x10000 m).
Definition set_ring_utilization_x10000 (val : Z) (m : EngineMetrics) : EngineMetrics :=
  MkMetrics (events_published m) (events_committed m) (events_rejected m)
    (total_latency_ns m) (peak_ns m) val.

(** The three writes of [record_committed]. *)
Definition add_committed (m : EngineMetrics) : EngineMetrics :=
  MkMetrics (events_published m) (fetch_add 1 (events_committed m)) (events_rejected m)
    (total_latency_ns m) (peak_ns m) (ring_util_x10000 m).
Definition add_latency (latency_ns : Z) (m : EngineMetrics) : EngineMetrics :=
  MkMetrics (events_published m) (events_committed m) (events_rejected m)
    (fetch_add latency_ns (total_latency_ns m)) (peak_ns m) (ring_util_x10000 m).
Definition store_peak (latency_ns : Z) (m : EngineMetrics) : EngineMetrics :=
  MkMetrics (events_published m) (events_committed m) (events_rejected m)
    (total_latency_ns m) (latency_ns :: peak_ns m) (ring_util_x10000 m).

Definition published := events_published.
Definition committed := events_committed.
Definition rejected := events_rejected.
Definition peak_latency_ns (m : EngineMetrics) : Z := newest (peak_ns m).

Definition average (committed total : Z) : Z := if committed =? 0 then 0 else total / committed.
Definition avg_latency_ns (m : EngineMetrics) : Z := average (events_committed m) (total_latency_ns m).

(** Nobody else running: the loop stores once if it must. *)
Definition record_committed (latency_ns : Z) (m : EngineMetrics) : EngineMetrics :=
  let m := add_latency latency_ns (add_committed m) in
  if peak_latency_ns m <? latency_ns then store_peak latency_ns m else m.

(** A thread inside [record_committed latency]. *)
Inductive Pc :=
  | AddCommitted (latency : Z)
  | AddLatency (latency : Z)
  | LoadPeak (latency : Z)
  | Loop (latency current : Z)
  | Done (latency : Z).

(** How an access to the peak goes: it reads the [k]-th newest value (a load, or a failed
    exchange), or the exchange succeeds. *)
Inductive Access := Reads (k : nat) | Exchanges.

Definition pc_step (a : Access) (pc : Pc) (m : EngineMetrics) : option (Pc * EngineMetrics) :=
  match pc, a with
  | AddCommitted l, _ => Some (AddLatency l, add_committed m)
  | AddLatency l, _ => Some (LoadPeak l, add_latency l m)
  | LoadPeak l, Reads k =>
      match peak_ns m !! k with Some v => Some (Loop l v, m) | None => None end
  | LoadPeak _, Exchanges => None
  | Loop l current, _ =>
      if current <? l then
        match a with
        | Exchanges => if peak_latency_ns m =? current then Some (Done l, store_peak l m) else None
        | Reads k => match peak_ns m !! k with Some actual => Some (Loop l actual, m) | None => None end
        end
      else Some (Done l, m)
  | Done _, _ => None
  end.

Record State : Type := MkState { counters : EngineMetrics; threads : list Pc }.

Inductive step : State -> State -> Prop :=
  | step_begin l s : 0 <= l < 2 ^ 64 -> step s (MkState (counters s) (threads s ++ [AddCommitted l]))
  | step_thread a i pc pc' m' s :
      threads s !! i = Some pc -> pc_step a pc (counters s) = Some (pc', m') ->
      step s (MkState m' (<[i := pc']> (threads s)))
  | step_published s : step s (MkState (record_published (counters s)) (threads s))
  | step_rejected s : step s (MkState (record_rejected (counters s)) (threads s))
  | step_utilization val s : step s (MkState (set_ring_utilization_x10000 val (counters s)) (threads s)).

Definition reachable (s : State) : Prop := rtc step (MkState new []) s.

(** *** The counters of a shard *)
Record ShardMetrics : Type := MkShard {
  shard_id : nat;
  transactions_total : Z;
  latency_peak_ns : Z;
  shard_ring_util_x10000 : Z;
  backpressure_total : Z;
}.

Definition shard_new (shard_id : nat) : ShardMetrics := MkShard shard_id 0 0 0 0.
Definition record_transaction (latency_ns : Z) (m : ShardMetrics) : ShardMetrics :=
  MkShard (shard_id m) (fetch_add 1 (transactions_total m))
    (if latency_peak_ns m <? latency_ns then latency_ns else latency_peak_ns m)
    (shard_ring_util_x10000 m) (backpressure_total m).
Definition set_ring_utilization (util_x10000 : Z) (m : ShardMetrics) : ShardMetrics :=
  MkShard (shard_id m) (transactions_total m) (latency_peak_ns m) util_x10000 (backpressure_total m).
Definition record_backpressure (m : ShardMetrics) : ShardMetrics :=
  MkShard (shard_id m) (transactions_total m) (latency_peak_ns m) (shard_ring_util_x10000 m)
    (fetch_add 1 (backpressure_total m)).
Definition latency_p99_ns := latency_peak_ns.
End metrics.

(** ** simd.rs *)
Module simd.
Definition u64x4 : Type := Z * Z * Z * Z.

(** [if cond { result |= bit }] *)
Definition set_if (cond : bool) (bit result : Z) : Z := if cond then Z.lor result bit else result.

Definition lanes (test : Z -> bool) (values : u64x4) : Z :=
  let '(v0, v1, v2, v3) := values in
  let result := set_if (test v0) 1 0 in
  let result := set_if (test v1) 2 result in
  let result := set_if (test v2) 4 result in
  set_if (test v3) 8 result.

Definition check_zeros_u64x4 (values : u64x4) : Z := lanes (fun v => v =? 0) values.
Definition compare_u64x4_gt (values : u64x4) (threshold : Z) : Z := lanes (fun v => threshold <? v) values.
End simd.

(** ** Invariant of the interleaved counters *)
Section peak.
Import metrics.

Definition latency (pc : Pc) : Z :=
  match pc with AddCommitted l | AddLatency l | LoadPeak l | Loop l _ | Done l => l end.
Definition has_counted (pc : Pc) : Z := match pc with AddCommitted _ => 0 | _ => 1 end.
Definition has_added (pc : Pc) : Z :=
  match pc with AddCommitted _ | AddLatency _ => 0 | _ => latency pc end.
Definition finished (pc : Pc) : bool := match pc with Done _ => true | _ => false end.

(** What a thread relies on: the value it compares with was the peak at some time, and once
    it is done the peak has reached its latency. *)
Definition pc_ok (m : EngineMetrics) (pc : Pc) : Prop :=
  0 <= latency pc < 2 ^ 64 /\
  match pc with
  | Loop _ current => current ∈ peak_ns m
  | Done l => l <= peak_latency_ns m
  | _ => True
  end.

Record peak_inv (s : State) : Prop := {
  peak_newest : forall v, v ∈ peak_ns (counters s) -> 0 <= v <= peak_latency_ns (counters s);
  peak_stored : peak_latency_ns (counters s) ∈ peak_ns (counters s);
  peak_origin : forall v, v ∈ peak_ns (counters s) -> v = 0 \/ v ∈ latency <$> threads s;
  peak_threads : Forall (pc_ok (counters s)) (threads s);
  peak_count : events_committed (counters s) = as_unsigned 64 (Zsum_with has_counted (threads s));
  peak_total : total_latency_ns (counters s) = as_unsigned 64 (Zsum_with has_added (threads s));
}.

Lemma fetch_add_sum n x : fetch_add n (as_unsigned 64 x) = as_unsigned 64 (x + n).
Proof. unfold fetch_add, as_unsigned. by rewrite Zplus_mod_idemp_l. Qed.

(** The threads only rely on the peak growing. *)
Lemma pc_ok_mono m m' pc :
  (forall v, v ∈ peak_ns m -> v ∈ peak_ns m') -> peak_latency_ns m <= peak_latency_ns m' ->
  pc_ok m pc -> pc_ok m' pc.
Proof. intros Hin Hle [Hl H]. split; [done|]. destruct pc; try done; [by apply Hin|lia]. Qed.

(** One access of a thread: the peak values only grow, by the thread's latency at most, and
    the two counters move with the thread. *)
Lemma pc_step_effect a pc m pc' m' c t :
  pc_step a pc m = Some (pc', m') ->
  (forall v, v ∈ peak_ns m -> 0 <= v <= peak_latency_ns m) ->
  peak_latency_ns m ∈ peak_ns m -> pc_ok m pc ->
  events_committed m = as_unsigned 64 c -> total_latency_ns m = as_unsigned 64 t ->
  latency pc' = latency pc /\ pc_ok m' pc' /\
  (peak_ns m' = peak_ns m \/ peak_ns m' = latency pc :: peak_ns m /\ peak_latency_ns m < latency pc) /\
  events_committed m' = as_unsigned 64 (c + (has_counted pc' - has_counted pc)) /\
  total_latency_ns m' = as_unsigned 64 (t + (has_added pc' - has_added pc)).
Proof.
  intros Hs Hnew Hin [Hl Hpc] Hc Ht.
  destruct pc as [l|l|l|l cur|l]; cbn [pc_step] in Hs.
  - injection Hs as <- <-. cbn in *. rewrite Hc, fetch_add_sum, !Z.add_0_r. split_and!; try done. by left.
  - injection Hs as <- <-. cbn in *. rewrite Ht, fetch_add_sum, !Z.add_0_r, Z.sub_0_r. split_and!; try done. by left.
  - destruct a as [k|]; [|done]. destruct (peak_ns m !! k) as [v|] eqn:Ek; [|done].
    injection Hs as <- <-. apply list_elem_of_lookup_2 in Ek. cbn in *. rewrite !Z.sub_diag, !Z.add_0_r.
    split_and!; try done. by left.
  - cbn in Hl, Hpc. destruct (Z.ltb_spec cur l) as [Hlt|Hge].
    + destruct a as [k|].
      * destruct (peak_ns m !! k) as [v|] eqn:Ek; [|done].
        injection Hs as <- <-. apply list_elem_of_lookup_2 in Ek. cbn in *. rewrite !Z.sub_diag, !Z.add_0_r.
        split_and!; try done. by left.
      * destruct (Z.eqb_spec (peak_latency_ns m) cur) as [E|]; [|done]. injection Hs as <- <-.
        cbn in *. rewrite !Z.sub_diag, !Z.add_0_r. split_and!; try done. right. split; [done|lia].
    + injection Hs as <- <-. cbn in *. rewrite !Z.sub_diag, !Z.add_0_r. apply Hnew in Hpc.
      split_and!; try done; [split; cbn; lia|by left].
  - by destruct a.
Qed.

Lemma foldr_max_unique (x : Z) (l : list Z) :
  x = 0 \/ x ∈ l -> (forall y, y ∈ l -> y <= x) -> 0 <= x -> x = foldr Z.max 0 l.
Proof.
  intros Hx Hup H0. assert (foldr Z.max 0 l <= x) as Hle.
  { clear Hx. induction l as [|y l IH]; cbn; [done|]. apply Z.max_lub; [apply Hup; left|]. apply IH.
    intros z Hz. apply Hup. by right. }
  enough (x <= foldr Z.max 0 l) by lia. clear Hup Hle. destruct Hx as [->|Hx].
  - clear. induction l as [|y l IH]; cbn; lia.
  - induction Hx as [x l|x y l _ IH]; cbn; [lia|]. specialize (IH H0). lia.
Qed.

Lemma step_thread_inv a i pc pc' m' s :
  threads s !! i = Some pc -> pc_step a pc (counters s) = Some (pc', m') ->
  peak_inv s -> peak_inv (MkState m' (<[i := pc']> (threads s))).
Proof.
  intros Hi Hs [Hnew Hst Horg Hthr Hcnt Htot]. pose proof (Forall_lookup_1 _ _ _ _ Hthr Hi) as Hpc.
  destruct (pc_step_effect _ _ _ _ _ _ _ Hs Hnew Hst Hpc Hcnt Htot) as (El & Hok & Hpk & Ec & Et).
  assert (latency <$> <[i:=pc']> (threads s) = latency <$> threads s) as Elat.
  { rewrite list_fmap_insert, El. apply list_insert_id. by rewrite list_lookup_fmap, Hi. }
  assert (forall v, v ∈ peak_ns (counters s) -> v ∈ peak_ns m') as Hgrow.
  { intros v Hv. destruct Hpk as [->|[-> _]]; [done|]. by apply list_elem_of_further. }
  assert (peak_latency_ns (counters s) <= peak_latency_ns m') as Hle.
  { unfold peak_latency_ns in *. destruct Hpk as [->|[-> Hlt]]; [done|]. cbn. lia. }
  constructor; cbn [counters threads].
  - intros v Hv. destruct Hpk as [E|[E Hlt]]; rewrite E in Hv.
    + apply Hnew in Hv. lia.
    + destruct Hpc as [Hl _]. unfold peak_latency_ns at 1. rewrite E. cbn.
      apply elem_of_cons in Hv as [->|Hv]; [lia|]. apply Hnew in Hv. lia.
  - unfold peak_latency_ns in *. destruct Hpk as [->|[-> _]]; [done|]. apply list_elem_of_here.
  - rewrite Elat. intros v Hv. destruct Hpk as [E|[E _]]; rewrite E in Hv; [by apply Horg|].
    apply elem_of_cons in Hv as [->|Hv]; [|by apply Horg]. right.
    apply list_elem_of_fmap. exists pc. split; [done|]. by eapply list_elem_of_lookup_2.
  - apply Forall_insert; [|done]. eapply Forall_impl; [exact Hthr|]. intros ?. by apply pc_ok_mono.
  - rewrite (Zsum_with_insert _ _ _ _ _ Hi), Ec. f_equal. lia.
  - rewrite (Zsum_with_insert _ _ _ _ _ Hi), Et. f_equal. lia.
Qed.

Lemma metrics_step_inv s s' : step s s' -> peak_inv s -> peak_inv s'.
Proof.
  intros Hs Hinv. destruct Hs as [l s Hl|a i pc pc' m' s Hi Hs|s|s|val s].
  - destruct Hinv as [Hnew Hst Horg Hthr Hcnt Htot]. constructor; cbn [counters threads]; try done.
    + intros v Hv. rewrite fmap_app, elem_of_app. destruct (Horg v Hv); tauto.
    + apply Forall_app_2; [done|]. apply Forall_singleton. by split.
    + rewrite Zsum_with_app, Hcnt, Zsum_with_cons. cbn. by rewrite !Z.add_0_r.
    + rewrite Zsum_with_app, Htot, Zsum_with_cons. cbn. by rewrite !Z.add_0_r.
  - by eapply step_thread_inv.
  - by destruct Hinv.
  - by destruct Hinv.
  - by destruct Hinv.
Qed.

Lemma metrics_reachable_inv s : reachable s -> peak_inv s.
Proof.
  unfold reachable. assert (peak_inv (MkState new [])) as H0.
  { constructor; cbn; try done.
    - intros v ->%list_elem_of_singleton. cbn. lia.
    - by apply list_elem_of_singleton.
    - intros v ->%list_elem_of_singleton. by left. }
  intros Hr. revert H0. induction Hr as [|x y z Hxy _ IH]; [done|]. intros Hx. apply IH. by eapply metrics_step_inv.
Qed.

Lemma peak_upper s l : reachable s -> Done l ∈ threads s -> l <= peak_latency_ns (counters s).
Proof.
  intros [_ _ _ Hthr _ _]%metrics_reachable_inv Hin. rewrite Forall_forall in Hthr. by destruct (Hthr _ Hin).
Qed.

(** whatever the interleaving and however stale the loads: the peak is zero or the latency
    of a call, and at least that of every finished call; with every call finished it is the
    maximum of the latencies, and the committed counter and the latency total are the number
    of calls and the sum of their latencies, modulo [2 ^ 64]. *)
Theorem peak_is_maximum (s : State) :
  reachable s ->
  (peak_latency_ns (counters s) = 0 \/ peak_latency_ns (counters s) ∈ latency <$> threads s) /\
  (forall l, Done l ∈ threads s -> l <= peak_latency_ns (counters s)) /\
  (Forall (fun pc => finished pc = true) (threads s) ->
     peak_latency_ns (counters s) = foldr Z.max 0 (latency <$> threads s) /\
     committed (counters s) = as_unsigned 64 (Z.of_nat (length (threads s))) /\
     total_latency_ns (counters s) = as_unsigned 64 (Zsum_with latency (threads s))).
Proof.
  intros Hr. pose proof (metrics_reachable_inv s Hr) as [Hnew Hst Horg Hthr Hcnt Htot].
  assert (peak_latency_ns (counters s) = 0 \/ peak_latency_ns (counters s) ∈ latency <$> threads s) as Ho by by apply Horg.
  split_and!; [done|intros l; by apply peak_upper|]. intros Hfin. rewrite Forall_forall in Hfin.
  assert (forall pc, pc ∈ threads s -> pc = Done (latency pc)) as Hd.
  { intros pc Hpc. specialize (Hfin _ Hpc). by destruct pc. }
  split_and!.
  - assert (forall l, l ∈ latency <$> threads s -> l <= peak_latency_ns (counters s)) as Hup.
    { intros l (pc & -> & Hpc)%list_elem_of_fmap. apply peak_upper; [done|]. by rewrite <- Hd. }
    assert (0 <= peak_latency_ns (counters s)) as H0 by (apply Hnew in Hst; lia).
    by apply foldr_max_unique.
  - unfold committed. rewrite Hcnt. f_equal. clear - Hd. revert Hd. induction (threads s) as [|pc l IH]; intros Hd; [done|].
    rewrite Zsum_with_cons, IH by (intros; apply Hd; by apply list_elem_of_further).
    rewrite (Hd pc) by apply list_elem_of_here. cbn [has_counted length]. lia.
  - rewrite Htot. f_equal. apply Zsum_with_ext. intros pc Hpc. by rewrite (Hd pc Hpc).
Qed.

(** a thread that is not disturbed finishes in at most four accesses, with the effect of
    [record_committed]. *)
Theorem record_committed_undisturbed (l : Z) (m : EngineMetrics) :
  peak_ns m <> [] ->
  exists accesses, (length accesses <= 4)%nat /\
    foldl (fun o a => o ≫= fun '(pc, m) => pc_step a pc m) (Some (AddCommitted l, m)) accesses =
      Some (Done l, record_committed l m).
Proof.
  intros Hne. destruct (peak_ns m) as [|v vs] eqn:Ev; [done|].
  exists [Reads 0; Reads 0; Reads 0; Exchanges]. split; [cbn; lia|].
  unfold record_committed, peak_latency_ns. cbn. rewrite Ev. cbn.
  destruct (v <? l); [|done]. unfold peak_latency_ns. cbn. by rewrite Ev, Z.eqb_refl.
Qed.

(** The average of a quiescent, not overflowed set of counters is the integer mean. *)
Lemma average_is_mean (n : nat) (total : Z) :
  (0 < n)%nat -> average (Z.of_nat n) total * Z.of_nat n <= total < (average (Z.of_nat n) total + 1) * Z.of_nat n.
Proof.
  intros Hn. unfold average. destruct (Z.eqb_spec (Z.of_nat n) 0); [lia|].
  pose proof (Z.div_mod total (Z.of_nat n) ltac:(lia)). pose proof (Z.mod_pos_bound total (Z.of_nat n) ltac:(lia)). nia.
Qed.
End peak.

(** ** The lanes *)
Section lanes.
Import simd.

Definition lane (i : Z) (values : u64x4) : Z :=
  let '(v0, v1, v2, v3) := values in
  if i =? 0 then v0 else if i =? 1 then v1 else if i =? 2 then v2 else v3.

Lemma lanes_testbit test values i : 0 <= i < 4 -> Z.testbit (lanes test values) i = test (lane i values).
Proof.
  intros Hi. destruct values as [[[v0 v1] v2] v3]. unfold lanes.
  assert (i = 0 \/ i = 1 \/ i = 2 \/ i = 3) as [->|[->|[->| ->]]] by lia; cbn [lane Z.eqb Pos.eqb];
  by destruct (test v0), (test v1), (test v2), (test v3).
Qed.

(** bit [i] of the masks tells about lane [i], and no other bit is set. *)
Theorem lane_masks_exact (values : u64x4) (threshold i : Z) :
  Z.testbit (check_zeros_u64x4 values) i = ((0 <=? i) && (i <? 4) && (lane i values =? 0)) /\
  Z.testbit (compare_u64x4_gt values threshold) i = ((0 <=? i) && (i <? 4) && (threshold <? lane i values)).
Proof.
  assert (forall test, Z.testbit (lanes test values) i = ((0 <=? i) && (i <? 4) && test (lane i values))) as H.
  { intros test. destruct (Z.leb_spec 0 i); [|by apply Z.testbit_neg_r].
    destruct (Z.ltb_spec i 4); [by apply lanes_testbit|]. cbn.
    destruct values as [[[v0 v1] v2] v3]. unfold lanes.
    apply Z.bits_above_log2; [by destruct (test v0), (test v1), (test v2), (test v3)|].
    apply Z.le_lt_trans with 3; [by destruct (test v0), (test v1), (test v2), (test v3)|lia]. }
  split; apply H.
Qed.
End lanes.

Module metrics_examples.
Import metrics.

Definition go (i : nat) (a : Access) (s : State) : option State :=
  pc ← threads s !! i; r ← pc_step a pc (counters s); Some (MkState r.2 (<[i := r.1]> (threads s))).

Fixpoint run (l : list (nat * Access)) (s : State) : option State :=
  match l with [] => Some s | (i, a) :: l => s ← go i a s; run l s end.

Lemma run_reachable l s s' : reachable s -> run l s = Some s' -> reachable s'.
Proof.
  revert s. induction l as [|[i a] l IH]; intros s Hs Hr; cbn in Hr; [by simplify_eq|].
  destruct (go i a s) as [s1|] eqn:Eg; [|done]. apply (IH s1); [|done]. unfold go in Eg.
  destruct (threads s !! i) as [pc|] eqn:Ei; [|done]. cbn in Eg.
  destruct (pc_step a pc (counters s)) as [[pc' m']|] eqn:Ep; [|done]. cbn in Eg. injection Eg as <-.
  eapply rtc_r; [exact Hs|]. by eapply step_thread.
Qed.

Definition two_calls : State := MkState new [AddCommitted 1000; AddCommitted 3000].

Lemma two_calls_reachable : reachable two_calls.
Proof.
  eapply rtc_l; [by apply (step_begin 1000)|]. eapply rtc_l; [by apply (step_begin 3000)|]. apply rtc_refl.
Qed.

(** Both calls load the initial peak; the larger stores first, the smaller fails and stops. *)
Definition race : list (nat * Access) :=
  [(0, Reads 0); (1, Reads 0); (0, Reads 0); (1, Reads 0); (0, Reads 0); (1, Reads 0);
   (1, Exchanges); (0, Reads 1); (0, Reads 0); (0, Reads 0)]%nat.

Definition after_race : State := default two_calls (run race two_calls).

Lemma peak_is_maximum_witness :
  peak_latency_ns (counters after_race) = 3000 /\ committed (counters after_race) = 2 /\
  total_latency_ns (counters after_race) = 4000.
Proof.
  assert (reachable after_race) as Hr.
  { eapply (run_reachable race two_calls); [apply two_calls_reachable|]. vm_refl. }
  destruct (peak_is_maximum after_race Hr) as (_ & _ & H).
  destruct H as (H1 & H2 & H3); [vm_compute; by repeat constructor|]. rewrite H1, H2, H3. by split_and!.
Defined.

Lemma record_committed_undisturbed_witness :
  exists accesses, (length accesses <= 4)%nat /\
    foldl (fun o a => o ≫= fun '(pc, m) => pc_step a pc m) (Some (AddCommitted 7, new)) accesses =
      Some (Done 7, record_committed 7 new).
Proof. by apply record_committed_undisturbed. Defined.

(** The two counters behind the average are updated one after the other: a reader between
    them sees an average below every latency recorded. *)
Example average_tears :
  option_map (fun s => avg_latency_ns (counters s)) (run [(0, Reads 0); (0, Reads 0); (1, Reads 0)]%nat two_calls) =
  Some 500.
Proof. vm_refl. Qed.

(** The gauge exported as the 99th percentile is the maximum: one slow call among a thousand
    fast ones decides it. *)
Example p99_is_the_maximum :
  latency_p99_ns (foldl (fun m l => record_transaction l m) (shard_new 0)
                    (replicate 500 10 ++ [1000000] ++ replicate 499 10)) = 1000000.
Proof. vm_refl. Qed.
End metrics_examples.
