(* ===== verification/Protocol.v ===== *)
(** * core/transport: frames, priorities, backpressure guard

    [protocol] translates the length-prefixed framing and the BLZL frame; MessagePack is
    the parameter [Rmp].  A connection's inbound bytes are a list; [read_exact] fails at
    its end.  [priority] is the stream-id table, [backpressure] the watermark guard in
    binary64 arithmetic. *)

From stdpp Require Import base numbers list gmap strings.
From Stdlib Require Import ZArith Lia SpecFloat.
From S2P Require Import Prelude External Common.

(** ** protocol.rs *)
Module protocol.
Definition MAX_FRAME_SIZE : Z := 1048576.

Record TransactionRequest : Type := MkRequest {
  request_id : string;
  debit_account_id : string;
  credit_account_id : string;
  amount : string;
  currency : string;
  ledger_id : Z;
  code : Z;
  flags : Z;
  pending_transfer_id : string;
}.

Record TransactionResponse : Type := MkResponse {
  r_request_id : string;
  committed : bool;
  transfer_id : option string;
  error : option string;
  timestamp_ns : Z;
}.

Record Frame : Type := MkFrame { payload : list Z }.

(** [payload.len() as u32], big-endian, then the payload. *)
Definition encode (p : list Z) : list Z :=
  to_be_bytes 4 (as_unsigned 32 (Z.of_nat (length p))) ++ p.

(** [stream.read_exact(&mut [0; n])] on the bytes still to come. *)
Definition read_exact (n : nat) (stream : list Z) : Result (list Z * list Z) string :=
  if (n <=? length stream)%nat then Ok (take n stream, drop n stream) else Err "early eof"%string.

Definition read_frame (stream : list Z) : BlazerResult (Frame * list Z) :=
  let? hdr := map_err (fun e => Transport ("failed to read frame header: " +:+ e)) (read_exact 4 stream) in
  let len := from_be_bytes hdr.1 in
  if MAX_FRAME_SIZE <? len
  then Err (Transport ("frame size " +:+ string_of_Z len +:+ " exceeds maximum " +:+ string_of_Z MAX_FRAME_SIZE))
  else
    let? body := map_err (fun e => Transport ("failed to read frame payload: " +:+ e))
                   (read_exact (Z.to_nat len) hdr.2) in
    Ok (MkFrame body.1, body.2).

(** The bytes a successful write appends to the connection. *)
Definition write_frame (p : list Z) (sent : list Z) : list Z := sent ++ encode p.

(** [n] frames off the stream. *)
Fixpoint read_frames (n : nat) (stream : list Z) : BlazerResult (list Frame * list Z) :=
  match n with
  | O => Ok ([], stream)
  | S n => let? r := read_frame stream in
           let? rs := read_frames n r.2 in
           Ok (r.1 :: rs.1, rs.2)
  end.

(** *** MessagePack *)
Class Rmp (A : Type) := {
  to_vec : A -> Result (list Z) string;
  from_slice : list Z -> Result A string;
}.

Class RmpLaws (A : Type) `{!Rmp A} : Prop := {
  from_to_vec a bs : to_vec a = Ok bs -> from_slice bs = Ok a;
}.

Section serde.
Context `{!Rmp TransactionRequest, !Rmp TransactionResponse}.

Definition serialize_request (r : TransactionRequest) : BlazerResult (list Z) :=
  map_err (fun e => Transport ("request serialization failed: " +:+ e)) (to_vec r).
Definition deserialize_request (bs : list Z) : BlazerResult TransactionRequest :=
  map_err (fun e => Transport ("request deserialization failed: " +:+ e)) (from_slice bs).
Definition serialize_response (r : TransactionResponse) : BlazerResult (list Z) :=
  map_err (fun e => Transport ("response serialization failed: " +:+ e)) (to_vec r).
Definition deserialize_response (bs : list Z) : BlazerResult TransactionResponse :=
  map_err (fun e => Transport ("response deserialization failed: " +:+ e)) (from_slice bs).

Definition BLZL_MAGIC : list Z := [66; 76; 90; 76].
Definition BLZL_UDP_PORT : Z := 7878.

Definition encode_blzl_frame (r : TransactionRequest) : BlazerResult (list Z) :=
  let? p := serialize_request r in Ok (BLZL_MAGIC ++ p).
End serde.
End protocol.

Section framing.
Import protocol.

Lemma read_exact_app n a b : length a = n -> read_exact n (a ++ b) = Ok (a, b).
Proof.
  intros <-. unfold read_exact. rewrite (proj2 (Nat.leb_le _ _)) by (rewrite length_app; lia).
  by rewrite take_app_length, drop_app_length.
Qed.

Lemma read_encode p rest :
  Z.of_nat (length p) < 2 ^ 32 ->
  read_frame (encode p ++ rest) =
    if MAX_FRAME_SIZE <? Z.of_nat (length p)
    then Err (Transport ("frame size " +:+ string_of_Z (Z.of_nat (length p)) +:+ " exceeds maximum " +:+
                         string_of_Z MAX_FRAME_SIZE))
    else Ok (MkFrame p, rest).
Proof.
  intros Hp. unfold read_frame, encode. rewrite <- app_assoc, read_exact_app by apply length_to_be_bytes.
  cbn [map_err rbind fst snd]. rewrite as_unsigned_id by lia.
  rewrite from_to_be_bytes by (change (256 ^ Z.of_nat 4) with (2 ^ 32); lia).
  destruct (MAX_FRAME_SIZE <? Z.of_nat (length p)); [done|].
  rewrite read_exact_app by (rewrite Nat2Z.id; done). done.
Qed.

(** C12: framing is lossless: any sequence of payloads of at most [MAX_FRAME_SIZE] bytes,
    written one after the other, is read back as the same sequence, with the bytes that
    follow left on the stream. *)
Theorem frames_roundtrip (ps : list (list Z)) (rest : list Z) :
  Forall (fun p => Z.of_nat (length p) <= MAX_FRAME_SIZE) ps ->
  read_frames (length ps) (foldl (fun sent p => write_frame p sent) [] ps ++ rest) = Ok (MkFrame <$> ps, rest).
Proof.
  assert (forall ps sent, foldl (fun sent p => write_frame p sent) sent ps = sent ++ mjoin (encode <$> ps)) as Hw.
  { clear. induction ps as [|p ps IH]; intros sent; simpl; [by rewrite app_nil_r|].
    rewrite IH. unfold write_frame. by rewrite <- app_assoc. }
  rewrite Hw, app_nil_l. clear Hw. induction 1 as [|p ps Hp Hps IH]; [done|].
  change (mjoin (encode <$> p :: ps)) with (encode p ++ mjoin (encode <$> ps)).
  cbn [length read_frames]. rewrite <- app_assoc, read_encode by (unfold MAX_FRAME_SIZE in Hp; lia).
  rewrite (proj2 (Z.ltb_ge _ _)) by lia. cbn [rbind fst snd]. by rewrite IH.
Qed.

(** the size limit is enforced before any payload byte is read, and a stream that ends
    early is an error: a header announcing more than [MAX_FRAME_SIZE] bytes, a missing
    header byte or a missing payload byte never produces a frame. *)
Theorem read_frame_rejects (stream : list Z) :
  (length stream < 4)%nat \/ MAX_FRAME_SIZE < from_be_bytes (take 4 stream) \/
  Z.of_nat (length stream) - 4 < from_be_bytes (take 4 stream) ->
  exists msg, read_frame stream = Err (Transport msg).
Proof.
  intros H. unfold read_frame, read_exact at 1.
  destruct (Nat.leb_spec 4 (length stream)) as [H4|H4]; [|by eexists]. cbn [map_err rbind fst snd].
  destruct (Z.ltb_spec MAX_FRAME_SIZE (from_be_bytes (take 4 stream))); [by eexists|].
  unfold read_exact. rewrite length_drop. destruct H as [|[|H]]; [lia|lia|].
  rewrite (proj2 (Nat.leb_gt _ _)) by lia. by eexists.
Qed.

(** Requests and responses survive their encoding, and the BLZL frame starts with the
    magic bytes. *)
Lemma message_roundtrip `{!Rmp TransactionRequest, !RmpLaws TransactionRequest} r bs :
  serialize_request r = Ok bs -> deserialize_request bs = Ok r /\
  encode_blzl_frame r = Ok (BLZL_MAGIC ++ bs).
Proof.
  unfold serialize_request, deserialize_request, encode_blzl_frame, serialize_request.
  destruct (to_vec r) as [b|] eqn:E; [|done]. intros [= <-]. by rewrite (from_to_vec r b E).
Qed.
End framing.

(** ** priority.rs *)
Module priority.
Inductive EventPriority := Critical | High | Normal.

Definition STREAM_CRITICAL_REQ : Z := 100.
Definition STREAM_CRITICAL_RSP : Z := 101.
Definition STREAM_HIGH_REQ : Z := 200.
Definition STREAM_HIGH_RSP : Z := 201.
Definition STREAM_NORMAL_REQ : Z := 300.
Definition STREAM_NORMAL_RSP : Z := 301.
Definition STREAM_LEGACY_REQ : Z := 1001.
Definition STREAM_LEGACY_RSP : Z := 1002.

Definition request_stream_id (p : EventPriority) : Z :=
  match p with Critical => STREAM_CRITICAL_REQ | High => STREAM_HIGH_REQ | Normal => STREAM_NORMAL_REQ end.
Definition response_stream_id (p : EventPriority) : Z :=
  match p with Critical => STREAM_CRITICAL_RSP | High => STREAM_HIGH_RSP | Normal => STREAM_NORMAL_RSP end.

Definition from_request_stream_id (s : Z) : option EventPriority :=
  if s =? STREAM_CRITICAL_REQ then Some Critical
  else if s =? STREAM_HIGH_REQ then Some High
  else if s =? STREAM_NORMAL_REQ then Some Normal
  else if s =? STREAM_LEGACY_REQ then Some Normal
  else None.
Definition from_response_stream_id (s : Z) : option EventPriority :=
  if s =? STREAM_CRITICAL_RSP then Some Critical
  else if s =? STREAM_HIGH_RSP then Some High
  else if s =? STREAM_NORMAL_RSP then Some Normal
  else if s =? STREAM_LEGACY_RSP then Some Normal
  else None.

Definition name (p : EventPriority) : string :=
  match p with Critical => "critical" | High => "high" | Normal => "normal" end.

(** The stream of a priority determines it, and no stream is both a request and a
    response stream. *)
Lemma stream_ids p s :
  from_request_stream_id (request_stream_id p) = Some p /\
  from_response_stream_id (response_stream_id p) = Some p /\
  (from_request_stream_id s = None \/ from_response_stream_id s = None).
Proof.
  split_and!; [by destruct p..|]. unfold from_response_stream_id.
  destruct (Z.eqb_spec s STREAM_CRITICAL_RSP) as [->|]; [by left|].
  destruct (Z.eqb_spec s STREAM_HIGH_RSP) as [->|]; [by left|].
  destruct (Z.eqb_spec s STREAM_NORMAL_RSP) as [->|]; [by left|].
  destruct (Z.eqb_spec s STREAM_LEGACY_RSP) as [->|]; [by left|by right].
Qed.
End priority.

(** ** backpressure.rs: an [f64] is a binary64 value of [spec_float]. *)
Module backpressure.
Definition f64_of_Z (n : Z) : spec_float := binary_normalize 53 1024 n 0 false.
Definition f64_zero : spec_float := S754_zero false.

(** The cursors of the producer and the consumer, and the buffer's capacity. *)
Record BackpressureGuard : Type := MkGuard {
  producer : Z;
  consumer_cursor : Z;
  capacity : Z;
  high_watermark : spec_float;
}.

(** [x.min(1.0)] for a number [x]. *)
Definition min_one (x : spec_float) : spec_float := if SFltb (f64_of_Z 1) x then f64_of_Z 1 else x.

Definition pressure_ratio (g : BackpressureGuard) : spec_float :=
  if capacity g =? 0 then f64_zero
  else
    let pending := producer g - consumer_cursor g in
    if pending <=? 0 then f64_zero
    else min_one (SFdiv 53 1024 (f64_of_Z pending) (f64_of_Z (capacity g))).

Definition is_pressured (g : BackpressureGuard) : bool := SFltb (high_watermark g) (pressure_ratio g).

(** 0.75 *)
Definition default_watermark : spec_float := SFdiv 53 1024 (f64_of_Z 3) (f64_of_Z 4).

(** With the default watermark and a buffer of 1024 slots the guard trips exactly above
    768 pending events, for every fill level. *)
Lemma default_watermark_threshold :
  forallb (fun k => let pending := Z.of_nat k in
    Bool.eqb (is_pressured (MkGuard (pending - 1) (-1) 1024 default_watermark)) (768 <? pending))
    (seq 0 1026) = true.
Proof. vm_refl. Qed.
End backpressure.

Module protocol_examples.
Import protocol.

Lemma frames_roundtrip_witness :
  read_frames 2 (foldl (fun sent p => write_frame p sent) [] [[1; 2; 3]; []] ++ [9]) =
    Ok ([MkFrame [1; 2; 3]; MkFrame []], [9]).
Proof. apply (frames_roundtrip [[1; 2; 3]; []] [9]). repeat constructor; vm_compute; congruence. Defined.

Lemma read_frame_rejects_witness : exists msg, read_frame [255; 255; 255; 255; 1] = Err (Transport msg).
Proof. apply (read_frame_rejects [255; 255; 255; 255; 1]). right; left. vm_compute. done. Defined.
End protocol_examples.
