(* ===== verification/AuditTrail.v ===== *)
(** * libs/audit: the hash-chained audit log

    [event], [entry], [store] and [export] translate the four files of the crate.
    SHA-256 with its hexadecimal text, the JSON texts and the clock's text are the
    parameters [AuditLib].  [record] is also read as the two critical sections it is,
    so that concurrent calls can interleave. *)

From stdpp Require Import pretty base numbers list gmap strings.
From Stdlib Require Import ZArith Lia Ascii.
From S2P Require Import Prelude External.

Class AuditLib := {
  AuUuid : Type;
  DateTime : Type;
  Json : Type;
  (** Lower-case hexadecimal SHA-256. *)
  sha256_hex : list Z -> string;
  json_to_string : Json -> option string;
  rfc3339_millis : DateTime -> string;
}.

Class AuditLaws `{AuditLib} : Prop := {
  sha256_hex_length x : String.length (sha256_hex x) = 64%nat;
}.

(** The UTF-8 bytes of a string. *)
Definition bytes_of_string (s : string) : list Z :=
  (fun a => Z.of_N (N_of_ascii a)) <$> String.list_ascii_of_string s.

Definition to_le_bytes (n : nat) (x : Z) : list Z := reverse (to_be_bytes n x).

Module event.
Inductive AuditAction :=
  | TransactionCreated | TransactionValidated | ComplianceScreeningStarted
  | ComplianceScreeningCompleted | LedgerSubmitted | LedgerCommitted | TransactionCompleted
  | TransactionRejected | TransactionHeld | TransactionReleased | SarGenerated
  | AccessControlCheck | ApiAuthentication | ConfigurationChanged.

Inductive AuditResult := Success | Failure | Pending.

Section event.
Context `{AuditLib}.

Record AuditEvent : Type := MkEvent {
  event_id : AuUuid;
  timestamp : DateTime;
  transaction_id : string;
  actor : string;
  action : AuditAction;
  result : AuditResult;
  latency_ns : option Z;
  metadata : option Json;
  error : option string;
}.

(** [i] and [t] are the random identifier and the clock reading. *)
Definition new (i : AuUuid) (t : DateTime) (tx ac : string) (a : AuditAction) : AuditEvent :=
  MkEvent i t tx ac a Pending None None None.

Definition with_result (r : string) (e : AuditEvent) : AuditEvent :=
  let res := if String.eqb r "success" then Success
             else if String.eqb r "failure" then Failure else Pending in
  MkEvent (event_id e) (timestamp e) (transaction_id e) (actor e) (action e) res (latency_ns e) (metadata e) (error e).
Definition with_latency (nanos : Z) (e : AuditEvent) : AuditEvent :=
  MkEvent (event_id e) (timestamp e) (transaction_id e) (actor e) (action e) (result e)
    (Some (as_unsigned 64 nanos)) (metadata e) (error e).
Definition with_metadata (m : Json) (e : AuditEvent) : AuditEvent :=
  MkEvent (event_id e) (timestamp e) (transaction_id e) (actor e) (action e) (result e) (latency_ns e) (Some m) (error e).
Definition with_error (err : string) (e : AuditEvent) : AuditEvent :=
  MkEvent (event_id e) (timestamp e) (transaction_id e) (actor e) (action e) Failure (latency_ns e) (metadata e) (Some err).
End event.
End event.
Abbreviation AuditEvent := event.AuditEvent.

(** [serde_json::to_string] of an event. *)
Class EventJson `{AuditLib} := { event_json : AuditEvent -> option string }.
Class EventJsonLaws `{EventJson} : Prop := {
  event_json_total e : is_Some (event_json e);
  event_json_inj e e' : event_json e = event_json e' -> e = e';
}.

Module entry.
Section entry.
Context `{AL : AuditLib, EJ : !EventJson}.

Record AuditEntry : Type := MkEntry {
  sequence : Z;
  event : AuditEvent;
  previous_hash : string;
  entry_hash : string;
}.

(** The bytes fed to the hasher. *)
Definition preimage (s : Z) (prev : string) (e : AuditEvent) : list Z :=
  to_le_bytes 8 s ++ bytes_of_string prev ++ bytes_of_string (default "" (event_json e)).

Definition compute_hash (x : AuditEntry) : string :=
  sha256_hex (preimage (sequence x) (previous_hash x) (event x)).

Definition new (s : Z) (e : AuditEvent) (prev : string) : AuditEntry :=
  MkEntry s e prev (compute_hash (MkEntry s e prev "")).

Definition verify_integrity (x : AuditEntry) : bool := String.eqb (entry_hash x) (compute_hash x).
Definition verify_chain (expected : string) (x : AuditEntry) : bool := String.eqb (previous_hash x) expected.

Record HashChain : Type := MkChain {
  genesis_hash : string;
  current_hash : string;
  chain_sequence : Z;
}.

Definition genesis : string := sha256_hex (bytes_of_string "BLAZIL_AUDIT_LOG_GENESIS").
Definition chain_new : HashChain := MkChain genesis genesis 0.

Definition create_entry (e : AuditEvent) (c : HashChain) : AuditEntry * HashChain :=
  let x := new (chain_sequence c) e (current_hash c) in
  (x, MkChain (genesis_hash c) (entry_hash x) (chain_sequence c + 1)).

(** The loop over consecutive pairs. *)
Fixpoint links (l : list AuditEntry) : bool :=
  match l with
  | x :: (y :: _) as rest => verify_chain (entry_hash x) y && links rest
  | _ => true
  end.

Definition verify_chain_from_genesis (c : HashChain) (l : list AuditEntry) : bool :=
  match l with
  | [] => true
  | x :: _ =>
      if negb (String.eqb (previous_hash x) (genesis_hash c)) then false
      else if negb (forallb verify_integrity l) then false
      else links l
  end.
End entry.
End entry.

Module store.
Import entry.
Section store.
Context `{AL : AuditLib, EJ : !EventJson}.

Record AuditLog : Type := MkLog { chain : HashChain; entries : list AuditEntry }.
Definition new : AuditLog := MkLog chain_new [].

Definition record (e : AuditEvent) (l : AuditLog) : AuditLog :=
  let '(x, c) := create_entry e (chain l) in MkLog c (entries l ++ [x]).

Definition len (l : AuditLog) : nat := length (entries l).
Definition is_empty (l : AuditLog) : bool := bool_decide (entries l = []) .
Definition get_range (s e : Z) (l : AuditLog) : list AuditEntry :=
  List.filter (fun x => (s <=? sequence x) && (sequence x <? e)) (entries l).
Definition get_by_transaction (tx : string) (l : AuditLog) : list AuditEntry :=
  List.filter (fun x => String.eqb (event.transaction_id (event x)) tx) (entries l).
Definition get_by_actor (a : string) (l : AuditLog) : list AuditEntry :=
  List.filter (fun x => String.eqb (event.actor (event x)) a) (entries l).
Definition get_all (l : AuditLog) : list AuditEntry := entries l.
Definition verify_integrity (l : AuditLog) : bool := verify_chain_from_genesis (chain l) (entries l).
Definition current_sequence (l : AuditLog) : Z := chain_sequence (chain l).

(** The entries [export_json] prints. *)
Definition export_json_entries (s e : option Z) (l : AuditLog) : list AuditEntry :=
  List.filter (fun x =>
    (match s with Some s => s <=? sequence x | None => true end) &&
    (match e with Some e => sequence x <? e | None => true end)) (entries l).

(** *** [record] as two critical sections: a writer holds its entry in between. *)
Inductive Action := Create (w : nat) (e : AuditEvent) | Push (w : nat).

Record Shared : Type := MkShared { log : AuditLog; holding : gmap nat AuditEntry }.

Definition step (a : Action) (s : Shared) : option Shared :=
  match a with
  | Create w e =>
      match holding s !! w with
      | Some _ => None
      | None => let '(x, c) := create_entry e (chain (log s)) in
                Some (MkShared (MkLog c (entries (log s))) (<[w := x]> (holding s)))
      end
  | Push w =>
      match holding s !! w with
      | None => None
      | Some x => Some (MkShared (MkLog (chain (log s)) (entries (log s) ++ [x])) (delete w (holding s)))
      end
  end.

Fixpoint run (l : list Action) (s : Shared) : option Shared :=
  match l with
  | [] => Some s
  | a :: l => match step a s with None => None | Some s' => run l s' end
  end.
End store.
End store.

Module export.
Import event entry store.
Section export.
Context `{AL : AuditLib, EJ : !EventJson}.

(** The [Debug] text of an action. *)
Definition action_debug (a : AuditAction) : string :=
  match a with
  | TransactionCreated => "TransactionCreated" | TransactionValidated => "TransactionValidated"
  | ComplianceScreeningStarted => "ComplianceScreeningStarted"
  | ComplianceScreeningCompleted => "ComplianceScreeningCompleted"
  | LedgerSubmitted => "LedgerSubmitted" | LedgerCommitted => "LedgerCommitted"
  | TransactionCompleted => "TransactionCompleted" | TransactionRejected => "TransactionRejected"
  | TransactionHeld => "TransactionHeld" | TransactionReleased => "TransactionReleased"
  | SarGenerated => "SarGenerated" | AccessControlCheck => "AccessControlCheck"
  | ApiAuthentication => "ApiAuthentication" | ConfigurationChanged => "ConfigurationChanged"
  end.

Definition action_to_name (a : AuditAction) : string :=
  match a with
  | TransactionCreated => "Transaction Created" | TransactionValidated => "Transaction Validated"
  | ComplianceScreeningStarted => "Compliance Screening Started"
  | ComplianceScreeningCompleted => "Compliance Screening Completed"
  | LedgerSubmitted => "Ledger Submitted" | LedgerCommitted => "Ledger Committed"
  | TransactionCompleted => "Transaction Completed" | TransactionRejected => "Transaction Rejected"
  | TransactionHeld => "Transaction Held" | TransactionReleased => "Transaction Released"
  | SarGenerated => "SAR Generated" | AccessControlCheck => "Access Control Check"
  | ApiAuthentication => "API Authentication" | ConfigurationChanged => "Configuration Changed"
  end.

Definition result_to_severity (r : AuditResult) : Z :=
  match r with Success => 5 | Pending => 6 | Failure => 8 end.

Definition result_lower (r : AuditResult) : string :=
  match r with Success => "success" | Pending => "pending" | Failure => "failure" end.

(** [s.replace('|', "\\|")] *)
Fixpoint escape_pipe (s : string) : string :=
  match s with
  | EmptyString => EmptyString
  | String c t => if Ascii.eqb c "|"%char then String "\"%char (String "|"%char (escape_pipe t))
                  else String c (escape_pipe t)
  end.

Definition entry_to_cef (x : AuditEntry) : string :=
  let e := event x in
  let extensions :=
    "rt=" +:+ rfc3339_millis (timestamp e) +:+ " src=" +:+ actor e +:+ " txId=" +:+ transaction_id e +:+
    " outcome=" +:+ result_lower (result e) +:+ " seq=" +:+ string_of_Z (sequence x) +:+
    " hash=" +:+ String.substring 0 16 (entry_hash x) +:+
    match latency_ns e with Some n => " latency=" +:+ string_of_Z n | None => "" end +:+
    match metadata e with
    | Some m => match json_to_string m with Some t => " metadata=" +:+ t | None => "" end
    | None => ""
    end +:+
    match error e with Some err => " error=" +:+ escape_pipe err | None => "" end in
  "CEF:0|Blazil|TransactionEngine|0.3.2|" +:+ action_debug (action e) +:+ "|" +:+
  action_to_name (action e) +:+ "|" +:+ string_of_Z (result_to_severity (result e)) +:+ "|" +:+ extensions.

Definition newline : string := String (ascii_of_nat 10) "".

(** The entries [export_cef] prints. *)
Definition export_cef_entries (s e : option Z) (l : AuditLog) : list AuditEntry :=
  match s, e with
  | Some s, Some e => get_range s e l
  | _, _ => get_all l
  end.

Definition export_cef (s e : option Z) (l : AuditLog) : string :=
  foldr (fun x acc => entry_to_cef x +:+ newline +:+ acc) "" (export_cef_entries s e l).
End export.
End export.

(** ** Chains of entries *)
Section chains.
Context `{AL : AuditLib, ALa : !AuditLaws, EJ : !EventJson, EJa : !EventJsonLaws}.
Import entry store.

(** Every entry hashes to its hash and names the hash before it, from [g] on. *)
Fixpoint chained (g : string) (l : list AuditEntry) : Prop :=
  match l with
  | [] => True
  | x :: l => previous_hash x = g /\ entry_hash x = compute_hash x /\ chained (entry_hash x) l
  end.

Definition last_hash (g : string) (l : list AuditEntry) : string :=
  match last l with Some x => entry_hash x | None => g end.

Lemma last_hash_cons g x l : last_hash g (x :: l) = last_hash (entry_hash x) l.
Proof. unfold last_hash. rewrite last_cons. by destruct (last l). Qed.

Lemma chained_app g l k : chained g (l ++ k) <-> chained g l /\ chained (last_hash g l) k.
Proof.
  revert g. induction l as [|x l IH]; intros g; [simpl; tauto|].
  rewrite last_hash_cons. simpl. rewrite IH. tauto.
Qed.

Lemma links_spec x l :
  links (x :: l) && forallb entry.verify_integrity l = true <-> chained (entry_hash x) l.
Proof.
  revert x. induction l as [|y l IH]; intros x; [done|].
  specialize (IH y). cbn [links chained forallb] in *.
  unfold verify_chain at 1, entry.verify_integrity at 1.
  rewrite !andb_true_iff, !String.eqb_eq in *. rewrite <- IH. tauto.
Qed.

Lemma verify_spec c l : verify_chain_from_genesis c l = true <-> chained (genesis_hash c) l.
Proof.
  destruct l as [|x l]; [done|]. unfold verify_chain_from_genesis. cbn [chained].
  rewrite <- links_spec. cbn [forallb]. unfold entry.verify_integrity at 1.
  destruct (String.eqb_spec (previous_hash x) (genesis_hash c)); simpl; [|split; [done|tauto]].
  destruct (String.eqb_spec (entry_hash x) (compute_hash x)); simpl; [|split; [done|tauto]].
  destruct (forallb entry.verify_integrity l); simpl; rewrite ?andb_true_r, ?andb_false_r; [tauto|].
  split; [done|]. intros (_ & _ & H). done.
Qed.

Record log_ok (l : AuditLog) (evs : list AuditEvent) : Prop := {
  lo_genesis : genesis_hash (chain l) = genesis;
  lo_chained : chained genesis (entries l);
  lo_current : current_hash (chain l) = last_hash genesis (entries l);
  lo_seq : chain_sequence (chain l) = Z.of_nat (length (entries l));
  lo_events : event <$> entries l = evs;
  lo_sequences : forall i x, entries l !! i = Some x -> sequence x = Z.of_nat i;
}.

Lemma record_ok l evs e : log_ok l evs -> log_ok (record e l) (evs ++ [e]).
Proof.
  intros [Hg Hc Hcur Hs He Hsq]. unfold record, create_entry. simpl. split; simpl; try done.
  - apply chained_app. split; [done|]. simpl. by rewrite Hcur.
  - unfold last_hash. by rewrite last_snoc.
  - rewrite length_app. simpl. lia.
  - by rewrite fmap_app, He.
  - intros i x Hx. apply lookup_app_Some in Hx as [Hx|[Hle Hx]]; [by apply Hsq|].
    apply list_lookup_singleton_Some in Hx as [Hi <-]. simpl. lia.
Qed.

Lemma records_ok l evs es : log_ok l evs -> log_ok (foldl (fun l e => record e l) l es) (evs ++ es).
Proof.
  revert l evs. induction es as [|e es IH]; intros l evs Hl; simpl; [by rewrite app_nil_r|].
  specialize (IH _ _ (record_ok l evs e Hl)). by rewrite <- app_assoc in IH.
Qed.

(** a log written by one caller at a time always verifies, and is the list of events
    recorded, in order, numbered from zero. *)
Theorem sequential_log_verifies (es : list AuditEvent) :
  let l := foldl (fun l e => record e l) new es in
  store.verify_integrity l = true /\ event <$> get_all l = es /\
  current_sequence l = Z.of_nat (length es) /\
  forall i x, entries l !! i = Some x -> sequence x = Z.of_nat i.
Proof.
  assert (log_ok new []) as H0 by (split; try done; intros i x; by rewrite lookup_nil).
  pose proof (records_ok new [] es H0) as [Hg Hc _ Hs He Hsq]. rewrite app_nil_l in He.
  split_and!; [|done| |done].
  - unfold store.verify_integrity. apply verify_spec. by rewrite Hg.
  - unfold current_sequence. rewrite Hs. f_equal. apply (f_equal length) in He. by rewrite length_fmap in He.
Qed.

(** The byte strings that were hashed for a log: the genesis text and one for each entry. *)
Definition genesis_bytes : list Z := bytes_of_string "BLAZIL_AUDIT_LOG_GENESIS".
Definition hashed (l : list AuditEntry) : list (list Z) :=
  genesis_bytes :: ((fun x => preimage (sequence x) (previous_hash x) (event x)) <$> l).

(** Two different strings, one hashed for the one log and one for the other, with one digest;
    decidable, as the logs are finite. *)
Definition clash (l l' : list AuditEntry) : bool :=
  existsb (fun x => existsb (fun y => negb (bool_decide (x = y)) && String.eqb (sha256_hex x) (sha256_hex y)) (hashed l')) (hashed l).

Lemma clash_spec l l' :
  clash l l' = true <-> exists x y, x ∈ hashed l /\ y ∈ hashed l' /\ x <> y /\ sha256_hex x = sha256_hex y.
Proof.
  unfold clash. rewrite existsb_exists. setoid_rewrite existsb_exists. setoid_rewrite andb_true_iff.
  setoid_rewrite negb_true_iff. setoid_rewrite bool_decide_eq_false. setoid_rewrite String.eqb_eq.
  setoid_rewrite <- list_elem_of_In. naive_solver.
Qed.

Lemma clash_sym l l' : clash l l' = true -> clash l' l = true.
Proof. rewrite !clash_spec. intros (x & y & ? & ? & ? & ?). exists y, x. by split_and!. Qed.

Lemma clash_prefix l l' k k' : clash l l' = true -> clash (l ++ k) (l' ++ k') = true.
Proof.
  rewrite !clash_spec. unfold hashed. setoid_rewrite fmap_app. intros (x & y & Hx & Hy & ?). exists x, y.
  by rewrite !app_comm_cons, !elem_of_app; auto.
Qed.

Lemma hashed_last l x : preimage (sequence x) (previous_hash x) (event x) ∈ hashed (l ++ [x]).
Proof. unfold hashed. rewrite fmap_app, app_comm_cons. apply elem_of_app. right. by left. Qed.

Lemma bytes_of_string_inj s t : bytes_of_string s = bytes_of_string t -> s = t.
Proof.
  unfold bytes_of_string. intros H.
  rewrite <- (String.string_of_list_ascii_of_string s), <- (String.string_of_list_ascii_of_string t).
  f_equal. revert H. generalize (String.list_ascii_of_string s) as a, (String.list_ascii_of_string t) as b.
  induction a as [|x a IH]; intros [|y b] H; simplify_eq/=; [done|]. f_equal; [|by apply IH].
  rewrite <- (ascii_N_embedding x), <- (ascii_N_embedding y). f_equal. lia.
Qed.

Lemma bytes_of_string_length s : length (bytes_of_string s) = String.length s.
Proof.
  unfold bytes_of_string. rewrite length_fmap. induction s as [|c s IH]; simpl; [done|]. by rewrite IH.
Qed.

Lemma preimage_length s p e : String.length p = 64%nat -> (72 <= length (preimage s p e))%nat.
Proof.
  intros Hp. unfold preimage, to_le_bytes. rewrite !length_app, length_reverse, length_to_be_bytes, bytes_of_string_length. lia.
Qed.

Lemma preimage_inj s s' p p' e e' :
  0 <= s < 2 ^ 64 -> 0 <= s' < 2 ^ 64 -> String.length p = 64%nat -> String.length p' = 64%nat ->
  preimage s p e = preimage s' p' e' -> s = s' /\ p = p' /\ e = e'.
Proof using EJa.
  intros Hs Hs' Hp Hp' H. unfold preimage, to_le_bytes in H.
  apply app_inj_1 in H as [H1 H]; [|by rewrite !length_reverse, !length_to_be_bytes].
  apply app_inj_1 in H as [H2 H3]; [|rewrite !bytes_of_string_length; congruence].
  apply (f_equal reverse) in H1. rewrite !reverse_involutive in H1.
  apply (f_equal from_be_bytes) in H1.
  rewrite !from_to_be_bytes in H1 by (change (256 ^ Z.of_nat 8) with (2 ^ 64); lia).
  apply bytes_of_string_inj in H2, H3. split_and!; [done|done|].
  apply event_json_inj. destruct (event_json_total e) as [j Ej], (event_json_total e') as [j' Ej'].
  rewrite Ej, Ej' in *. simpl in H3. congruence.
Qed.

Lemma last_hash_digest l : chained genesis l -> exists x, last_hash genesis l = sha256_hex x.
Proof.
  destruct l as [|x l _] using rev_ind; [by eexists|]. intros H%chained_app. destruct H as [_ (_ & Hh & _)].
  unfold last_hash. rewrite last_snoc, Hh. by eexists.
Qed.

Definition sequences_u64 (l : list AuditEntry) : Prop := Forall (fun x => 0 <= sequence x < 2 ^ 64) l.

Lemma genesis_preimage l y : chained genesis (l ++ [y]) -> entry_hash y = genesis -> clash [] (l ++ [y]) = true.
Proof using ALa.
  intros [Hl (Hp & Hh & _)]%chained_app Hg. rewrite Hg in Hh. apply clash_spec.
  exists genesis_bytes, (preimage (sequence y) (previous_hash y) (event y)).
  split_and!; [by left|apply hashed_last| |exact Hh]. intros E. apply (f_equal length) in E.
  pose proof (preimage_length (sequence y) (previous_hash y) (event y)) as Hlen.
  destruct (last_hash_digest l Hl) as [x Hx]. rewrite Hp, Hx, sha256_hex_length in Hlen.
  specialize (Hlen eq_refl). rewrite <- Hx, <- Hp, <- E in Hlen. unfold genesis_bytes in Hlen.
  rewrite bytes_of_string_length in Hlen. simpl in Hlen. lia.
Qed.

(** C8: the log is tamper-evident: when two different logs both verify from the genesis hash
    and end in the same hash, two different byte strings that were hashed for them, one for
    an entry (or the genesis) of the one log and one for an entry (or the genesis) of the
    other, have the same digest.  Who changes a log and keeps its last hash has therefore
    found a collision, and it can be read off the two logs. *)
Theorem audit_log_tamper_evident (c : HashChain) (l l' : list AuditEntry) :
  genesis_hash c = genesis -> sequences_u64 l -> sequences_u64 l' ->
  verify_chain_from_genesis c l = true -> verify_chain_from_genesis c l' = true ->
  last_hash genesis l = last_hash genesis l' -> l <> l' ->
  clash l l' = true.
Proof using ALa EJa.
  intros Hg Hs Hs' Hv%verify_spec Hv'%verify_spec. rewrite Hg in *. clear Hg c.
  revert l' Hs' Hv'. induction l as [|x l IH] using rev_ind; intros l' Hs' Hv' Hlast Hne.
  - destruct l' as [|y l' _] using rev_ind; [done|]. apply (genesis_preimage l' y Hv').
    unfold last_hash in Hlast. rewrite last_snoc in Hlast. by symmetry.
  - destruct l' as [|y l' _] using rev_ind.
    { apply clash_sym, (genesis_preimage l x Hv). unfold last_hash in Hlast. by rewrite last_snoc in Hlast. }
    unfold last_hash in Hlast. rewrite !last_snoc in Hlast.
    apply chained_app in Hv as [Hv (Hp & Hh & _)], Hv' as [Hv' (Hp' & Hh' & _)].
    unfold sequences_u64 in *. apply Forall_app in Hs as [Hs Hx], Hs' as [Hs' Hy].
    rewrite Forall_singleton in Hx, Hy.
    destruct (last_hash_digest l Hv) as [d Hd], (last_hash_digest l' Hv') as [d' Hd'].
    rewrite Hh, Hh' in Hlast. unfold compute_hash in Hlast.
    destruct (decide (preimage (sequence x) (previous_hash x) (event x) =
                      preimage (sequence y) (previous_hash y) (event y))) as [E|E].
    + apply preimage_inj in E as (Es & Ep & Ee); [|done|done|by rewrite Hp, Hd, sha256_hex_length
                                                   |by rewrite Hp', Hd', sha256_hex_length].
      apply clash_prefix, IH; [done..|congruence|]. intros ->. apply Hne. f_equal. f_equal.
      destruct x, y; simpl in *; subst. f_equal. unfold compute_hash in *. simpl in *. congruence.
    + apply clash_spec. eexists _, _. split_and!; [apply hashed_last|apply hashed_last|exact E|exact Hlast].
Qed.

(** removing entries from the end of the log is not detected: every prefix of a log that
    verifies verifies too, because the verification never compares the last entry with
    the chain's current hash or sequence. *)
Theorem truncation_undetected (c : HashChain) (l : list AuditEntry) (k : nat) :
  verify_chain_from_genesis c l = true -> verify_chain_from_genesis c (take k l) = true.
Proof.
  rewrite !verify_spec. intros H. rewrite <- (take_drop k l) in H. by apply chained_app in H as [H _].
Qed.

(** concurrent writers can corrupt the log.  The entry is created under one lock and
    appended under another; if a second writer gets between them, the log holds the two
    entries in the wrong order and never verifies again, although nothing was tampered
    with (unless the digest of its first entry is that of the genesis text). *)
Theorem concurrent_records_break_chain (a b : AuditEvent) :
  exists s, run [Create 0 a; Create 1 b; Push 1; Push 0] (MkShared new ∅) = Some s /\
    (store.verify_integrity (log s) = true -> clash [] (entries (log s)) = true).
Proof using ALa.
  eexists. split.
  - simpl. rewrite lookup_empty. simpl. rewrite lookup_insert_ne, lookup_empty by done. simpl.
    rewrite lookup_insert_eq. simpl. rewrite lookup_delete_ne, lookup_insert_ne, lookup_insert_eq by done. done.
  - unfold store.verify_integrity. cbn [log chain entries]. rewrite verify_spec. simpl. intros (Hp & _).
    apply clash_spec. exists genesis_bytes, (preimage 0 genesis a). split_and!; [by left|by right; right; left| |by symmetry].
    intros E. apply (f_equal length) in E.
    pose proof (preimage_length 0 genesis a) as Hlen. unfold genesis at 1 in Hlen. rewrite sha256_hex_length in Hlen.
    specialize (Hlen eq_refl). unfold genesis_bytes in E. rewrite <- E, bytes_of_string_length in Hlen. simpl in Hlen. lia.
Qed.

(** The two export formats disagree on a single bound: JSON applies it, CEF ignores it. *)
Lemma export_bounds_differ (l : AuditLog) (s : Z) :
  export.export_cef_entries (Some s) None l = entries l /\
  export_json_entries (Some s) None l = List.filter (fun x => s <=? sequence x) (entries l).
Proof.
  split; [done|]. unfold export_json_entries. apply List.filter_ext. intros x. by rewrite andb_true_r.
Qed.
End chains.

(** ** A concrete instance *)
Module audit_examples.
Import entry store.

(** A 64-character checksum in place of SHA-256. *)
Definition toy_hex (x : list Z) : string :=
  let sum := foldl (fun acc b => (acc * 31 + b) mod 65521) 7 x in
  String.string_of_list_ascii
    ((fun k => ascii_of_nat (Z.to_nat (48 + (sum / 10 ^ (Z.of_nat k mod 5)) mod 10))) <$> seq 0 64).

Definition lib : AuditLib := {|
  AuUuid := Z; DateTime := Z; Json := string;
  sha256_hex := toy_hex;
  json_to_string := Some;
  rfc3339_millis := string_of_Z;
|}.
#[local] Existing Instance lib.

Lemma audit_laws : AuditLaws (H := lib).
Proof.
  split. intros x. cbn [sha256_hex lib]. unfold toy_hex.
  assert (forall l, String.length (String.string_of_list_ascii l) = length l) as H
    by (induction l as [|c l IH]; simpl; congruence).
  by rewrite H, length_fmap, length_seq.
Qed.

Definition action_index (a : event.AuditAction) : nat :=
  match a with
  | event.TransactionCreated => 0 | event.TransactionValidated => 1
  | event.ComplianceScreeningStarted => 2 | event.ComplianceScreeningCompleted => 3
  | event.LedgerSubmitted => 4 | event.LedgerCommitted => 5 | event.TransactionCompleted => 6
  | event.TransactionRejected => 7 | event.TransactionHeld => 8 | event.TransactionReleased => 9
  | event.SarGenerated => 10 | event.AccessControlCheck => 11 | event.ApiAuthentication => 12
  | event.ConfigurationChanged => 13
  end%nat.
Definition result_index (r : event.AuditResult) : nat :=
  match r with event.Success => 0 | event.Failure => 1 | event.Pending => 2 end%nat.

(** A string with every character escaped, then a terminator, then [rest]. *)
Fixpoint quoted (s rest : string) : string :=
  match s with
  | EmptyString => String "."%char rest
  | String c t => String "\"%char (String c (quoted t rest))
  end.

Lemma quoted_inj s s' r r' : quoted s r = quoted s' r' -> s = s' /\ r = r'.
Proof.
  revert s'. induction s as [|c s IH]; intros [|c' s'] H; cbn [quoted] in H; [|discriminate H..|].
  - by injection H as ->.
  - injection H as -> H. by apply IH in H as [-> ->].
Qed.

Definition opt_text {A} (f : A -> string) (o : option A) : string :=
  match o with None => "" | Some a => String "+"%char (f a) end.

Definition quoted_event (e : AuditEvent) : string :=
  let '(event.MkEvent i t tx ac a r la m er) := e in
  quoted (pretty (i : Z)) (quoted (pretty (t : Z)) (quoted tx (quoted ac
    (quoted (pretty (Z.of_nat (action_index a))) (quoted (pretty (Z.of_nat (result_index r)))
      (quoted (opt_text pretty la) (quoted (opt_text id m) (opt_text id er)))))))).
Definition ejson : EventJson := {| event_json e := Some (quoted_event e) |}.
#[local] Existing Instance ejson.

Lemma opt_text_inj {A} (f : A -> string) (Hf : forall a b, f a = f b -> a = b) o o' :
  opt_text f o = opt_text f o' -> o = o'.
Proof.
  destruct o, o'; cbn [opt_text]; intros H; [|discriminate H..|done].
  injection H as H. f_equal. by apply Hf.
Qed.

Lemma pretty_Z_eq (x y : Z) : pretty x = pretty y -> x = y.
Proof. apply (inj pretty). Qed.

Lemma action_index_inj a a' : action_index a = action_index a' -> a = a'.
Proof. by destruct a, a'. Qed.
Lemma result_index_inj r r' : result_index r = result_index r' -> r = r'.
Proof. by destruct r, r'. Qed.

Lemma ejson_laws : EventJsonLaws (H := lib) (H0 := ejson).
Proof.
  split; [intros e; by eexists|]. intros e e' H. injection H as H.
  destruct e as [i t tx ac a r la m er], e' as [i' t' tx' ac' a' r' la' m' er']. unfold quoted_event in H.
  repeat match type of H with quoted _ _ = quoted _ _ => apply quoted_inj in H as [?Hf H] end.
  apply pretty_Z_eq in Hf, Hf0, Hf3, Hf4. apply (opt_text_inj pretty pretty_Z_eq) in Hf5.
  apply (opt_text_inj id (fun _ _ E => E)) in Hf6, H.
  apply Nat2Z.inj, action_index_inj in Hf3. apply Nat2Z.inj, result_index_inj in Hf4. by subst.
Qed.

Definition ev (tx : string) : AuditEvent := event.new (1 : Z) (2 : Z) tx "alice" event.TransactionCreated.
Definition demo : AuditLog := foldl (fun l e => record e l) new [ev "tx_1"; ev "tx_2"; ev "tx_3"].

(** Two different logs that end in one checksum. *)
Definition demo' : AuditLog := foldl (fun l e => record e l) new [ev "tx_5293889"; ev "tx_1"].
Definition forged : AuditLog := foldl (fun l e => record e l) new [ev "tx_75567048"; ev "tx_1"].

Lemma audit_log_tamper_evident_witness : entries demo' <> entries forged /\ clash (entries demo') (entries forged) = true.
Proof.
  assert (entries demo' <> entries forged) as Hne.
  { set (ids := map (fun x => event.transaction_id (entry.event x))).
    assert (ids (entries demo') = ["tx_5293889"; "tx_1"]%string) as H by vm_refl.
    assert (ids (entries forged) = ["tx_75567048"; "tx_1"]%string) as H' by vm_refl.
    intros E. rewrite E, H' in H. discriminate H. }
  assert (Forall (fun x => 0 <= sequence x < 2 ^ 64) (entries demo')) as Hs
    by (repeat (apply Forall_cons; split; [vm_compute; split; congruence|]); apply Forall_nil; exact I).
  assert (Forall (fun x => 0 <= sequence x < 2 ^ 64) (entries forged)) as Hs'
    by (repeat (apply Forall_cons; split; [vm_compute; split; congruence|]); apply Forall_nil; exact I).
  split; [exact Hne|].
  apply (audit_log_tamper_evident (ALa := audit_laws) (EJa := ejson_laws) (chain demo') (entries demo') (entries forged));
    [vm_refl|exact Hs|exact Hs'|vm_refl|vm_refl|vm_refl|exact Hne].
Defined.

Lemma sequential_log_verifies_witness :
  store.verify_integrity demo = true /\ current_sequence demo = 3.
Proof.
  pose proof (sequential_log_verifies [ev "tx_1"; ev "tx_2"; ev "tx_3"]) as (H1 & _ & H2 & _).
  split; [exact H1|exact H2].
Defined.

Lemma concurrent_records_break_chain_witness :
  exists s, run [Create 0 (ev "tx_1"); Create 1 (ev "tx_2"); Push 1; Push 0] (MkShared new ∅) = Some s /\
    (store.verify_integrity (log s) = true -> clash [] (entries (log s)) = true).
Proof. exact (concurrent_records_break_chain (ALa := audit_laws) (ev "tx_1") (ev "tx_2")). Defined.

Lemma truncation_undetected_witness :
  verify_chain_from_genesis (chain demo) (entries demo) = true /\
  verify_chain_from_genesis (chain demo) (take 1 (entries demo)) = true.
Proof.
  assert (verify_chain_from_genesis (chain demo) (entries demo) = true) as H by vm_refl.
  split; [exact H|]. exact (truncation_undetected (chain demo) (entries demo) 1 H).
Defined.

Example concurrent_records_evaluated :
  (fun s => (len (log s), store.verify_integrity (log s))) <$>
    run [Create 0 (ev "tx_1"); Create 1 (ev "tx_2"); Push 1; Push 0] (MkShared new ∅) = Some (2%nat, false).
Proof. vm_refl. Qed.
End audit_examples.
