(* ===== verification/Risk.v ===== *)
(** * core/risk: limits, positions and the pre-trade checks

    [limit], [position] and [engine] translate the three files of the crate.  The [+],
    [*] and [/] operators of [Decimal] panic where the checked operation fails, so an
    operation that uses them is an [option]: [None] is the panic.  The two concurrent
    maps are finite maps; an operation is one call made to its end. *)

From stdpp Require Import base numbers list gmap strings.
From Stdlib Require Import ZArith Lia.
From S2P Require Import Prelude External ExternalModel Common.

(** ** limit.rs *)
Module limit.
Section limit.
Context `{DL : DecimalLib}.

Record RiskLimit : Type := MkLimit {
  max_position_size : option Decimal;
  max_notional_per_instrument : option Decimal;
  max_total_notional : option Decimal;
  max_order_size : option Decimal;
}.

Definition new (position_size notional total order_size : option Decimal) : RiskLimit :=
  MkLimit position_size notional total order_size.

Definition unlimited : RiskLimit := MkLimit None None None None.

Definition retail : RiskLimit :=
  MkLimit (Some (dec_new 1000 0)) (Some (dec_new 50000 0)) (Some (dec_new 200000 0)) (Some (dec_new 100 0)).

Definition institutional : RiskLimit :=
  MkLimit (Some (dec_new 100000 0)) (Some (dec_new 10000000 0)) (Some (dec_new 50000000 0))
    (Some (dec_new 10000 0)).
End limit.
End limit.

(** ** position.rs *)
Module position.
Section position.
Context `{DL : DecimalLib}.

Record Position : Type := MkPosition {
  instrument : string;
  quantity : Decimal;
  notional : Decimal;
  avg_price : Decimal;
}.

Definition new (i : string) (q n a : Decimal) : Position := MkPosition i q n a.
Definition zero (i : string) : Position := MkPosition i dec_ZERO dec_ZERO dec_ZERO.

Definition is_long (p : Position) : bool := dec_gtb (quantity p) dec_ZERO.
Definition is_short (p : Position) : bool := dec_ltb (quantity p) dec_ZERO.
Definition is_flat (p : Position) : bool := dec_eqb (quantity p) dec_ZERO.

(** A trade closes the position, opens or extends it, or reduces it; the last branch keeps
    the average price. *)
Definition update (quantity_delta price : Decimal) (p : Position) : option Position :=
  new_quantity ← dec_checked_add (quantity p) quantity_delta;
  trade_notional ← dec_checked_mul quantity_delta price;
  if dec_is_zero new_quantity then Some (MkPosition (instrument p) dec_ZERO dec_ZERO dec_ZERO)
  else if dec_is_zero (quantity p)
          || Bool.eqb (dec_gtb (quantity p) dec_ZERO) (dec_gtb quantity_delta dec_ZERO) then
    total_notional ← dec_checked_add (notional p) trade_notional;
    avg ← (if negb (dec_is_zero new_quantity) then dec_checked_div total_notional new_quantity
           else Some dec_ZERO);
    Some (MkPosition (instrument p) new_quantity total_notional avg)
  else
    n ← dec_checked_mul new_quantity (avg_price p);
    Some (MkPosition (instrument p) new_quantity n (avg_price p)).
End position.
End position.
Abbreviation Position := position.Position.

(** ** engine.rs *)
Module engine.
Import limit position.
Section engine.
Context `{DL : DecimalLib}.

Inductive RiskError :=
  | OrderSizeLimitExceeded (order_size limit : Decimal)
  | PositionSizeLimitExceeded (new_size limit : Decimal)
  | InstrumentNotionalLimitExceeded (instrument : string) (new_notional limit : Decimal)
  | TotalNotionalLimitExceeded (new_total limit : Decimal)
  | AccountNotFound (account : string).

Record OrderRequest : Type := MkOrder {
  account_id : string;
  order_instrument : string;
  order_quantity : Decimal;
  price : Decimal;
}.

Definition order_notional (o : OrderRequest) : option Decimal :=
  dec_checked_mul (dec_abs (order_quantity o)) (price o).

Record InMemoryRiskEngine : Type := MkEngine {
  limits : gmap string RiskLimit;
  positions : gmap (string * string) Position;
}.

Definition new : InMemoryRiskEngine := MkEngine ∅ ∅.

Definition register_account (a : string) (l : RiskLimit) (s : InMemoryRiskEngine) : InMemoryRiskEngine :=
  MkEngine (<[a := l]> (limits s)) (positions s).

Definition get_position (a i : string) (s : InMemoryRiskEngine) : option Position := positions s !! (a, i).

Definition get_account_positions (a : string) (s : InMemoryRiskEngine) : list Position :=
  (map_to_list (filter (fun kv => kv.1.1 = a) (positions s))).*2.

(** [.sum()]: additions from zero, in the order of the iteration. *)
Definition dec_sum (l : list Decimal) : option Decimal :=
  foldl (fun acc d => acc ≫= fun a => dec_checked_add a d) (Some dec_ZERO) l.

Definition get_total_notional (a : string) (s : InMemoryRiskEngine) : option Decimal :=
  dec_sum ((fun p => dec_abs (notional p)) <$> get_account_positions a s).

(** The four checks, each [Some] error when its limit is exceeded. *)
Definition check_order_size (l : RiskLimit) (o : OrderRequest) : option RiskError :=
  match max_order_size l with
  | Some m => let order_size := dec_abs (order_quantity o) in
              if dec_gtb order_size m then Some (OrderSizeLimitExceeded order_size m) else None
  | None => None
  end.

Definition check_position_size (l : RiskLimit) (o : OrderRequest) (current_quantity : Decimal)
    : option (option RiskError) :=
  match max_position_size l with
  | Some m =>
      new_quantity ← dec_checked_add current_quantity (order_quantity o);
      let new_size := dec_abs new_quantity in
      Some (if dec_gtb new_size m then Some (PositionSizeLimitExceeded new_size m) else None)
  | None => Some None
  end.

Definition check_notional (l : RiskLimit) (o : OrderRequest) (current_notional : Decimal)
    : option (option RiskError) :=
  match max_notional_per_instrument l with
  | Some m =>
      n ← dec_checked_mul (order_quantity o) (price o);
      t ← dec_checked_add current_notional n;
      let new_notional := dec_abs t in
      Some (if dec_gtb new_notional m
            then Some (InstrumentNotionalLimitExceeded (order_instrument o) new_notional m) else None)
  | None => Some None
  end.

Definition check_total (l : RiskLimit) (o : OrderRequest) (s : InMemoryRiskEngine)
    : option (option RiskError) :=
  match max_total_notional l with
  | Some m =>
      current_total ← get_total_notional (account_id o) s;
      n ← dec_checked_mul (order_quantity o) (price o);
      t ← dec_checked_add current_total n;
      let new_total := dec_abs t in
      Some (if dec_gtb new_total m then Some (TotalNotionalLimitExceeded new_total m) else None)
  | None => Some None
  end.

Definition current (o : OrderRequest) (s : InMemoryRiskEngine) : Position :=
  default (zero (order_instrument o)) (positions s !! (account_id o, order_instrument o)).

Definition check_order (o : OrderRequest) (s : InMemoryRiskEngine) : option (Result unit RiskError) :=
  match limits s !! account_id o with
  | None => Some (Err (AccountNotFound (account_id o)))
  | Some l =>
      match check_order_size l o with
      | Some e => Some (Err e)
      | None =>
          r2 ← check_position_size l o (quantity (current o s));
          match r2 with
          | Some e => Some (Err e)
          | None =>
              r3 ← check_notional l o (notional (current o s));
              match r3 with
              | Some e => Some (Err e)
              | None =>
                  r4 ← check_total l o s;
                  match r4 with
                  | Some e => Some (Err e)
                  | None => Some (Ok tt)
                  end
              end
          end
      end
  end.

Definition update_position (o : OrderRequest) (s : InMemoryRiskEngine) : option InMemoryRiskEngine :=
  let key := (account_id o, order_instrument o) in
  p ← update (order_quantity o) (price o) (current o s);
  Some (MkEngine (limits s) (<[key := p]> (positions s))).

(** *** The documented use: an order is executed when it passes the checks *)
Definition submit (o : OrderRequest) (s : InMemoryRiskEngine)
    : option (Result unit RiskError * InMemoryRiskEngine) :=
  r ← check_order o s;
  match r with
  | Ok _ => s' ← update_position o s; Some (Ok tt, s')
  | Err e => Some (Err e, s)
  end.

Fixpoint submit_all (os : list OrderRequest) (s : InMemoryRiskEngine)
    : option (list bool * InMemoryRiskEngine) :=
  match os with
  | [] => Some ([], s)
  | o :: os =>
      '(r, s) ← submit o s;
      '(rs, s) ← submit_all os s;
      Some (is_ok r :: rs, s)
  end.
End engine.
End engine.

(** ** What the checks decide *)
Section checks.
Context `{DL : DecimalLib, DLa : !DecimalLaws}.
Import limit position engine.






(** The exposure of an account: the sum of the absolute notionals of its positions. *)
Definition exposure (a : string) (s : InMemoryRiskEngine) : Z :=
  Zsum_with (fun p => Z.abs (raw (notional p))) (get_account_positions a s).


Lemma add_exact_at (a b : Decimal) k :
  scale a <= k <= 28 -> scale b <= k -> fits (raw a + raw b) k ->
  exists c, dec_checked_add a b = Some c /\ raw c = raw a + raw b /\ scale c <= k.
Proof using DLa.
  intros Ha Hb Hf. pose proof (scale_bound a). pose proof (scale_bound b).
  destruct (dec_add_exact a b) as (c & Hc & Hr); [apply (fits_mono _ k); [lia|lia|exact Hf]|].
  exists c. split_and!; [done|done|]. apply dec_add_scale in Hc. lia.
Qed.












End checks.

(** ** What the gate guarantees over time *)
Section gate.
Context `{DL : DecimalLib, DLa : !DecimalLaws}.
Import limit position engine.

(** The net size of the executed orders on one position; [rs] tells which were executed. *)
Fixpoint executed (a i : string) (os : list OrderRequest) (rs : list bool) : Z :=
  match os, rs with
  | o :: os, r :: rs =>
      (if r && bool_decide (account_id o = a) && bool_decide (order_instrument o = i)
       then raw (order_quantity o) else 0) + executed a i os rs
  | _, _ => 0
  end.

Definition volume (os : list OrderRequest) : Z := Zsum_with (fun o => Z.abs (raw (order_quantity o))) os.

(** Every order has at most [k] decimals and the sizes sum up exactly. *)
Definition sized (k : Z) (os : list OrderRequest) : Prop :=
  0 <= k <= 28 /\ Forall (fun o => scale (order_quantity o) <= k) os /\ fits (volume os) k.

Definition held (a i : string) (s : InMemoryRiskEngine) : Decimal :=
  match positions s !! (a, i) with Some p => quantity p | None => dec_ZERO end.

Lemma current_quantity o s : quantity (current o s) = held (account_id o) (order_instrument o) s.
Proof. unfold current, held. by destruct (positions s !! _). Qed.

(** The size after a trade is the sum, or the canonical zero when the sum is zero. *)
Lemma update_quantity q p x x' :
  update q p x = Some x' ->
  exists n, dec_checked_add (quantity x) q = Some n /\ raw (quantity x') = raw n /\
    scale (quantity x') <= scale n /\ instrument x' = instrument x.
Proof using DLa.
  unfold update. intros H. destruct (dec_checked_add (quantity x) q) as [n|] eqn:En; [|discriminate H].
  exists n. simpl in H. destruct (dec_checked_mul q p) as [t|]; [simpl in H|discriminate H].
  pose proof (scale_bound n) as Hn. rewrite (dec_is_zero_spec n) in H.
  destruct (Z.eqb_spec (raw n) 0) as [E|E].
  - simplify_eq/=. rewrite raw_ZERO, (proj2 dec_ZERO_spec). by split_and!; [|lia|lia|].
  - destruct (_ || _); simpl in H.
    + destruct (dec_checked_add (notional x) t); [simpl in H|discriminate H].
      destruct (dec_checked_div _ n); simplify_eq/=; by split_and!.
    + destruct (dec_checked_mul n (avg_price x)); simplify_eq/=; by split_and!.
Qed.

Lemma submit_cases o s r s' :
  submit o s = Some (r, s') ->
  (exists e, r = Err e /\ s' = s) \/
  (r = Ok tt /\ check_order o s = Some (Ok tt) /\ limits s' = limits s /\
   exists p n, update (order_quantity o) (price o) (current o s) = Some p /\
     positions s' = <[(account_id o, order_instrument o) := p]> (positions s) /\
     dec_checked_add (held (account_id o) (order_instrument o) s) (order_quantity o) = Some n /\
     raw (quantity p) = raw n /\ scale (quantity p) <= scale n).
Proof using DLa.
  unfold submit. intros H. destruct (check_order o s) as [[[]|e]|]; simpl in H; [| |discriminate H].
  - right. unfold update_position in H.
    destruct (update _ _ _) as [p|] eqn:Ep; simpl in H; [|discriminate H]. simplify_eq/=.
    apply update_quantity in Ep as Hq. destruct Hq as (n & Hn & Hr & Hsc & _).
    rewrite current_quantity in Hn. split_and!; [done|done|done|]. by exists p, n.
  - left. simplify_eq. by exists e.
Qed.

Lemma held_insert a i a' i' p s m :
  positions s = <[(a', i') := p]> (positions m) ->
  held a i s = if bool_decide (a' = a) && bool_decide (i' = i) then quantity p else held a i m.
Proof.
  unfold held. intros ->. destruct (bool_decide_reflect (a' = a)) as [->|Ha]; simpl;
    [destruct (bool_decide_reflect (i' = i)) as [->|Hi]; simpl|].
  - by rewrite lookup_insert_eq.
  - rewrite lookup_insert_ne; [done|congruence].
  - rewrite lookup_insert_ne; [done|congruence].
Qed.

(** What an order that passes the checks satisfies. *)
Lemma check_ok_limits o s l n :
  check_order o s = Some (Ok tt) -> limits s !! account_id o = Some l ->
  dec_checked_add (held (account_id o) (order_instrument o) s) (order_quantity o) = Some n ->
  (forall m, max_order_size l = Some m -> Z.abs (raw (order_quantity o)) <= raw m) /\
  (forall m, max_position_size l = Some m -> Z.abs (raw n) <= raw m).
Proof using DLa.
  intros Hc El Hn. unfold check_order in Hc. rewrite El in Hc.
  unfold check_order_size, check_position_size in Hc. split; intros m Em; rewrite Em in Hc.
  - rewrite dec_gtb_spec, dec_abs_spec in Hc.
    destruct (Z.ltb_spec (raw m) (Z.abs (raw (order_quantity o)))); [discriminate Hc|lia].
  - rewrite current_quantity, Hn in Hc.
    destruct (match max_order_size l with Some _ => _ | None => _ end); [discriminate Hc|]. simpl in Hc.
    rewrite dec_gtb_spec, dec_abs_spec in Hc.
    destruct (Z.ltb_spec (raw m) (Z.abs (raw n))); [discriminate Hc|lia].
Qed.

Definition within_limits (s : InMemoryRiskEngine) : Prop :=
  forall a i p l m, positions s !! (a, i) = Some p -> limits s !! a = Some l ->
    max_position_size l = Some m -> Z.abs (raw (quantity p)) <= raw m.

Lemma submit_within_limits o s r s' :
  submit o s = Some (r, s') -> within_limits s ->
  within_limits s' /\ limits s' = limits s /\
  (r = Ok tt -> forall l m, limits s !! account_id o = Some l -> max_order_size l = Some m ->
     Z.abs (raw (order_quantity o)) <= raw m).
Proof using DLa.
  intros Hs Hw. apply submit_cases in Hs as [(e & -> & ->)|(-> & Hc & Hl & p & n & _ & Hp & Hn & Hr & _)];
    [by split_and!|].
  split_and!; [|done|].
  - intros a i p' l m Hlk El Em. rewrite Hl in El. rewrite Hp in Hlk.
    apply lookup_insert_Some in Hlk as [[Hk <-]|[_ Hlk]]; [|by eapply Hw].
    simplify_eq. rewrite Hr. destruct (check_ok_limits o s l n Hc El Hn) as [_ H2]. by apply H2.
  - intros _ l m El Em. destruct (check_ok_limits o s l n Hc El Hn) as [H1 _]. by apply H1.
Qed.

Lemma submit_all_within_limits os s rs s' :
  submit_all os s = Some (rs, s') -> within_limits s ->
  within_limits s' /\ limits s' = limits s /\
  forall k o l m, os !! k = Some o -> rs !! k = Some true -> limits s !! account_id o = Some l ->
    max_order_size l = Some m -> Z.abs (raw (order_quantity o)) <= raw m.
Proof using DLa.
  revert s rs. induction os as [|o os IH]; intros s rs H Hw; simpl in H.
  { simplify_eq. split_and!; [done|done|]. intros k o l m Hk. by rewrite lookup_nil in Hk. }
  destruct (submit o s) as [[r s1]|] eqn:Es; simpl in H; [|discriminate H].
  destruct (submit_all os s1) as [[rs' s2]|] eqn:Ea; simpl in H; [|discriminate H]. simplify_eq.
  destruct (submit_within_limits o s r s1 Es Hw) as (Hw1 & Hl1 & Ho).
  destruct (IH s1 rs' Ea Hw1) as (Hw2 & Hl2 & Hos). split_and!; [done|congruence|].
  intros [|k] o' l m Hk Hrk El Em; simplify_eq/=.
  - destruct r as [[]|e]; [|discriminate Hrk]. by apply (Ho eq_refl l m).
  - apply (Hos k o' l m); [done|done|by rewrite Hl1|done].
Qed.

(** an executed order respects the limits, whatever was executed before: starting from
    no positions, after any sequence of orders each executed only when it passes the
    checks, no position of an account is larger than its [max_position_size], long or
    short, and every executed order was within [max_order_size]. *)
Theorem position_limit_enforced (os : list OrderRequest) (l0 : gmap string RiskLimit) (rs : list bool)
    (s : InMemoryRiskEngine) :
  submit_all os (MkEngine l0 ∅) = Some (rs, s) ->
  (forall a i p l m, positions s !! (a, i) = Some p -> l0 !! a = Some l -> max_position_size l = Some m ->
     Z.abs (raw (quantity p)) <= raw m) /\
  (forall k o l m, os !! k = Some o -> rs !! k = Some true -> l0 !! account_id o = Some l ->
     max_order_size l = Some m -> Z.abs (raw (order_quantity o)) <= raw m).
Proof using DLa.
  intros H. destruct (submit_all_within_limits os (MkEngine l0 ∅) rs s H) as (Hw & Hl & Hos).
  - intros a i p l m Hlk. simpl in Hlk. by rewrite lookup_empty in Hlk.
  - split; [|exact Hos]. intros a i p l m Hlk El. apply (Hw a i p l m Hlk). by rewrite Hl.
Qed.

Lemma volume_nonneg os : 0 <= volume os.
Proof. apply Zsum_with_nonneg. intros o _. lia. Qed.

(** One order on top of a position held exactly. *)
Lemma submit_held a i o s r s' k (h : Z) (budget : Z) :
  submit o s = Some (r, s') -> scale (order_quantity o) <= k <= 28 ->
  scale (held a i s) <= k -> raw (held a i s) = h ->
  Z.abs h + Z.abs (raw (order_quantity o)) <= budget -> fits budget k ->
  let d := if is_ok r && bool_decide (account_id o = a) && bool_decide (order_instrument o = i)
           then raw (order_quantity o) else 0 in
  raw (held a i s') = h + d /\ scale (held a i s') <= k.
Proof using DLa.
  intros Hs Hk Hsc Hh Hb Hf. apply submit_cases in Hs as
    [(e & -> & ->)|(-> & _ & _ & p & n & _ & Hp & Hn & Hr & Hpn)]; simpl; [split; [lia|done]|].
  rewrite (held_insert a i _ _ p s' s Hp).
  destruct (bool_decide_reflect (account_id o = a)) as [Ha|Ha]; simpl; [subst a|split; [lia|done]].
  destruct (bool_decide_reflect (order_instrument o = i)) as [Hi|Hi]; simpl; [subst i|split; [lia|done]].
  destruct (add_exact_at (held (account_id o) (order_instrument o) s) (order_quantity o) k) as (c & Hc & Hrc & Hck);
    [lia|lia|unfold fits in *; lia|].
  simplify_eq. split; [lia|lia].
Qed.

(** the books of the risk engine are exact: whatever the prices, and however often a
    position was opened, extended, reduced, closed or turned, the size recorded is the sum
    of the signed sizes of the orders executed on it. *)
Theorem positions_track_executions (os : list OrderRequest) (l0 : gmap string RiskLimit) (rs : list bool)
    (s : InMemoryRiskEngine) (k : Z) (a i : string) :
  sized k os -> submit_all os (MkEngine l0 ∅) = Some (rs, s) -> raw (held a i s) = executed a i os rs.
Proof using DLa.
  intros (Hk & Hos & Hf) H.
  assert (forall s0 done_ h, submit_all os s0 = Some (rs, s) -> Forall (fun o => scale (order_quantity o) <= k) os ->
    raw (held a i s0) = h -> scale (held a i s0) <= k -> Z.abs h <= done_ -> fits (done_ + volume os) k ->
    raw (held a i s) = h + executed a i os rs) as Hgen.
  { clear Hf Hos H. revert rs. induction os as [|o os IH]; intros rs s0 d h H Ho Hh Hsc Hd Hf; simpl in H.
    { simplify_eq/=. lia. }
    destruct (submit o s0) as [[r s1]|] eqn:Es; simpl in H; [|discriminate H].
    destruct (submit_all os s1) as [[rs' s2]|] eqn:Ea; simpl in H; [|discriminate H]. simplify_eq.
    apply Forall_cons in Ho as [Ho Hos]. pose proof (volume_nonneg os). simpl in Hf. fold (volume os) in Hf.
    destruct (submit_held a i o s0 r s1 k (raw (held a i s0)) (d + Z.abs (raw (order_quantity o))) Es) as [H1 H2];
      [lia|done|done|lia|unfold fits in *; lia|].
    rewrite (IH rs' s1 (d + Z.abs (raw (order_quantity o))) _ Ea Hos H1 H2); [simpl; lia| |unfold fits in *; lia].
    destruct (_ && _); lia. }
  apply (Hgen (MkEngine l0 ∅) 0 0 H Hos); [|unfold held; simpl; rewrite lookup_empty|lia|done].
  - unfold held. simpl. rewrite lookup_empty. apply raw_ZERO.
  - rewrite (proj2 dec_ZERO_spec). lia.
Qed.
End gate.

(** ** Evaluated orders *)
Module risk_examples.
Import limit position engine common_examples.

Definition num (n : Z) : Decimal := dec_new n 0.
Definition order (i : string) (q p : Z) : OrderRequest := MkOrder "acc" i (num q) (num p).

(** At most 50 units per position and a total exposure of 1000. *)
Definition limits1 : gmap string RiskLimit :=
  {[ "acc" := limit.new (Some (num 50)) None (Some (num 1000)) (Some (num 40)) ]}.

Definition outcome (os : list OrderRequest) : option (list bool * list (string * Z * Z * Z)) :=
  '(rs, s) ← submit_all os (MkEngine limits1 ∅);
  Some (rs, (fun p => (instrument p, raw (quantity p) / one, raw (notional p) / one, raw (avg_price p) / one)) <$>
              get_account_positions "acc" s).

Definition trade : list OrderRequest := [order "A" 10 30; order "A" 41 1; order "A" 20 20; order "A" (-25) 10].
Definition ran (os : list OrderRequest) : bool :=
  match submit_all os (MkEngine limits1 ∅) with Some _ => true | None => false end.
Definition flags (os : list OrderRequest) : list bool :=
  match submit_all os (MkEngine limits1 ∅) with Some (rs, _) => rs | None => [] end.
Definition engine_after (os : list OrderRequest) : InMemoryRiskEngine :=
  match submit_all os (MkEngine limits1 ∅) with Some (_, s) => s | None => MkEngine limits1 ∅ end.

Lemma ran_spec os : ran os = true -> submit_all os (MkEngine limits1 ∅) = Some (flags os, engine_after os).
Proof. unfold ran, flags, engine_after. by destruct (submit_all os (MkEngine limits1 ∅)) as [[rs s]|]. Qed.

Lemma trade_flags : flags trade = [true; false; true; true].
Proof. vm_refl. Qed.

Lemma trade_sized : sized 0 trade.
Proof.
  split; [lia|]. split.
  - repeat (apply Forall_cons; split; [vm_compute; discriminate|]). by apply Forall_nil.
  - vm_compute. done.
Qed.

Lemma position_limit_enforced_witness :
  ran trade = true /\ Z.abs (raw (order_quantity (order "A" 20 20))) <= raw (num 40).
Proof.
  assert (ran trade = true) as H by vm_refl. split; [exact H|].
  destruct (position_limit_enforced trade limits1 (flags trade) (engine_after trade) (ran_spec trade H)) as [_ Ho].
  apply (Ho 2%nat (order "A" 20 20) (limit.new (Some (num 50)) None (Some (num 1000)) (Some (num 40)))).
  - reflexivity.
  - rewrite trade_flags. reflexivity.
  - apply lookup_insert_eq.
  - reflexivity.
Defined.

Lemma positions_track_executions_witness :
  raw (held "acc" "A" (engine_after trade)) = executed "acc" "A" trade [true; false; true; true].
Proof.
  assert (ran trade = true) as H by vm_refl. rewrite <- trade_flags.
  exact (positions_track_executions trade limits1 (flags trade) (engine_after trade) 0 "acc" "A" trade_sized
           (ran_spec trade H)).
Defined.





(** the limit on the total exposure is not enforced against short orders: the check adds
    the signed value of the order to the sum of absolute values, so a sale looks as if it
    lowered the exposure. With a limit of 1000 and a position worth 1000, a short sale
    worth 1000 in another instrument is accepted, and the exposure is then 2000. *)
Theorem total_limit_bypassed :
  let os := [order "A" 10 100; order "B" (-20) 50] in
  flags os = [true; true] /\ exposure "acc" (engine_after os) = 2000 * one /\
  (max_total_notional <$> limits1 !! "acc") = Some (Some (num 1000)).
Proof. split_and!; vm_refl. Qed.

(** A trade that turns a position keeps the average price of the side that was closed:
    long 10 at 10, then a sale of 15 at 2, leaves 5 short at an average price of 10 and a
    value of -50, although the 5 were sold at 2. *)
Example flip_keeps_average_price :
  outcome [order "A" 10 10; order "A" (-15) 2] = Some ([true; true], [("A"%string, -5, -50, 10)]).
Proof. vm_refl. Qed.
End risk_examples.
