(* ===== verification/Connection.v ===== *)
(** * core/transport: the TCP connection handler and the accept loop

    [connection] translates connection.rs: a request becomes a [TransactionEvent]
    ([build_event]), is published, awaited and answered.  The pipeline, its results map
    and everything else that runs between two polls are the class [Engine].  [tcp] is the
    accept loop of tcp.rs with its connection cap, as a step relation. *)

From stdpp Require Import base numbers list gmap strings relations.
From Stdlib Require Import ZArith Lia.
From S2P Require Import Prelude External ExternalModel Common Timestamp Ledger InMemory TigerBeetle.
From S2P Require Import Event RingBuffer Pipeline Rings Handlers HandlerProps Protocol.

(** ** connection.rs *)
Module connection.
Section connection.
Context `{DL : DecimalLib, CL : CurrencyLib, UL : UuidLib}.
Context `{RQ : !protocol.Rmp protocol.TransactionRequest, RS : !protocol.Rmp protocol.TransactionResponse}.

(** *** Requests and responses *)

Definition nil_transfer_id : TransferId := id_from_bytes (replicate 16 0).

Definition invalid (field text : string) : BlazerError :=
  ValidationError ("invalid " +:+ field +:+ ": " +:+ text).

(** [v4] is the random UUID the fallback identifier draws, [clock] the wall clock. *)
Definition build_event (v4 : Uuid) (clock : Z) (req : protocol.TransactionRequest)
    : BlazerResult TransactionEvent :=
  let? debit := map_err (fun _ => invalid "debit_account_id" (protocol.debit_account_id req))
                  (u64_from_str (protocol.debit_account_id req)) in
  let? credit := map_err (fun _ => invalid "credit_account_id" (protocol.credit_account_id req))
                   (u64_from_str (protocol.credit_account_id req)) in
  let? ledger := LedgerId_new (protocol.ledger_id req) in
  let? decimal := ok_or (dec_from_str (protocol.amount req)) (invalid "amount" (protocol.amount req)) in
  let? cur := match convert.ledger_id_to_currency ledger with
              | Ok c => Ok c
              | Err _ => currency.parse_currency (protocol.currency req)
              end in
  let? amt := amount.new decimal cur in
  let? units := convert.amount_to_minor_units amt in
  let amount_units := as_unsigned 64 units in
  let transaction_id := match u64_from_str (protocol.request_id req) with
                        | Ok i => i
                        | Err _ => u64_new v4
                        end in
  let flags := event_flags.from_raw (protocol.flags req) in
  let pending :=
    if negb (String.eqb (protocol.pending_transfer_id req) "")
    then match id_from_str (protocol.pending_transfer_id req) with
         | Ok i => i
         | Err _ => nil_transfer_id
         end
    else nil_transfer_id in
  let e := event.new clock transaction_id debit credit amount_units ledger (protocol.code req) in
  Ok (event.MkEvent (event.sequence e) (event.transaction_id e) (event.debit_account_id e)
        (event.credit_account_id e) (event.amount_units e) (event.ingestion_timestamp e)
        (event.ledger_id e) (event.code e) flags pending).

Definition now_nanos (clock : Z) : Z := as_nanos (now clock).

Definition build_response (clock : Z) (request_id : string) (result : TransactionResult)
    : protocol.TransactionResponse :=
  match result with
  | event.Committed i _ =>
      protocol.MkResponse request_id true (Some (id_to_string i)) None (now_nanos clock)
  | event.Rejected reason =>
      protocol.MkResponse request_id false None (Some (display reason)) (now_nanos clock)
  end.

Definition error_response (clock : Z) (request_id : string) (err : BlazerError)
    : protocol.TransactionResponse :=
  let error_message :=
    match err with
    | RingBufferFull ms => "server busy, retry after " +:+ string_of_Z ms +:+ "ms"
    | _ => display err
    end in
  protocol.MkResponse request_id false None (Some error_message) (now_nanos clock).

Definition timeout_response (clock : Z) (request_id : string) : protocol.TransactionResponse :=
  protocol.MkResponse request_id false None (Some "processing timeout"%string) (now_nanos clock).

(** *** The engine as the connection sees it

    [others] is what the rest of the system does between two polls of the results map;
    [polls] the number of further polls before the 100 ms deadline. *)
Class Engine (P : Type) := {
  publish_event : TransactionEvent -> P -> BlazerResult Z * P;
  lookup_result : P -> Z -> option TransactionResult;
  others : P -> P;
  polls : P -> nat;
  wall_clock : P -> Z * P;
  uuid_v4 : P -> Uuid * P;
}.

Context {P : Type} `{EN : !Engine P}.

Fixpoint poll_loop (n : nat) (s : Z) (p : P) : option TransactionResult * P :=
  match lookup_result p s with
  | Some r => (Some r, p)
  | None => match n with
            | O => (None, p)
            | S n => poll_loop n s (others p)
            end
  end.

Definition wait_for_result (s : Z) (p : P) : option TransactionResult * P := poll_loop (polls p) s p.

(** A response built at the current time. *)
Definition timed (f : Z -> protocol.TransactionResponse) (p : P) : protocol.TransactionResponse * P :=
  let '(t, p) := wall_clock p in (f t, p).

(** Steps 2 to 6 of the loop: the response to one payload. *)
Definition answer (payload : list Z) (p : P) : protocol.TransactionResponse * P :=
  match protocol.deserialize_request payload with
  | Err e => timed (fun t => error_response t "" e) p
  | Ok request =>
      let request_id := protocol.request_id request in
      let '(u, p) := uuid_v4 p in
      let '(t, p) := wall_clock p in
      match build_event u t request with
      | Err e => timed (fun t => error_response t request_id e) p
      | Ok ev =>
          match publish_event ev p with
          | (Err e, p) => timed (fun t => error_response t request_id e) p
          | (Ok s, p) =>
              match wait_for_result s p with
              | (None, p) => timed (fun t => timeout_response t request_id) p
              | (Some r, p) => timed (fun t => build_response t request_id r) p
              end
          end
      end
  end.

(** *** The connection

    The bytes still to arrive, the bytes sent, and whether the peer still takes them. *)
Record TcpStream : Type := MkStream {
  inbound : list Z;
  outbound : list Z;
  writable : bool;
}.

(** A response that cannot be serialized or written is dropped. *)
Definition send_response (resp : protocol.TransactionResponse) (st : TcpStream) : TcpStream :=
  match protocol.serialize_response resp with
  | Ok bytes => if writable st
                then MkStream (inbound st) (protocol.write_frame bytes (outbound st)) (writable st)
                else st
  | Err _ => st
  end.

Fixpoint serve_loop (fuel : nat) (st : TcpStream) (p : P) : option (TcpStream * P) :=
  match fuel with
  | O => None
  | S fuel =>
      match protocol.read_frame (inbound st) with
      | Err _ => Some (st, p)
      | Ok (frame, rest) =>
          let st := MkStream rest (outbound st) (writable st) in
          let '(resp, p) := answer (protocol.payload frame) p in
          serve_loop fuel (send_response resp st) p
      end
  end.

(** [active_connections] is an [AtomicU64]. *)
Definition handle_connection (fuel : nat) (st : TcpStream) (p : P) (active_connections : Z)
    : option (TcpStream * P * Z) :=
  match serve_loop fuel st p with
  | None => None
  | Some (st, p) => Some (st, p, as_unsigned 64 (active_connections - 1))
  end.
End connection.
End connection.

(** ** tcp.rs: the accept loop *)
Module tcp.
Definition DEFAULT_MAX_CONNECTIONS : Z := 10000.

(** Where [serve] is: at the shutdown check, blocked in [accept], with a socket and the
    connection count it loaded, past the cap with the counter not yet raised, or returned. *)
Inductive ServePc := Check_shutdown | Accepting | Loaded (current : Z) | Under_cap | Exited.

(** [tasks] are the connection tasks that run; [refused] counts the capacity errors sent. *)
Record Server : Type := MkServer {
  pc : ServePc;
  shutdown_flag : bool;
  active_connections : Z;
  max_connections : Z;
  tasks : nat;
  refused : Z;
}.

Definition new (max : Z) : Server := MkServer Check_shutdown false 0 max 0 0.

Definition at_pc (k : ServePc) (s : Server) : Server :=
  MkServer k (shutdown_flag s) (active_connections s) (max_connections s) (tasks s) (refused s).

(** [fetch_add(1)] and the spawn. *)
Definition spawn (s : Server) : Server :=
  MkServer Check_shutdown (shutdown_flag s) (as_unsigned 64 (active_connections s + 1))
    (max_connections s) (1 + tasks s) (refused s).

Definition refuse (s : Server) : Server :=
  MkServer Check_shutdown (shutdown_flag s) (active_connections s) (max_connections s) (tasks s)
    (refused s + 1).

(** A connection task returns: [handle_connection] has lowered the counter. *)
Definition finish (s : Server) : Server :=
  MkServer (pc s) (shutdown_flag s) (as_unsigned 64 (active_connections s - 1)) (max_connections s)
    (pred (tasks s)) (refused s).

Definition set_shutdown (s : Server) : Server :=
  MkServer (pc s) true (active_connections s) (max_connections s) (tasks s) (refused s).

Inductive step : Server -> Server -> Prop :=
  | step_check s : pc s = Check_shutdown ->
      step s (at_pc (if shutdown_flag s then Exited else Accepting) s)
  | step_accept_error s : pc s = Accepting -> step s (at_pc Check_shutdown s)
  | step_accept s : pc s = Accepting -> step s (at_pc (Loaded (active_connections s)) s)
  | step_signal s : pc s = Accepting -> shutdown_flag s = true -> step s (at_pc Exited s)
  | step_refuse s current : pc s = Loaded current -> max_connections s <= current -> step s (refuse s)
  | step_admit s current : pc s = Loaded current -> current < max_connections s -> step s (at_pc Under_cap s)
  | step_spawn s : pc s = Under_cap -> step s (spawn s)
  | step_finish s : (0 < tasks s)%nat -> step s (finish s)
  | step_shutdown s : step s (set_shutdown s).

Definition reachable (max : Z) (s : Server) : Prop := rtc step (new max) s.

(** The drain loop of [shutdown]: [counts] are the values it loads every 10 ms, at most
    [budget] of them before the deadline; the result says whether it saw zero. *)
Fixpoint drain (budget : nat) (counts : list Z) : bool :=
  match counts with
  | [] => false
  | c :: counts => if 0 <? c then match budget with O => false | S b => drain b counts end else true
  end.
End tcp.

(** ** Theorems on the connection *)
Section connection_theorems.
Context `{DL : DecimalLib, CL : CurrencyLib, UL : UuidLib}.
Context `{RQ : !protocol.Rmp protocol.TransactionRequest, RS : !protocol.Rmp protocol.TransactionResponse}.
Context {P : Type} `{EN : !connection.Engine P}.
Import connection.
Implicit Types (p : P) (st : TcpStream).

(** The bytes of one response on the wire. *)
Definition framed (r : protocol.TransactionResponse) : list Z :=
  match protocol.serialize_response r with Ok bytes => protocol.encode bytes | Err _ => [] end.

(** The responses to a sequence of payloads, answered one after the other. *)
Fixpoint answers (payloads : list (list Z)) (p : P) : list protocol.TransactionResponse * P :=
  match payloads with
  | [] => ([], p)
  | x :: payloads => let '(r, p) := answer x p in
                     let '(rs, p) := answers payloads p in
                     (r :: rs, p)
  end.

(** The identifier the response must carry: the request's, or nothing if there is none. *)
Definition echoed_id (payload : list Z) : string :=
  match protocol.deserialize_request payload with
  | Ok request => protocol.request_id request
  | Err _ => ""
  end.

Lemma timed_fst f p : exists t, (timed f p).1 = f t.
Proof. unfold timed. destruct (wall_clock p) as [t q]. by exists t. Qed.

Lemma answer_cases payload p :
  let r := (answer payload p).1 in
  protocol.r_request_id r = echoed_id payload /\
  (protocol.committed r = true ->
   exists request u t ev p1 p2 s i ts,
     protocol.deserialize_request payload = Ok request /\ build_event u t request = Ok ev /\
     publish_event ev p1 = (Ok s, p2) /\ (wait_for_result s p2).1 = Some (event.Committed i ts) /\
     protocol.transfer_id r = Some (id_to_string i)).
Proof.
  unfold answer, echoed_id. destruct (protocol.deserialize_request payload) as [request|e] eqn:Ed; cbn zeta.
  2:{ destruct (timed_fst (fun t => error_response t "" e) p) as [t ->]. by split. }
  destruct (uuid_v4 p) as [u q] eqn:Eu, (wall_clock q) as [t q'] eqn:Et.
  destruct (build_event u t request) as [ev|e] eqn:Eb.
  2:{ destruct (timed_fst (fun t => error_response t (protocol.request_id request) e) q') as [t' ->]. by split. }
  destruct (publish_event ev q') as [[s|e] p2] eqn:Ep.
  2:{ destruct (timed_fst (fun t => error_response t (protocol.request_id request) e) p2) as [t' ->]. by split. }
  destruct (wait_for_result s p2) as [[[i ts|reason]|] p3] eqn:Ew.
  - destruct (timed_fst (fun t => build_response t (protocol.request_id request) (event.Committed i ts)) p3)
      as [t' ->]. split; [done|]. intros _. exists request, u, t, ev, q', p2, s, i, ts. by rewrite Ew.
  - destruct (timed_fst (fun t => build_response t (protocol.request_id request) (event.Rejected reason)) p3)
      as [t' ->]. by split.
  - destruct (timed_fst (fun t => timeout_response t (protocol.request_id request)) p3) as [t' ->]. by split.
Qed.

Lemma answers_echo payloads p :
  protocol.r_request_id <$> (answers payloads p).1 = echoed_id <$> payloads.
Proof.
  revert p; induction payloads as [|x l IH]; intros p; [done|]. cbn [answers].
  pose proof (answer_cases x p) as [He _]. destruct (answer x p) as [r q]. specialize (IH q).
  destruct (answers l q) as [rs q']. cbn [fst] in *. rewrite !fmap_cons. by rewrite He, IH.
Qed.

Lemma send_writable r inb out :
  send_response r (MkStream inb out true) = MkStream inb (out ++ framed r) true.
Proof.
  unfold send_response, framed. destruct (protocol.serialize_response r); [done|]. by rewrite app_nil_r.
Qed.

Lemma serve_loop_answers payloads rest out p n :
  Forall (fun x => Z.of_nat (length x) <= protocol.MAX_FRAME_SIZE) payloads ->
  is_err (protocol.read_frame rest) = true ->
  serve_loop (length payloads + S n) (MkStream (mjoin (protocol.encode <$> payloads) ++ rest) out true) p =
    Some (MkStream rest (out ++ mjoin (framed <$> (answers payloads p).1)) true, (answers payloads p).2).
Proof.
  intros Hp Hr. revert out p. induction Hp as [|x l Hx Hl IH]; intros out p.
  - cbn. destruct (protocol.read_frame rest); [done|]. by rewrite app_nil_r.
  - change (mjoin (protocol.encode <$> x :: l)) with (protocol.encode x ++ mjoin (protocol.encode <$> l)).
    cbn [length Nat.add serve_loop inbound outbound writable answers].
    unfold protocol.MAX_FRAME_SIZE in Hx.
    rewrite <- app_assoc, read_encode by lia.
    rewrite (proj2 (Z.ltb_ge _ _)) by (unfold protocol.MAX_FRAME_SIZE; lia). cbn [protocol.payload].
    destruct (answer x p) as [r q]. rewrite send_writable, IH.
    destruct (answers l q) as [rs q']. cbn [fst snd].
    change (mjoin (framed <$> r :: rs)) with (framed r ++ mjoin (framed <$> rs)). by rewrite app_assoc.
Qed.

(** Every frame read consumes its four header bytes, so the loop ends on any input. *)
Lemma read_frame_consumes bs f rest :
  protocol.read_frame bs = Ok (f, rest) -> (length rest < length bs)%nat.
Proof.
  unfold protocol.read_frame, protocol.read_exact at 1.
  destruct (Nat.leb_spec 4 (length bs)) as [H4|]; [|done]. cbn [map_err rbind fst snd].
  destruct (protocol.MAX_FRAME_SIZE <? _); [done|]. unfold protocol.read_exact.
  destruct (Nat.leb_spec (Z.to_nat (from_be_bytes (take 4 bs))) (length (drop 4 bs))); [|done].
  cbn. intros [= <- <-]. rewrite !length_drop. lia.
Qed.

Lemma send_inbound r st : inbound (send_response r st) = inbound st.
Proof. unfold send_response. by repeat case_match. Qed.

Lemma serve_loop_ends n st p : (length (inbound st) < n)%nat -> is_Some (serve_loop n st p).
Proof.
  revert st p; induction n as [|n IH]; intros st p Hn; [lia|]. cbn.
  destruct (protocol.read_frame (inbound st)) as [[f rest]|] eqn:Ef; [|done].
  destruct (answer (protocol.payload f) p) as [r q]. apply IH. rewrite send_inbound. cbn.
  apply read_frame_consumes in Ef. lia.
Qed.

(** a connection answers every request exactly once, in the order of the requests and
    under the request's own identifier, until the first byte sequence that is not a
    frame; malformed requests are answered too and do not end it.  On return it has
    released its slot in the connection count. *)
Theorem connection_answers_in_order (payloads : list (list Z)) (rest : list Z) (p : P) (n : nat) (active : Z) :
  Forall (fun x => Z.of_nat (length x) <= protocol.MAX_FRAME_SIZE) payloads ->
  is_err (protocol.read_frame rest) = true -> 0 < active < 2 ^ 64 ->
  let '(resps, p') := answers payloads p in
  handle_connection (length payloads + S n) (MkStream (mjoin (protocol.encode <$> payloads) ++ rest) [] true) p active =
    Some (MkStream rest (mjoin (framed <$> resps)) true, p', active - 1) /\
  protocol.r_request_id <$> resps = echoed_id <$> payloads.
Proof.
  intros Hp Hr Ha. pose proof (answers_echo payloads p) as He.
  pose proof (serve_loop_answers payloads rest [] p n Hp Hr) as Hs.
  destruct (answers payloads p) as [resps p']. cbn [fst snd] in *. split; [|done].
  unfold handle_connection. rewrite Hs. cbn [app]. by rewrite as_unsigned_id by lia.
Qed.

(** the connection loop terminates on every finite input, whatever the engine does:
    one iteration per inbound byte is more than enough. *)
Theorem connection_terminates (st : TcpStream) (p : P) (active : Z) :
  is_Some (handle_connection (S (length (inbound st))) st p active).
Proof.
  unfold handle_connection. destruct (serve_loop_ends (S (length (inbound st))) st p) as [[st' p'] ->]; [lia|done].
Qed.

(** a response says [committed] only when the engine committed the event built from that
    very request, and it names the engine's transfer. *)
Theorem committed_response_sound (payload : list Z) (p : P) :
  protocol.committed (answer payload p).1 = true ->
  exists request u t ev p1 p2 s i ts,
    protocol.deserialize_request payload = Ok request /\ build_event u t request = Ok ev /\
    publish_event ev p1 = (Ok s, p2) /\ (wait_for_result s p2).1 = Some (event.Committed i ts) /\
    protocol.transfer_id (answer payload p).1 = Some (id_to_string i).
Proof. apply (answer_cases payload p). Qed.
End connection_theorems.

(** ** From the request to TigerBeetle *)
Section request_to_ledger.
Context `{DL : DecimalLib, DLa : !DecimalLaws, CL : CurrencyLib, CLa : !CurrencyLaws, UL : UuidLib, ULa : !UuidLaws}.
Import connection ledger_handler.

(** Below [2^64] minor units the conversion is exact whenever it succeeds. *)
Lemma amount_to_minor_units_sound (a : Amount) (m : Z) :
  amount.wf a -> raw (amount.value a) * convert.currency_scale (amount.currency a) < 2 ^ 64 * one ->
  convert.amount_to_minor_units a = Ok m ->
  raw (amount.value a) * convert.currency_scale (amount.currency a) = m * one /\ 0 <= m < 2 ^ 64.
Proof.
  unfold amount.wf, amount.MAX_SCALE. intros [H0 Hs] Hb Hm.
  set (k := convert.currency_scale (amount.currency a)) in *.
  pose proof (currency_scale_iso (amount.currency a)) as Hk. fold k in Hk.
  destruct (dec_from_u64_spec k) as [Ekm Eks]; [lia|].
  pose proof (scale_bound (amount.value a)) as Hsb.
  assert (10 ^ 20 <= 10 ^ (28 - scale (amount.value a))) as Hp by (apply Z.pow_le_mono_r; lia).
  assert (0 <= mantissa (amount.value a)) as Hmp by (unfold raw in H0; nia).
  destruct (dec_mul_exact (amount.value a) (dec_from_u64 k)) as (r & Er & Hr).
  - lia.
  - rewrite Ekm. unfold raw, one in Hb. rewrite Z.abs_eq by nia.
    assert (mantissa (amount.value a) * k * 10 ^ 20 < 2 ^ 64 * 10 ^ 28); [nia|lia].
  - rewrite (raw_integer _ _ Ekm Eks) in Hr.
    assert (raw r = raw (amount.value a) * k) as Hrr by (unfold one in *; nia).
    unfold convert.amount_to_minor_units in Hm. fold k in Hm. rewrite Er in Hm. cbn [ok_or rbind] in Hm.
    rewrite dec_is_zero_spec, dec_fract_spec in Hm.
    assert (0 <= raw r) as Hr0 by (rewrite Hrr; nia).
    destruct (Z.eqb_spec (Z.rem (raw r) one) 0) as [Er0|]; [|done]. cbn [negb] in Hm.
    rewrite dec_to_u128_spec in Hm by done. injection Hm as <-.
    pose proof (Z.quot_rem' (raw r) one) as Hq. rewrite Z.quot_div_nonneg in Hq by (unfold one in *; lia).
    split; [lia|]. split; [apply Z.div_pos; unfold one; lia|].
    apply Z.div_lt_upper_bound; unfold one in *; lia.
Qed.

Lemma build_event_ok v4 clock req ev :
  build_event v4 clock req = Ok ev ->
  exists d c cur a n, dec_from_str (protocol.amount req) = Some a /\
    u64_from_str (protocol.debit_account_id req) = Ok d /\
    u64_from_str (protocol.credit_account_id req) = Ok c /\
    amount.new a cur = Ok (amount.MkAmount a cur) /\
    convert.amount_to_minor_units (amount.MkAmount a cur) = Ok n /\
    event.debit_account_id ev = d /\ event.credit_account_id ev = c /\
    event.amount_units ev = as_unsigned 64 n /\ event.ledger_id ev = MkLedgerId (protocol.ledger_id req) /\
    event.code ev = protocol.code req /\ event.flags ev = event_flags.from_raw (protocol.flags req) /\
    (forall cur', convert.ledger_id_to_currency (event.ledger_id ev) = Ok cur' -> cur' = cur).
Proof.
  unfold build_event. intros (d & Hd & H)%rbind_ok. apply rbind_ok in H as (c & Hc & H).
  apply rbind_ok in H as (l & Hl & H). apply rbind_ok in H as (a & Ha & H).
  apply rbind_ok in H as (cur & Hcur & H). apply rbind_ok in H as (amt & Hamt & H).
  apply rbind_ok in H as (n & Hn & [= <-]).
  destruct (u64_from_str (protocol.debit_account_id req)) as [d'|] eqn:Ed; [|done].
  destruct (u64_from_str (protocol.credit_account_id req)) as [c'|] eqn:Ec; [|done].
  destruct (dec_from_str (protocol.amount req)) as [a'|] eqn:Ea; [|done].
  unfold LedgerId_new in Hl. destruct (protocol.ledger_id req =? 0) eqn:E0; [done|]. simplify_eq/=.
  pose proof Hamt as [-> _]%amount.new_ok_iff.
  exists d, c, cur, a, n. split_and!; try done. intros cur' Hcur'. cbn in Hcur'. rewrite Hcur' in Hcur.
  by injection Hcur.
Qed.

(** C4: what the client asked for is what TigerBeetle is told: for a request the server
    accepts, with an amount below [2^64] minor units of the ledger's currency, the transfer the
    ledger stage builds encodes to exactly the decimal amount of the request times the
    currency's scale, between exactly the two accounts the request names, with its code. *)
Theorem request_reaches_tigerbeetle (v4 : Uuid) (clock : Z) (req : protocol.TransactionRequest)
    (ev : TransactionEvent) (a : Decimal) (cur : Currency) (env : Env) (amt : Amount) (t : Transfer) :
  build_event v4 clock req = Ok ev -> dec_from_str (protocol.amount req) = Some a ->
  convert.ledger_id_to_currency (MkLedgerId (protocol.ledger_id req)) = Ok cur ->
  raw a * convert.currency_scale cur < 2 ^ 64 * one ->
  reconstruct_amount ev = Ok amt -> build_transfer env ev amt = Ok t ->
  exists tb, tigerbeetle.domain_transfer_to_tb t = Ok tb /\
    tbt_amount tb * one = raw a * convert.currency_scale cur /\
    u64_from_str (k := AccountK) (protocol.debit_account_id req) = Ok (U64Id (tbt_debit_account_id tb)) /\
    u64_from_str (k := AccountK) (protocol.credit_account_id req) = Ok (U64Id (tbt_credit_account_id tb)) /\
    tbt_code tb = protocol.code req.
Proof.
  intros Hb Ha Hcur Hlim Hrec Hbt.
  apply build_event_ok in Hb as (d & c & cur' & a' & n & Ea & Ed & Ec & Hnew & Hn & Hd & Hc & Hu & Hl & Hcd & _ & Hcu).
  rewrite Hl in Hcu. pose proof (Hcu cur Hcur) as Ecur. assert (a' = a) as -> by congruence. subst cur'.
  apply amount.new_ok in Hnew as (_ & _ & Hg).
  destruct (amount_to_minor_units_sound (amount.MkAmount a cur) n) as [Eq Hr]; [apply Hg|done|done|].
  rewrite as_unsigned_id in Hu by done.
  destruct (stage_encodes env ev amt t) as (tb & Htb & Eamt & Edb & Ecr & Ecode & _); [by rewrite Hu|done|done|].
  exists tb. rewrite Eamt, Edb, Ecr, Ecode, Hu, Ed, Ec, Hcd. split_and!; try done.
  - subst d. by destruct (event.debit_account_id ev).
  - subst c. by destruct (event.credit_account_id ev).
Qed.
End request_to_ledger.

(** ** The accept loop *)
Section accept_loop.
Import tcp.

(** What the loop and the tasks maintain: the counter counts the tasks, and between the
    load and the spawn it can only have fallen. *)
Definition server_inv (max : Z) (s : Server) : Prop :=
  max_connections s = max /\ active_connections s = Z.of_nat (tasks s) /\ Z.of_nat (tasks s) <= max /\
  match pc s with
  | Loaded current => Z.of_nat (tasks s) <= current
  | Under_cap => Z.of_nat (tasks s) < max
  | _ => True
  end.

Lemma server_step_inv max s s' : 0 <= max < 2 ^ 64 -> server_inv max s -> step s s' -> server_inv max s'.
Proof.
  unfold server_inv. intros Hmax (Em & Ea & Hle & Hpc) Hs.
  destruct Hs as [s E|s E|s E|s E _|s cur E Hc|s cur E Hc|s E|s Ht|s]; cbn; rewrite ?E in Hpc; split_and!; try done.
  - by destruct (shutdown_flag s).
  - by rewrite Ea.
  - lia.
  - rewrite Ea, as_unsigned_id by lia. lia.
  - lia.
  - rewrite Ea, as_unsigned_id by lia. lia.
  - lia.
  - destruct (pc s); try done; lia.
Qed.

Lemma server_reachable_inv max s : 0 <= max < 2 ^ 64 -> reachable max s -> server_inv max s.
Proof.
  intros Hmax Hr. assert (server_inv max (new max)) as H0 by (unfold server_inv; cbn; lia).
  unfold reachable in Hr. revert H0. induction Hr as [|x y z Hxy _ IH]; [done|].
  intros Hx. apply IH. by eapply server_step_inv.
Qed.

(** the connection cap holds in every interleaving of the accept loop with the connection
    tasks and the shutdown: the counter always equals the number of running tasks and
    never exceeds [max_connections], and a connection is only refused at the cap. *)
Theorem connection_cap (max : Z) (s : Server) :
  0 <= max < 2 ^ 64 -> reachable max s ->
  active_connections s = Z.of_nat (tasks s) /\ Z.of_nat (tasks s) <= max /\
  (forall s', step s s' -> refused s' = refused s + 1 -> exists current, pc s = Loaded current /\ max <= current).
Proof.
  intros Hmax Hr. destruct (server_reachable_inv max s Hmax Hr) as (Em & Ea & Hle & _). split_and!; [done|done|].
  intros s' Hs. destruct Hs as [s E|s E|s E|s E _|s cur E Hc|s cur E Hc|s E|s Ht|s]; cbn; try lia.
  intros _. exists cur. by rewrite <- Em.
Qed.
End accept_loop.

(** ** Concurrent publishers

    Every connection task publishes to the one [Pipeline] it shares.  The four atomic
    accesses of [publish_event] of several tasks on one ring buffer, in any interleaving. *)
Module publishers.
Import ring_buffer pipeline.

Section publishers.
Context {E : Type}.

Inductive Access := Begin (task : nat) (e : E) | Advance (task : nat).

Definition access (a : Access) (s : list (Producer E) * RingBuffer E)
    : option (list (Producer E) * RingBuffer E) :=
  match a with
  | Begin k e =>
      match s.1 !! k with
      | Some PIdle => if has_available_capacity s.2 then Some (<[k := PChecked e]> s.1, s.2) else None
      | _ => None
      end
  | Advance k =>
      match s.1 !! k with
      | Some (PChecked e) => let '(q, r) := next_sequence s.2 in Some (<[k := PClaimed q e]> s.1, r)
      | Some (PClaimed q e) => Some (<[k := PWritten q e]> s.1, set_slot q e s.2)
      | Some (PWritten q e) => Some (<[k := PIdle]> s.1, publish q s.2)
      | _ => None
      end
  end.

Fixpoint accesses (l : list Access) (s : list (Producer E) * RingBuffer E)
    : option (list (Producer E) * RingBuffer E) :=
  match l with
  | [] => Some s
  | a :: l => match access a s with None => None | Some s => accesses l s end
  end.
End publishers.
End publishers.

Module connection_examples.
Import common_examples ledger_examples inmemory_examples handler_examples connection ledger_handler chain.

(** A serialization of requests and responses as lists of bits. *)
Fixpoint bits (p : positive) : list Z :=
  match p with xH => [] | xO p => 0 :: bits p | xI p => 1 :: bits p end.
Fixpoint unbits (l : list Z) : positive :=
  match l with [] => xH | b :: l => if b =? 0 then xO (unbits l) else xI (unbits l) end.
Lemma unbits_bits p : unbits (bits p) = p.
Proof. induction p; cbn; congruence. Qed.

#[global] Instance request_eq_dec : EqDecision protocol.TransactionRequest.
Proof. solve_decision. Defined.
#[global] Instance response_eq_dec : EqDecision protocol.TransactionResponse.
Proof. solve_decision. Defined.
#[global] Instance request_countable : Countable protocol.TransactionRequest.
Proof.
  refine (inj_countable'
    (fun r => (protocol.request_id r, protocol.debit_account_id r, protocol.credit_account_id r,
               protocol.amount r, protocol.currency r, protocol.ledger_id r, protocol.code r,
               protocol.flags r, protocol.pending_transfer_id r))
    (fun '(i, d, c, a, cu, l, cd, f, p) => protocol.MkRequest i d c a cu l cd f p) _).
  by intros [].
Defined.
#[global] Instance response_countable : Countable protocol.TransactionResponse.
Proof.
  refine (inj_countable'
    (fun r => (protocol.r_request_id r, protocol.committed r, protocol.transfer_id r,
               protocol.error r, protocol.timestamp_ns r))
    (fun '(i, c, t, e, n) => protocol.MkResponse i c t e n) _).
  by intros [].
Defined.

Definition rmp (A : Type) `{Countable A} : protocol.Rmp A := {|
  protocol.to_vec a := Ok (bits (encode a));
  protocol.from_slice l := ok_or (decode (unbits l)) "malformed"%string;
|}.
#[global] Existing Instance rmp.
#[global] Instance rmp_laws `{Countable A} : protocol.RmpLaws A.
Proof. constructor. intros a bs [= <-]. cbn. by rewrite unbits_bits, decode_encode. Qed.

(** One worker with the handler chain over the in-memory ledger; [others] lets it handle
    the next event and its batch. *)
Record Sim : Type := MkSim {
  s_chain : Chain;
  s_world : World mock.InMemoryLedgerClient;
  s_queue : list (Z * TransactionEvent);
  s_next : Z;
  s_draws : Z;
  s_polls : nat;
}.

Definition work (p : Sim) : Sim :=
  match s_queue p with
  | [] => p
  | (q, e) :: queue =>
      let e := chain.on_event fmt (env (s_draws p) 0) e q true (s_chain p) (s_world p) in
      match e with
      | None => p
      | Some (c, w) =>
          MkSim c (match complete_task 0 0 w with Some w => w | None => w end)
            queue (s_next p) (s_draws p + 1) (s_polls p)
      end
  end.

#[global] Instance sim : Engine Sim := {|
  publish_event e p :=
    (Ok (s_next p), MkSim (s_chain p) (s_world p) (s_queue p ++ [(s_next p, e)]) (s_next p + 1) (s_draws p) (s_polls p));
  lookup_result p q := results (s_world p) !! q;
  others := work;
  polls := s_polls;
  wall_clock p := (1000, p);
  uuid_v4 p := (uid.of_Z (s_draws p),
                MkSim (s_chain p) (s_world p) (s_queue p) (s_next p) (s_draws p + 1) (s_polls p));
|}.

Definition sim0 (polls : nat) : Sim := MkSim start.1 start.2 [] 0 50 polls.

Definition request (rid amt cur : string) (ledger : Z) : protocol.TransactionRequest :=
  protocol.MkRequest rid "1" "2" amt cur ledger 1 0 "".
Definition payload_of (r : protocol.TransactionRequest) : list Z := bits (encode r).

(** The committed flags and error texts of the responses, and what account 1 has been debited. *)
Definition outcome (payloads : list (list Z)) (p : Sim) :=
  let '(rs, p) := answers payloads p in
  ((fun r => (protocol.committed r, protocol.error r)) <$> rs, p).
Definition debited (p : Sim) : option (Z * Z) := postings (client (s_world p)) 1.

Example one_payment :
  (outcome [payload_of (request "7" "5" "USD" 1); [1; 1; 1]; payload_of (request "8" "x" "USD" 1)] (sim0 1)).1 =
    [(true, None);
     (false, Some "Transport error: request deserialization failed: malformed"%string);
     (false, Some "Validation failed: invalid amount: x"%string)].
Proof. vm_refl. Qed.

Definition three : list (list Z) :=
  [payload_of (request "7" "5" "USD" 1); [1; 1; 1]; payload_of (request "8" "x" "USD" 1)].

Lemma connection_answers_in_order_witness :
  exists st p, handle_connection 4 (MkStream (mjoin (protocol.encode <$> three) ++ [9]) [] true) (sim0 1) 1 =
    Some (st, p, 0) /\ inbound st = [9] /\
    protocol.r_request_id <$> (answers three (sim0 1)).1 = ["7"; ""; "8"]%string.
Proof.
  pose proof (connection_answers_in_order three [9] (sim0 1) 0 1) as H.
  destruct (answers three (sim0 1)) as [rs p]. destruct H as [H He].
  - apply Forall_forall. intros x Hx.
    assert (forallb (fun x => Z.of_nat (length x) <=? protocol.MAX_FRAME_SIZE) three = true) as Hf by vm_refl.
    rewrite forallb_forall in Hf. apply Z.leb_le, Hf. by apply list_elem_of_In.
  - vm_refl.
  - lia.
  - eexists _, p. split; [exact H|]. split; [done|]. cbn [fst]. rewrite He. vm_refl.
Defined.

Lemma committed_response_sound_witness :
  exists i : TransferId, protocol.transfer_id (answer (payload_of (request "7" "5" "USD" 1)) (sim0 1)).1 = Some (id_to_string i).
Proof.
  destruct (committed_response_sound (payload_of (request "7" "5" "USD" 1)) (sim0 1))
    as (request & u & t & ev & p1 & p2 & s & i & ts & _ & _ & _ & _ & H); [vm_refl|]. by exists i.
Defined.

(** The same request twice, with no answer in time: the responses, what account 1 has been
    debited by then, and after the worker has caught up. *)
Definition retry_run : list (bool * option string) * Sim :=
  outcome (replicate 2 (payload_of (request "7" "5" "USD" 1))) (sim0 0).
Definition retry : list (bool * option string) * option (Z * Z) * option (Z * Z) :=
  (retry_run.1, debited retry_run.2, debited (work (work retry_run.2))).

(** [request_id] is not an idempotency key.  A client that gets no answer in time and
    sends the very same request again is debited twice: both attempts time out with
    [committed = false], and both events are then committed by the worker. *)
Theorem retried_request_pays_twice :
  retry = ([(false, Some "processing timeout"%string); (false, Some "processing timeout"%string)],
           Some (0, 0), Some (10 * one, 0)).
Proof. vm_refl. Qed.

(** The amount units of the event a request becomes. *)
Definition units_of (r : protocol.TransactionRequest) : option Z :=
  event.amount_units <$> ok_opt (build_event (uid.of_Z 0) 0 r).

(** An amount of [2^64 + 1] yen is accepted and becomes a transfer of one yen: the 128-bit
    amount is cut to 64 bits. *)
Lemma amount_units_wrap :
  units_of (request "7" (string_of_Z (2 ^ 64 + 1)) "JPY" 4) = Some 1.
Proof. vm_refl. Qed.

(** The currency field is only read when the ledger is unknown: five yen on the dollar
    ledger are five dollars. *)
Lemma currency_field_ignored :
  units_of (request "7" "5" "JPY" 1) = Some 500 /\ units_of (request "7" "5" "USD" 1) = Some 500.
Proof. split; vm_refl. Qed.

(** Two connection tasks publish [10] and [20]; [0] is the default event. *)
Definition two_tasks : option (list (pipeline.Producer Z) * ring_buffer.RingBuffer Z) :=
  match ring_buffer.new (fun _ => 0) 4 with
  | Err _ => None
  | Ok r => Some ([pipeline.PIdle; pipeline.PIdle], (ring_buffer.add_gating_sequence r).2)
  end.
Definition ring_view (s : list (pipeline.Producer Z) * ring_buffer.RingBuffer Z) : Z * option Z * option Z :=
  (ring_buffer.cursor s.2, ring_buffer.get s.2 0, ring_buffer.get s.2 1).
Definition interleaved (l : list (publishers.Access (E := Z))) : option (Z * option Z * option Z) :=
  s ← two_tasks; ring_view <$> publishers.accesses l s.

(** the ring buffer has one producer by contract, but every connection publishes to it.
    When a second connection publishes between the claim and the write of a first one, the
    cursor passes a slot that still holds the default event, and when the first one
    publishes, the cursor moves back below an event already handed to the workers. *)
Theorem concurrent_publishers_corrupt :
  let overtaken := [publishers.Begin 0 10; publishers.Advance 0;
                    publishers.Begin 1 20; publishers.Advance 1; publishers.Advance 1; publishers.Advance 1] in
  interleaved overtaken = Some (1, Some 0, Some 20) /\
  interleaved (overtaken ++ [publishers.Advance 0; publishers.Advance 0]) = Some (0, Some 10, Some 20).
Proof. split; vm_refl. Qed.

Definition v4_0 : Uuid (UuidLib := uid.lib) := uid.of_Z 0.

Lemma request_reaches_tigerbeetle_witness :
  exists ev amt t tb, build_event (UL := uid.lib) v4_0 0 (request "7" "5" "USD" 1) = Ok ev /\
    reconstruct_amount ev = Ok amt /\ build_transfer (env 50 0) ev amt = Ok t /\
    tigerbeetle.domain_transfer_to_tb t = Ok tb /\ tbt_amount tb * one = 5 * one * 100.
Proof.
  set (r := request "7" "5" "USD" 1).
  assert (is_ok (let? ev := build_event v4_0 0 r in let? amt := reconstruct_amount ev in
                 build_transfer (env 50 0) ev amt) = true) as H by vm_refl.
  destruct (build_event v4_0 0 r) as [ev|] eqn:E1; [|discriminate H]. cbn [rbind] in H.
  destruct (reconstruct_amount ev) as [amt|] eqn:E2; [|discriminate H]. cbn [rbind] in H.
  destruct (build_transfer (env 50 0) ev amt) as [t|] eqn:E3; [|discriminate H].
  destruct (request_reaches_tigerbeetle (DL := dec.lib) (CL := cur.lib) (UL := uid.lib) v4_0 0 r ev (dec.mk_or_zero 5 0) cur.USD (env 50 0) amt t)
    as (tb & Htb & Hamt & _); [exact E1|vm_refl|vm_refl|apply Z.ltb_lt; vm_refl|exact E2|exact E3|].
  exists ev, amt, t, tb. split_and!; [done..|]. rewrite Hamt. vm_refl.
Defined.
End connection_examples.

Module tcp_examples.
Import tcp.

(** A server with room for one connection: the second one is refused. *)
Lemma connection_cap_witness :
  exists s, reachable 1 s /\ refused s = 1 /\ active_connections s = Z.of_nat (tasks s) /\ Z.of_nat (tasks s) <= 1.
Proof.
  assert (reachable 1 (MkServer Check_shutdown false 1 1 1 1)) as Hr.
  { unfold reachable.
    eapply rtc_l; [by apply step_check|]. eapply rtc_l; [by apply step_accept|].
    eapply rtc_l; [by eapply step_admit|]. eapply rtc_l; [by apply step_spawn|].
    eapply rtc_l; [by apply step_check|]. eapply rtc_l; [by apply step_accept|].
    eapply rtc_l; [by eapply step_refuse|]. apply rtc_refl. }
  exists (MkServer Check_shutdown false 1 1 1 1).
  destruct (connection_cap 1 _ ltac:(lia) Hr) as (Ha & Hle & _). by split_and!.
Defined.
End tcp_examples.
