(* ===== verification/Aeron.v ===== *)
(** The Aeron transport of core/transport/src/aeron: the offer loop of publication.rs (module
    [publication]), the priority publisher and subscriber ([priority_publisher],
    [priority_subscriber]) over subscriptions as an interface, and the poll loop of
    transport.rs ([transport]), which drains results in sequence order and pumps request
    fragments into the pipeline.  The Aeron C client, the pipeline and everything that runs
    between two calls are the classes [Subscription] and [Engine]. *)

From stdpp Require Import base numbers list gmap strings.
From Stdlib Require Import ZArith Lia.
From S2P Require Import Prelude External ExternalModel Common Timestamp Ledger InMemory TigerBeetle.
From S2P Require Import Event RingBuffer Pipeline Rings Handlers HandlerProps Protocol Connection.

(** ** publication.rs *)
Module publication.
Definition NOT_CONNECTED : Z := -1.
Definition BACK_PRESSURED : Z := -2.
Definition ADMIN_ACTION : Z := -3.
Definition CLOSED : Z := -4.

(** [positions] are the values [aeron_publication_offer] returns, one for each attempt, and
    [spins] the attempts before the 50 ms deadline. *)
Fixpoint offer (spins : nat) (errmsg : string) (positions : list Z) {struct positions} : option (BlazerResult Z) :=
  match positions with
  | [] => None
  | p :: positions =>
      if 0 <=? p then Some (Ok p)
      else if (p =? BACK_PRESSURED) || (p =? ADMIN_ACTION) then
        match spins with
        | O => Some (Err (Transport "Aeron publication: back-pressure timeout"))
        | S spins => offer spins errmsg positions
        end
      else if p =? NOT_CONNECTED then Some (Err (Transport "Aeron publication: no subscriber connected"))
      else if p =? CLOSED then Some (Err (Transport "Aeron publication: publication closed"))
      else Some (Err (Transport ("Aeron publication: unrecoverable error (" +:+ string_of_Z p +:+ "): " +:+ errmsg)))
  end.
End publication.

(** [AeronSubscription::poll_fragments]: the fragments appended and the number returned,
    which the C client makes negative on an error. *)
Class Subscription (S : Type) : Type := {
  sub_poll : S -> nat -> list (list Z) * Z * S;
}.

(** ** priority_publisher.rs *)
Module priority_publisher.
Import priority.
Record PriorityPublisher (Pub : Type) : Type := MkPublisher { critical : Pub; high : Pub; normal : Pub }.
Arguments MkPublisher {Pub} _ _ _.
Arguments critical {Pub} _.
Arguments high {Pub} _.
Arguments normal {Pub} _.

(** [create] registers a publication on a stream. *)
Definition new_for_requests {Pub} (create : Z -> BlazerResult Pub) : BlazerResult (PriorityPublisher Pub) :=
  let? critical := create STREAM_CRITICAL_REQ in
  let? high := create STREAM_HIGH_REQ in
  let? normal := create STREAM_NORMAL_REQ in
  Ok (MkPublisher critical high normal).
Definition new_for_responses {Pub} (create : Z -> BlazerResult Pub) : BlazerResult (PriorityPublisher Pub) :=
  let? critical := create STREAM_CRITICAL_RSP in
  let? high := create STREAM_HIGH_RSP in
  let? normal := create STREAM_NORMAL_RSP in
  Ok (MkPublisher critical high normal).

Definition offer {Pub A} (offer_on : Pub -> list Z -> A) (p : EventPriority) (data : list Z) (s : PriorityPublisher Pub) : A :=
  let publication := match p with Critical => critical s | High => high s | Normal => normal s end in
  offer_on publication data.

Definition is_all_connected {Pub} (is_connected : Pub -> bool) (s : PriorityPublisher Pub) : bool :=
  is_connected (critical s) && is_connected (high s) && is_connected (normal s).
End priority_publisher.

(** ** priority_subscriber.rs *)
Module priority_subscriber.
Import priority.
Record PriorityFragment : Type := MkFragment { priority : EventPriority; data : list Z }.

Record PrioritySubscriber (S : Type) : Type := MkSubscriber { critical : S; high : S; normal : S }.
Arguments MkSubscriber {S} _ _ _.
Arguments critical {S} _.
Arguments high {S} _.
Arguments normal {S} _.

Definition new_for_requests {S} (create : Z -> BlazerResult S) : BlazerResult (PrioritySubscriber S) :=
  let? critical := create STREAM_CRITICAL_REQ in
  let? high := create STREAM_HIGH_REQ in
  let? normal := create STREAM_NORMAL_REQ in
  Ok (MkSubscriber critical high normal).
Definition new_for_responses {S} (create : Z -> BlazerResult S) : BlazerResult (PrioritySubscriber S) :=
  let? critical := create STREAM_CRITICAL_RSP in
  let? high := create STREAM_HIGH_RSP in
  let? normal := create STREAM_NORMAL_RSP in
  Ok (MkSubscriber critical high normal).

Section poll.
Context {Sub : Type} `{Subscription Sub}.

(** One of the three blocks: nothing when the limit is reached.  [count as usize] turns a
    negative count into a number above any limit. *)
Definition poll_stream (p : EventPriority) (sub : Sub) (remaining : nat) : list PriorityFragment * Z * nat * Sub :=
  if (0 <? remaining)%nat then
    let '(d, count, sub) := sub_poll sub remaining in
    (MkFragment p <$> d, count, Z.to_nat (saturating_sub (Z.of_nat remaining) (as_unsigned 64 count)), sub)
  else ([], 0, remaining, sub).

(** The fragments appended to [out], the total returned, and the subscriptions. *)
Definition poll_fragments (fragment_limit : nat) (s : PrioritySubscriber Sub)
    : list PriorityFragment * Z * PrioritySubscriber Sub :=
  let '(d1, n1, remaining, c) := poll_stream Critical (critical s) fragment_limit in
  let '(d2, n2, remaining, h) := poll_stream High (high s) remaining in
  let '(d3, n3, _, n) := poll_stream Normal (normal s) remaining in
  (d1 ++ d2 ++ d3, n1 + n2 + n3, MkSubscriber c h n).
End poll.
End priority_subscriber.

(** ** transport.rs *)
Module transport.
Definition REQ_STREAM_ID : Z := 1001.
Definition RSP_STREAM_ID : Z := 1002.
Definition FRAGMENT_LIMIT : nat := 1024.
Definition MAX_DRAIN_PER_CALL : nat := 512.
Definition REQ_SLOTS_CAP : Z := 262144.
Definition REQ_SLOTS_MASK : Z := REQ_SLOTS_CAP - 1.

Section transport.
Context `{DL : DecimalLib, CL : CurrencyLib, UL : UuidLib}.
Context `{RQ : !protocol.Rmp protocol.TransactionRequest, RS : !protocol.Rmp protocol.TransactionResponse}.

Definition build_event (v4 : Uuid) (clock : Z) (req : protocol.TransactionRequest) : BlazerResult TransactionEvent :=
  let? debit := map_err (fun _ => ValidationError ("invalid debit_account_id: " +:+ protocol.debit_account_id req))
                  (u64_from_str (protocol.debit_account_id req)) in
  let? credit := map_err (fun _ => ValidationError ("invalid credit_account_id: " +:+ protocol.credit_account_id req))
                   (u64_from_str (protocol.credit_account_id req)) in
  let? decimal := ok_or (dec_from_str (protocol.amount req)) (ValidationError ("invalid amount: " +:+ protocol.amount req)) in
  let? cur := currency.parse_currency (protocol.currency req) in
  let? amt := amount.new decimal cur in
  let? units := convert.amount_to_minor_units amt in
  let amount_units := as_unsigned 64 units in
  let? ledger := LedgerId_new (protocol.ledger_id req) in
  let transaction_id := match u64_from_str (protocol.request_id req) with Ok i => i | Err _ => u64_new v4 end in
  Ok (event.new clock transaction_id debit credit amount_units ledger (protocol.code req)).

(** The same functions as in connection.rs. *)
Definition build_response := connection.build_response.
Definition error_response := connection.error_response.

(** What the loop uses of the pipeline, the Aeron client, the clock and the generator. *)
Class Engine (P : Type) := {
  has_available_capacity : P -> bool;
  publish_event : TransactionEvent -> P -> BlazerResult Z * P;
  ring_try_remove : Z -> P -> option TransferId * P;
  results_remove : Z -> P -> option TransactionResult * P;
  poll_fragments : nat -> P -> list (list Z) * P;
  offer : list Z -> P -> bool * P;
  others : P -> P;
  shutdown : P -> bool;
  wall_clock : P -> Z * P;
  uuid_v4 : P -> Uuid * P;
}.

(** What becomes of a response: its bytes are taken by the publication, or refused, or it
    cannot be serialized and is dropped. *)
Inductive Offered := Sent (bytes : list Z) | Refused (bytes : list Z) | Unserialized.

Definition sent_of (l : list Offered) : list (list Z) := l ≫= fun o => match o with Sent b => [b] | _ => [] end.

(** The locals of the loop.  [req_id_slots] holds the slots written so far, the others are
    zero.  The last four fields record what happened: the request ids of the published events
    by sequence, what became of the response to each drained event, by sequence as well, the
    error responses sent, and the most events ever in flight. *)
Record Server : Type := MkServer {
  next_to_drain : Z;
  next_to_publish : Z;
  req_id_slots : gmap Z Z;
  pending_len : Z;
  offer_failures : Z;
  published_ids : list Z;
  outcomes : list Offered;
  errors_sent : list (list Z);
  max_in_flight : Z;
}.

Definition new : Server := MkServer 0 0 ∅ 0 0 [] [] [] 0.

Definition slot_of (q : Z) : Z := Z.land (as_unsigned 64 q) REQ_SLOTS_MASK.
Definition slot (q : Z) (s : Server) : Z := default 0 (req_id_slots s !! slot_of q).

Section loop.
Context {P : Type} `{EN : !Engine P}.

(** [serialize_response] and [offer]. *)
Definition offer_response (resp : protocol.TransactionResponse) (p : P) : Offered * P :=
  match protocol.serialize_response resp with
  | Ok bytes => let '(ok, p) := offer bytes p in (if ok then Sent bytes else Refused bytes, p)
  | Err _ => (Unserialized, p)
  end.

(** The result of a sequence: the result ring first, then the map. *)
Definition take_result (q : Z) (p : P) : option TransactionResult * P :=
  match ring_try_remove q p with
  | (Some tid, p) => let '(t, p) := wall_clock p in (Some (event.Committed tid (now t)), p)
  | (None, p) => results_remove q p
  end.

(** One turn of a drain loop; [None]: the next result is not there. *)
Definition drain_one (s : Server) (p : P) : option Server * P :=
  match take_result (next_to_drain s) p with
  | (None, p) => (None, p)
  | (Some result, p) =>
      let req_id_str := u64_to_string (from_u64 (k := TransactionK) (slot (next_to_drain s) s)) in
      let '(t, p) := wall_clock p in
      let resp := build_response t req_id_str result in
      let '(o, p) := offer_response resp p in
      (Some (MkServer (next_to_drain s + 1) (next_to_publish s) (req_id_slots s) (pending_len s)
               (match o with Refused _ => as_unsigned 64 (offer_failures s + 1) | _ => offer_failures s end)
               (published_ids s) (outcomes s ++ [o]) (errors_sent s) (max_in_flight s)), p)
  end.

(** Phase 1, at most [n] results. *)
Fixpoint drain (n : nat) (s : Server) (p : P) : Server * P :=
  match n with
  | O => (s, p)
  | S n => match drain_one s p with
           | (Some s, p) => drain n s p
           | (None, p) => (s, p)
           end
  end.

(** The loop that waits for capacity, draining meanwhile; the fuel counts its turns. *)
Fixpoint wait_capacity (fuel : nat) (s : Server) (p : P) : option (Server * P) :=
  if has_available_capacity p then Some (s, p)
  else match fuel with
       | O => None
       | S fuel => match drain_one s p with
                   | (Some s, p) => wait_capacity fuel s (others p)
                   | (None, p) => wait_capacity fuel s (others p)
                   end
       end.

(** An error response; its offer is not counted. *)
Definition reply_error (request_id : string) (e : BlazerError) (s : Server) (p : P) : Server * P :=
  let '(t, p) := wall_clock p in
  let '(o, p) := offer_response (error_response t request_id e) p in
  (MkServer (next_to_drain s) (next_to_publish s) (req_id_slots s) (pending_len s) (offer_failures s)
     (published_ids s) (outcomes s) (errors_sent s ++ sent_of [o]) (max_in_flight s), p).

(** An event was published under [q]. *)
Definition record_published (q id : Z) (s : Server) : Server :=
  MkServer (next_to_drain s) (q + 1) (<[slot_of q := id]> (req_id_slots s)) (pending_len s) (offer_failures s)
    (published_ids s ++ [id]) (outcomes s) (errors_sent s) (Z.max (max_in_flight s) (q + 1 - next_to_drain s)).

(** The number a request is answered under: its identifier when that parses, otherwise a
    random one. *)
Definition request_number (request : protocol.TransactionRequest) (p : P) : Z * P :=
  match u64_from_str (k := TransactionK) (protocol.request_id request) with
  | Ok i => (as_u64 i, p)
  | Err _ => let '(u, p) := uuid_v4 p in (as_u64 (u64_new (k := TransactionK) u), p)
  end.

(** One fragment of phase 2; [None]: the wait for capacity ran out of fuel. *)
Definition pump (fuel : nat) (payload : list Z) (s : Server) (p : P) : option (Server * P) :=
  match protocol.deserialize_request payload with
  | Err e => Some (reply_error "" (Transport (display e)) s p)
  | Ok request =>
      let '(req_id, p) := request_number request p in
      let req_id_str := u64_to_string (from_u64 (k := TransactionK) req_id) in
      let '(u, p) := uuid_v4 p in
      let '(t, p) := wall_clock p in
      match build_event u t request with
      | Err e => Some (reply_error req_id_str e s p)
      | Ok ev =>
          match wait_capacity fuel s p with
          | None => None
          | Some (s, p) =>
              match publish_event ev p with
              | (Ok q, p) => Some (record_published q req_id s, p)
              | (Err e, p) => Some (reply_error req_id_str e s p)
              end
          end
      end
  end.

Fixpoint pump_all (fuel : nat) (frags : list (list Z)) (s : Server) (p : P) : option (Server * P) :=
  match frags with
  | [] => Some (s, p)
  | payload :: frags =>
      match pump fuel payload s p with
      | None => None
      | Some (s, p) => pump_all fuel frags s p
      end
  end.

Definition set_pending (s : Server) : Server :=
  MkServer (next_to_drain s) (next_to_publish s) (req_id_slots s) (Z.max (next_to_publish s - next_to_drain s) 0)
    (offer_failures s) (published_ids s) (outcomes s) (errors_sent s) (max_in_flight s).

(** At most [rounds] turns of the poll loop. *)
Fixpoint serve (rounds fuel : nat) (s : Server) (p : P) : option (Server * P) :=
  if shutdown p then Some (s, p)
  else match rounds with
       | O => Some (s, p)
       | S rounds =>
           let '(s, p) := drain MAX_DRAIN_PER_CALL s p in
           let s := set_pending s in
           let '(frags, p) := poll_fragments FRAGMENT_LIMIT p in
           match pump_all fuel frags s p with
           | None => None
           | Some (s, p) => serve rounds fuel s (others p)
           end
       end.
End loop.
End transport.
End transport.

(** ** Offers *)
Section offers.
Import publication.

Definition transient (p : Z) : Prop := p = BACK_PRESSURED \/ p = ADMIN_ACTION.

Lemma transient_spec p : (p =? BACK_PRESSURED) || (p =? ADMIN_ACTION) = true <-> transient p.
Proof. unfold transient. rewrite orb_true_iff, !Z.eqb_eq. done. Qed.

Lemma transient_neg p : transient p -> p < 0.
Proof. unfold transient, BACK_PRESSURED, ADMIN_ACTION. lia. Qed.

(** an offer retries only back-pressure and administrative actions, at most as often as
    the deadline allows: it reports a position exactly when the client returned it after only
    such refusals, and after at most [spins + 1] attempts it has answered. *)
Theorem offer_retries_transient (spins : nat) (errmsg : string) (positions : list Z) :
  ((spins < length positions)%nat -> is_Some (offer spins errmsg positions)) /\
  (forall q, offer spins errmsg positions = Some (Ok q) <->
     0 <= q /\ exists refusals rest, positions = refusals ++ q :: rest /\ (length refusals <= spins)%nat /\
       Forall transient refusals).
Proof.
  revert spins. induction positions as [|p l IH]; intros spins; cbn [offer length].
  { split; [lia|]. intros q. split; [done|]. intros (_ & r & ? & E & _). by destruct r. }
  destruct (Z.leb_spec 0 p) as [Hp|Hp].
  { split; [by eexists|]. intros q. split.
    - intros [= <-]. split; [done|]. exists [], l. split_and!; [done|cbn; lia|constructor].
    - intros (_ & [|x r] & rest & E & _ & Ht); [by simplify_eq/=|]. simplify_eq/=.
      apply Forall_cons in Ht as [Hx%transient_neg _]. lia. }
  assert (forall q refusals rest, 0 <= q -> p :: l = refusals ++ q :: rest -> exists r, refusals = p :: r /\ l = r ++ q :: rest) as Hhd.
  { intros q [|x r] rest Hq E; simplify_eq/=; [lia|]. by exists r. }
  destruct ((p =? BACK_PRESSURED) || (p =? ADMIN_ACTION)) eqn:Et.
  - apply transient_spec in Et. destruct spins as [|spins].
    + split; [by eexists|]. intros q. split; [done|]. intros (Hq & r & rest & E & Hl & _).
      apply Hhd in E as (r' & -> & _); [|done]. cbn in Hl. lia.
    + destruct (IH spins) as [IH1 IH2]. split; [intros; apply IH1; lia|]. intros q. rewrite IH2. split.
      * intros (Hq & r & rest & -> & Hl & Hf). split; [done|]. exists (p :: r), rest. split_and!; [done|cbn; lia|by constructor].
      * intros (Hq & r & rest & E & Hl & Hf). apply Hhd in E as (r' & -> & ->); [|done]. split; [done|].
        exists r', rest. apply Forall_cons in Hf as [_ Hf]. cbn in Hl. split_and!; [done|lia|done].
  - assert (~ transient p) as Hnt by (rewrite <- transient_spec; by rewrite Et).
    split; [destruct (p =? NOT_CONNECTED), (p =? CLOSED); by eexists|]. intros q.
    split; [by destruct (p =? NOT_CONNECTED), (p =? CLOSED)|]. intros (Hq & r & rest & E & _ & Hf).
    apply Hhd in E as (r' & -> & _); [|done]. by apply Forall_cons in Hf as [? _].
Qed.
End offers.

(** ** Priorities *)
Section priorities.
Import priority priority_subscriber.

(** Subscriptions that behave as queues. *)
Class QueueLaws (Sub : Type) `{Subscription Sub} (pending : Sub -> list (list Z)) : Prop := {
  poll_takes sub n : let '(d, count, sub') := sub_poll sub n in
    d = take n (pending sub) /\ count = Z.of_nat (length d) /\ pending sub' = drop n (pending sub);
}.

Context {Sub : Type} `{Subscription Sub} (pending : Sub -> list (list Z)) `{!QueueLaws Sub pending}.

(** Everything waiting, most urgent first. *)
Definition waiting (s : PrioritySubscriber Sub) : list PriorityFragment :=
  (MkFragment Critical <$> pending (critical s)) ++ (MkFragment High <$> pending (high s)) ++
  (MkFragment Normal <$> pending (normal s)).

Lemma poll_stream_spec p sub n :
  (Z.of_nat n <= 2 ^ 63) ->
  let '(d, count, remaining, sub') := poll_stream p sub n in
  d = take n (MkFragment p <$> pending sub) /\ count = Z.of_nat (length d) /\
  remaining = (n - length (pending sub))%nat /\ pending sub' = drop n (pending sub).
Proof.
  intros Hn. unfold poll_stream. destruct (Nat.ltb_spec 0 n) as [H0|H0].
  - pose proof (poll_takes sub n) as Hp. destruct (sub_poll sub n) as [[d count] sub']. destruct Hp as (-> & -> & Hd).
    rewrite <- fmap_take. split_and!; [done|by rewrite length_fmap| |done].
    rewrite length_take, as_unsigned_id by lia. unfold saturating_sub. lia.
  - assert (n = 0)%nat as -> by lia. by rewrite !take_0, drop_0.
Qed.

(** one poll delivers the most urgent fragments waiting, exactly [fragment_limit] of them
    or all, in order: critical before high before normal, each stream in its own order, and
    leaves exactly the others waiting.  So a lower priority is only delivered once the higher
    ones are drained. *)
Theorem poll_is_priority_ordered (fragment_limit : nat) (s : PrioritySubscriber Sub) :
  Z.of_nat fragment_limit <= 2 ^ 63 ->
  let '(out, total, s') := poll_fragments fragment_limit s in
  out = take fragment_limit (waiting s) /\ total = Z.of_nat (length out) /\ waiting s' = drop fragment_limit (waiting s).
Proof.
  intros Hn. unfold poll_fragments.
  pose proof (poll_stream_spec Critical (critical s) fragment_limit Hn) as H1.
  destruct (poll_stream Critical (critical s) fragment_limit) as [[[d1 n1] r1] c]. destruct H1 as (-> & -> & -> & Hc).
  pose proof (poll_stream_spec High (high s) (fragment_limit - length (pending (critical s))) ltac:(lia)) as H2.
  destruct (poll_stream High (high s) (fragment_limit - length (pending (critical s)))) as [[[d2 n2] r2] h].
  destruct H2 as (-> & -> & -> & Hh).
  pose proof (poll_stream_spec Normal (normal s)
    (fragment_limit - length (pending (critical s)) - length (pending (high s))) ltac:(lia)) as H3.
  destruct (poll_stream Normal (normal s) (fragment_limit - length (pending (critical s)) - length (pending (high s))))
    as [[[d3 n3] r3] n]. destruct H3 as (-> & -> & _ & Hnm).
  unfold waiting. cbn [critical high normal]. rewrite Hc, Hh, Hnm, !fmap_drop, !take_app, !drop_app, !length_fmap.
  split_and!; [done| |done]. rewrite !length_app. lia.
Qed.
End priorities.

(** ** The poll loop *)
Section poll_loop.
Import transport.
Context `{DL : DecimalLib, CL : CurrencyLib, UL : UuidLib}.
Context `{RQ : !protocol.Rmp protocol.TransactionRequest, RS : !protocol.Rmp protocol.TransactionResponse}.
Context {P : Type} `{EN : !Engine P}.
Implicit Types (s : Server) (p : P).

(** What the loop relies on.  The pipeline numbers the published events from zero and nothing
    else publishes; [outbox] is what the publication has taken, and nothing else offers to it.
    [coherent lo p]: each published sequence gets at most one result, and those waiting belong
    to published sequences from [lo] on.  The result ring has [capacity] slots: it answers for
    a sequence only while the sequences from [lo] to the last published one fit into it. *)
Definition window (capacity lo next : Z) : Prop := lo <= next /\ next - lo <= capacity.

Class EngineLaws (published : P -> Z) (outbox : P -> list (list Z)) (coherent : Z -> P -> Prop) (capacity : Z) : Prop := {
  el_publish_ok e p q p' : publish_event e p = (Ok q, p') ->
    q = published p /\ published p' = q + 1 /\ outbox p' = outbox p /\
    forall lo, lo <= q -> window capacity lo (q + 1) -> coherent lo p -> coherent lo p';
  el_publish_err e p x p' : publish_event e p = (Err x, p') ->
    published p' = published p /\ outbox p' = outbox p /\ forall lo, coherent lo p -> coherent lo p';
  el_ring lo p : window capacity lo (published p) -> coherent lo p ->
    let '(r, p') := ring_try_remove lo p in
    published p' = published p /\ outbox p' = outbox p /\
    match r with Some _ => lo < published p /\ coherent (lo + 1) p' | None => coherent lo p' end;
  el_results lo p : window capacity lo (published p) -> coherent lo p ->
    let '(r, p') := results_remove lo p in
    published p' = published p /\ outbox p' = outbox p /\
    match r with Some _ => lo < published p /\ coherent (lo + 1) p' | None => coherent lo p' end;
  el_poll n lo p : let p' := (poll_fragments n p).2 in
    published p' = published p /\ outbox p' = outbox p /\ (coherent lo p -> coherent lo p');
  el_offer b lo p : let '(ok, p') := offer b p in
    published p' = published p /\ outbox p' = outbox p ++ (if ok then [b] else []) /\ (coherent lo p -> coherent lo p');
  el_others lo p : published (others p) = published p /\ outbox (others p) = outbox p /\
    (window capacity lo (published p) -> coherent lo p -> coherent lo (others p));
  el_clock lo p : let p' := (wall_clock p).2 in
    published p' = published p /\ outbox p' = outbox p /\ (coherent lo p -> coherent lo p');
  el_uuid lo p : let p' := (uuid_v4 p).2 in
    published p' = published p /\ outbox p' = outbox p /\ (coherent lo p -> coherent lo p');
}.

Context (published : P -> Z) (outbox : P -> list (list Z)) (coherent : Z -> P -> Prop) (capacity : Z).
Context `{EL : !EngineLaws published outbox coherent capacity}.

Definition reply_text (id : Z) : string := u64_to_string (U64Id (k := TransactionK) id).

(** What may become of a response. *)
Definition outcome_of (resp : protocol.TransactionResponse) (o : Offered) : Prop :=
  match o with
  | Sent b | Refused b => protocol.serialize_response resp = Ok b
  | Unserialized => is_ok (protocol.serialize_response resp) = false
  end.



Definition refusals (l : list Offered) : Z := Zsum_with (fun o => match o with Refused _ => 1 | _ => 0 end) l.





Lemma slot_of_mod q : slot_of q = q mod 2 ^ 18.
Proof.
  unfold slot_of. change REQ_SLOTS_MASK with (2 ^ 18 - 1). rewrite land_mask_mod by lia. by apply as_unsigned_mod.
Qed.



Lemma offer_outcome resp p : outcome_of resp (offer_response resp p).1.
Proof.
  unfold offer_response. destruct (protocol.serialize_response resp) as [b|e] eqn:E; [|by cbn; rewrite E].
  by destruct (offer b p) as [[] p'].
Qed.






Lemma build_response_id t i r : protocol.r_request_id (build_response t i r) = i.
Proof. by destruct r. Qed.



















(** the bound on the events in flight is needed and nothing in the loop enforces it: a
    client that is 262144 events ahead of the answers overwrites the slot of an unanswered
    event, whose response then carries the identifier of the new request. *)
Theorem slot_reuse_mixes_answers (q id : Z) (s s' : Server) (p p' : P) :
  next_to_drain s = q -> drain_one (record_published (q + REQ_SLOTS_CAP) id s) p = (Some s', p') ->
  exists o t r, outcomes s' = outcomes s ++ [o] /\ outcome_of (build_response t (reply_text id) r) o.
Proof.
  intros Hq. unfold drain_one. cbn [record_published next_to_drain]. rewrite Hq.
  destruct (take_result q p) as [[r|] p1]; [|done]. destruct (wall_clock p1) as [t p2].
  set (resp := build_response t _ r). pose proof (offer_outcome resp p2) as Ho.
  destruct (offer_response resp p2) as [o p3]. intros [= <- <-].
  exists o, t, r. split; [done|]. unfold resp in Ho. replace (reply_text id) with (u64_to_string (from_u64 (k := TransactionK) (slot q (record_published (q + REQ_SLOTS_CAP) id s)))); [exact Ho|].
  unfold reply_text. do 2 f_equal. unfold slot. cbn [record_published req_id_slots].
  assert (slot_of (q + REQ_SLOTS_CAP) = slot_of q) as ->.
  { rewrite !slot_of_mod. unfold REQ_SLOTS_CAP. change 262144 with (1 * 2 ^ 18). by rewrite Z.mod_add. }
  by rewrite lookup_insert_eq.
Qed.
End poll_loop.

(** ** Two-phase requests *)
Lemma is_ok_some {A E : Type} (m : Result A E) : is_ok m = true -> exists a, m = Ok a.
Proof. destruct m as [a|]; [by exists a|done]. Qed.

Section two_phase.
Import transport.
Context `{DL : DecimalLib, DLa : !DecimalLaws, CL : CurrencyLib, CLa : !CurrencyLaws, UL : UuidLib, ULa : !UuidLaws}.

(** a two-phase request is posted at once on this transport: [build_event] ignores the
    flags and the pending identifier that connection.rs reads, so an event that is to be
    pending, to post or to void becomes an ordinary transfer. *)
Theorem aeron_drops_two_phase (v4 : Uuid) (clock : Z) (req : protocol.TransactionRequest) (ev ev' : TransactionEvent) :
  build_event v4 clock req = Ok ev -> connection.build_event v4 clock req = Ok ev' ->
  event.flags ev = event_flags.default /\ event.pending_transfer_id ev = connection.nil_transfer_id /\
  event.flags ev' = event_flags.from_raw (protocol.flags req).
Proof.
  intros H H'. unfold build_event in H.
  apply rbind_ok in H as (? & _ & H). apply rbind_ok in H as (? & _ & H). apply rbind_ok in H as (? & _ & H).
  apply rbind_ok in H as (? & _ & H). apply rbind_ok in H as (? & _ & H). apply rbind_ok in H as (? & _ & H).
  apply rbind_ok in H as (? & _ & [= <-]).
  apply build_event_ok in H' as (d & c & cur & a & n & _ & _ & _ & _ & _ & _ & _ & _ & _ & _ & Hf & _). done.
Qed.
End two_phase.

Module aeron_examples.
Import common_examples ledger_examples inmemory_examples handler_examples connection_examples transport.

(** A pipeline that answers at once, every other event with a commit in a result ring of four
    slots and the others with a rejection in the map; the inbox is delivered by the first
    poll. *)
Record ASim : Type := MkASim {
  a_next : Z;
  a_ring : result_ring.ResultRing;
  a_results : gmap Z TransactionResult;
  a_inbox : list (list Z);
  a_out : list (list Z);
}.

Definition a_insert (q : Z) (p : ASim) : ASim :=
  if Z.even q
  then MkASim (q + 1) (result_ring.insert q (id_from_bytes (replicate 16 7)) (a_ring p)) (a_results p) (a_inbox p) (a_out p)
  else MkASim (q + 1) (a_ring p) (<[q := event.Rejected AmountOverflow]> (a_results p)) (a_inbox p) (a_out p).

#[global] Instance asim : Engine ASim := {|
  has_available_capacity _ := true;
  publish_event e p := (Ok (a_next p), a_insert (a_next p) p);
  ring_try_remove q p :=
    let '(r, ring) := result_ring.try_remove q (a_ring p) in (r, MkASim (a_next p) ring (a_results p) (a_inbox p) (a_out p));
  results_remove q p := (a_results p !! q, MkASim (a_next p) (a_ring p) (delete q (a_results p)) (a_inbox p) (a_out p));
  poll_fragments n p := (take n (a_inbox p), MkASim (a_next p) (a_ring p) (a_results p) (drop n (a_inbox p)) (a_out p));
  offer b p := (true, MkASim (a_next p) (a_ring p) (a_results p) (a_inbox p) (a_out p ++ [b]));
  others p := p;
  shutdown p := false;
  wall_clock p := (1000, p);
  uuid_v4 p := (uid.of_Z 9, p);
|}.

(** The ring holds a map of the window from [lo] on, and every result that waits, there or in
    the map of rejections, belongs to a published sequence from [lo] on. *)
Definition a_coherent (lo : Z) (p : ASim) : Prop :=
  exists m, result_ring.Rep 2 lo (a_ring p) m /\
    (forall s, is_Some (m !! s) -> lo <= s < a_next p /\ a_results p !! s = None) /\
    (forall s, is_Some (a_results p !! s) -> lo <= s < a_next p).

Lemma a_insert_coherent q lo p :
  q = a_next p -> lo <= q -> window 4 lo (q + 1) -> a_coherent lo p -> a_coherent lo (a_insert q p).
Proof.
  intros -> H0 [H1 H2] (m & HR & Hm & Hr). unfold a_insert. destruct (Z.even (a_next p)).
  - exists (<[a_next p := id_from_bytes (replicate 16 7)]> m). cbn. split; [apply result_ring.rep_insert; [done|change (2 ^ 2) with 4; lia]|]. split.
    + intros s [i Hs]. apply lookup_insert_Some in Hs as [[<- _]|[Hne Hs]].
      * split; [lia|]. destruct (a_results p !! a_next p) eqn:E; [|done]. specialize (Hr (a_next p) ltac:(by eexists)). lia.
      * destruct (Hm s ltac:(by eexists)) as [? ?]. split; [lia|done].
    + intros s Hs. apply Hr in Hs. lia.
  - exists m. cbn. split; [done|]. split.
    + intros s Hs. destruct (Hm s Hs) as [? ?]. split; [lia|]. rewrite lookup_insert_ne by lia. done.
    + intros s [i Hs]. apply lookup_insert_Some in Hs as [[<- _]|[_ Hs]]; [lia|]. specialize (Hr s ltac:(by eexists)). lia.
Qed.

#[global] Instance asim_laws : EngineLaws a_next a_out a_coherent 4.
Proof.
  constructor.
  - intros e p q p' [= <- <-]. split; [done|]. unfold a_insert. split; [by destruct (Z.even _)|]. split; [by destruct (Z.even _)|].
    intros lo Hle Hw Hc. by apply (a_insert_coherent (a_next p) lo p).
  - done.
  - intros lo p [H1 H2] (m & HR & Hm & Hr). cbn.
    destruct (result_ring.rep_remove (ULa := uid.uid_laws) 2 lo (a_ring p) m lo HR ltac:(change (2 ^ 2) with 4; lia)) as [E HR'].
    destruct (result_ring.try_remove lo (a_ring p)) as [[tid|] ring]; cbn in E, HR' |- *; (split; [done|split; [done|]]).
    + symmetry in E. destruct (Hm lo ltac:(by eexists)) as [Hlt Hn]. split; [lia|]. exists (delete lo m). cbn.
      split; [apply result_ring.rep_shift; [done|by apply lookup_delete_eq]|]. split.
      * intros s [i [Hne Hs]%lookup_delete_Some]. destruct (Hm s ltac:(by eexists)). split; [lia|done].
      * intros s Hs. pose proof (Hr s Hs). assert (s <> lo) by (intros ->; rewrite Hn in Hs; by destruct Hs). lia.
    + exists m. cbn. split; [|done]. by rewrite delete_id in HR' by done.
  - intros lo p [H1 H2] (m & HR & Hm & Hr). cbn. split; [done|]. split; [done|].
    destruct (a_results p !! lo) as [x|] eqn:E.
    + pose proof (Hr lo ltac:(by eexists)). split; [lia|]. assert (m !! lo = None) as Hml.
      { destruct (m !! lo) eqn:Em; [|done]. destruct (Hm lo ltac:(by eexists)). congruence. }
      exists m. cbn. split; [by apply result_ring.rep_shift|]. split.
      * intros s Hs. destruct (Hm s Hs) as [? Hn]. assert (s <> lo) by (intros ->; rewrite Hml in Hs; by destruct Hs).
        split; [lia|]. by rewrite lookup_delete_ne by done.
      * intros s [y [Hne Hs]%lookup_delete_Some]. specialize (Hr s ltac:(by eexists)). lia.
    + exists m. cbn. rewrite delete_id by done. done.
  - done.
  - done.
  - done.
  - done.
  - done.
Qed.

Definition asim0 (inbox : list (list Z)) : ASim :=
  MkASim 0 (default (result_ring.MkResultRing [] [] 0) (result_ring.new 4)) ∅ inbox [].


(** The identifiers and outcomes of the responses sent, in order. *)
Definition sent (p : ASim) : list (option (string * bool)) :=
  (fun b => (fun r => (protocol.r_request_id r, protocol.committed r)) <$> ok_opt (protocol.from_slice b)) <$> a_out p.

Definition inbox : list (list Z) := [payload_of (request "7" "5" "USD" 1); [1; 1; 1]; payload_of (request "8" "6" "USD" 1)].

Definition served : option (Server * ASim) := serve 2 1 new (asim0 inbox).

Example answers_in_order :
  (fun r => (sent r.2, max_in_flight r.1)) <$> served = Some ([Some (""%string, false); Some ("7"%string, true); Some ("8"%string, false)], 2).
Proof. vm_refl. Qed.



Definition unanswered : Server := MkServer 0 1 (<[0 := 7]> ∅) 0 0 [7] [] [] 1.
Definition one_result : ASim :=
  MkASim 1 (result_ring.insert 0 (id_from_bytes (replicate 16 7)) (a_ring (asim0 []))) ∅ [] [].

Lemma slot_reuse_mixes_answers_witness :
  exists s' o t r, (drain_one (record_published (0 + REQ_SLOTS_CAP) 8 unanswered) one_result).1 = Some s' /\
    outcomes s' = [o] /\ outcome_of (build_response t (reply_text 8) r) o.
Proof.
  destruct (drain_one (record_published (0 + REQ_SLOTS_CAP) 8 unanswered) one_result) as [[s'|] p'] eqn:E;
    [|vm_compute in E; discriminate E].
  destruct (slot_reuse_mixes_answers 0 8 unanswered s' one_result p' eq_refl E) as (o & t & r & H1 & H2).
  exists s', o, t, r. split_and!; [done|exact H1|exact H2].
Defined.

(** The response carries a decimal number in place of the documented echo: a UUID comes back
    as its low 64 bits and any other text as a random number. *)
Definition text_of_uuid : string := uuid_to_string (uid.of_Z 12345).
Definition reply_ids (rid : string) : option (list (option (string * bool))) :=
  (fun r => sent r.2) <$> serve 2 1 new (asim0 [payload_of (request rid "5" "USD" 1)]).

Example request_id_not_echoed :
  reply_ids text_of_uuid = Some [Some ("12345"%string, true)] /\ reply_ids "order-1" = Some [Some ("9"%string, true)].
Proof. split; vm_refl. Qed.

Definition pending_request : protocol.TransactionRequest := protocol.MkRequest "7" "1" "2" "5" "USD" 1 1 2 "".

Lemma aeron_drops_two_phase_witness :
  exists ev ev', build_event v4_0 0 pending_request = Ok ev /\ event_flags.is_pending (event.flags ev') = true /\
    event.flags ev = event_flags.default.
Proof.
  assert (is_ok (build_event v4_0 0 pending_request) = true) as [ev E]%is_ok_some by vm_refl.
  assert (is_ok (connection.build_event v4_0 0 pending_request) = true) as [ev' E']%is_ok_some by vm_refl.
  destruct (aeron_drops_two_phase v4_0 0 pending_request ev ev' E E') as (H1 & _ & H3).
  exists ev, ev'. split_and!; [exact E|rewrite H3; vm_refl|exact H1].
Defined.

(** *** Subscriptions *)
#[global] Instance queue_sub : Subscription (list (list Z)) := {|
  sub_poll q n := (take n q, Z.of_nat (length (take n q)), drop n q);
|}.
#[global] Instance queue_sub_laws : QueueLaws (list (list Z)) id.
Proof. by constructor. Qed.

Definition lanes : priority_subscriber.PrioritySubscriber (list (list Z)) :=
  priority_subscriber.MkSubscriber [[1]] [[2]; [3]] [[4]; [5]].

Lemma poll_is_priority_ordered_witness :
  priority_subscriber.data <$> (priority_subscriber.poll_fragments 4 lanes).1.1 = [[1]; [2]; [3]; [4]] /\
  (priority_subscriber.poll_fragments 4 lanes).1.1 = take 4 (waiting id lanes).
Proof.
  split; [vm_refl|]. pose proof (poll_is_priority_ordered id 4 lanes ltac:(lia)) as H.
  destruct (priority_subscriber.poll_fragments 4 lanes) as [[out total] rest]. apply H.
Defined.

(** An error of one stream, a negative count, keeps the less urgent ones from being polled. *)
Definition broken_sub : Subscription (list (list Z)) := {|
  sub_poll q n := match q with [] => ([], -1, q) | _ => (take n q, Z.of_nat (length (take n q)), drop n q) end;
|}.

Example critical_error_starves :
  (@priority_subscriber.poll_fragments _ broken_sub 4 (priority_subscriber.MkSubscriber [] [[2]] [[4]])).1 = ([], -1).
Proof. vm_refl. Qed.

Lemma offer_retries_transient_witness :
  publication.offer 3 "" [publication.BACK_PRESSURED; publication.ADMIN_ACTION; 64; 96] = Some (Ok 64) /\
  is_Some (publication.offer 3 "" (replicate 9 publication.BACK_PRESSURED)).
Proof.
  split.
  - apply (proj2 (offer_retries_transient 3 "" _)). split; [lia|].
    exists [publication.BACK_PRESSURED; publication.ADMIN_ACTION], [96].
    split_and!; [done|cbn; lia|]. apply Forall_cons; split; [by left|]. apply Forall_cons; split; [by right|constructor].
  - apply (proj1 (offer_retries_transient 3 "" _)). cbn. lia.
Defined.
End aeron_examples.
