(* ===== verification/Udp.v ===== *)
(** * core/transport/udp_transport.rs: the UDP server

    [udp] translates the packet decoder and the server: the receive loop, one waiting task
    per published packet under a semaphore, the bounded queue of responses and the task that
    transmits them, over the sharded pipeline of [Sharded].  Tasks and loops interleave in
    any order ([step]); the engine behind the pipeline may store a result at any time, once
    for each sequence.  A datagram longer than the buffer is cut, as [recv_from] does. *)

From stdpp Require Import base numbers list gmap strings relations.
From Stdlib Require Import ZArith Lia.
From S2P Require Import Prelude External ExternalModel Common Timestamp Event RingBuffer Pipeline.
From S2P Require Import Sharded.

Module udp.
Definition HEADER_SIZE : nat := 8.
Definition PAYLOAD_SIZE : nat := 48.
Definition PACKET_SIZE : nat := 56.
Definition MAX_IN_FLIGHT : nat := 2048.
(** The capacity of the response channel. *)
Definition RESPONSE_QUEUE : Z := 65536.

(** The [n] bytes at an offset, read as a big-endian integer. *)
Definition field (offset n : nat) (bytes : list Z) : Z := from_be_bytes (take n (drop offset bytes)).

Definition ledger_of_wire (ledger_u32 : Z) : LedgerId :=
  if ledger_u32 =? 0 then LedgerId_USD
  else if ledger_u32 =? 1 then LedgerId_EUR
  else if ledger_u32 =? 2 then LedgerId_GBP
  else LedgerId_USD.

Section udp.
Context `{UL : UuidLib}.

Definition deserialize_event_static (clock : Z) (bytes : list Z) : BlazerResult TransactionEvent :=
  if negb (length bytes =? PAYLOAD_SIZE)%nat
  then Err (Internal ("Invalid UDP packet size: expected " +:+ string_of_Z (Z.of_nat PAYLOAD_SIZE) +:+ " bytes, got " +:+
              string_of_Z (Z.of_nat (length bytes))))
  else
    let tx_id := field 0 8 bytes in
    let debit_id := field 8 8 bytes in
    let credit_id := field 16 8 bytes in
    let amount := field 24 8 bytes in
    let timestamp_nanos := field 32 8 bytes in
    let ledger_u32 := field 40 4 bytes in
    let code := field 44 2 bytes in
    let flags_byte := field 46 1 bytes in
    let e := event.new clock (from_u64 tx_id) (from_u64 debit_id) (from_u64 credit_id) amount
               (ledger_of_wire ledger_u32) code in
    Ok (event.MkEvent (event.sequence e) (event.transaction_id e) (event.debit_account_id e)
          (event.credit_account_id e) (event.amount_units e) (from_nanos timestamp_nanos)
          (event.ledger_id e) (event.code e) (event_flags.from_raw flags_byte) (event.pending_transfer_id e)).

(** *** The server

    A published packet: who sent it, the number to echo, the shard whose results its task
    polls and the sequence it waits for; [routed_to] is the shard the pipeline chose. *)
Record Waiter : Type := MkWaiter {
  peer : Z;
  number : Z;
  shard_id : nat;
  ring_seq : Z;
  w_event : TransactionEvent;
  routed_to : nat;
}.

Inductive Task :=
  | Polling (id : nat) (w : Waiter)
  | Sending (id : nat) (w : Waiter) (result_code : Z).

Record Response : Type := MkResponse { answers : nat; to_peer : Z; bytes : list Z }.

(** The receive loop: at the shutdown test, in [recv_from], waiting for a permit, or gone. *)
Inductive Pc := Checking | Receiving | Acquiring (id : nat) (w : Waiter) | Exited.

Notation Pipeline := (sharded.ShardedPipeline (E := TransactionEvent) (R := TransactionResult)).

Record Server : Type := MkServer {
  pc : Pc;
  shutdown : bool;
  pipeline : Pipeline;
  packets_received : Z;
  packets_sent : Z;
  tasks : list Task;
  queue : list Response;
  published : list Waiter;
  transmitted : list Response;
  lost : list Response;
}.

Definition start (p : Pipeline) : Server := MkServer Checking false p 0 0 [] [] [] [] [].

Definition debit_of (e : TransactionEvent) : Z := as_u64 (event.debit_account_id e).

Definition response_bytes (sequence result_code : Z) : list Z := to_be_bytes 8 sequence ++ to_be_bytes 8 result_code.

Definition set_pc (c : Pc) (s : Server) : Server :=
  MkServer c (shutdown s) (pipeline s) (packets_received s) (packets_sent s) (tasks s) (queue s) (published s)
    (transmitted s) (lost s).
Definition set_pipeline (p : Pipeline) (s : Server) : Server :=
  MkServer (pc s) (shutdown s) p (packets_received s) (packets_sent s) (tasks s) (queue s) (published s)
    (transmitted s) (lost s).
Definition set_tasks (l : list Task) (s : Server) : Server :=
  MkServer (pc s) (shutdown s) (pipeline s) (packets_received s) (packets_sent s) l (queue s) (published s)
    (transmitted s) (lost s).
Definition set_shutdown (s : Server) : Server :=
  MkServer (pc s) true (pipeline s) (packets_received s) (packets_sent s) (tasks s) (queue s) (published s)
    (transmitted s) (lost s).
Definition count_received (s : Server) : Server :=
  MkServer (pc s) (shutdown s) (pipeline s) (as_unsigned 64 (packets_received s + 1)) (packets_sent s) (tasks s)
    (queue s) (published s) (transmitted s) (lost s).

(** A datagram arrives: the turn of the receive loop up to the permit.  [progress] is what
    the shard's worker does while the pipeline waits for capacity; [None] is a panic. *)
Definition receive (clock : Z) (progress : nat -> RingBuffer TransactionEvent -> RingBuffer TransactionEvent)
    (from : Z) (datagram : list Z) (s : Server) : option Server :=
  let buf := take PACKET_SIZE datagram in
  let s := set_pc Checking (count_received s) in
  if negb (length buf =? PACKET_SIZE)%nat then Some s
  else
    let sequence := field 0 8 buf in
    match deserialize_event_static clock (drop HEADER_SIZE buf) with
    | Err _ => Some s
    | Ok ev =>
        let shard := Z.to_nat (debit_of ev mod sharded.shard_count (pipeline s)) in
        match sharded.publish_event debit_of progress ev (pipeline s) with
        | None => None
        | Some (Err _, p) => Some (set_pipeline p s)
        | Some (Ok q, p) =>
            match sharded.shard_results shard p with None => None | Some _ =>
            let w := MkWaiter from sequence shard q ev
                       (Z.to_nat (sharded.route_to_shard (debit_of ev) (sharded.shard_count (pipeline s)))) in
            Some (MkServer (Acquiring (length (published s)) w) (shutdown s) p (packets_received s) (packets_sent s)
                    (tasks s) (queue s) (published s ++ [w]) (transmitted s) (lost s))
            end
        end
    end.

(** The permit is granted while fewer than [MAX_IN_FLIGHT] tasks run. *)
Definition acquire (s : Server) : option Server :=
  match pc s with
  | Acquiring i w =>
      if (length (tasks s) <? MAX_IN_FLIGHT)%nat
      then Some (set_pc Checking (set_tasks (tasks s ++ [Polling i w]) s))
      else None
  | _ => None
  end.

(** The result a task looks for. *)
Definition result_of (w : Waiter) (p : Pipeline) : option TransactionResult :=
  sharded.shard_results (shard_id w) p ≫= fun m => m !! ring_seq w.

Definition code_of (r : option TransactionResult) : Z :=
  match r with
  | Some (event.Committed _ _) => 0
  | Some (event.Rejected _) => 1
  | None => 1
  end.

(** A task finds its result, or gives up after its 100 ms. *)
Definition found (i : nat) (s : Server) : option Server :=
  match tasks s !! i with
  | Some (Polling k w) =>
      match result_of w (pipeline s) with
      | Some r => Some (set_tasks (<[i := Sending k w (code_of (Some r))]> (tasks s)) s)
      | None => None
      end
  | _ => None
  end.
Definition timed_out (i : nat) (s : Server) : option Server :=
  match tasks s !! i with
  | Some (Polling k w) => Some (set_tasks (<[i := Sending k w (code_of None)]> (tasks s)) s)
  | _ => None
  end.

(** It queues its response when there is room, ends, and returns its permit. *)
Definition enqueue (i : nat) (s : Server) : option Server :=
  match tasks s !! i with
  | Some (Sending k w c) =>
      if Z.of_nat (length (queue s)) <? RESPONSE_QUEUE
      then Some (MkServer (pc s) (shutdown s) (pipeline s) (packets_received s) (packets_sent s)
                   (delete i (tasks s)) (queue s ++ [MkResponse k (peer w) (response_bytes (number w) c)])
                   (published s) (transmitted s) (lost s))
      else None
  | _ => None
  end.

(** The send task: [send_to] succeeds or fails. *)
Definition transmit (ok : bool) (s : Server) : option Server :=
  match queue s with
  | [] => None
  | r :: l =>
      Some (if ok
            then MkServer (pc s) (shutdown s) (pipeline s) (packets_received s) (as_unsigned 64 (packets_sent s + 1))
                   (tasks s) l (published s) (transmitted s ++ [r]) (lost s)
            else MkServer (pc s) (shutdown s) (pipeline s) (packets_received s) (packets_sent s)
                   (tasks s) l (published s) (transmitted s) (lost s ++ [r]))
  end.

(** The engine behind shard [i] moves its ring but for the claim, and may store the result of
    a sequence that has none. *)
Definition engine_turn (i : nat) (r : RingBuffer TransactionEvent) (new : option (Z * TransactionResult)) (s : Server)
    : option Server :=
  match sharded.shards (pipeline s) !! i with
  | None => None
  | Some sh =>
      let put m := Some (set_pipeline
                           (sharded.MkSharded (<[i := sharded.MkShard r m]> (sharded.shards (pipeline s)))
                              (sharded.shard_count (pipeline s)) (sharded.capacity_per_shard (pipeline s))) s) in
      if negb (ring_buffer.claim r =? ring_buffer.claim (sharded.ring sh)) then None
      else match new with
           | None => put (sharded.results sh)
           | Some (q, v) => match sharded.results sh !! q with
                            | Some _ => None
                            | None => put (<[q := v]> (sharded.results sh))
                            end
           end
  end.

Inductive step : Server -> Server -> Prop :=
  | step_check s : pc s = Checking -> step s (set_pc (if shutdown s then Exited else Receiving) s)
  | step_receive clock progress from d s s' :
      pc s = Receiving -> (forall n r, ring_buffer.claim (progress n r) = ring_buffer.claim r) ->
      receive clock progress from d s = Some s' -> step s s'
  | step_receive_error s : pc s = Receiving -> step s (set_pc Checking s)
  | step_acquire s s' : acquire s = Some s' -> step s s'
  | step_found i s s' : found i s = Some s' -> step s s'
  | step_timed_out i s s' : timed_out i s = Some s' -> step s s'
  | step_enqueue i s s' : enqueue i s = Some s' -> step s s'
  | step_transmit ok s s' : transmit ok s = Some s' -> step s s'
  | step_engine i r new s s' : engine_turn i r new s = Some s' -> step s s'
  | step_shutdown s : step s (set_shutdown s).

Definition reachable (p : Pipeline) (s : Server) : Prop := rtc step (start p) s.
End udp.
End udp.

(** ** The packet format *)
Section packets.
Context `{UL : UuidLib}.
Import udp.

(** The documented request packet. *)
Record Packet : Type := MkPacket {
  sequence_number : Z; tx : Z; debit : Z; credit : Z; amount : Z; timestamp : Z;
  ledger : Z; code : Z; flags : Z; padding : Z;
}.

Definition encode (p : Packet) : list Z :=
  to_be_bytes 8 (sequence_number p) ++ to_be_bytes 8 (tx p) ++ to_be_bytes 8 (debit p) ++ to_be_bytes 8 (credit p) ++
  to_be_bytes 8 (amount p) ++ to_be_bytes 8 (timestamp p) ++ to_be_bytes 4 (ledger p) ++ to_be_bytes 2 (code p) ++
  to_be_bytes 1 (flags p) ++ to_be_bytes 1 (padding p).

Definition in_range (p : Packet) : Prop :=
  Forall (fun x => 0 <= x < 2 ^ 64) [sequence_number p; tx p; debit p; credit p; amount p; timestamp p] /\
  0 <= ledger p < 2 ^ 32 /\ 0 <= code p < 2 ^ 16 /\ 0 <= flags p < 2 ^ 8 /\ 0 <= padding p < 2 ^ 8.

Definition event_of (p : Packet) : TransactionEvent :=
  event.MkEvent (-1) (U64Id (tx p)) (U64Id (debit p)) (U64Id (credit p)) (amount p) (from_nanos (timestamp p))
    (ledger_of_wire (ledger p)) (code p) (event_flags.from_raw (flags p)) (id_from_bytes (replicate 16 0)).

Lemma length_encode p : length (encode p) = PACKET_SIZE.
Proof. unfold encode. by rewrite !length_app, !length_to_be_bytes. Qed.

(** The packet a byte string is. *)
Definition parse (b : list Z) : Packet :=
  MkPacket (field 0 8 b) (field 8 8 b) (field 16 8 b) (field 24 8 b) (field 32 8 b) (field 40 8 b)
    (field 48 4 b) (field 52 2 b) (field 54 1 b) (field 55 1 b).

Lemma field_head n x r : 0 <= x < 256 ^ Z.of_nat n -> field 0 n (to_be_bytes n x ++ r) = x.
Proof.
  intros Hx. unfold field. rewrite drop_0, take_app_length'; [by apply from_to_be_bytes|].
  symmetry. apply length_to_be_bytes.
Qed.

Lemma field_skip i n l r : (length l <= i)%nat -> field i n (l ++ r) = field (i - length l) n r.
Proof. intros H. unfold field. by rewrite drop_app_ge by done. Qed.

Lemma field_drop k i n b : field i n (drop k b) = field (k + i) n b.
Proof. unfold field. by rewrite drop_drop. Qed.

Lemma field_range i n b : (i + n <= length b)%nat -> Forall is_byte b -> 0 <= field i n b < 256 ^ Z.of_nat n.
Proof.
  intros Hl Hb. unfold field.
  assert (length (take n (drop i b)) = n) as E by (rewrite length_take, length_drop; lia).
  pose proof (from_be_bytes_range (take n (drop i b))) as H. rewrite E in H. by apply H, Forall_take, Forall_drop.
Qed.

(** A field is the bytes it was read from. *)
Lemma field_bytes i n k b :
  k = (i + n)%nat -> (k <= length b)%nat -> Forall is_byte b -> to_be_bytes n (field i n b) ++ drop k b = drop i b.
Proof.
  intros -> Hl Hb. unfold field. rewrite to_from_be_bytes.
  - by rewrite <- (take_drop n (drop i b)) at 2; rewrite drop_drop.
  - rewrite length_take, length_drop. lia.
  - by apply Forall_take, Forall_drop.
Qed.

Lemma parse_encode p : in_range p -> parse (encode p) = p.
Proof.
  unfold in_range. rewrite !Forall_cons. intros [(H1 & H2 & H3 & H4 & H5 & H6 & _) (H7 & H8 & H9 & H10)].
  destruct p as [a b c d e f g h i j]. unfold parse, encode.
  cbn [sequence_number tx debit credit amount timestamp ledger code flags padding] in *.
  rewrite <- (app_nil_r (to_be_bytes 1 j)).
  f_equal; repeat (rewrite field_skip by (rewrite length_to_be_bytes; lia); rewrite length_to_be_bytes; cbn [Nat.sub]);
    by apply field_head.
Qed.

Lemma encode_parse b : length b = PACKET_SIZE -> Forall is_byte b -> encode (parse b) = b.
Proof.
  intros Hl Hb. unfold encode, parse. cbn [sequence_number tx debit credit amount timestamp ledger code flags padding].
  assert (forall k, (k <= 56)%nat -> (k <= length b)%nat) as Hk by (intros; rewrite Hl; unfold PACKET_SIZE; lia).
  rewrite <- (app_nil_r (to_be_bytes 1 (field 55 1 b))), <- (drop_ge b 56) by (rewrite Hl; done).
  by rewrite (field_bytes 55 1 56), (field_bytes 54 1 55), (field_bytes 52 2 54), (field_bytes 48 4 52),
    (field_bytes 40 8 48), (field_bytes 32 8 40), (field_bytes 24 8 32), (field_bytes 16 8 24), (field_bytes 8 8 16),
    (field_bytes 0 8 8) by (done || apply Hk; lia).
Qed.

Lemma parse_in_range b : length b = PACKET_SIZE -> Forall is_byte b -> in_range (parse b).
Proof.
  intros Hl Hb. unfold in_range, parse. cbn [sequence_number tx debit credit amount timestamp ledger code flags padding].
  assert (forall i n, (i + n <= 56)%nat -> 0 <= field i n b < 256 ^ Z.of_nat n) as H
    by (intros; apply field_range; [rewrite Hl; unfold PACKET_SIZE; lia|done]).
  split; [|split_and!; [apply (H 48 4)%nat|apply (H 48 4)%nat|apply (H 52 2)%nat|apply (H 52 2)%nat|apply (H 54 1)%nat|apply (H 54 1)%nat|apply (H 55 1)%nat|apply (H 55 1)%nat]; lia].
  repeat apply Forall_cons_2; [apply (H 0 8)%nat|apply (H 8 8)%nat|apply (H 16 8)%nat|apply (H 24 8)%nat|apply (H 32 8)%nat|apply (H 40 8)%nat|
    by apply Forall_nil_2]; lia.
Qed.

Lemma deserialize_parse clock b :
  length b = PACKET_SIZE -> deserialize_event_static clock (drop HEADER_SIZE b) = Ok (event_of (parse b)).
Proof.
  intros Hl. unfold deserialize_event_static. rewrite length_drop, Hl. cbn [negb Nat.eqb PACKET_SIZE HEADER_SIZE PAYLOAD_SIZE Nat.sub].
  by rewrite !field_drop.
Qed.

(** the packet format carries everything exactly: for fields within their widths, the
    server reads back from the 56 bytes the number to echo and an event with those very
    fields, the timestamp and the flags included; and every 56 bytes are such a packet, so
    no packet of the right size is refused. *)
Theorem udp_packet_roundtrip (clock : Z) :
  (forall p, in_range p ->
     length (encode p) = PACKET_SIZE /\ field 0 8 (encode p) = sequence_number p /\
     deserialize_event_static clock (drop HEADER_SIZE (encode p)) = Ok (event_of p)) /\
  (forall b, length b = PACKET_SIZE -> Forall is_byte b -> exists p, in_range p /\ encode p = b).
Proof.
  split.
  - intros p Hp. pose proof (length_encode p) as Hl. split_and!; [done| |].
    + by rewrite <- (parse_encode p Hp) at 2.
    + by rewrite deserialize_parse, parse_encode.
  - intros b Hl Hb. exists (parse b). split; [by apply parse_in_range|by apply encode_parse].
Qed.

(** no ledger number means on this transport what it means everywhere else: the numbers
    0, 1 and 2 stand for dollar, euro and pound, which are the ledgers 1, 2 and 3, and every
    other number silently becomes the dollar ledger. *)
Theorem udp_ledger_shifted (n : Z) : ledger_of_wire n <> MkLedgerId n.
Proof.
  unfold ledger_of_wire, LedgerId_USD, LedgerId_EUR, LedgerId_GBP.
  destruct (Z.eqb_spec n 0) as [->|]; [done|]. destruct (Z.eqb_spec n 1) as [->|]; [done|].
  destruct (Z.eqb_spec n 2) as [->|]; [done|]. congruence.
Qed.
End packets.

(** ** The server *)
Section server.
Context `{UL : UuidLib}.
Import udp.
Notation Pipeline := (sharded.ShardedPipeline (E := TransactionEvent) (R := TransactionResult)).

(** How many of the packets went to a shard. *)
Definition on_shard (i : nat) (l : list Waiter) : Z := Z.of_nat (length (filter (fun w => routed_to w = i) l)).

Lemma on_shard_app i l k : on_shard i (l ++ k) = on_shard i l + on_shard i k.
Proof. unfold on_shard. rewrite filter_app, length_app. lia. Qed.

Lemma on_shard_one i w : on_shard i [w] = if bool_decide (routed_to w = i) then 1 else 0.
Proof. unfold on_shard. cbn. case_decide; by case_bool_decide. Qed.

Lemma on_shard_le i l : 0 <= on_shard i l <= Z.of_nat (length l).
Proof. unfold on_shard. pose proof (length_filter (fun w => routed_to w = i) l). lia. Qed.

(** A validated pipeline whose claims count the packets published to each shard. *)
Record pipe_inv (p : Pipeline) (pub : list Waiter) : Prop := {
  pi_count : sharded.valid_count (sharded.shard_count p) = true;
  pi_len : length (sharded.shards p) = Z.to_nat (sharded.shard_count p);
  pi_claim i sh : sharded.shards p !! i = Some sh -> ring_buffer.claim (sharded.ring sh) = on_shard i pub - 1;
}.

Lemma wait_capacity_claim fuel rounds progress (r : RingBuffer TransactionEvent) :
  (forall n r, ring_buffer.claim (progress n r) = ring_buffer.claim r) ->
  ring_buffer.claim (sharded.wait_capacity fuel rounds progress r).2 = ring_buffer.claim r.
Proof.
  intros Hp. revert rounds r. induction fuel as [|fuel IH]; intros rounds r; cbn [sharded.wait_capacity];
    destruct (ring_buffer.has_available_capacity r); [done|done|done|]. by rewrite IH, Hp.
Qed.

(** One shard gets another ring with a known claim. *)
Lemma pipe_inv_insert p pub pub' i sh sh' :
  pipe_inv p pub -> sharded.shards p !! i = Some sh ->
  ring_buffer.claim (sharded.ring sh') = on_shard i pub' - 1 ->
  (forall j, j <> i -> on_shard j pub' = on_shard j pub) ->
  pipe_inv (sharded.MkSharded (<[i := sh']> (sharded.shards p)) (sharded.shard_count p) (sharded.capacity_per_shard p)) pub'.
Proof.
  intros [Hc Hl Hcl] Hi Hsh Hj. constructor; cbn [sharded.shard_count sharded.shards]; [done|by rewrite length_insert|].
  intros j x Hx. destruct (decide (j = i)) as [->|Hne].
  - rewrite list_lookup_insert_eq in Hx by (by eapply lookup_lt_Some). by simplify_eq.
  - rewrite list_lookup_insert_ne in Hx by done. rewrite Hj by done. by apply Hcl.
Qed.

Lemma results_insert (p : Pipeline) i sh r m c k j :
  sharded.shards p !! i = Some sh ->
  sharded.shard_results j (sharded.MkSharded (<[i := sharded.MkShard r m]> (sharded.shards p)) c k) =
  if bool_decide (j = i) then Some m else sharded.shard_results j p.
Proof.
  intros Hi. unfold sharded.shard_results. cbn [sharded.shards]. case_bool_decide as Hj.
  - subst. by rewrite list_lookup_insert_eq by (by eapply lookup_lt_Some).
  - by rewrite list_lookup_insert_ne.
Qed.

Lemma publish_spec progress e p pub res p' :
  pipe_inv p pub -> Z.of_nat (length pub) < 2 ^ 63 - 1 ->
  (forall n r, ring_buffer.claim (progress n r) = ring_buffer.claim r) ->
  sharded.publish_event debit_of progress e p = Some (res, p') ->
  let i := Z.to_nat (debit_of e mod sharded.shard_count p) in
  sharded.shard_count p' = sharded.shard_count p /\
  (forall j, sharded.shard_results j p' = sharded.shard_results j p) /\
  match res with
  | Ok q => q = on_shard i pub /\ (forall w, routed_to w = i -> pipe_inv p' (pub ++ [w]))
  | Err _ => pipe_inv p' pub
  end.
Proof.
  intros Hinv Hlen Hp. pose proof (pi_count _ _ Hinv) as Hv. unfold sharded.valid_count in Hv. bool_to_prop.
  unfold sharded.publish_event. rewrite route_mod by (done || lia). cbv zeta. set (i := Z.to_nat _).
  destruct (sharded.shards p !! i) as [sh|] eqn:Hi; [|done].
  pose proof (wait_capacity_claim 128 0 progress (sharded.ring sh) Hp) as Hw.
  destruct (sharded.wait_capacity 128 0 progress (sharded.ring sh)) as [free r]. cbn [snd] in Hw.
  rewrite (pi_claim _ _ Hinv i sh Hi) in Hw.
  assert (forall r', sharded.shard_count p = sharded.shard_count p /\
    forall j, sharded.shard_results j (sharded.MkSharded (<[i := sharded.MkShard r' (sharded.results sh)]> (sharded.shards p))
      (sharded.shard_count p) (sharded.capacity_per_shard p)) = sharded.shard_results j p) as Hres.
  { intros r'. split; [done|]. intros j. erewrite results_insert by done. case_bool_decide; [|done].
    subst j. unfold sharded.shard_results. by rewrite Hi. }
  assert (forall r', ring_buffer.claim r' = on_shard i pub - 1 ->
    pipe_inv (sharded.MkSharded (<[i := sharded.MkShard r' (sharded.results sh)]> (sharded.shards p))
      (sharded.shard_count p) (sharded.capacity_per_shard p)) pub) as Herr.
  { intros r' Hr'. by eapply pipe_inv_insert. }
  destruct free; cbn [negb]; [|intros [= <- <-]; destruct (Hres r); split_and!; [done|done|by apply Herr]].
  unfold pipeline.publish_event. destruct (ring_buffer.has_available_capacity r); cbn [negb];
    [|intros [= <- <-]; destruct (Hres r); split_and!; [done|done|by apply Herr]].
  unfold ring_buffer.next_sequence, sequence.increment. rewrite Hw.
  pose proof (on_shard_le i pub). rewrite as_signed_id by lia. intros [= <- <-].
  match goal with |- context [sharded.MkShard ?r' _] => destruct (Hres r') as [_ Hr'] end.
  split_and!; [done|done|lia|]. intros w Hwr. eapply pipe_inv_insert; [done|done| |].
  - cbn. rewrite on_shard_app, on_shard_one, bool_decide_eq_true_2 by done. lia.
  - intros j Hj. rewrite on_shard_app, on_shard_one, bool_decide_eq_false_2 by congruence. lia.
Qed.

(** A response code is backed by the results map: 0 only for a stored commit. *)
Definition code_ok (p : Pipeline) (w : Waiter) (c : Z) : Prop :=
  c = 1 \/ c = 0 /\ exists i t, result_of w p = Some (event.Committed i t).

Definition task_id (t : Task) : nat := match t with Polling k _ | Sending k _ _ => k end.
Definition task_ok (pub : list Waiter) (p : Pipeline) (t : Task) : Prop :=
  match t with
  | Polling k w => pub !! k = Some w
  | Sending k w c => pub !! k = Some w /\ code_ok p w c
  end.
Definition response_ok (pub : list Waiter) (p : Pipeline) (r : Response) : Prop :=
  exists w c, pub !! answers r = Some w /\ to_peer r = peer w /\ bytes r = response_bytes (number w) c /\ code_ok p w c.

(** The packets somebody is responsible for, and those answered. *)
Definition in_hand (c : Pc) : list nat := match c with Acquiring k _ => [k] | _ => [] end.
Definition ids_of (s : Server) : list nat :=
  in_hand (pc s) ++ (task_id <$> tasks s) ++ (answers <$> queue s ++ transmitted s ++ lost s).

(** Every packet waits for the shard it was routed to, under its place among the packets of
    that shard. *)
Definition log_ok (n : Z) (pub : list Waiter) : Prop :=
  forall k w, pub !! k = Some w ->
    shard_id w = routed_to w /\ routed_to w = Z.to_nat (debit_of (w_event w) mod n) /\
    ring_seq w = on_shard (routed_to w) (take k pub).

(** [cap]: a bound of the running tasks. *)
Record server_inv (cap : nat) (s : Server) : Prop := {
  sv_pipe : pipe_inv (pipeline s) (published s);
  sv_log : log_ok (sharded.shard_count (pipeline s)) (published s);
  sv_ids : ids_of s ≡ₚ seq 0 (length (published s));
  sv_pc : match pc s with Acquiring k w => published s !! k = Some w | _ => True end;
  sv_tasks : Forall (task_ok (published s) (pipeline s)) (tasks s);
  sv_responses : Forall (response_ok (published s) (pipeline s)) (queue s ++ transmitted s ++ lost s);
  sv_running : (length (tasks s) <= cap)%nat;
  sv_queued : Z.of_nat (length (queue s)) <= RESPONSE_QUEUE;
  sv_sent : packets_sent s = as_unsigned 64 (Z.of_nat (length (transmitted s)));
}.

(** Results are only added, packets only appended. *)
Definition extends (pub : list Waiter) (p : Pipeline) (pub' : list Waiter) (p' : Pipeline) : Prop :=
  pub `prefix_of` pub' /\ forall w r, result_of w p = Some r -> result_of w p' = Some r.

Lemma code_ok_mono pub p pub' p' w c : extends pub p pub' p' -> code_ok p w c -> code_ok p' w c.
Proof. intros [_ Hr] [->|(-> & i & t & H)]; [by left|]. right. split; [done|]. exists i, t. by apply Hr. Qed.

Lemma task_ok_mono pub p pub' p' t : extends pub p pub' p' -> task_ok pub p t -> task_ok pub' p' t.
Proof.
  intros H. pose proof H as [Hp _]. destruct t as [k w|k w c]; cbn; [intros Hk; by eapply prefix_lookup_Some|].
  intros [Hk Hc]. split; [by eapply prefix_lookup_Some|by eapply code_ok_mono].
Qed.

Lemma response_ok_mono pub p pub' p' r : extends pub p pub' p' -> response_ok pub p r -> response_ok pub' p' r.
Proof.
  intros H (w & c & Hk & Ht & Hb & Hc). pose proof H as [Hp _]. exists w, c.
  split_and!; [by eapply prefix_lookup_Some|done|done|by eapply code_ok_mono].
Qed.

(** Changing the pipeline and the program counter only. *)
Lemma inv_pipeline cap s c p n :
  server_inv cap s -> in_hand (pc s) = [] -> in_hand c = [] ->
  pipe_inv p (published s) -> sharded.shard_count p = sharded.shard_count (pipeline s) ->
  (forall w r, result_of w (pipeline s) = Some r -> result_of w p = Some r) ->
  server_inv cap (MkServer c (shutdown s) p n (packets_sent s) (tasks s) (queue s) (published s) (transmitted s) (lost s)).
Proof.
  intros [] Hpc Hc Hp Hn Hr. assert (extends (published s) (pipeline s) (published s) p) as He by done.
  constructor; cbn [pc pipeline packets_sent tasks queue published transmitted lost]; try done.
  - by rewrite Hn.
  - unfold ids_of in *. cbn [pc tasks queue transmitted lost]. by rewrite Hc, Hpc in *.
  - by destruct c.
  - eapply Forall_impl; [done|]. intros t. by apply task_ok_mono.
  - eapply Forall_impl; [done|]. intros t. by apply response_ok_mono.
Qed.

Lemma log_ok_snoc n pub w :
  log_ok n pub -> shard_id w = routed_to w -> routed_to w = Z.to_nat (debit_of (w_event w) mod n) ->
  ring_seq w = on_shard (routed_to w) pub -> log_ok n (pub ++ [w]).
Proof.
  intros Hl H1 H2 H3 k x Hk. apply lookup_app_Some in Hk as [Hk|[Hge Hk]].
  - pose proof (lookup_lt_Some _ _ _ Hk). rewrite take_app_le by lia. by apply Hl.
  - apply list_lookup_singleton_Some in Hk as [Hz <-]. assert (k = length pub) as -> by lia.
    by rewrite take_app_length.
Qed.

Lemma receive_inv cap clock progress from d s s' :
  server_inv cap s -> pc s = Receiving -> Z.of_nat (length (published s)) < 2 ^ 63 - 1 ->
  (forall n r, ring_buffer.claim (progress n r) = ring_buffer.claim r) ->
  receive clock progress from d s = Some s' -> server_inv cap s'.
Proof.
  intros Hi Hpc Hlen Hp. unfold receive. cbv zeta.
  assert (server_inv cap (set_pc Checking (count_received s))) as H0.
  { apply (inv_pipeline cap s Checking (pipeline s)); try done; [by rewrite Hpc|by eapply sv_pipe]. }
  destruct (negb _); [by intros [= <-]|].
  destruct (deserialize_event_static clock _) as [ev|e]; [|by intros [= <-]].
  cbn [pipeline set_pc count_received published packets_received packets_sent tasks queue transmitted lost shutdown].
  destruct (sharded.publish_event debit_of progress ev (pipeline s)) as [[[q|e] p]|] eqn:E; [| |done];
    apply (publish_spec progress ev (pipeline s) (published s)) in E as (Hn & Hres & Hq); try done; try by eapply sv_pipe.
  2:{ intros [= <-]. apply (inv_pipeline cap s Checking p); try done; [by rewrite Hpc|]. intros w r. unfold result_of. by rewrite Hres. }
  destruct (sharded.shard_results _ p) as [m|]; [|done]. intros [= <-].
  destruct Hq as [-> Hq]. pose proof (sv_pipe cap s Hi) as Hpi.
  assert (sharded.route_to_shard (debit_of ev) (sharded.shard_count (pipeline s)) =
          debit_of ev mod sharded.shard_count (pipeline s)) as Hrt.
  { pose proof (pi_count _ _ Hpi) as Hv. unfold sharded.valid_count in Hv. bool_to_prop. apply route_mod; [done|lia]. }
  rewrite Hrt. set (k := Z.to_nat _) in *. set (w := MkWaiter _ _ _ _ _ _).
  destruct Hi. assert (extends (published s) (pipeline s) (published s ++ [w]) p) as He.
  { split; [by apply prefix_app_r|]. intros x r. unfold result_of. by rewrite Hres. }
  constructor; cbn [pc pipeline packets_sent tasks queue published transmitted lost]; try done.
  - by apply Hq.
  - rewrite Hn. by apply log_ok_snoc.
  - rewrite length_app, seq_app, Nat.add_0_l. cbn. unfold ids_of in *. cbn [pc tasks queue transmitted lost in_hand].
    rewrite Hpc in sv_ids0. cbn [in_hand app] in *. rewrite <- sv_ids0. apply Permutation_cons_append.
  - apply list_lookup_middle. done.
  - eapply Forall_impl; [done|]. intros t. by apply task_ok_mono.
  - eapply Forall_impl; [done|]. intros t. by apply response_ok_mono.
Qed.

(** The task of a published packet is spawned. *)
Lemma udp_spawn_inv cap s k w :
  server_inv cap s -> pc s = Acquiring k w -> (length (tasks s) < cap)%nat ->
  server_inv cap (set_pc Checking (set_tasks (tasks s ++ [Polling k w]) s)).
Proof.
  intros [] Hpc Hlt. rewrite Hpc in sv_pc0.
  constructor; cbn [set_pc set_tasks pc pipeline packets_sent tasks queue published transmitted lost]; try done.
  - unfold ids_of in *. cbn [set_pc set_tasks pc tasks queue transmitted lost in_hand]. rewrite Hpc in sv_ids0. cbn [in_hand] in *.
    rewrite <- sv_ids0, (fmap_app task_id), <- app_assoc. cbn. symmetry. apply Permutation_middle.
  - apply Forall_app_2; [done|]. by apply Forall_singleton.
  - rewrite length_app. cbn. lia.
Qed.

Lemma acquire_inv s s' : server_inv MAX_IN_FLIGHT s -> acquire s = Some s' -> server_inv MAX_IN_FLIGHT s'.
Proof.
  intros Hi. unfold acquire. destruct (pc s) as [| |k w|] eqn:Hpc; try done.
  destruct (Nat.ltb_spec (length (tasks s)) MAX_IN_FLIGHT); [|done]. intros [= <-]. by apply udp_spawn_inv.
Qed.

(** A task learns the code of its response. *)
Lemma decide_inv cap s i k w c :
  server_inv cap s -> tasks s !! i = Some (Polling k w) -> code_ok (pipeline s) w c ->
  server_inv cap (set_tasks (<[i := Sending k w c]> (tasks s)) s).
Proof.
  intros [] Hi Hc. constructor; cbn [set_tasks pc pipeline packets_sent tasks queue published transmitted lost]; try done.
  - unfold ids_of in *. cbn [set_tasks pc tasks queue transmitted lost]. rewrite list_fmap_insert. cbn [task_id].
    rewrite list_insert_id; [done|]. by rewrite list_lookup_fmap, Hi.
  - apply Forall_insert; [done|]. split; [|done]. by apply (Forall_lookup_1 _ _ _ _ sv_tasks0 Hi).
  - by rewrite length_insert.
Qed.

Lemma found_inv cap i s s' : server_inv cap s -> found i s = Some s' -> server_inv cap s'.
Proof.
  intros Hs H. unfold found in H. destruct (tasks s !! i) as [[k w|]|] eqn:Hi; try done.
  destruct (result_of w (pipeline s)) as [r|] eqn:Hr; [|done]. injection H as <-. eapply decide_inv; [done|done|].
  destruct r as [tid t|e]; [|by left]. right. split; [done|]. by exists tid, t.
Qed.

Lemma timed_out_inv cap i s s' : server_inv cap s -> timed_out i s = Some s' -> server_inv cap s'.
Proof.
  intros Hs H. unfold timed_out in H. destruct (tasks s !! i) as [[k w|]|] eqn:Hi; try done. injection H as <-.
  eapply decide_inv; [done|done|by left].
Qed.

Lemma enqueue_inv cap i s s' : server_inv cap s -> enqueue i s = Some s' -> server_inv cap s'.
Proof.
  intros []. unfold enqueue. destruct (tasks s !! i) as [[k w|k w c]|] eqn:Hi; try done.
  destruct (Z.ltb_spec (Z.of_nat (length (queue s))) RESPONSE_QUEUE); [|done]. intros [= <-].
  pose proof (delete_Permutation _ _ _ Hi) as Hd.
  pose proof (Forall_lookup_1 _ _ _ _ sv_tasks0 Hi) as [Hk Hc].
  constructor; cbn [pc pipeline packets_sent tasks queue published transmitted lost]; try done.
  - unfold ids_of in *. cbn [pc tasks queue transmitted lost]. rewrite <- sv_ids0.
    rewrite (fmap_Permutation task_id _ _ Hd), !fmap_app. cbn. rewrite <- !app_assoc. cbn. solve_Permutation.
  - by apply Forall_delete.
  - rewrite Forall_app in *. rewrite Forall_app, Forall_singleton. destruct sv_responses0. split_and!; try done. by exists w, c.
  - rewrite length_delete by done. lia.
  - rewrite length_app. cbn. lia.
Qed.

Lemma transmit_inv cap ok s s' : server_inv cap s -> transmit ok s = Some s' -> server_inv cap s'.
Proof.
  intros []. unfold transmit. destruct (queue s) as [|r l] eqn:Hq; [done|].
  assert (Forall (response_ok (published s) (pipeline s)) (l ++ transmitted s ++ lost s ++ [r])) as Hr.
  { rewrite <- app_comm_cons, Forall_cons in sv_responses0. destruct sv_responses0. rewrite !app_assoc, <- (app_assoc l).
    apply Forall_app_2; [done|]. by apply Forall_singleton. }
  rewrite !Forall_app in Hr. destruct Hr as (? & ? & ? & ?).
  destruct ok; intros [= <-]; constructor; cbn [pc pipeline packets_sent tasks queue published transmitted lost]; try done.
  - unfold ids_of in *. cbn [pc tasks queue transmitted lost]. rewrite <- sv_ids0, Hq, !fmap_app. cbn. solve_Permutation.
  - by rewrite !Forall_app.
  - cbn in sv_queued0. lia.
  - rewrite sv_sent0, length_app. unfold as_unsigned. rewrite Zplus_mod_idemp_l. f_equal. cbn. lia.
  - unfold ids_of in *. cbn [pc tasks queue transmitted lost]. rewrite <- sv_ids0, Hq, !fmap_app. cbn. solve_Permutation.
  - by rewrite !Forall_app.
  - cbn in sv_queued0. lia.
Qed.

Lemma engine_inv cap i r new s s' : server_inv cap s -> engine_turn i r new s = Some s' -> server_inv cap s'.
Proof.
  intros Hs. unfold engine_turn. destruct (sharded.shards (pipeline s) !! i) as [sh|] eqn:Hi; [|done].
  destruct (Z.eqb_spec (ring_buffer.claim r) (ring_buffer.claim (sharded.ring sh))) as [Hc|]; cbn [negb]; [|done].
  assert (forall m, (forall q v, sharded.results sh !! q = Some v -> m !! q = Some v) ->
    server_inv cap (set_pipeline (sharded.MkSharded (<[i := sharded.MkShard r m]> (sharded.shards (pipeline s)))
      (sharded.shard_count (pipeline s)) (sharded.capacity_per_shard (pipeline s))) s)) as Hput.
  { intros m Hm. pose proof (sv_pipe cap s Hs) as Hp.
    assert (forall w v, result_of w (pipeline s) = Some v ->
      result_of w (sharded.MkSharded (<[i := sharded.MkShard r m]> (sharded.shards (pipeline s)))
        (sharded.shard_count (pipeline s)) (sharded.capacity_per_shard (pipeline s))) = Some v) as Hr.
    { intros w v. unfold result_of. erewrite results_insert by done. case_bool_decide as Hw; [|done].
      rewrite Hw. unfold sharded.shard_results. rewrite Hi. cbn. apply Hm. }
    destruct Hs. constructor; cbn [set_pipeline pc pipeline packets_sent tasks queue published transmitted lost]; try done.
    - eapply pipe_inv_insert; [done|done| |done]. cbn. rewrite Hc. by apply (pi_claim _ _ Hp).
    - eapply Forall_impl; [done|]. intros t. by apply task_ok_mono.
    - eapply Forall_impl; [done|]. intros t. by apply response_ok_mono. }
  destruct new as [[q v]|]; [|intros [= <-]; by apply Hput].
  destruct (sharded.results sh !! q) eqn:Eq; [done|]. intros [= <-]. apply Hput. intros q' v' H'.
  rewrite lookup_insert_ne; [done|]. by intros ->; rewrite H' in Eq.
Qed.

Lemma inv_pc cap s c b :
  server_inv cap s -> in_hand (pc s) = in_hand c -> match c with Acquiring k w => pc s = c | _ => True end ->
  server_inv cap (MkServer c b (pipeline s) (packets_received s) (packets_sent s) (tasks s) (queue s) (published s)
    (transmitted s) (lost s)).
Proof.
  intros [] Hc Ha. constructor; cbn [pc pipeline packets_sent tasks queue published transmitted lost]; try done.
  - unfold ids_of in *. cbn [pc tasks queue transmitted lost]. by rewrite <- Hc.
  - destruct c; try done. by rewrite Ha in sv_pc0.
Qed.

Lemma udp_step_inv s s' :
  server_inv MAX_IN_FLIGHT s -> Z.of_nat (length (published s)) < 2 ^ 63 - 1 -> step s s' -> server_inv MAX_IN_FLIGHT s'.
Proof.
  intros Hs Hlen Hstep. destruct Hstep.
  - destruct (shutdown s); apply inv_pc; try done; by rewrite H.
  - by eapply receive_inv.
  - apply inv_pc; try done. by rewrite H.
  - by eapply acquire_inv.
  - by eapply found_inv.
  - by eapply timed_out_inv.
  - by eapply enqueue_inv.
  - by eapply transmit_inv.
  - by eapply engine_inv.
  - apply inv_pc; try done. by destruct (pc s).
Qed.

Lemma step_published s s' : step s s' -> (length (published s) <= length (published s'))%nat.
Proof.
  intros [s0 E|clock progress from d s0 s1 E Hp H|s0 E|s0 s1 H|i s0 s1 H|i s0 s1 H|i s0 s1 H|ok s0 s1 H|i r new s0 s1 H|s0];
    try done.
  - unfold receive in H. cbv zeta in H. destruct (negb _); [by simplify_eq/=|].
    destruct (deserialize_event_static clock _); [|by simplify_eq/=].
    destruct (sharded.publish_event _ _ _ _) as [[[q|e] p]|]; [|by simplify_eq/=|done].
    destruct (sharded.shard_results _ p); [|done]. injection H as <-. cbn. rewrite length_app. lia.
  - unfold acquire in H. destruct (pc s0); try done. destruct (_ <? _)%nat; by simplify_eq/=.
  - unfold found in H. destruct (tasks s0 !! i) as [[]|]; try done. destruct (result_of _ _); by simplify_eq/=.
  - unfold timed_out in H. destruct (tasks s0 !! i) as [[]|]; by simplify_eq/=.
  - unfold enqueue in H. destruct (tasks s0 !! i) as [[]|]; try done. destruct (_ <? _); by simplify_eq/=.
  - unfold transmit in H. destruct (queue s0); [done|]. destruct ok; by simplify_eq/=.
  - unfold engine_turn in H. destruct (sharded.shards (pipeline s0) !! i); [|done]. destruct (negb _); [done|].
    destruct new as [[]|]; [destruct (sharded.results _ !! _); [done|]|]; by simplify_eq/=.
Qed.

Lemma build_shards_inv default_event n cap (l : list (sharded.Shard (E := TransactionEvent) (R := TransactionResult))) :
  sharded.build_shards default_event n cap = Ok l ->
  length l = n /\ forall i sh, l !! i = Some sh -> ring_buffer.claim (sharded.ring sh) = -1.
Proof.
  revert l. induction n as [|n IH]; intros l; cbn [sharded.build_shards]; [by intros [= <-]|].
  intros (sh & Hsh & (l' & Hl & [= <-])%rbind_ok)%rbind_ok. apply IH in Hl as [Hl1 Hl2].
  split; [cbn; by f_equal|]. intros [|i] x Hx; [|by eapply Hl2]. injection Hx as <-.
  unfold sharded.build_shard in Hsh. apply rbind_ok in Hsh as (st & Hst & [= <-]).
  unfold pipeline.build in Hst. apply rbind_ok in Hst as (r & Hr & [= <-]).
  unfold ring_buffer.new in Hr. destruct (negb _) in Hr; [done|]. by injection Hr as <-.
Qed.

Lemma start_inv bound default_event count cap p :
  sharded.valid_count count = true -> sharded.new default_event count cap = Ok p -> server_inv bound (start p).
Proof.
  intros Hv Hn. unfold sharded.new in Hn. apply rbind_ok in Hn as (l & Hl & [= <-]).
  apply build_shards_inv in Hl as [Hl1 Hl2].
  constructor; cbn [start pc pipeline packets_sent tasks queue published transmitted lost]; try done.
  apply Nat.le_0_l.
Qed.

Lemma udp_reachable_inv default_event count cap p s :
  sharded.valid_count count = true -> sharded.new default_event count cap = Ok p -> reachable p s ->
  Z.of_nat (length (published s)) < 2 ^ 63 - 1 -> server_inv MAX_IN_FLIGHT s.
Proof.
  intros Hv Hn Hr. revert s Hr.
  apply (rtc_ind_r (R := step) (fun s => Z.of_nat (length (published s)) < 2 ^ 63 - 1 -> server_inv MAX_IN_FLIGHT s)).
  - intros _. by eapply start_inv.
  - intros s s' _ Hst IH Hlen. pose proof (step_published s s' Hst). eapply udp_step_inv; [apply IH; lia|lia|done].
Qed.

(** What the invariant says of the answers. *)
Lemma answers_sound cap s :
  server_inv cap s ->
  let responses := queue s ++ transmitted s ++ lost s in
  NoDup (answers <$> responses) /\
  (forall r, r ∈ responses -> exists w c, published s !! answers r = Some w /\ to_peer r = peer w /\
     bytes r = response_bytes (number w) c /\
     (c = 1 \/ c = 0 /\ exists i t, (sharded.shard_results (routed_to w) (pipeline s) ≫= fun m => m !! ring_seq w) =
                                    Some (event.Committed i t))) /\
  (forall a b w w', published s !! a = Some w -> published s !! b = Some w' ->
     routed_to w = routed_to w' -> ring_seq w = ring_seq w' -> a = b) /\
  (length (tasks s) <= cap)%nat /\ Z.of_nat (length (queue s)) <= RESPONSE_QUEUE.
Proof.
  intros []. cbv zeta.
  rewrite Forall_forall in sv_responses0. split_and!; try done.
  - assert (NoDup (ids_of s)) as Hd by (rewrite sv_ids0; apply NoDup_seq).
    unfold ids_of in Hd. apply NoDup_app in Hd as (_ & _ & Hd). by apply NoDup_app in Hd as (_ & _ & Hd).
  - intros r Hin. destruct (sv_responses0 r Hin) as (w & c & Hk & Hp & Hb & Hc). exists w, c.
    destruct (sv_log0 _ _ Hk) as (E & _). unfold code_ok, result_of in Hc. by rewrite E in Hc.
  - assert (forall a b w w', published s !! a = Some w -> published s !! b = Some w' -> (a < b)%nat ->
              routed_to w = routed_to w' -> ring_seq w <> ring_seq w') as Hlt.
    { intros a b w w' Ha Hb Hab Er Es. destruct (sv_log0 _ _ Ha) as (_ & _ & E1), (sv_log0 _ _ Hb) as (_ & _ & E2).
      rewrite E1, E2, Er in Es. pose proof (take_S_r (published s) a w Ha) as Hs.
      assert (take b (published s) = take (S a) (published s) ++ drop (S a) (take b (published s))) as E.
      { rewrite <- (take_drop (S a) (take b (published s))) at 1. by rewrite take_take, Nat.min_l by lia. }
      rewrite E, on_shard_app, Hs, on_shard_app, on_shard_one, bool_decide_eq_true_2 in Es by done.
      pose proof (on_shard_le (routed_to w') (drop (S a) (take b (published s)))). lia. }
    intros a b w w' Ha Hb Er Es. destruct (lt_eq_lt_dec a b) as [[Hab|]|Hab]; [|done|].
    + by destruct (Hlt a b w w').
    + by destruct (Hlt b a w' w).
Qed.

(** C39: under every interleaving of the receive loop, the waiting tasks, the send task and the
    engine, on a validated pipeline: a packet is answered at most once, to the peer that sent
    it and with the number it carried; the code 0 is only sent when the engine has committed
    the result of that very packet, under the shard its debit account routes to and a
    sequence no other packet has; and neither the tasks nor the queue exceed their bounds. *)
Theorem udp_answers_sound (default_event : nat -> TransactionEvent) (count cap : Z) (p : Pipeline) (s : Server) :
  sharded.valid_count count = true -> sharded.new default_event count cap = Ok p -> reachable p s ->
  Z.of_nat (length (published s)) < 2 ^ 63 - 1 ->
  let responses := queue s ++ transmitted s ++ lost s in
  NoDup (answers <$> responses) /\
  (forall r, r ∈ responses -> exists w c, published s !! answers r = Some w /\ to_peer r = peer w /\
     bytes r = response_bytes (number w) c /\
     (c = 1 \/ c = 0 /\ exists i t, (sharded.shard_results (routed_to w) (pipeline s) ≫= fun m => m !! ring_seq w) =
                                    Some (event.Committed i t))) /\
  (forall a b w w', published s !! a = Some w -> published s !! b = Some w' ->
     routed_to w = routed_to w' -> ring_seq w = ring_seq w' -> a = b) /\
  (length (tasks s) <= MAX_IN_FLIGHT)%nat /\ Z.of_nat (length (queue s)) <= RESPONSE_QUEUE.
Proof. intros Hv Hn Hr Hlen. exact (answers_sound _ _ (udp_reachable_inv _ _ _ _ _ Hv Hn Hr Hlen)). Qed.
End server.

Module udp_examples.
Import udp.
#[local] Existing Instance uid.lib.

(** A payment of 5 dollars from account [d] to account 2. *)
Definition packet (n d : Z) : Packet := MkPacket n 7 d 2 500 1000 0 1 0 0.
Definition blank (n : nat) : TransactionEvent := event.new 0 (from_u64 0) (from_u64 0) (from_u64 0) 0 LedgerId_USD 0.
Definition still (n : nat) (r : RingBuffer TransactionEvent) : RingBuffer TransactionEvent := r.

Inductive Turn := Loop | Datagram (from : Z) (d : list Z) | Permit | Found (i : nat) | Late (i : nat) | Queue (i : nat)
  | Send (ok : bool) | Result (shard : nat) (q : Z) (r : TransactionResult).

Definition turn (t : Turn) (s : Server) : option Server :=
  match t with
  | Loop => match pc s with Checking => Some (set_pc (if shutdown s then Exited else Receiving) s) | _ => None end
  | Datagram from d => match pc s with Receiving => receive 0 still from d s | _ => None end
  | Permit => acquire s
  | Found i => found i s
  | Late i => timed_out i s
  | Queue i => enqueue i s
  | Send ok => transmit ok s
  | Result i q r =>
      match sharded.shards (pipeline s) !! i with
      | Some sh => engine_turn i (sharded.ring sh) (Some (q, r)) s
      | None => None
      end
  end.

Definition run (l : list Turn) (s : Server) : option Server := foldl (fun o t => o ≫= turn t) (Some s) l.

Lemma turn_step t s s' : turn t s = Some s' -> step s s'.
Proof.
  destruct t; cbn [turn].
  - destruct (pc s) eqn:E; try done. intros [= <-]. by apply step_check.
  - destruct (pc s) eqn:E; try done. intros H. by eapply step_receive.
  - apply step_acquire.
  - apply step_found.
  - apply step_timed_out.
  - apply step_enqueue.
  - apply step_transmit.
  - destruct (sharded.shards (pipeline s) !! shard); [|done]. apply step_engine.
Qed.

Lemma udp_run_reachable p l s : run l (start p) = Some s -> reachable p s.
Proof.
  unfold reachable. revert s. induction l as [|t l IH] using rev_ind; intros s; unfold run in *.
  - intros [= <-]. apply rtc_refl.
  - rewrite foldl_app. cbn. destruct (foldl _ _ l) as [s1|] eqn:E; [|done]. cbn. intros H.
    eapply rtc_r; [by apply IH|]. by eapply turn_step.
Qed.

Definition pipeline_of (count : Z) : option (sharded.ShardedPipeline (E := TransactionEvent) (R := TransactionResult)) :=
  ok_opt (sharded.new blank count 4).

Definition commit : TransactionResult := event.Committed (id_from_bytes (replicate 16 7)) (now 0).

(** One packet answered in time, one too late. *)
Definition schedule : list Turn :=
  [Loop; Datagram 80 (encode (packet 1 3)); Permit; Result 1 0 commit; Found 0; Queue 0; Send true;
   Loop; Datagram 81 (encode (packet 2 5)); Permit; Late 0; Queue 0; Send true; Result 1 1 commit].
Definition final : option Server := p ← pipeline_of 2; run schedule (start p).
Definition shards : sharded.ShardedPipeline (E := TransactionEvent) (R := TransactionResult) := Eval vm_compute in default (sharded.MkSharded [] 0 0) (pipeline_of 2).
Definition final_state : Server := Eval vm_compute in default (start shards) final.
Lemma final_run : run schedule (start shards) = Some final_state.
Proof. vm_refl. Qed.

(** What was sent to whom, and the results stored for the packets. *)
Definition view (s : Server) : list (Z * list Z) * list (option bool) :=
  ((fun r => (to_peer r, bytes r)) <$> transmitted s,
   (fun w => (fun r => match r with event.Committed _ _ => true | _ => false end) <$> result_of w (pipeline s)) <$> published s).

Lemma udp_packet_roundtrip_witness :
  in_range (packet 1 3) /\ deserialize_event_static 0 (drop HEADER_SIZE (encode (packet 1 3))) = Ok (event_of (packet 1 3)) /\
  exists p, in_range p /\ encode p = replicate 56 9.
Proof.
  assert (in_range (packet 1 3)) as H.
  { unfold in_range. rewrite !Forall_cons, Forall_nil. cbn. lia. }
  split_and!; [done|by apply (udp_packet_roundtrip 0)|]. apply (udp_packet_roundtrip 0); [done|].
  by apply Forall_replicate; split.
Defined.

(** A packet whose result comes after the 100 ms is answered with the code of a rejection,
    although the transfer is committed. *)
Example late_commit_reported_rejected :
  view <$> final = Some ([(80, response_bytes 1 0); (81, response_bytes 2 1)], [Some true; Some true]).
Proof. vm_refl. Qed.

Lemma udp_answers_sound_witness :
  exists s w, run schedule (start shards) = Some s /\ published s !! 0%nat = Some w /\ to_peer <$> transmitted s !! 0%nat = Some (peer w) /\
    NoDup (answers <$> queue s ++ transmitted s ++ lost s).
Proof.
  destruct (udp_answers_sound blank 2 4 shards final_state eq_refl eq_refl (udp_run_reachable shards schedule final_state final_run))
    as (Hd & Hr & _); [cbn; lia|].
  set (s := final_state) in *. assert (answers <$> transmitted s !! 0%nat = Some 0%nat) as Ha by reflexivity.
  destruct (transmitted s !! 0%nat) as [r|] eqn:Et; [|discriminate Ha]. cbn in Ha. injection Ha as Ha.
  destruct (Hr r) as (w & c & Hw & Hpeer & _).
  { apply elem_of_app. right. apply elem_of_app. left. by eapply list_elem_of_lookup_2. }
  exists s, w. rewrite Ha in Hw. split_and!; [exact final_run|exact Hw| |exact Hd]. rewrite Et. cbn. by rewrite Hpeer.
Defined.

(** A longer datagram is cut to 56 bytes before its length is compared, and accepted. *)
Example oversized_packet_accepted :
  (fun s => length (published s)) <$> (p ← pipeline_of 2; run [Loop; Datagram 80 (encode (packet 1 3) ++ [1; 2; 3])] (start p)) =
  Some 1%nat.
Proof. vm_refl. Qed.

(** The server takes the remainder, the pipeline the mask: with three shards, which the
    constructor accepts, account 3 is published to shard 2 and awaited on shard 0. *)
Example wrong_shard_polled :
  (fun s => (fun w => (routed_to w, shard_id w)) <$> published s) <$>
    (p ← pipeline_of 3; run [Loop; Datagram 80 (encode (packet 1 3))] (start p)) = Some [(2%nat, 0%nat)].
Proof. vm_refl. Qed.
End udp_examples.
