(* ===== verification/UringUdp.v ===== *)
(** * core/transport/io_uring_transport.rs: the UDP server on io_uring

    The receive loop, the waiting tasks and the send task of [uring_udp_recv_loop], as a step
    relation over the state of [Udp].  Against udp_transport.rs the datagram is not cut to the
    size of a packet but refused, there is no limit of tasks, and everything runs on the
    runtime of the receive loop, which ends with it.  The loop awaits nothing between
    publishing a packet and spawning its task.  Before a datagram the loop takes a free buffer
    of the pool ([slots] of Uring.v) and gives it back at once; none is held here. *)

From stdpp Require Import base numbers list gmap strings relations.
From Stdlib Require Import ZArith Lia.
From S2P Require Import Prelude External ExternalModel Common Timestamp Event RingBuffer Pipeline.
From S2P Require Import Sharded Udp.

Module uring_udp.
Import udp.
Definition UDP_HEADER_SIZE : nat := 8.
Definition UDP_PAYLOAD_SIZE : nat := 48.
Definition UDP_PACKET_SIZE : nat := 56.
Definition RECV_BUFFER_SIZE : nat := 2048.

Section uring_udp.
Context `{UL : UuidLib}.
Notation Pipeline := (sharded.ShardedPipeline (E := TransactionEvent) (R := TransactionResult)).

Definition udp_deserialize_event (clock : Z) (bytes : list Z) : BlazerResult TransactionEvent :=
  if negb (length bytes =? UDP_PAYLOAD_SIZE)%nat
  then Err (Internal ("io_uring UDP: invalid payload size: expected " +:+ string_of_Z (Z.of_nat UDP_PAYLOAD_SIZE) +:+ ", got " +:+
              string_of_Z (Z.of_nat (length bytes))))
  else
    let tx_id := field 0 8 bytes in
    let debit_id := field 8 8 bytes in
    let credit_id := field 16 8 bytes in
    let amount := field 24 8 bytes in
    let timestamp_nanos := field 32 8 bytes in
    let ledger_u32 := field 40 4 bytes in
    let code := field 44 2 bytes in
    let flags_byte := field 46 1 bytes in
    let e := event.new clock (from_u64 tx_id) (from_u64 debit_id) (from_u64 credit_id) amount
               (ledger_of_wire ledger_u32) code in
    Ok (event.MkEvent (event.sequence e) (event.transaction_id e) (event.debit_account_id e)
          (event.credit_account_id e) (event.amount_units e) (from_nanos timestamp_nanos)
          (event.ledger_id e) (event.code e) (event_flags.from_raw flags_byte) (event.pending_transfer_id e)).

(** One datagram: the turn of the receive loop with the task it spawns. *)
Definition receive (clock : Z) (progress : nat -> RingBuffer TransactionEvent -> RingBuffer TransactionEvent)
    (from : Z) (datagram : list Z) (s : Server) : option Server :=
  let packet_bytes := take RECV_BUFFER_SIZE datagram in
  let s := set_pc Checking (count_received s) in
  if negb (length packet_bytes =? UDP_PACKET_SIZE)%nat then Some s
  else
    let sequence := field 0 8 packet_bytes in
    match udp_deserialize_event clock (drop UDP_HEADER_SIZE packet_bytes) with
    | Err _ => Some s
    | Ok ev =>
        let shard := Z.to_nat (debit_of ev mod sharded.shard_count (pipeline s)) in
        match sharded.publish_event debit_of progress ev (pipeline s) with
        | None => None
        | Some (Err _, p) => Some (set_pipeline p s)
        | Some (Ok q, p) =>
            match sharded.shard_results shard p with None => None | Some _ =>
            let w := MkWaiter from sequence shard q ev
                       (Z.to_nat (sharded.route_to_shard (debit_of ev) (sharded.shard_count (pipeline s)))) in
            Some (MkServer Checking (shutdown s) p (packets_received s) (packets_sent s)
                    (tasks s ++ [Polling (length (published s)) w]) (queue s) (published s ++ [w]) (transmitted s) (lost s))
            end
        end
    end.

(** The tasks and the send task ([found], [timed_out], [enqueue], [transmit]) are those of
    udp_transport.rs, but for the end of the runtime. *)
Inductive step : Server -> Server -> Prop :=
  | step_check s : pc s = Checking -> step s (set_pc (if shutdown s then Exited else Receiving) s)
  | step_receive clock progress from d s s' :
      pc s = Receiving -> (forall n r, ring_buffer.claim (progress n r) = ring_buffer.claim r) ->
      receive clock progress from d s = Some s' -> step s s'
  | step_receive_error s : pc s = Receiving -> step s (set_pc Checking s)
  | step_found i s s' : pc s <> Exited -> found i s = Some s' -> step s s'
  | step_timed_out i s s' : pc s <> Exited -> timed_out i s = Some s' -> step s s'
  | step_enqueue i s s' : pc s <> Exited -> enqueue i s = Some s' -> step s s'
  | step_transmit ok s s' : pc s <> Exited -> transmit ok s = Some s' -> step s s'
  | step_engine i r new s s' : engine_turn i r new s = Some s' -> step s s'
  | step_shutdown s : step s (set_shutdown s).

Definition reachable (p : Pipeline) (s : Server) : Prop := rtc step (start p) s.
End uring_udp.
End uring_udp.

Section uring_udp_theorems.
Context `{UL : UuidLib}.
Import udp.

(** The two decoders differ in the text of an error only. *)
Lemma deserialize_same clock bytes ev :
  uring_udp.udp_deserialize_event clock bytes = Ok ev <-> deserialize_event_static clock bytes = Ok ev.
Proof. unfold uring_udp.udp_deserialize_event, deserialize_event_static, uring_udp.UDP_PAYLOAD_SIZE, PAYLOAD_SIZE. by destruct (negb _). Qed.

(** A turn is a turn of udp_transport.rs without waiting for a permit. *)
Lemma receive_split clock progress from d s s' :
  uring_udp.receive clock progress from d s = Some s' ->
  s' = set_pc Checking (count_received s) \/
  exists s1, receive clock progress from d s = Some s1 /\
    (s' = s1 \/ exists k w, pc s1 = Acquiring k w /\ s' = set_pc Checking (set_tasks (tasks s1 ++ [Polling k w]) s1)).
Proof.
  unfold uring_udp.receive, receive. cbv zeta. unfold uring_udp.RECV_BUFFER_SIZE, uring_udp.UDP_PACKET_SIZE, PACKET_SIZE, uring_udp.UDP_HEADER_SIZE, HEADER_SIZE.
  destruct (Nat.eqb_spec (length (take 2048 d)) 56) as [Hl|]; [|intros [= <-]; by left]. cbn [negb].
  rewrite length_take in Hl. assert (length d = 56%nat) as Hd by lia.
  rewrite (take_ge d 2048), (take_ge d 56), Hd by lia. cbn [Nat.eqb negb].
  destruct (uring_udp.udp_deserialize_event clock _) as [ev|e] eqn:E; [|intros [= <-]; by left].
  apply deserialize_same in E. rewrite E. intros H. right.
  destruct (sharded.publish_event _ _ _ _) as [[[q|e] p]|]; [|injection H as <-; eexists; split; [done|by left]|done].
  destruct (sharded.shard_results _ p); [|done]. injection H as <-. eexists. split; [done|]. right. by eexists _, _.
Qed.

Lemma server_inv_mono cap cap' s : (cap <= cap')%nat -> server_inv cap s -> server_inv cap' s.
Proof. intros Hle []. constructor; try done. lia. Qed.

Lemma uring_step_inv cap s s' :
  server_inv cap s -> Z.of_nat (length (published s)) < 2 ^ 63 - 1 -> uring_udp.step s s' -> server_inv (S cap) s'.
Proof.
  intros Hs Hlen Hstep. pose proof (server_inv_mono cap (S cap) s ltac:(lia) Hs) as Hs'. destruct Hstep as [s E|clock progress from d s s' E Hp H|s E|i s s' _ H|i s s' _ H|i s s' _ H|ok s s' _ H|i r new s s' H|s].
  - destruct (shutdown s); apply inv_pc; try done; by rewrite E.
  - apply receive_split in H as [->|(s1 & H & [->|(k & w & Hpc & ->)])].
    + apply (inv_pipeline (S cap) s Checking (pipeline s)); try done; [by rewrite E|by eapply sv_pipe].
    + by eapply receive_inv.
    + assert (server_inv cap s1) as H1 by by eapply receive_inv.
      pose proof (sv_running cap s1 H1). apply udp_spawn_inv; [by apply (server_inv_mono cap); [lia|]|done|lia].
  - apply inv_pc; try done. by rewrite E.
  - by eapply found_inv.
  - by eapply timed_out_inv.
  - by eapply enqueue_inv.
  - by eapply transmit_inv.
  - by eapply engine_inv.
  - apply inv_pc; try done. by destruct (pc s).
Qed.

(** What a step leaves behind: packets are only added, and nothing is transmitted after the
    exit of the receive loop, which stays. *)
Lemma uring_step_keeps s s' :
  uring_udp.step s s' ->
  (length (published s) <= length (published s'))%nat /\
  (pc s = Exited -> pc s' = Exited /\ transmitted s' = transmitted s /\ tasks s' = tasks s /\ queue s' = queue s).
Proof.
  intros [s0 E|clock progress from d s0 s1 E Hp H|s0 E|i s0 s1 E H|i s0 s1 E H|i s0 s1 E H|ok s0 s1 E H|i r new s0 s1 H|s0].
  - split; [done|]. by rewrite E.
  - split; [|by rewrite E]. apply receive_split in H as [->|(s2 & H & Hs)]; [done|].
    assert (step s0 s2) as Hst by by eapply step_receive. apply step_published in Hst.
    by destruct Hs as [->|(k & w & _ & ->)].
  - split; [done|]. by rewrite E.
  - split; [|done]. apply (step_published s0). by eapply step_found.
  - split; [|done]. apply (step_published s0). by eapply step_timed_out.
  - split; [|done]. apply (step_published s0). by eapply step_enqueue.
  - split; [|done]. apply (step_published s0). by eapply step_transmit.
  - split; [apply (step_published s0); by eapply step_engine|]. intros E. unfold engine_turn in H.
    destruct (sharded.shards (pipeline s0) !! i); [|done]. destruct (negb _); [done|].
    destruct new as [[]|]; [destruct (sharded.results _ !! _); [done|]|]; by simplify_eq/=.
  - split; [done|]. intros E. by split_and!.
Qed.

Lemma uring_reachable_inv default_event count cap p s :
  sharded.valid_count count = true -> sharded.new default_event count cap = Ok p -> uring_udp.reachable p s ->
  Z.of_nat (length (published s)) < 2 ^ 63 - 1 -> exists bound, server_inv bound s.
Proof.
  intros Hv Hn Hr. revert s Hr.
  apply (rtc_ind_r (R := uring_udp.step) (fun s => Z.of_nat (length (published s)) < 2 ^ 63 - 1 -> exists bound, server_inv bound s)).
  - intros _. exists 0%nat. by eapply start_inv.
  - intros s s' _ Hst IH Hlen. destruct (uring_step_keeps s s' Hst) as [Hle _]. destruct IH as [bound Hi]; [lia|].
    exists (S bound). eapply uring_step_inv; [done|lia|done].
Qed.

(** the UDP server on io_uring answers like the other one, under every interleaving: a packet
    at most once, to its sender and with its number, with the code 0 only for the committed
    result of that very packet.  It ends with its receive loop: what has not been transmitted
    when the loop leaves is never sent. *)
Theorem uring_udp_answers_sound (default_event : nat -> TransactionEvent) (count cap : Z)
    (p : sharded.ShardedPipeline (E := TransactionEvent) (R := TransactionResult)) (s : Server) :
  sharded.valid_count count = true -> sharded.new default_event count cap = Ok p -> uring_udp.reachable p s ->
  Z.of_nat (length (published s)) < 2 ^ 63 - 1 ->
  let responses := queue s ++ transmitted s ++ lost s in
  NoDup (answers <$> responses) /\
  (forall r, r ∈ responses -> exists w c, published s !! answers r = Some w /\ to_peer r = peer w /\
     bytes r = response_bytes (number w) c /\
     (c = 1 \/ c = 0 /\ exists i t, (sharded.shard_results (routed_to w) (pipeline s) ≫= fun m => m !! ring_seq w) =
                                    Some (event.Committed i t))) /\
  (forall s', pc s = Exited -> rtc uring_udp.step s s' -> transmitted s' = transmitted s).
Proof.
  intros Hv Hn Hr Hlen. destruct (uring_reachable_inv _ _ _ _ _ Hv Hn Hr Hlen) as [bound Hi].
  destruct (answers_sound bound s Hi) as (Hd & Ha & _). split_and!; [done|done|].
  intros s' Hpc Hss. clear -Hpc Hss. induction Hss as [|s s1 s' Hst _ IH]; [done|].
  destruct (uring_step_keeps s s1 Hst) as [_ Hk]. destruct (Hk Hpc) as (Hpc1 & <- & _). by apply IH.
Qed.
End uring_udp_theorems.

Module uring_udp_examples.
Import udp udp_examples.
#[local] Existing Instance uid.lib.

Definition uring_turn (t : Turn) (s : Server) : option Server :=
  match t with
  | Loop => match pc s with Checking => Some (set_pc (if shutdown s then Exited else Receiving) s) | _ => None end
  | Datagram from d => match pc s with Receiving => uring_udp.receive 0 still from d s | _ => None end
  | Permit => Some (set_shutdown s)
  | Found i => match pc s with Exited => None | _ => found i s end
  | Late i => match pc s with Exited => None | _ => timed_out i s end
  | Queue i => match pc s with Exited => None | _ => enqueue i s end
  | Send ok => match pc s with Exited => None | _ => transmit ok s end
  | Result i q r =>
      match sharded.shards (pipeline s) !! i with
      | Some sh => engine_turn i (sharded.ring sh) (Some (q, r)) s
      | None => None
      end
  end.
Definition uring_run (l : list Turn) (s : Server) : option Server := foldl (fun o t => o ≫= uring_turn t) (Some s) l.

Lemma uring_turn_step t s s' : uring_turn t s = Some s' -> uring_udp.step s s'.
Proof.
  destruct t; cbn [uring_turn].
  - destruct (pc s) eqn:E; try done. intros [= <-]. by apply uring_udp.step_check.
  - destruct (pc s) eqn:E; try done. intros H. by eapply uring_udp.step_receive.
  - intros [= <-]. apply uring_udp.step_shutdown.
  - intros H. apply (uring_udp.step_found i); by destruct (pc s).
  - intros H. apply (uring_udp.step_timed_out i); by destruct (pc s).
  - intros H. apply (uring_udp.step_enqueue i); by destruct (pc s).
  - intros H. apply (uring_udp.step_transmit ok); by destruct (pc s).
  - destruct (sharded.shards (pipeline s) !! shard); [|done]. apply uring_udp.step_engine.
Qed.

Lemma uring_run_reachable p l s : uring_run l (start p) = Some s -> uring_udp.reachable p s.
Proof.
  unfold uring_udp.reachable. revert s. induction l as [|t l IH] using rev_ind; intros s; unfold uring_run in *.
  - intros [= <-]. apply rtc_refl.
  - rewrite foldl_app. cbn. destruct (foldl _ _ l) as [s1|] eqn:E; [|done]. cbn. intros H.
    eapply rtc_r; [by apply IH|]. by eapply uring_turn_step.
Qed.

(** A payment is committed, the server is shut down before its task runs again ([Permit]
    stands for the shutdown), and the receive loop leaves. *)
Definition stopped : list Turn :=
  [Loop; Datagram 80 (encode (packet 1 3)); Loop; Result 1 0 commit; Permit; Datagram 80 [0]; Loop].
Definition stopped_state : Server := Eval vm_compute in default (start shards) (uring_run stopped (start shards)).
Lemma stopped_run : uring_run stopped (start shards) = Some stopped_state.
Proof. vm_refl. Qed.

(** The committed payment is never answered. *)
Lemma uring_udp_answers_sound_witness :
  pc stopped_state = Exited /\ (fun w => result_of w (pipeline stopped_state)) <$> published stopped_state = [Some commit] /\
  forall s', rtc uring_udp.step stopped_state s' -> transmitted s' = [].
Proof.
  destruct (uring_udp_answers_sound blank 2 4 shards stopped_state eq_refl eq_refl
              (uring_run_reachable shards stopped stopped_state stopped_run)) as (_ & _ & H); [cbn; lia|].
  split; [reflexivity|]. split; [vm_refl|]. exact (fun s' => H s' eq_refl).
Defined.
End uring_udp_examples.
