(* ===== verification/Uring.v ===== *)
(** * core/transport/io_uring_transport.rs: the io_uring transports

    [tcp] translates the connection handler over [tokio_uring].  Unlike [read_exact], one read
    returns what has arrived: the inbound stream is the list of its segments, and a read takes
    at most the bytes asked for from the first one.  The rate limiter is consulted for every
    request.  [slots] is the bitset of receive buffers of the datagram loop; its packets are
    those of [Udp]. *)

From stdpp Require Import base numbers list gmap strings.
From Stdlib Require Import ZArith Lia SpecFloat.
From S2P Require Import Prelude External ExternalModel Common Timestamp Ledger InMemory Event Handlers.
From S2P Require Import HandlerProps Protocol Connection Aeron.

Module tcp.
Definition RATE_LIMIT_TPS : Z := 55000.
Definition RATE_LIMIT_BURST : Z := 1000.

(** What has arrived and not been read, segment by segment; what was sent. *)
Record Stream : Type := MkSegmented {
  segments : list (list Z);
  sent : list Z;
  accepts : bool;
}.

(** [stream.read(vec![0; n])]: the bytes read; none at the end of the stream. *)
Definition read (n : nat) (l : list (list Z)) : list Z * list (list Z) :=
  match l with
  | [] => ([], [])
  | seg :: l => (take n seg, match drop n seg with [] => l | rest => rest :: l end)
  end.

(** The buffer handed back: the bytes read over the zeros it was filled with. *)
Definition filled (n : nat) (got : list Z) : list Z := got ++ replicate (n - length got) 0.

(** The shared token bucket. *)
Class Limiter (P : Type) := try_consume : P -> bool * P.

Section tcp.
Context `{DL : DecimalLib, CL : CurrencyLib, UL : UuidLib}.
Context `{RQ : !protocol.Rmp protocol.TransactionRequest, RS : !protocol.Rmp protocol.TransactionResponse}.
Context {P : Type} `{EN : !connection.Engine P, LM : !Limiter P}.
Import connection.

(** The same functions as in aeron/transport.rs and connection.rs. *)
Definition build_event := transport.build_event.
Definition build_response := connection.build_response.
Definition uring_error_response := connection.error_response.
Definition wait_for_result := connection.wait_for_result (P := P).

Definition rate_limited (clock : Z) (request_id : string) : protocol.TransactionResponse :=
  protocol.MkResponse request_id false None (Some "rate limit exceeded (55K TPS max)"%string) (now_nanos clock).

(** Steps 3 to 8 of the loop: the response to one payload. *)
Definition answer (payload_buf : list Z) (p : P) : protocol.TransactionResponse * P :=
  match protocol.deserialize_request payload_buf with
  | Err e => timed (fun t => uring_error_response t "" e) p
  | Ok request =>
      let request_id := protocol.request_id request in
      let '(granted, p) := try_consume p in
      if negb granted then timed (fun t => rate_limited t request_id) p
      else
        let '(u, p) := uuid_v4 p in
        let '(t, p) := wall_clock p in
        match build_event u t request with
        | Err e => timed (fun t => uring_error_response t request_id e) p
        | Ok ev =>
            match publish_event ev p with
            | (Err e, p) => timed (fun t => uring_error_response t request_id e) p
            | (Ok s, p) =>
                match wait_for_result s p with
                | (None, p) => timed (fun t => timeout_response t request_id) p
                | (Some r, p) => timed (fun t => build_response t request_id r) p
                end
            end
        end
  end.

Definition write_frame_uring (response : protocol.TransactionResponse) (st : Stream) : Stream :=
  match protocol.serialize_response response with
  | Ok bytes => if accepts st then MkSegmented (segments st) (protocol.write_frame bytes (sent st)) (accepts st) else st
  | Err _ => st
  end.

Fixpoint handle_uring_connection (fuel : nat) (st : Stream) (p : P) : option (Stream * P) :=
  match fuel with
  | O => None
  | S fuel =>
      let hdr := read 4 (segments st) in
      let st := MkSegmented hdr.2 (sent st) (accepts st) in
      if (length hdr.1 <? 4)%nat then Some (st, p)
      else
        let payload_len := from_be_bytes hdr.1 in
        if protocol.MAX_FRAME_SIZE <? payload_len then Some (st, p)
        else
          let n := Z.to_nat payload_len in
          let body := read n (segments st) in
          let st := MkSegmented body.2 (sent st) (accepts st) in
          match body.1 with
          | [] => Some (st, p)
          | got => let '(resp, p) := answer (filled n got) p in
                   handle_uring_connection fuel (write_frame_uring resp st) p
          end
  end.
End tcp.
End tcp.

(** ** The receive buffers of the datagram loop *)
Module slots.
Definition RECV_BUFFER_COUNT : nat := 256.

Definition mask_of (slot : nat) : Z := Z.shiftl 1 (Z.of_nat (slot mod 64)).
Definition word_of (slot : nat) (in_flight : list Z) : Z := default 0 (in_flight !! (slot / 64)%nat).

(** The search for a free slot, at most [fuel] turns; nothing else writes the words, so the
    exchange succeeds. *)
Fixpoint acquire (fuel slot_cursor : nat) (in_flight : list Z) : option (nat * list Z) :=
  match fuel with
  | O => None
  | S fuel =>
      let current := word_of slot_cursor in_flight in
      if Z.land current (mask_of slot_cursor) =? 0
      then Some (slot_cursor, <[(slot_cursor / 64)%nat := Z.lor current (mask_of slot_cursor)]> in_flight)
      else acquire fuel ((slot_cursor + 1) mod RECV_BUFFER_COUNT)%nat in_flight
  end.

(** [fetch_and(!mask)] *)
Definition release (slot : nat) (in_flight : list Z) : list Z :=
  <[(slot / 64)%nat := Z.land (word_of slot in_flight) (Z.lxor (mask_of slot) u64_max)]> in_flight.

(** One turn of the receive loop: the slot is given back before the next one is taken. *)
Definition turn (s : nat * list Z) : option (nat * (nat * list Z)) :=
  '(slot, in_flight) ← acquire RECV_BUFFER_COUNT s.1 s.2;
  Some (slot, (((slot + 1) mod RECV_BUFFER_COUNT)%nat, release slot in_flight)).
End slots.

(** ** The connection handler *)
Section handler_theorems.
Context `{DL : DecimalLib, CL : CurrencyLib, UL : UuidLib}.
Context `{RQ : !protocol.Rmp protocol.TransactionRequest, RS : !protocol.Rmp protocol.TransactionResponse}.
Context {P : Type} `{EN : !connection.Engine P, LM : !tcp.Limiter P}.
Import tcp.

Fixpoint uring_answers (payloads : list (list Z)) (p : P) : list protocol.TransactionResponse * P :=
  match payloads with
  | [] => ([], p)
  | x :: payloads => let '(r, p) := answer x p in
                     let '(rs, p) := uring_answers payloads p in
                     (r :: rs, p)
  end.

Lemma filled_all n got : length got = n -> filled n got = got.
Proof. intros <-. unfold filled. rewrite Nat.sub_diag. apply app_nil_r. Qed.

Lemma read_header x l : read 4 ((to_be_bytes 4 x) :: l) = (to_be_bytes 4 x, l).
Proof. reflexivity. Qed.

(** A frame that arrives as one segment is read whole. *)
Lemma read_frame_segment x l :
  x <> [] -> Z.of_nat (length x) <= protocol.MAX_FRAME_SIZE ->
  read 4 (protocol.encode x :: l) = (to_be_bytes 4 (Z.of_nat (length x)), x :: l) /\
  read (length x) (x :: l) = (x, l).
Proof.
  intros Hx Hl. unfold protocol.MAX_FRAME_SIZE in Hl. unfold read, protocol.encode. rewrite as_unsigned_id by lia. split.
  - rewrite take_app_length', drop_app_length' by done. by destruct x.
  - by rewrite take_ge, drop_ge by lia.
Qed.

(** as long as every frame arrives in one piece, the io_uring connection answers every
    request once and in order; the loop then waits at the end of the stream. *)
Theorem uring_whole_frames (payloads : list (list Z)) (out : list Z) (p : P) (n : nat) :
  Forall (fun x => x <> [] /\ Z.of_nat (length x) <= protocol.MAX_FRAME_SIZE) payloads ->
  handle_uring_connection (length payloads + S n) (MkSegmented (protocol.encode <$> payloads) out true) p =
    Some (MkSegmented [] (out ++ mjoin (framed <$> (uring_answers payloads p).1)) true, (uring_answers payloads p).2).
Proof.
  intros Hp. revert out p. induction Hp as [|x l [Hx Hm] _ IH]; intros out p.
  - cbn. by rewrite app_nil_r.
  - rewrite fmap_cons. cbn [length Nat.add handle_uring_connection segments sent accepts uring_answers].
    destruct (read_frame_segment x (protocol.encode <$> l) Hx Hm) as [E1 E2]. rewrite E1. cbn [fst snd].
    rewrite length_to_be_bytes, from_to_be_bytes by (unfold protocol.MAX_FRAME_SIZE in Hm; lia).
    change (4 <? 4)%nat with false. cbv iota. rewrite (proj2 (Z.ltb_ge _ _)) by done.
    rewrite Nat2Z.id, E2. cbn [fst snd]. destruct x as [|b x]; [done|]. rewrite filled_all by done.
    destruct (answer (b :: x) p) as [r q].
    assert (write_frame_uring r (MkSegmented (protocol.encode <$> l) out true) =
            MkSegmented (protocol.encode <$> l) (out ++ framed r) true) as ->.
    { unfold write_frame_uring, framed. destruct (protocol.serialize_response r); [done|]. by rewrite app_nil_r. }
    rewrite IH. destruct (uring_answers l q) as [rs q']. cbn [fst snd].
    change (mjoin (framed <$> r :: rs)) with (framed r ++ mjoin (framed <$> rs)). by rewrite app_assoc.
Qed.

Lemma read_consumes n l : (length (read n l).1 + length (mjoin (read n l).2) = length (mjoin l))%nat.
Proof.
  destruct l as [|seg l]; [done|]. cbn [read fst snd]. change (mjoin (seg :: l)) with (seg ++ mjoin l).
  rewrite length_app, length_take. pose proof (length_drop seg n) as Hd.
  destruct (drop n seg) as [|b t] eqn:E; cbn [length] in *; [lia|].
  change (mjoin ((b :: t) :: l)) with ((b :: t) ++ mjoin l). rewrite length_app. cbn [length]. lia.
Qed.

(** however the stream is cut into segments, the loop ends: one turn for each byte is
    more than enough. *)
Theorem uring_connection_terminates (st : Stream) (p : P) :
  is_Some (handle_uring_connection (S (length (mjoin (segments st)))) st p).
Proof.
  enough (forall n st p, (length (mjoin (segments st)) < n)%nat -> is_Some (handle_uring_connection n st p)) as H
    by (apply H; lia).
  intros n. induction n as [|n IH]; intros s q Hn; [lia|]. cbn [handle_uring_connection].
  pose proof (read_consumes 4 (segments s)) as H4.
  destruct (Nat.ltb_spec (length (read 4 (segments s)).1) 4); [by eexists|].
  destruct (protocol.MAX_FRAME_SIZE <? _); [by eexists|]. cbn [segments].
  set (k := Z.to_nat _). pose proof (read_consumes k (read 4 (segments s)).2) as Hk.
  destruct (read k (read 4 (segments s)).2) as [[|b got] rest]; [by eexists|]. cbn [fst snd] in *.
  destruct (answer _ q) as [r q']. apply IH.
  assert (forall st, segments (write_frame_uring r st) = segments st) as ->.
  { intros st'. unfold write_frame_uring. destruct (protocol.serialize_response r); [|done]. by destruct (accepts _). }
  cbn [segments snd]. lia.
Qed.
End handler_theorems.

(** ** One request on every transport *)
Section transports.
Context `{DL : DecimalLib, DLa : !DecimalLaws, CL : CurrencyLib, CLa : !CurrencyLaws, UL : UuidLib, ULa : !UuidLaws}.

(** a plain request, without flags or pending transfer and naming the currency of its
    ledger, becomes the same event over TCP as over Aeron and io_uring. *)
Theorem plain_request_same_event (v4 : Uuid) (clock : Z) (req : protocol.TransactionRequest) (ev : TransactionEvent) :
  protocol.flags req = 0 -> protocol.pending_transfer_id req = ""%string ->
  (forall c, convert.ledger_id_to_currency (MkLedgerId (protocol.ledger_id req)) = Ok c ->
     currency.parse_currency (protocol.currency req) = Ok c) ->
  connection.build_event v4 clock req = Ok ev <-> transport.build_event v4 clock req = Ok ev.
Proof.
  intros Hf Hp Hc. unfold connection.build_event, transport.build_event. rewrite Hf, Hp. cbn [String.eqb negb].
  destruct (u64_from_str (protocol.debit_account_id req)) as [d|e]; [|done].
  destruct (u64_from_str (protocol.credit_account_id req)) as [c|e]; [|done]. cbn [map_err rbind].
  unfold LedgerId_new. destruct (protocol.ledger_id req =? 0).
  - cbn [rbind]. split; [done|]. intros H. do 4 apply rbind_ok in H as (? & _ & H). done.
  - cbn [rbind]. destruct (dec_from_str (protocol.amount req)) as [a|]; [|done]. cbn [ok_or rbind].
    assert (match convert.ledger_id_to_currency (MkLedgerId (protocol.ledger_id req)) with
            | Ok c => Ok c | Err _ => currency.parse_currency (protocol.currency req) end =
            currency.parse_currency (protocol.currency req)) as ->.
    { destruct (convert.ledger_id_to_currency _) as [c'|e]; [|done]. by rewrite (Hc c' eq_refl). }
    destruct (currency.parse_currency (protocol.currency req)) as [cur|e]; [|done]. cbn [rbind].
    destruct (amount.new a cur) as [amt|e]; [|done]. cbn [rbind].
    destruct (convert.amount_to_minor_units amt) as [u|e]; [|done]. cbn [rbind]. done.
Qed.

(** whether the risk stage looks at an event is the client's choice: an event built by
    the Aeron or io_uring transport always passes it unchecked, and over TCP so does every
    request that leaves bit 0 of its flags clear. *)
Theorem client_decides_risk_check (v4 : Uuid) (clock : Z) (req : protocol.TransactionRequest) (ev : TransactionEvent)
    (fmt3 : spec_float -> string) (h : risk_handler.RiskHandler) (q : Z) (results : gmap Z TransactionResult) :
  transport.build_event v4 clock req = Ok ev \/
  connection.build_event v4 clock req = Ok ev /\ Z.land (protocol.flags req) 1 = 0 ->
  risk_handler.on_event fmt3 h ev q results = results.
Proof.
  intros H. assert (event_flags.requires_risk_check (event.flags ev) = false) as Hr.
  { destruct H as [H|[H Hf]].
    - unfold transport.build_event in H. do 7 apply rbind_ok in H as (? & _ & H). by injection H as <-.
    - apply build_event_ok in H as (d & c & cur & a & n & _ & _ & _ & _ & _ & _ & _ & _ & _ & _ & -> & _).
      unfold event_flags.requires_risk_check, event_flags.get_bit, event_flags.from_raw, event_flags.RISK_CHECK.
      cbn [event_flags.raw_byte]. by rewrite Hf. }
  unfold risk_handler.on_event. destruct (results !! q); [done|]. by rewrite Hr.
Qed.
End transports.

(** ** The slots *)
Section slot_theorems.
Import slots.

(** Four 64-bit words. *)
Definition bitset (l : list Z) : Prop := length l = 4%nat /\ Forall (fun w => 0 <= w < 2 ^ 64) l.

Definition busy (slot : nat) (l : list Z) : bool := Z.testbit (word_of slot l) (Z.of_nat (slot mod 64)).

Lemma mask_pow slot : mask_of slot = 2 ^ Z.of_nat (slot mod 64).
Proof. unfold mask_of. by rewrite Z.shiftl_1_l. Qed.

Lemma slot_bit slot : 0 <= Z.of_nat (slot mod 64) < 64.
Proof. pose proof (Nat.mod_upper_bound slot 64). lia. Qed.

Lemma free_test slot l : (Z.land (word_of slot l) (mask_of slot) =? 0) = negb (busy slot l).
Proof.
  pose proof (slot_bit slot). unfold busy. rewrite mask_pow, <- land_pow2_testbit by lia. by rewrite negb_involutive.
Qed.

Lemma word_insert slot t l w :
  (slot < 256)%nat -> length l = 4%nat ->
  word_of t (<[(slot / 64)%nat := w]> l) = if bool_decide (t / 64 = slot / 64)%nat then w else word_of t l.
Proof.
  intros Hs Hl. assert (slot / 64 < 4)%nat as Hd by (apply Nat.div_lt_upper_bound; lia).
  unfold word_of. case_bool_decide as E.
  - rewrite E. by rewrite list_lookup_insert_eq by lia.
  - by rewrite list_lookup_insert_ne by done.
Qed.

Lemma same_bit s t : (s / 64 = t / 64)%nat -> Z.of_nat (s mod 64) = Z.of_nat (t mod 64) -> s = t.
Proof. intros Hd Hm. rewrite (Nat.div_mod_eq s 64), (Nat.div_mod_eq t 64), Hd. lia. Qed.

(** A word with one bit changed. *)
Lemma busy_insert s t l w b :
  (s < 256)%nat -> length l = 4%nat ->
  (forall k, 0 <= k < 64 -> Z.testbit w k = if bool_decide (k = Z.of_nat (s mod 64)) then b else Z.testbit (word_of s l) k) ->
  busy t (<[(s / 64)%nat := w]> l) = if bool_decide (t = s) then b else busy t l.
Proof.
  intros Hs Hl Hw. unfold busy. rewrite word_insert by done. case_bool_decide as E.
  - rewrite Hw by apply slot_bit. unfold word_of. rewrite E. repeat case_bool_decide; try done.
    + by destruct H0; apply same_bit.
    + by subst.
  - case_bool_decide as E2; [by subst|done].
Qed.

Lemma word_range s l : bitset l -> (s < 256)%nat -> 0 <= word_of s l < 2 ^ 64.
Proof.
  intros [Hl Hw] Hs. unfold word_of. destruct (l !! (s / 64)%nat) as [w|] eqn:E; [|cbn; lia].
  by apply (Forall_lookup_1 _ _ _ _ Hw E).
Qed.

Lemma acquire_found fuel c l s l' :
  bitset l -> (c < 256)%nat -> acquire fuel c l = Some (s, l') ->
  (s < 256)%nat /\ busy s l = false /\ l' = <[(s / 64)%nat := Z.lor (word_of s l) (mask_of s)]> l.
Proof.
  intros Hl. revert c. induction fuel as [|fuel IH]; intros c Hc; cbn [acquire]; [done|].
  rewrite free_test. destruct (busy c l) eqn:Eb; cbn [negb].
  - apply IH. apply Nat.mod_upper_bound. unfold RECV_BUFFER_COUNT. lia.
  - by intros [= <- <-].
Qed.

(** The search visits the slots in cyclic order. *)
Lemma acquire_visits fuel c l k :
  (k < fuel)%nat -> busy ((c + k) mod 256) l = false -> (c < 256)%nat -> is_Some (acquire fuel c l).
Proof.
  revert c k. induction fuel as [|fuel IH]; intros c k Hk Hf Hc; [lia|]. cbn [acquire].
  rewrite free_test. destruct (busy c l) eqn:Eb; cbn [negb]; [|by eexists]. destruct k as [|k].
  - rewrite Nat.add_0_r, Nat.mod_small in Hf by done. congruence.
  - apply (IH _ k); [lia| |apply Nat.mod_upper_bound; unfold RECV_BUFFER_COUNT; lia].
    unfold RECV_BUFFER_COUNT. rewrite Nat.Div0.add_mod_idemp_l. by replace (c + 1 + k)%nat with (c + S k)%nat by lia.
Qed.

(** the receive buffers are handed out exclusively: the slot taken was free, taking it
    changes no other slot and keeps four 64-bit words, giving it back restores the very same
    words, and the search finds a slot within 256 turns whenever one is free. *)
Theorem slots_exclusive (c : nat) (l : list Z) :
  bitset l -> (c < 256)%nat ->
  (forall s l', acquire RECV_BUFFER_COUNT c l = Some (s, l') ->
     (s < 256)%nat /\ busy s l = false /\ bitset l' /\
     (forall t, busy t l' = if bool_decide (t = s) then true else busy t l) /\ release s l' = l) /\
  (forall s, (s < 256)%nat -> busy s l = false -> is_Some (acquire RECV_BUFFER_COUNT c l)).
Proof.
  intros Hl Hc. split.
  - intros s l' Ha. apply acquire_found in Ha as (Hs & Hb & ->); [|done|done].
    pose proof (word_range s l Hl Hs) as Hw. pose proof (slot_bit s) as Hk. pose proof Hl as [H4 Hf].
    assert (s / 64 < 4)%nat as Hd by (apply Nat.div_lt_upper_bound; lia).
    assert (0 <= Z.lor (word_of s l) (mask_of s) < 2 ^ 64) as Hor.
    { rewrite mask_pow. split; [apply Z.lor_nonneg; split; [lia|apply Z.pow_nonneg; lia]|].
      apply Z.log2_lt_cancel. rewrite Z.log2_pow2, Z.log2_lor, Z.log2_pow2 by (lia || (apply Z.pow_nonneg; lia)).
      apply Z.max_lub_lt; [|lia]. destruct (decide (word_of s l = 0)) as [->|]; [cbn; lia|].
      apply Z.log2_lt_pow2; lia. }
    split_and!; [done|done|split; [by rewrite length_insert|by apply Forall_insert]| |].
    + intros t. apply busy_insert; [done|done|]. intros k Hk'. rewrite Z.lor_spec, mask_pow.
      case_bool_decide as E; [subst k; rewrite Z.pow2_bits_true by lia; apply orb_true_r|].
      by rewrite Z.pow2_bits_false, orb_false_r by congruence.
    + unfold release. rewrite word_insert, bool_decide_eq_true_2 by done. rewrite list_insert_insert_eq.
      apply list_insert_id. unfold word_of in *.
      destruct (l !! (s / 64)%nat) as [w|] eqn:E; [|apply lookup_ge_None in E; lia]. f_equal. change (default 0 (Some w)) with w in *.
      apply Z.bits_inj'. intros k Hk0. rewrite Z.land_spec, Z.lor_spec, Z.lxor_spec, mask_pow.
      unfold u64_max. replace (2 ^ 64 - 1) with (Z.ones 64) by reflexivity.
      destruct (decide (k < 64)) as [Hlt|Hge].
      * rewrite Z.ones_spec_low by lia. destruct (decide (k = Z.of_nat (s mod 64))) as [->|Hne].
        -- rewrite Z.pow2_bits_true by lia. unfold busy, word_of in Hb. rewrite E in Hb. change (default 0 (Some w)) with w in Hb. by rewrite Hb.
        -- rewrite Z.pow2_bits_false by congruence. by rewrite orb_false_r, andb_true_r.
      * rewrite Z.pow2_bits_false, Z.ones_spec_high by lia. rewrite andb_false_r.
        rewrite <- (Z.mod_small w (2 ^ 64)) by done. by rewrite Z.mod_pow2_bits_high by lia.
  - intros s Hs Hf. apply (acquire_visits _ c l ((s + 256 - c) mod 256)%nat); [|rewrite Nat.Div0.add_mod_idemp_r|done].
    + unfold RECV_BUFFER_COUNT. apply Nat.mod_upper_bound. lia.
    + replace (c + (s + 256 - c))%nat with (s + 1 * 256)%nat by lia. by rewrite Nat.Div0.mod_add, Nat.mod_small by lia.
Qed.
End slot_theorems.

Module uring_examples.
Import common_examples ledger_examples inmemory_examples handler_examples connection_examples tcp.

#[global] Instance unlimited : Limiter Sim := fun p => (true, p).

(** The responses on the wire: the committed flags and error texts. *)
Fixpoint replies (n : nat) (bytes : list Z) : list (option (bool * option string)) :=
  match n with
  | O => []
  | S n =>
      match protocol.read_frame bytes with
      | Ok (f, rest) => ((fun r => (protocol.committed r, protocol.error r)) <$> ok_opt (protocol.from_slice (protocol.payload f))) :: replies n rest
      | Err _ => []
      end
  end.

Definition served (l : list (list Z)) : option (list (option (bool * option string))) :=
  (fun r => replies 9 (sent r.1)) <$> handle_uring_connection 9 (MkSegmented l [] true) (sim0 1).

Definition one_frame : list Z := protocol.encode (payload_of (request "7" "5" "USD" 1)).

(** one frame, in one segment and in two: cut in the middle of its payload it is decoded
    from its first half over zeros, refused as malformed, and its second half is then read
    as the header of another frame.  The payment is lost; over TCP the same bytes commit. *)
Theorem split_frame_misread :
  mjoin [take 50 one_frame; drop 50 one_frame] = one_frame /\
  served [one_frame] = Some [Some (true, None)] /\
  served [take 50 one_frame; drop 50 one_frame] =
    Some [Some (false, Some "Transport error: request deserialization failed: malformed"%string)] /\
  (fun r => replies 9 (connection.outbound r.1.1)) <$>
    connection.handle_connection 9 (connection.MkStream one_frame [] true) (sim0 1) 1 = Some [Some (true, None)].
Proof. split_and!; [apply take_drop|vm_refl|vm_refl|vm_refl]. Qed.

Lemma uring_whole_frames_witness :
  exists st p, handle_uring_connection 2 (MkSegmented [one_frame] [] true) (sim0 1) = Some (st, p) /\ segments st = [].
Proof.
  pose proof (uring_whole_frames [payload_of (request "7" "5" "USD" 1)] [] (sim0 1) 0) as H.
  eexists _, _. split; [apply H|done]. apply Forall_singleton. split; [by vm_compute|].
  apply Z.leb_le. vm_refl.
Defined.

Lemma plain_request_same_event_witness :
  exists ev, connection.build_event v4_0 0 (request "7" "5" "USD" 1) = Ok ev /\
    transport.build_event v4_0 0 (request "7" "5" "USD" 1) = Ok ev.
Proof.
  assert (is_ok (connection.build_event v4_0 0 (request "7" "5" "USD" 1)) = true) as [ev E]%is_ok_some by vm_refl.
  exists ev. split; [done|]. refine (proj1 (plain_request_same_event v4_0 0 (request "7" "5" "USD" 1) ev _ _ _) E); [vm_refl|vm_refl|].
  intros c. assert (convert.ledger_id_to_currency (MkLedgerId 1) = Ok cur.USD) as Hl by vm_refl.
  change (protocol.ledger_id (request "7" "5" "USD" 1)) with 1. rewrite Hl. intros [= <-]. vm_refl.
Defined.

(** A limit of one cent does not stop a payment of five dollars. *)
Lemma client_decides_risk_check_witness :
  exists ev, transport.build_event v4_0 0 (request "7" "5" "USD" 1) = Ok ev /\
    risk_handler.on_event fmt (risk_handler.new 1) ev 0 ∅ = ∅.
Proof.
  assert (is_ok (transport.build_event v4_0 0 (request "7" "5" "USD" 1)) = true) as [ev E]%is_ok_some by vm_refl.
  exists ev. split; [done|]. apply (client_decides_risk_check v4_0 0 (request "7" "5" "USD" 1)). by left.
Defined.

Lemma slots_exclusive_witness :
  slots.acquire 256 70 [0; 2 ^ 6; 0; 0] = Some (71%nat, [0; 2 ^ 6 + 2 ^ 7; 0; 0]) /\
  slots.release 71 [0; 2 ^ 6 + 2 ^ 7; 0; 0] = [0; 2 ^ 6; 0; 0].
Proof.
  assert (slots.acquire 256 70 [0; 2 ^ 6; 0; 0] = Some (71%nat, [0; 2 ^ 6 + 2 ^ 7; 0; 0])) as E by vm_refl.
  split; [done|]. apply (slots_exclusive 70 [0; 2 ^ 6; 0; 0]); [|lia|exact E].
  split; [done|]. repeat apply Forall_cons_2; try lia. by apply Forall_nil_2.
Defined.
End uring_examples.
