(* ===== verification/Rdma.v ===== *)
(** * core/transport/rdma_transport.rs: the RDMA connection

    The connection thread and the network card as a step relation: the thread polls the
    completion queue and handles one completion after the other, the card fills the receive
    buffer of a posted receive and transmits posted sends, reading the send buffer only then.
    Whether a work request can be posted is a choice of the card.  The engine is the class
    [Engine] of Connection, whose [answer] is the TCP handler. *)

From stdpp Require Import base numbers list gmap strings relations.
From Stdlib Require Import ZArith Lia.
From S2P Require Import Prelude External ExternalModel Common Timestamp Ledger InMemory Event Handlers.
From S2P Require Import HandlerProps Protocol Connection.

Module rdma.
Definition RDMA_BUFFER_SIZE : Z := 65536.
Definition CQ_DEPTH : nat := 64.

(** A work completion: its opcode, or a status that is not success. *)
Inductive Wc := Recv (byte_len : nat) | Send | Other | Failed.

Section rdma.
Context `{DL : DecimalLib, CL : CurrencyLib, UL : UuidLib}.
Context `{RQ : !protocol.Rmp protocol.TransactionRequest, RS : !protocol.Rmp protocol.TransactionResponse}.
Context {P : Type} `{EN : !connection.Engine P}.
Import connection.

(** The queue pair: the two registered buffers, the receives posted, and the sends posted and
    not yet transmitted, as the lengths of their ranges. *)
Record Qp : Type := MkQp {
  recv_mr : list Z;
  send_mr : list Z;
  receives : nat;
  sends : list nat;
}.

(** [qp.post_receive] and [qp.post_send]; [ok]: the card takes the request. *)
Definition post_receive (ok : bool) (q : Qp) : Qp :=
  if ok then MkQp (recv_mr q) (send_mr q) (S (receives q)) (sends q) else q.
Definition post_send (ok : bool) (frame_len : nat) (q : Qp) : Qp :=
  if ok then MkQp (recv_mr q) (send_mr q) (receives q) (sends q ++ [frame_len]) else q.
(** [copy_from_slice] to the start of the send buffer. *)
Definition write_send_mr (bytes : list Z) (q : Qp) : Qp :=
  MkQp (recv_mr q) (bytes ++ drop (length bytes) (send_mr q)) (receives q) (sends q).

Definition rdma_send_response (tx_ok : bool) (response : protocol.TransactionResponse) (q : Qp) : Qp :=
  match protocol.serialize_response response with
  | Err _ => q
  | Ok payload =>
      let frame_len := (4 + length payload)%nat in
      if RDMA_BUFFER_SIZE <? Z.of_nat frame_len then q
      else post_send tx_ok frame_len (write_send_mr (protocol.encode payload) q)
  end.

(** The same text as [error_response]. *)
Definition rdma_send_error (tx_ok : bool) (request_id : string) (err : BlazerError) (q : Qp) (p : P) : Qp * P :=
  let '(resp, p) := timed (fun t => error_response t request_id err) p in (rdma_send_response tx_ok resp q, p).

(** The arm of a receive completion: whether the loop goes on, the queue pair and the engine.
    [rx_ok] and [tx_ok] are the answers of the card to the posts. *)
Definition handle_recv (rx_ok tx_ok : bool) (recv_len : nat) (q : Qp) (p : P) : bool * Qp * P :=
  if (recv_len <=? 4)%nat then (true, post_receive rx_ok q, p)
  else
    let payload := drop 4 (take recv_len (recv_mr q)) in
    match protocol.deserialize_request payload with
    | Err e =>
        let '(q, p) := rdma_send_error tx_ok "" e q p in (true, post_receive rx_ok q, p)
    | Ok request =>
        let request_id := protocol.request_id request in
        let '(u, p) := uuid_v4 p in
        let '(t, p) := wall_clock p in
        match build_event u t request with
        | Err e => let '(q, p) := rdma_send_error tx_ok request_id e q p in (true, post_receive rx_ok q, p)
        | Ok ev =>
            match publish_event ev p with
            | (Err e, p) => let '(q, p) := rdma_send_error tx_ok request_id e q p in (true, post_receive rx_ok q, p)
            | (Ok s, p) =>
                let '(result, p) := wait_for_result s p in
                let '(response, p) := match result with
                                      | Some r => timed (fun t => build_response t request_id r) p
                                      | None => timed (fun t => timeout_response t request_id) p
                                      end in
                (rx_ok, post_receive rx_ok (rdma_send_response tx_ok response q), p)
            end
        end
    end.

Inductive Pc := Polling | Batch (wcs : list Wc) | Closed.

(** The connection: the thread, the queue pair, the completion queue, the flag, the engine;
    the messages the peer sent and the frames it received; and, for the statements, what was
    handled, with the answers of the card. *)
Record Connection : Type := MkConn {
  pc : Pc;
  qp : Qp;
  cq : list Wc;
  shutdown : bool;
  engine : P;
  delivered : list (list Z);
  wire : list (list Z);
  handled : list (list Z * bool);
}.

(** After the queue pair is set up and the first receive is posted. *)
Definition init (p : P) : Connection := MkConn Polling (MkQp [] [] 1 []) [] false p [] [] [].

Definition at_pc (k : Pc) (c : Connection) : Connection :=
  MkConn k (qp c) (cq c) (shutdown c) (engine c) (delivered c) (wire c) (handled c).

(** One completion of the batch. *)
Definition handle (rx_ok tx_ok : bool) (wc : Wc) (wcs : list Wc) (c : Connection) : Connection :=
  match wc with
  | Failed => at_pc Closed c
  | Recv n =>
      let '(go, q, p) := handle_recv rx_ok tx_ok n (qp c) (engine c) in
      MkConn (if go then Batch wcs else Closed) q (cq c) (shutdown c) p (delivered c) (wire c)
        (handled c ++ [(take n (recv_mr (qp c)), tx_ok)])
  | Send | Other => at_pc (Batch wcs) c
  end.

(** The card puts a message into the buffer of a posted receive. *)
Definition deliver (m : list Z) (c : Connection) : Connection :=
  let q := qp c in
  MkConn (pc c) (MkQp (m ++ drop (length m) (recv_mr q)) (send_mr q) (pred (receives q)) (sends q))
    (cq c ++ [Recv (length m)]) (shutdown c) (engine c) (delivered c ++ [m]) (wire c) (handled c).

(** The card transmits the oldest posted send. *)
Definition transmit (frame_len : nat) (rest : list nat) (c : Connection) : Connection :=
  let q := qp c in
  MkConn (pc c) (MkQp (recv_mr q) (send_mr q) (receives q) rest) (cq c ++ [Send]) (shutdown c) (engine c)
    (delivered c) (wire c ++ [take frame_len (send_mr q)]) (handled c).

(** [pipelining]: the peer sends whenever the card has room; otherwise only when every
    response it waits for has been transmitted. *)
Inductive step (pipelining : bool) : Connection -> Connection -> Prop :=
  | s_stop c : pc c = Polling -> shutdown c = true -> step pipelining c (at_pc Closed c)
  | s_poll c :
      pc c = Polling -> shutdown c = false ->
      step pipelining c (MkConn (match cq c with [] => Polling | _ => Batch (take CQ_DEPTH (cq c)) end) (qp c)
                           (drop CQ_DEPTH (cq c)) false (engine c) (delivered c) (wire c) (handled c))
  | s_handle c wc wcs rx_ok tx_ok : pc c = Batch (wc :: wcs) -> step pipelining c (handle rx_ok tx_ok wc wcs c)
  | s_next c : pc c = Batch [] -> step pipelining c (at_pc Polling c)
  | s_deliver c m :
      (0 < receives (qp c))%nat -> Z.of_nat (length m) <= RDMA_BUFFER_SIZE ->
      (pipelining = false -> sends (qp c) = []) -> step pipelining c (deliver m c)
  | s_transmit c n rest : sends (qp c) = n :: rest -> step pipelining c (transmit n rest c)
  | s_wc c wc : wc = Failed \/ wc = Other ->
      step pipelining c (MkConn (pc c) (qp c) (cq c ++ [wc]) (shutdown c) (engine c) (delivered c) (wire c) (handled c))
  | s_shutdown c : step pipelining c (MkConn (pc c) (qp c) (cq c) true (engine c) (delivered c) (wire c) (handled c)).

Definition reachable (pipelining : bool) (p : P) (c : Connection) : Prop := rtc (step pipelining) (init p) c.

(** ** What the peer is owed: the TCP handler's answers, message by message *)
Definition frame_of (tx_ok : bool) (r : protocol.TransactionResponse) : list (list Z) :=
  match protocol.serialize_response r with
  | Ok payload => if negb tx_ok || (RDMA_BUFFER_SIZE <? Z.of_nat (4 + length payload)) then [] else [protocol.encode payload]
  | Err _ => []
  end.
Fixpoint owed (l : list (list Z * bool)) (p : P) : list (list Z) * P :=
  match l with
  | [] => ([], p)
  | (m, tx_ok) :: l =>
      if (length m <=? 4)%nat then owed l p
      else let '(r, p) := answer (drop 4 m) p in
           let '(fs, p) := owed l p in
           (frame_of tx_ok r ++ fs, p)
  end.
End rdma.
End rdma.

(** ** The connection answers what it is sent *)
Section rdma_theorems.
Context `{DL : DecimalLib, CL : CurrencyLib, UL : UuidLib}.
Context `{RQ : !protocol.Rmp protocol.TransactionRequest, RS : !protocol.Rmp protocol.TransactionResponse}.
Context {P : Type} `{EN : !connection.Engine P}.
Import connection rdma.

Lemma owed_app l1 l2 (p : P) :
  owed (l1 ++ l2) p = let '(fs1, p) := owed l1 p in let '(fs2, p) := owed l2 p in (fs1 ++ fs2, p).
Proof.
  revert p. induction l1 as [|[m tx] l1 IH]; intros p; cbn [app owed]; [by destruct (owed l2 p)|].
  destruct (length m <=? 4)%nat; [apply IH|]. destruct (answer _ p) as [r p1]. rewrite IH.
  destruct (owed l1 p1) as [fs1 p2], (owed l2 p2) as [fs2 p3]. by rewrite app_assoc.
Qed.

(** What sending [r] does to the queue pair. *)
Lemma send_response_spec tx_ok r q :
  exists smr, rdma_send_response tx_ok r q = MkQp (recv_mr q) smr (receives q) (sends q ++ (length <$> frame_of tx_ok r)) /\
    (forall f, f ∈ frame_of tx_ok r -> take (length f) smr = f).
Proof.
  unfold rdma_send_response, frame_of. destruct (protocol.serialize_response r) as [payload|e].
  2: { exists (send_mr q). rewrite app_nil_r. split; [by destruct q|]. intros f Hf. by apply not_elem_of_nil in Hf. }
  destruct (Z.ltb_spec RDMA_BUFFER_SIZE (Z.of_nat (4 + length payload))).
  { exists (send_mr q). rewrite orb_true_r, app_nil_r. split; [by destruct q|]. intros f Hf. by apply not_elem_of_nil in Hf. }
  exists (send_mr (write_send_mr (protocol.encode payload) q)). rewrite orb_false_r. destruct tx_ok; cbn [negb].
  - split.
    + assert (length (protocol.encode payload) = (4 + length payload)%nat) as E
        by (unfold protocol.encode; by rewrite length_app, length_to_be_bytes).
      unfold post_send. change (length <$> [protocol.encode payload]) with [length (protocol.encode payload)]. by rewrite E.
    + intros f ->%list_elem_of_singleton. cbn. by rewrite take_app_length.
  - split; [by rewrite app_nil_r|]. intros f Hf. by apply not_elem_of_nil in Hf.
Qed.

Lemma handle_recv_spec rx_ok tx_ok n q (p : P) :
  (n <= length (recv_mr q))%nat ->
  exists go smr fs p',
    handle_recv rx_ok tx_ok n q p = (go, MkQp (recv_mr q) smr (if rx_ok then S (receives q) else receives q) (sends q ++ (length <$> fs)), p') /\
    owed [(take n (recv_mr q), tx_ok)] p = (fs, p') /\
    (length fs <= 1)%nat /\ (forall f, f ∈ fs -> take (length f) smr = f).
Proof.
  intros Hn. set (m := take n (recv_mr q)). assert (length m = n) as Hm by (unfold m; rewrite length_take; lia).
  unfold handle_recv. cbn [owed]. rewrite Hm. fold m. destruct (n <=? 4)%nat.
  { exists true, (send_mr q), [], p. rewrite app_nil_r. split_and!; try done; [by destruct q, rx_ok|cbn; lia|].
    intros f Hf. by apply not_elem_of_nil in Hf. }
  assert (forall (go : bool) (p' : P) r, exists go' smr fs p'',
            (go, post_receive rx_ok (rdma_send_response tx_ok r q), p') =
              (go', MkQp (recv_mr q) smr (if rx_ok then S (receives q) else receives q) (sends q ++ (length <$> fs)), p'') /\
            (frame_of tx_ok r ++ [], p') = (fs, p'') /\ (length fs <= 1)%nat /\ (forall f, f ∈ fs -> take (length f) smr = f)) as Hsend.
  { intros go p' r. destruct (send_response_spec tx_ok r q) as (smr & -> & Hf). exists go, smr, (frame_of tx_ok r), p'.
    rewrite app_nil_r. split_and!; [by destruct rx_ok|done| |done]. unfold frame_of. repeat case_match; cbn; lia. }
  unfold answer, rdma_send_error, timed.
  destruct (protocol.deserialize_request (drop 4 m)) as [request|e]; [|destruct (wall_clock p) as [t p1]; apply Hsend].
  destruct (uuid_v4 p) as [u p1], (wall_clock p1) as [t p2].
  destruct (build_event u t request) as [ev|e]; [|destruct (wall_clock p2); apply Hsend].
  destruct (publish_event ev p2) as [[s|e] p3]; [|destruct (wall_clock p3); apply Hsend].
  destruct (wait_for_result s p3) as [[r|] p4], (wall_clock p4); apply Hsend.
Qed.

(** The messages that arrived and were not handled are those of the receive completions still
    in the queue or the batch; there is at most one, and it is intact in the buffer. *)
Definition batch_of (k : Pc) : list Wc := match k with Batch wcs => wcs | _ => [] end.
Definition recvs (l : list Wc) : list nat := omap (fun wc => match wc with Recv n => Some n | _ => None end) l.

Record inv (pipelining : bool) (p0 : P) (c : Connection) (todo posted sent pending : list (list Z)) : Prop := {
  inv_delivered : delivered c = (handled c).*1 ++ todo;
  inv_one : (length todo + receives (qp c) <= 1)%nat;
  inv_queue : pc c <> Closed -> recvs (batch_of (pc c) ++ cq c) = length <$> todo;
  inv_buffer : forall m, m ∈ todo -> take (length m) (recv_mr (qp c)) = m;
  inv_owed : owed (handled c) p0 = (posted, engine c);
  inv_posted : posted = sent ++ pending;
  inv_sends : sends (qp c) = length <$> pending;
  inv_sent : length (wire c) = length sent;
  inv_polite : pipelining = false ->
    wire c = sent /\ (length pending <= 1)%nat /\ (todo <> [] -> pending = []) /\
    forall f, f ∈ pending -> take (length f) (send_mr (qp c)) = f;
}.

Lemma recvs_app l1 l2 : recvs (l1 ++ l2) = recvs l1 ++ recvs l2.
Proof. apply omap_app. Qed.

Lemma inv_init pipelining p : inv pipelining p (init p) [] [] [] [].
Proof.
  constructor; cbn; try done.
  - intros m Hm. by apply not_elem_of_nil in Hm.
  - intros _. split_and!; [done|lia|done|]. intros f Hf. by apply not_elem_of_nil in Hf.
Qed.

Lemma inv_handle pipelining p0 rx_ok tx_ok wc wcs c todo posted sent pending :
  pc c = Batch (wc :: wcs) -> inv pipelining p0 c todo posted sent pending ->
  exists todo posted pending, inv pipelining p0 (handle rx_ok tx_ok wc wcs c) todo posted sent pending.
Proof.
  intros Hpc [Hd H1 Hq Hb Ho Hp Hs Hw Hpol]. rewrite Hpc in Hq. specialize (Hq ltac:(done)).
  destruct wc as [n| | |]; cbn [handle].
  2, 3: exists todo, posted, pending; by constructor.
  2: exists todo, posted, pending; by constructor.
  cbn in Hq. destruct todo as [|m [|m2 todo]]; [done| |cbn in H1; lia]. injection Hq as -> Hq.
  assert (take (length m) (recv_mr (qp c)) = m) as Em by (apply Hb; left).
  destruct (handle_recv_spec rx_ok tx_ok (length m) (qp c) (engine c)) as (go & smr & fs & p' & -> & Ho' & Hfs & Hsmr).
  { pose proof (length_take (recv_mr (qp c)) (length m)) as Hl. rewrite Em in Hl. lia. }
  rewrite Em in *. exists [], (posted ++ fs), (pending ++ fs). constructor; cbn [delivered handled qp receives pc cq engine wire recv_mr sends send_mr].
  - rewrite fmap_app, app_nil_r. exact Hd.
  - cbn in H1 |- *. destruct rx_ok; lia.
  - intros Hc. destruct go; [cbn; exact Hq|done].
  - intros m' Hm'. by apply not_elem_of_nil in Hm'.
  - by rewrite owed_app, Ho, Ho'.
  - by rewrite Hp, app_assoc.
  - by rewrite Hs, fmap_app.
  - exact Hw.
  - intros Hpp. destruct (Hpol Hpp) as (Hw' & _ & Hpe & _). specialize (Hpe ltac:(done)). subst pending.
    split_and!; try done.
Qed.

Lemma inv_step pipelining p0 c c' todo posted sent pending :
  inv pipelining p0 c todo posted sent pending -> step pipelining c c' ->
  exists todo posted sent pending, inv pipelining p0 c' todo posted sent pending.
Proof.
  intros Hi Hstep. destruct Hstep as [c Hpc _|c Hpc Hsh|c wc wcs rx_ok tx_ok Hpc|c Hpc|c m Hr Hm Hpl|c n rest Hsn|c wc Hwc|c].
  3: { destruct (inv_handle pipelining p0 rx_ok tx_ok wc wcs c todo posted sent pending Hpc Hi) as (? & ? & ? & ?). by eauto. }
  all: destruct Hi as [Hd H1 Hq Hb Ho Hp Hs Hw Hpol].
  - exists todo, posted, sent, pending. by constructor.
  - exists todo, posted, sent, pending. constructor; try done. cbn. intros Hc. rewrite Hpc in Hq. specialize (Hq ltac:(done)).
    cbn [batch_of app] in Hq. destruct (cq c) as [|wc l]; [done|]. cbn [batch_of]. by rewrite take_drop.
  - exists todo, posted, sent, pending. constructor; try done. cbn. intros _. rewrite Hpc in Hq. by apply Hq.
  - assert (todo = []) as -> by (destruct todo; [done|cbn in H1; lia]).
    exists [m], posted, sent, pending. constructor; cbn; try done.
    + by rewrite Hd, app_nil_r.
    + cbn in H1. lia.
    + intros Hc. rewrite app_assoc, recvs_app, (Hq Hc). done.
    + intros m' ->%list_elem_of_singleton. by rewrite take_app_length.
    + intros Hpp. destruct (Hpol Hpp) as (Hw' & Hl & _ & Hf). rewrite (Hpl Hpp) in Hs.
      assert (pending = []) as -> by (by destruct pending). by split_and!.
  - destruct pending as [|f pending]; [by rewrite Hsn in Hs|]. rewrite Hsn in Hs. cbn in Hs. injection Hs as -> Hs.
    exists todo, posted, (sent ++ [f]), pending. constructor; cbn; try done.
    + intros Hc. rewrite app_assoc, recvs_app, (Hq Hc). cbn. by rewrite app_nil_r.
    + by rewrite Hp, <- app_assoc.
    + rewrite !length_app. cbn. lia.
    + intros Hpp. destruct (Hpol Hpp) as (Hw' & Hl & Ht & Hf). assert (pending = []) as -> by (destruct pending; [done|cbn in Hl; lia]).
      split_and!; try done; [|cbn; lia|intros f' Hf'; by apply not_elem_of_nil in Hf']. by rewrite Hw', (Hf f) by left.
  - exists todo, posted, sent, pending. constructor; cbn; try done. intros Hc. rewrite app_assoc, recvs_app, (Hq Hc).
    destruct Hwc as [-> | ->]; cbn; by rewrite app_nil_r.
  - exists todo, posted, sent, pending. by constructor.
Qed.

Lemma inv_reachable pipelining p0 c :
  reachable pipelining p0 c -> exists todo posted sent pending, inv pipelining p0 c todo posted sent pending.
Proof.
  intros H. unfold reachable in H. remember (init p0) as c0 eqn:E.
  assert (exists todo posted sent pending, inv pipelining p0 c0 todo posted sent pending) as H0
    by (subst; do 4 eexists; apply inv_init).
  clear E. induction H as [|c0 c1 c Hstep _ IH]; [done|]. apply IH. destruct H0 as (? & ? & ? & ? & Hi). by eapply inv_step.
Qed.

(** C32: every message the peer sends is handled at most once, in order and as it was sent.  A
    message of at most four bytes is dropped (the TCP handler answers an empty payload); the
    payload of any longer one, without looking at its header, goes through the TCP handler,
    with its effects on the engine, and the response is posted, unless it does not serialize,
    its frame has more than 65536 bytes or the card refuses the send.  A peer that sends the
    next message only when no posted response waits for its transmission receives exactly the
    posted frames, each once and in order. *)
Theorem rdma_answers_like_tcp (pipelining : bool) (p0 : P) (c : Connection) :
  reachable pipelining p0 c ->
  exists unhandled frames,
    delivered c = (handled c).*1 ++ unhandled /\ (length unhandled <= 1)%nat /\
    owed (handled c) p0 = (frames, engine c) /\
    length frames = (length (wire c) + length (sends (qp c)))%nat /\
    (pipelining = false -> wire c = take (length (wire c)) frames /\ (length frames <= S (length (wire c)))%nat).
Proof.
  intros (todo & posted & sent & pending & [Hd H1 _ _ Ho Hp Hs Hw Hpol])%inv_reachable.
  exists todo, posted. split_and!; [done|lia|done| |].
  - by rewrite Hp, Hs, length_app, Hw, length_fmap.
  - intros Hpp. destruct (Hpol Hpp) as (-> & Hl & _). rewrite Hp, take_app_length, length_app. split; [done|lia].
Qed.
End rdma_theorems.

Module rdma_examples.
Import common_examples ledger_examples inmemory_examples handler_examples connection_examples rdma.

Definition message (r : protocol.TransactionRequest) : list Z := protocol.encode (payload_of r).
Definition first_msg : list Z := message (request "7" "x" "USD" 1).
Definition second_msg : list Z := message (request "8" "x" "USD" 1).

(** The rest of a run, as a function: what the two sides do, in order. *)
Inductive Move := Deliver (m : list Z) | Poll | Handle | Transmit.
Definition move (a : Move) (c : Connection (P := Sim)) : option (Connection (P := Sim)) :=
  match a with
  | Deliver m => if (0 <? receives (qp c))%nat && (Z.of_nat (length m) <=? RDMA_BUFFER_SIZE) then Some (deliver m c) else None
  | Poll => match pc c with
            | Polling => if shutdown c then None
                         else Some (MkConn (match cq c with [] => Polling | _ => Batch (take CQ_DEPTH (cq c)) end) (qp c)
                                      (drop CQ_DEPTH (cq c)) false (engine c) (delivered c) (wire c) (handled c))
            | Batch [] => Some (at_pc Polling c)
            | _ => None
            end
  | Handle => match pc c with Batch (wc :: wcs) => Some (handle true true wc wcs c) | _ => None end
  | Transmit => match sends (qp c) with n :: rest => Some (transmit n rest c) | [] => None end
  end.
Fixpoint moves (l : list Move) (c : Connection (P := Sim)) : option (Connection (P := Sim)) :=
  match l with [] => Some c | a :: l => c ← move a c; moves l c end.

(** A delivery is polite when no response waits for its transmission. *)
Definition polite (a : Move) (c : Connection (P := Sim)) : bool :=
  match a with Deliver _ => match sends (qp c) with [] => true | _ => false end | _ => true end.
Fixpoint all_polite (l : list Move) (c : Connection (P := Sim)) : bool :=
  match l with [] => true | a :: l => polite a c && match move a c with Some c => all_polite l c | None => false end end.

Lemma move_step pipelining a c c' :
  move a c = Some c' -> pipelining = true \/ polite a c = true -> step pipelining c c'.
Proof.
  intros Hm Hp. destruct a as [m| | |]; cbn [move] in Hm.
  - destruct (Nat.ltb_spec 0 (receives (qp c))); [|done]. destruct (Z.leb_spec (Z.of_nat (length m)) RDMA_BUFFER_SIZE); [|done].
    injection Hm as <-. apply s_deliver; [done|done|]. intros ->. destruct Hp as [|Hp]; [done|]. cbn in Hp. by destruct (sends _).
  - destruct (pc c) as [|[|wc wcs]|] eqn:Hpc; try done.
    + destruct (shutdown c) eqn:E; [done|]. injection Hm as <-. by apply s_poll.
    + injection Hm as <-. by apply s_next.
  - destruct (pc c) as [|[|wc wcs]|] eqn:Hpc; try done. injection Hm as <-. by apply s_handle.
  - destruct (sends (qp c)) as [|n rest] eqn:E; [done|]. injection Hm as <-. by apply s_transmit.
Qed.

Lemma rdma_moves_reachable pipelining l c c' :
  moves l c = Some c' -> pipelining = true \/ all_polite l c = true -> rtc (step pipelining) c c'.
Proof.
  revert c. induction l as [|a l IH]; intros c; cbn; [by intros [= <-] _|].
  destruct (move a c) as [c1|] eqn:E; [|done]. cbn. intros Hm Hp. eapply rtc_l.
  - apply (move_step _ a); [done|]. destruct Hp as [|[]%andb_true_iff]; auto.
  - apply IH; [done|]. destruct Hp as [|[]%andb_true_iff]; auto.
Qed.

(** The identifiers of the responses the peer received. *)
Definition ids (frames : list (list Z)) : list (option string) :=
  (fun f => protocol.r_request_id <$> ok_opt (protocol.from_slice (drop 4 f))) <$> frames.

Definition exchange (m : list Z) : list Move := [Deliver m; Poll; Handle; Poll; Transmit; Poll; Handle; Poll].
Definition hurried : list Move :=
  [Deliver first_msg; Poll; Handle; Poll; Deliver second_msg; Poll; Handle; Poll; Transmit; Transmit].

Definition seen (l : list Move) : option (list (option string) * list (option string)) :=
  (fun c => (ids (wire c), ids (owed (handled c) (sim0 1)).1)) <$> moves l (init (sim0 1)).

Definition polite_run : list Move := exchange first_msg ++ exchange second_msg.
Lemma polite_run_polite : all_polite polite_run (init (sim0 1)) = true.
Proof. vm_refl. Qed.
Lemma polite_run_seen : seen polite_run = Some ([Some "7"; Some "8"]%string, [Some "7"; Some "8"]%string).
Proof. vm_refl. Qed.

Definition last_state (l : list Move) : Connection (P := Sim) := default (init (sim0 1)) (moves l (init (sim0 1))).
Lemma seen_reachable l x : all_polite l (init (sim0 1)) = true -> seen l = Some x -> reachable false (sim0 1) (last_state l).
Proof.
  unfold seen, last_state. intros Hp Hs. destruct (moves l (init (sim0 1))) as [c|] eqn:E; [|done].
  apply (rdma_moves_reachable false l); [exact E|by right].
Qed.

(** A peer that sends its second request while the response to the first one is not yet
    transmitted gets the second response in the place of the first. *)
Lemma pipelined_response_overwritten : seen hurried = Some ([Some "8"; Some "8"]%string, [Some "7"; Some "8"]%string).
Proof. vm_refl. Qed.

Lemma rdma_answers_like_tcp_witness :
  exists unhandled frames, delivered (last_state polite_run) = (handled (last_state polite_run)).*1 ++ unhandled /\
    (length unhandled <= 1)%nat /\ wire (last_state polite_run) = take (length (wire (last_state polite_run))) frames.
Proof.
  destruct (rdma_answers_like_tcp false (sim0 1) (last_state polite_run)) as (u & fs & Hd & Hu & _ & _ & Hp).
  - exact (seen_reachable _ _ polite_run_polite polite_run_seen).
  - exists u, fs. exact (conj Hd (conj Hu (proj1 (Hp eq_refl)))).
Defined.
End rdma_examples.
