(* ===== verification/Screening.v ===== *)
(** * libs/screening: transaction screening, holds, batch worker and SAR export

    [types], [mock] and [realtime] are the screening results, the threshold screener and
    the router with its deadline; [hold] is the in-memory hold store; [batch] the worker
    over a bounded channel as a step relation; [sar] the XML report. *)

From stdpp Require Import base numbers list gmap strings relations pretty.
From Stdlib Require Import ZArith Lia Ascii.
From S2P Require Import Prelude.

(** ** types.rs *)
Module types.
Inductive ScreeningMode := RealTime | Batch.
Inductive RiskLevel := Low | Medium | High | Critical.

Inductive ScreeningResult :=
  | Clear
  | Flag (reason : string) (severity : RiskLevel)
  | Hold (reason : string) (review_required : bool)
  | Reject (reason : string) (sar_required : bool).

#[global] Instance RiskLevel_eq_dec : EqDecision RiskLevel.
Proof. solve_decision. Defined.
#[global] Instance ScreeningResult_eq_dec : EqDecision ScreeningResult.
Proof. solve_decision. Defined.

Definition is_clear (r : ScreeningResult) : bool := match r with Clear => true | _ => false end.
Definition is_blocked (r : ScreeningResult) : bool :=
  match r with Hold _ _ | Reject _ _ => true | _ => false end.
Definition requires_sar (r : ScreeningResult) : bool :=
  match r with Reject _ true => true | _ => false end.

(** [timestamp] in nanoseconds of the epoch. *)
Record TransactionEvent : Type := MkEvent {
  transaction_id : string;
  amount : Z;
  currency : string;
  sender_id : string;
  receiver_id : string;
  metadata : gmap string string;
  timestamp : Z;
}.

Definition new (clock : Z) (i : string) (amt : Z) (cur sender receiver : string) : TransactionEvent :=
  MkEvent i amt cur sender receiver ∅ clock.
Definition with_metadata (k v : string) (e : TransactionEvent) : TransactionEvent :=
  MkEvent (transaction_id e) (amount e) (currency e) (sender_id e) (receiver_id e)
    (<[k := v]> (metadata e)) (timestamp e).
End types.

(** ** mock.rs *)
Module mock_screener.
Import types.
Definition DEFAULT_FLAG_THRESHOLD : Z := 1000000.
Definition DEFAULT_REJECT_THRESHOLD : Z := 5000000.

Record MockScreener : Type := MkMock {
  flag_threshold : Z;
  reject_threshold : Z;
  blocklist : list string;
}.

Definition new : MockScreener := MkMock DEFAULT_FLAG_THRESHOLD DEFAULT_REJECT_THRESHOLD [].
Definition with_thresholds (f r : Z) : MockScreener := MkMock f r [].
Definition with_blocklist (l : list string) (m : MockScreener) : MockScreener :=
  MkMock (flag_threshold m) (reject_threshold m) (blocklist m ++ l).

Definition screen (m : MockScreener) (tx : TransactionEvent) (mode : ScreeningMode) : ScreeningResult :=
  if existsb (fun i => String.eqb i (sender_id tx)) (blocklist m)
  then Reject ("sender " +:+ sender_id tx +:+ " is on the compliance deny-list") true
  else if reject_threshold m <=? amount tx
  then Reject ("amount " +:+ string_of_Z (amount tx) +:+ " exceeds rejection threshold " +:+
               string_of_Z (reject_threshold m)) true
  else if flag_threshold m <=? amount tx
  then Flag ("amount " +:+ string_of_Z (amount tx) +:+ " exceeds flag threshold " +:+
             string_of_Z (flag_threshold m)) High
  else Clear.
End mock_screener.

(** ** realtime.rs *)
Module realtime.
Import types.
Definition REALTIME_DEADLINE_MS : Z := 50.

(** A screening call ends with its result after some milliseconds, or never. *)
Definition Call : Type := option (Z * ScreeningResult).

(** [tokio::time::timeout]: the call is polled before the deadline. *)
Definition screen (screener : TransactionEvent -> ScreeningMode -> Call) (tx : TransactionEvent)
    : ScreeningResult * bool :=
  match screener tx RealTime with
  | Some (ms, result) => if ms <=? REALTIME_DEADLINE_MS then (result, false) else (Clear, true)
  | None => (Clear, true)
  end.
End realtime.

(** ** hold.rs *)
Module hold.
Record HoldRecord : Type := MkRecord {
  transaction_id : string;
  reason : string;
  review_required : bool;
  held_at : Z;
  released_at : option Z;
}.

Definition is_released (r : HoldRecord) : bool := bool_decide (is_Some (released_at r)).

Abbreviation InMemoryHoldStore := (gmap string HoldRecord).
Definition new : InMemoryHoldStore := ∅.

(** [ScreeningError::HoldStore] *)
Inductive HoldError := HoldStore (detail : string).

Definition hold (r : HoldRecord) (s : InMemoryHoldStore) : Result unit HoldError * InMemoryHoldStore :=
  match s !! transaction_id r with
  | Some _ => (Err (HoldStore ("hold already exists for transaction " +:+ transaction_id r)), s)
  | None => (Ok tt, <[transaction_id r := r]> s)
  end.

Definition set_released (clock : Z) (r : HoldRecord) : HoldRecord :=
  MkRecord (transaction_id r) (reason r) (review_required r) (held_at r) (Some clock).

Definition release (clock : Z) (i : string) (s : InMemoryHoldStore)
    : Result HoldRecord HoldError * InMemoryHoldStore :=
  match s !! i with
  | None => (Err (HoldStore ("no active hold found for transaction " +:+ i)), s)
  | Some r =>
      if is_released r
      then (Err (HoldStore ("transaction " +:+ i +:+ " hold already released")), s)
      else (Ok (set_released clock r), <[i := set_released clock r]> s)
  end.

Definition get (i : string) (s : InMemoryHoldStore) : option HoldRecord := s !! i.

Definition active_holds (s : InMemoryHoldStore) : list HoldRecord :=
  (map_to_list s).*2 ≫= (fun r => if is_released r then [] else [r]).
End hold.

(** ** batch.rs: the worker on its channel *)
Module batch.
Import types.

Section batch.
Variable screener : TransactionEvent -> ScreeningMode -> ScreeningResult.

(** Jobs are named by the order of their submission; [delivered] holds what was sent on the
    one-shot channel of each. *)
Record Worker : Type := MkWorker {
  capacity : nat;
  queue : list (nat * TransactionEvent);
  senders : nat;
  running : bool;
  submitted : list TransactionEvent;
  delivered : list (nat * ScreeningResult);
}.

Definition new (channel_capacity : nat) : Worker := MkWorker channel_capacity [] 1 true [] [].

(** [None]: the sender waits for room in the channel. *)
Definition submit (tx : TransactionEvent) (w : Worker) : option (Result nat string * Worker) :=
  if negb (running w) then Some (Err "batch worker channel closed"%string, w)
  else if (capacity w <=? length (queue w))%nat then None
  else
    let i := length (submitted w) in
    Some (Ok i, MkWorker (capacity w) (queue w ++ [(i, tx)]) (senders w) (running w)
                  (submitted w ++ [tx]) (delivered w)).

(** One turn of the loop of [run]; [None]: it waits for a job. *)
Definition turn (w : Worker) : option Worker :=
  match queue w with
  | (i, tx) :: queue =>
      Some (MkWorker (capacity w) queue (senders w) (running w) (submitted w)
              (delivered w ++ [(i, screener tx Batch)]))
  | [] =>
      match senders w with
      | O => Some (MkWorker (capacity w) [] 0 false (submitted w) (delivered w))
      | S _ => None
      end
  end.

Inductive step : Worker -> Worker -> Prop :=
  | step_submit w tx r w' : (0 < senders w)%nat -> submit tx w = Some (r, w') -> step w w'
  | step_turn w w' : running w = true -> turn w = Some w' -> step w w'
  | step_clone w : (0 < senders w)%nat ->
      step w (MkWorker (capacity w) (queue w) (1 + senders w) (running w) (submitted w) (delivered w))
  | step_drop w : (0 < senders w)%nat ->
      step w (MkWorker (capacity w) (queue w) (pred (senders w)) (running w) (submitted w) (delivered w)).

Definition reachable (cap : nat) (w : Worker) : Prop := rtc step (new cap) w.
End batch.
End batch.

(** ** sar.rs *)
Module sar.
Import types.
Inductive SuspiciousActivityType := MoneyLaundering | Structuring | Fraud | TerroristFinancing | Other.

Definition fincen_code (t : SuspiciousActivityType) : string :=
  match t with
  | MoneyLaundering => "A" | Structuring => "B" | Fraud => "C" | TerroristFinancing => "D" | Other => "Z"
  end.
Definition description (t : SuspiciousActivityType) : string :=
  match t with
  | MoneyLaundering => "Money Laundering" | Structuring => "Structuring" | Fraud => "Fraud"
  | TerroristFinancing => "Terrorist Financing" | Other => "Other Suspicious Activity"
  end.

Record SarReport : Type := MkSar {
  filing_institution : string;
  subject_id : string;
  s_amount : Z;
  s_currency : string;
  suspicious_activity_type : SuspiciousActivityType;
  narrative : string;
  activity_date : Z;
  filing_date : Z;
  s_transaction_id : string;
}.

Definition from_transaction (clock : Z) (tx : TransactionEvent) (institution : string)
    (t : SuspiciousActivityType) (narr : string) : SarReport :=
  MkSar institution (sender_id tx) (amount tx) (currency tx) t narr (timestamp tx) clock (transaction_id tx).

(** The double quote and the line feed. *)
Definition dq : string := String "034"%char EmptyString.
Definition nl : string := String "010"%char EmptyString.

Fixpoint escape_xml (s : string) : string :=
  match s with
  | EmptyString => EmptyString
  | String c t =>
      (if Ascii.eqb c "&"%char then "&amp;"
       else if Ascii.eqb c "<"%char then "&lt;"
       else if Ascii.eqb c ">"%char then "&gt;"
       else if Ascii.eqb c "034"%char then "&quot;"
       else if Ascii.eqb c "'"%char then "&apos;"
       else String c EmptyString) +:+ escape_xml t
  end.

(** [s.starts_with(pattern)] *)
Fixpoint starts_with (pattern s : string) : bool :=
  match pattern, s with
  | EmptyString, _ => true
  | String a p, String b t => Ascii.eqb a b && starts_with p t
  | _, _ => false
  end.

(** [narrative.replace("]]>", "]]]]><![CDATA[>")]: leftmost matches, not overlapping.  The
    first argument counts the characters of a match still to be skipped. *)
Fixpoint split_cdata (skip : nat) (s : string) : string :=
  match s with
  | EmptyString => EmptyString
  | String c t =>
      match skip with
      | S k => split_cdata k t
      | O => if starts_with "]]>" s then "]]]]><![CDATA[>" +:+ split_cdata 2 t
             else String c (split_cdata 0 t)
      end
  end.

(** chrono's [format("%Y-%m-%dT%H:%M:%SZ")]. *)
Class Chrono := { format_date : Z -> string }.

Definition to_xml `{Chrono} (r : SarReport) : string :=
  "<?xml version=" +:+ dq +:+ "1.0" +:+ dq +:+ " encoding=" +:+ dq +:+ "UTF-8" +:+ dq +:+ "?>" +:+ nl +:+
  "<SuspiciousActivityReport xmlns=" +:+ dq +:+ "urn:fincen:sar:2.0" +:+ dq +:+ ">" +:+ nl +:+
  "  <FilingInstitution>" +:+ escape_xml (filing_institution r) +:+ "</FilingInstitution>" +:+ nl +:+
  "  <FilingDate>" +:+ format_date (filing_date r) +:+ "</FilingDate>" +:+ nl +:+
  "  <ActivityDate>" +:+ format_date (activity_date r) +:+ "</ActivityDate>" +:+ nl +:+
  "  <TransactionIdentifier>" +:+ escape_xml (s_transaction_id r) +:+ "</TransactionIdentifier>" +:+ nl +:+
  "  <Subject>" +:+ nl +:+
  "    <Identifier>" +:+ escape_xml (subject_id r) +:+ "</Identifier>" +:+ nl +:+
  "  </Subject>" +:+ nl +:+
  "  <Amount currency=" +:+ dq +:+ escape_xml (s_currency r) +:+ dq +:+ ">" +:+ string_of_Z (s_amount r) +:+
  "</Amount>" +:+ nl +:+
  "  <SuspiciousActivity code=" +:+ dq +:+ fincen_code (suspicious_activity_type r) +:+ dq +:+ ">" +:+
  description (suspicious_activity_type r) +:+ "</SuspiciousActivity>" +:+ nl +:+
  "  <Narrative><![CDATA[" +:+ split_cdata 0 (narrative r) +:+ "]]></Narrative>" +:+ nl +:+
  "</SuspiciousActivityReport>".
End sar.

(** ** Reading XML

    A lexer for the XML used here, one token per character: character data with the five
    predefined entities and CDATA sections, tags, and double-quoted attribute values.  The
    counter skips the rest of a recognised entity or delimiter. *)
Module xml.
Import sar.
Inductive token := Data (c : ascii) | Open | Markup (c : ascii) | Quote | Attr (c : ascii) | Close.
Inductive mode := Content | InTag | InAttr | InCData.

(** The entity that starts here, without its ampersand: its character and length. *)
Definition entity (t : string) : option (ascii * nat) :=
  if starts_with "amp;" t then Some ("&"%char, 4%nat)
  else if starts_with "lt;" t then Some ("<"%char, 3%nat)
  else if starts_with "gt;" t then Some (">"%char, 3%nat)
  else if starts_with "quot;" t then Some ("034"%char, 5%nat)
  else if starts_with "apos;" t then Some ("'"%char, 5%nat)
  else None.

Fixpoint lex (m : mode) (skip : nat) (s : string) : list token :=
  match s with
  | EmptyString => []
  | String c t =>
      match skip with
      | S k => lex m k t
      | O =>
          match m with
          | Content =>
              if Ascii.eqb c "<"%char
              then if starts_with "![CDATA[" t then lex InCData 8 t else Open :: lex InTag 0 t
              else if Ascii.eqb c "&"%char
              then match entity t with Some (d, k) => Data d :: lex Content k t | None => Data c :: lex Content 0 t end
              else Data c :: lex Content 0 t
          | InCData =>
              if starts_with "]]>" s then lex Content 2 t else Data c :: lex InCData 0 t
          | InTag =>
              if Ascii.eqb c ">"%char then Close :: lex Content 0 t
              else if Ascii.eqb c "034"%char then Quote :: lex InAttr 0 t
              else Markup c :: lex InTag 0 t
          | InAttr =>
              if Ascii.eqb c "034"%char then Quote :: lex InTag 0 t
              else if Ascii.eqb c "&"%char
              then match entity t with Some (d, k) => Attr d :: lex InAttr k t | None => Attr c :: lex InAttr 0 t end
              else Attr c :: lex InAttr 0 t
          end
      end
  end.

Fixpoint chars (s : string) : list ascii :=
  match s with EmptyString => [] | String c t => c :: chars t end.

Definition data (s : string) : list token := Data <$> chars s.
Definition attr (name value : string) : list token :=
  (Markup <$> chars name) ++ [Quote] ++ (Attr <$> chars value) ++ [Quote].
Definition tag (inside : list token) : list token := Open :: inside ++ [Close].
Definition name_tag (name : string) : list token := tag (Markup <$> chars name).

(** Text with nothing to escape. *)
Definition plain (s : string) : Prop := Forall (fun c => c <> "<"%char /\ c <> "&"%char) (chars s).
End xml.

Section xml_lemmas.
Import sar xml.

Lemma sapp_cons c (a b : string) : String c a +:+ b = String c (a +:+ b).
Proof. done. Qed.
Lemma sapp_nil (b : string) : "" +:+ b = b.
Proof. done. Qed.
Lemma sapp_assoc (a b c : string) : (a +:+ b) +:+ c = a +:+ (b +:+ c).
Proof. induction a as [|x a IH]; [done|]. by rewrite !sapp_cons, IH. Qed.

Lemma lex_skip m body rest : lex m (String.length body) (body +:+ rest) = lex m 0 rest.
Proof. induction body as [|c body IH]; [done|]. rewrite sapp_cons. exact IH. Qed.

Lemma lex_entity body d rest :
  entity (body +:+ rest) = Some (d, String.length body) ->
  lex Content 0 (String "&" (body +:+ rest)) = Data d :: lex Content 0 rest /\
  lex InAttr 0 (String "&" (body +:+ rest)) = Attr d :: lex InAttr 0 rest.
Proof.
  intros E. change (lex Content 0 (String "&" (body +:+ rest)))
    with (match entity (body +:+ rest) with
          | Some (d, k) => Data d :: lex Content k (body +:+ rest)
          | None => Data "&"%char :: lex Content 0 (body +:+ rest)
          end).
  change (lex InAttr 0 (String "&" (body +:+ rest)))
    with (match entity (body +:+ rest) with
          | Some (d, k) => Attr d :: lex InAttr k (body +:+ rest)
          | None => Attr "&"%char :: lex InAttr 0 (body +:+ rest)
          end).
  by rewrite E, !lex_skip.
Qed.

Ltac lex_entity_case body d rest :=
  subst; destruct (lex_entity body d rest eq_refl) as [E1 E2];
  split; (etransitivity; [exact E1 || exact E2|]); cbn [app]; f_equal; done.

(** Escaped text is read back as the text, both between tags and in an attribute. *)
Lemma lex_escape (s rest : string) :
  lex Content 0 (escape_xml s +:+ rest) = data s ++ lex Content 0 rest /\
  lex InAttr 0 (escape_xml s +:+ rest) = (Attr <$> chars s) ++ lex InAttr 0 rest.
Proof.
  induction s as [|c s [IH1 IH2]]; [done|]. cbn [escape_xml]. rewrite sapp_assoc.
  unfold data in *. cbn [chars]. rewrite !fmap_cons.
  destruct (Ascii.eqb_spec c "&"%char); [lex_entity_case "amp;"%string "&"%char (escape_xml s +:+ rest)|].
  destruct (Ascii.eqb_spec c "<"%char); [lex_entity_case "lt;"%string "<"%char (escape_xml s +:+ rest)|].
  destruct (Ascii.eqb_spec c ">"%char); [lex_entity_case "gt;"%string ">"%char (escape_xml s +:+ rest)|].
  destruct (Ascii.eqb_spec c "034"%char); [lex_entity_case "quot;"%string "034"%char (escape_xml s +:+ rest)|].
  destruct (Ascii.eqb_spec c "'"%char); [lex_entity_case "apos;"%string "'"%char (escape_xml s +:+ rest)|].
  rewrite sapp_cons, sapp_nil. cbn [lex]. rewrite !(proj2 (Ascii.eqb_neq _ _)) by done. by rewrite IH1, IH2.
Qed.

Lemma prefix_cdata_end c t rest :
  starts_with "]]>" (String c t) = false ->
  starts_with "]]>" (String c (split_cdata 0 t +:+ "]]>" +:+ rest)) = false.
Proof.
  cbn [starts_with]. destruct (Ascii.eqb "]" c); [cbn [andb]|done].
  destruct t as [|d t]; [done|]. cbn [split_cdata].
  destruct (starts_with "]]>" (String d t)) eqn:E; [done|].
  rewrite sapp_cons. cbn [starts_with] in *. destruct (Ascii.eqb "]" d); [cbn [andb] in *|done].
  destruct t as [|e t]; [done|]. cbn [split_cdata].
  destruct (starts_with "]]>" (String e t)); [done|].
  rewrite sapp_cons. cbn [starts_with] in *. by destruct (Ascii.eqb ">" e).
Qed.

Lemma prefix_split t : starts_with "]]>" t = true -> exists u, t = "]]>" +:+ u.
Proof.
  destruct t as [|a [|b [|c u]]]; cbn [starts_with];
    rewrite ?andb_true_r, ?andb_true_iff, ?Ascii.eqb_eq; try (intros; naive_solver).
Qed.

(** The narrative is read back from its CDATA sections, and their end is the end meant. *)
Lemma lex_cdata (s rest : string) :
  lex InCData 0 (split_cdata 0 s +:+ "]]>" +:+ rest) = data s ++ lex Content 0 rest.
Proof.
  assert (forall n s, (String.length s <= n)%nat ->
    lex InCData 0 (split_cdata 0 s +:+ "]]>" +:+ rest) = data s ++ lex Content 0 rest) as H; [|by eapply H].
  clear s. induction n as [|n IH]; intros s Hn.
  { destruct s; [done|]. cbn [String.length] in Hn. lia. }
  destruct s as [|c t]; [done|]. cbn [split_cdata].
  destruct (starts_with "]]>" (String c t)) eqn:E.
  - apply prefix_split in E as [u E]. rewrite !sapp_cons, sapp_nil in E. injection E as -> ->.
    cbn [String.length] in Hn. specialize (IH u ltac:(lia)). rewrite sapp_assoc.
    transitivity (Data "]" :: Data "]" :: lex InCData 0 (String ">" (split_cdata 0 u +:+ "]]>" +:+ rest)))%char; [done|].
    cbn [lex starts_with Ascii.eqb Bool.eqb andb]. by rewrite IH.
  - rewrite sapp_cons. cbn [lex]. rewrite (prefix_cdata_end c t rest E).
    cbn [String.length] in Hn. rewrite IH by lia. done.
Qed.

Lemma lex_plain s rest : plain s -> lex Content 0 (s +:+ rest) = data s ++ lex Content 0 rest.
Proof.
  unfold plain, data. induction s as [|c s IH]; [done|]. cbn [chars]. rewrite Forall_cons.
  intros [[H1 H2] Hs]. rewrite sapp_cons. cbn. rewrite !(proj2 (Ascii.eqb_neq _ _)) by done. by rewrite IH.
Qed.

Lemma plain_app a b : plain a -> plain b -> plain (a +:+ b).
Proof.
  unfold plain. induction a as [|c a IH]; [done|]. rewrite sapp_cons. cbn. rewrite !Forall_cons. naive_solver.
Qed.

Lemma plain_go (x : N) s : plain s -> plain (pretty_N_go x s).
Proof.
  revert s. induction (N.lt_wf_0 x) as [x _ IH]; intros s Hs.
  destruct (decide (x = 0)%N) as [->|Hx]; [by rewrite pretty_N_go_0|].
  rewrite pretty_N_go_step by lia. apply IH; [apply N.div_lt; lia|].
  unfold plain. cbn [chars]. constructor; [|done].
  pose proof (N.mod_lt x 10 ltac:(lia)) as Hlt. set (d := (x mod 10)%N) in *.
  assert (d = 0 \/ d = 1 \/ d = 2 \/ d = 3 \/ d = 4 \/ d = 5 \/ d = 6 \/ d = 7 \/ d = 8 \/ d = 9)%N as Hd by lia.
  by destruct Hd as [->|[->|[->|[->|[->|[->|[->|[->|[->| ->]]]]]]]]].
Qed.

Lemma plain_number n : 0 <= n -> plain (string_of_Z n).
Proof.
  intros Hn. rewrite pretty_Z_nonneg by done. unfold pretty, pretty_N. case_decide.
  - constructor; [done|constructor].
  - apply plain_go. constructor.
Qed.
End xml_lemmas.

(** ** The report as an XML reader sees it *)
Section sar_xml.
Import types sar xml.
Context `{CH : Chrono}.

Definition declaration : list token :=
  tag ((Markup <$> chars "?xml ") ++ attr "version=" "1.0" ++ attr " encoding=" "UTF-8" ++ [Markup "?"%char]).

(** An element with text content. *)
Definition element (name text : string) : list token :=
  name_tag name ++ data text ++ name_tag ("/" +:+ name).
Definition element_with (name aname avalue text : string) : list token :=
  tag ((Markup <$> chars name) ++ attr aname avalue) ++ data text ++ name_tag ("/" +:+ name).

Definition report_tokens (r : SarReport) : list token :=
  declaration ++ data nl ++
  tag ((Markup <$> chars "SuspiciousActivityReport") ++ attr " xmlns=" "urn:fincen:sar:2.0") ++ data (nl +:+ "  ") ++
  element "FilingInstitution" (filing_institution r) ++ data (nl +:+ "  ") ++
  element "FilingDate" (format_date (filing_date r)) ++ data (nl +:+ "  ") ++
  element "ActivityDate" (format_date (activity_date r)) ++ data (nl +:+ "  ") ++
  element "TransactionIdentifier" (s_transaction_id r) ++ data (nl +:+ "  ") ++
  name_tag "Subject" ++ data (nl +:+ "    ") ++
  element "Identifier" (subject_id r) ++ data (nl +:+ "  ") ++
  name_tag "/Subject" ++ data (nl +:+ "  ") ++
  element_with "Amount" " currency=" (s_currency r) (string_of_Z (s_amount r)) ++ data (nl +:+ "  ") ++
  element_with "SuspiciousActivity" " code=" (fincen_code (suspicious_activity_type r))
    (description (suspicious_activity_type r)) ++ data (nl +:+ "  ") ++
  element "Narrative" (narrative r) ++ data nl ++
  name_tag "/SuspiciousActivityReport".

(** The fixed pieces of the document, whatever follows them. *)
Lemma lex_head X :
  lex Content 0 ("<?xml version=" +:+ dq +:+ "1.0" +:+ dq +:+ " encoding=" +:+ dq +:+ "UTF-8" +:+ dq +:+ "?>" +:+ nl +:+
    "<SuspiciousActivityReport xmlns=" +:+ dq +:+ "urn:fincen:sar:2.0" +:+ dq +:+ ">" +:+ nl +:+
    "  <FilingInstitution>" +:+ X) =
  declaration ++ data nl ++
  tag ((Markup <$> chars "SuspiciousActivityReport") ++ attr " xmlns=" "urn:fincen:sar:2.0") ++ data (nl +:+ "  ") ++
  name_tag "FilingInstitution" ++ lex Content 0 X.
Proof. reflexivity. Qed.

Lemma lex_institution_end X :
  lex Content 0 ("</FilingInstitution>" +:+ nl +:+ "  <FilingDate>" +:+ X) =
  name_tag "/FilingInstitution" ++ data (nl +:+ "  ") ++ name_tag "FilingDate" ++ lex Content 0 X.
Proof. reflexivity. Qed.

Lemma lex_filing_date_end X :
  lex Content 0 ("</FilingDate>" +:+ nl +:+ "  <ActivityDate>" +:+ X) =
  name_tag "/FilingDate" ++ data (nl +:+ "  ") ++ name_tag "ActivityDate" ++ lex Content 0 X.
Proof. reflexivity. Qed.

Lemma lex_activity_date_end X :
  lex Content 0 ("</ActivityDate>" +:+ nl +:+ "  <TransactionIdentifier>" +:+ X) =
  name_tag "/ActivityDate" ++ data (nl +:+ "  ") ++ name_tag "TransactionIdentifier" ++ lex Content 0 X.
Proof. reflexivity. Qed.

Lemma lex_transaction_end X :
  lex Content 0 ("</TransactionIdentifier>" +:+ nl +:+ "  <Subject>" +:+ nl +:+ "    <Identifier>" +:+ X) =
  name_tag "/TransactionIdentifier" ++ data (nl +:+ "  ") ++ name_tag "Subject" ++ data (nl +:+ "    ") ++
  name_tag "Identifier" ++ lex Content 0 X.
Proof. reflexivity. Qed.

Lemma lex_subject_end X :
  lex Content 0 ("</Identifier>" +:+ nl +:+ "  </Subject>" +:+ nl +:+ "  <Amount currency=" +:+ dq +:+ X) =
  name_tag "/Identifier" ++ data (nl +:+ "  ") ++ name_tag "/Subject" ++ data (nl +:+ "  ") ++
  Open :: (Markup <$> chars "Amount currency=") ++ Quote :: lex InAttr 0 X.
Proof. reflexivity. Qed.

Lemma lex_currency_end X : lex InAttr 0 (dq +:+ ">" +:+ X) = Quote :: Close :: lex Content 0 X.
Proof. reflexivity. Qed.

Lemma lex_amount_end t X :
  lex Content 0 ("</Amount>" +:+ nl +:+ "  <SuspiciousActivity code=" +:+ dq +:+ fincen_code t +:+ dq +:+ ">" +:+
    description t +:+ "</SuspiciousActivity>" +:+ nl +:+ "  <Narrative><![CDATA[" +:+ X) =
  name_tag "/Amount" ++ data (nl +:+ "  ") ++
  element_with "SuspiciousActivity" " code=" (fincen_code t) (description t) ++ data (nl +:+ "  ") ++
  name_tag "Narrative" ++ lex InCData 0 X.
Proof. by destruct t. Qed.

Lemma lex_tail :
  lex Content 0 ("</Narrative>" +:+ nl +:+ "</SuspiciousActivityReport>") =
  name_tag "/Narrative" ++ data nl ++ name_tag "/SuspiciousActivityReport".
Proof. reflexivity. Qed.

(** a suspicious-activity report cannot be forged through its fields: whatever the
    institution, identifiers, currency and narrative contain, quotes, angle brackets and
    [\]\]>] included, an XML reader finds exactly the elements of the report with exactly
    those texts. *)
Theorem sar_xml_faithful (r : SarReport) :
  (forall t, plain (format_date t)) -> 0 <= s_amount r ->
  lex Content 0 (to_xml r) = report_tokens r.
Proof.
  intros Hdate Hamt. unfold to_xml.
  rewrite lex_head, (proj1 (lex_escape _ _)), lex_institution_end, lex_plain, lex_filing_date_end, lex_plain by done.
  rewrite lex_activity_date_end, (proj1 (lex_escape _ _)), lex_transaction_end, (proj1 (lex_escape _ _)).
  rewrite lex_subject_end, (proj2 (lex_escape _ _)), lex_currency_end, lex_plain by (by apply plain_number).
  rewrite lex_amount_end.
  change ("]]></Narrative>" +:+ ?x) with ("]]>" +:+ ("</Narrative>" +:+ x)). rewrite lex_cdata, lex_tail.
  unfold report_tokens, element, element_with, tag, attr.
  change (Markup <$> chars "Amount currency=")
    with ((Markup <$> chars "Amount") ++ (Markup <$> chars " currency=")).
  repeat (rewrite <- app_assoc || rewrite <- app_comm_cons). reflexivity.
Qed.
End sar_xml.

(** ** The hold store over any sequence of calls *)
Section holds.
Import hold.

Inductive Op := OHold (r : HoldRecord) | ORelease (clock : Z) (i : string).

Definition run_op (o : Op) (s : InMemoryHoldStore) : bool * InMemoryHoldStore :=
  match o with
  | OHold r => let '(x, s) := hold r s in (is_ok x, s)
  | ORelease clock i => let '(x, s) := release clock i s in (is_ok x, s)
  end.

Fixpoint run (ops : list Op) (s : InMemoryHoldStore) : list bool * InMemoryHoldStore :=
  match ops with
  | [] => ([], s)
  | o :: ops => let '(b, s) := run_op o s in
                let '(bs, s) := run ops s in
                (b :: bs, s)
  end.

Definition op_id (o : Op) : string := match o with OHold r => transaction_id r | ORelease _ i => i end.
Definition op_is_hold (o : Op) : bool := match o with OHold _ => true | ORelease _ _ => false end.

(** How many calls of one kind on one transaction succeeded. *)
Fixpoint succeeded (holds : bool) (i : string) (ops : list Op) (oks : list bool) : nat :=
  match ops, oks with
  | o :: ops, b :: oks =>
      (if b && Bool.eqb (op_is_hold o) holds && bool_decide (op_id o = i) then 1 else 0) + succeeded holds i ops oks
  | _, _ => 0
  end%nat.

Definition present (i : string) (s : InMemoryHoldStore) : nat :=
  match s !! i with Some _ => 1 | None => 0 end%nat.
Definition released (i : string) (s : InMemoryHoldStore) : nat :=
  match s !! i with Some r => if is_released r then 1 else 0 | None => 0 end%nat.

(** New holds have no release date and are filed under their own identifier. *)
Definition op_fresh (o : Op) : Prop := match o with OHold r => released_at r = None | ORelease _ _ => True end.
Definition filed (s : InMemoryHoldStore) : Prop := forall i r, s !! i = Some r -> transaction_id r = i.

Lemma run_op_step o s i : op_fresh o -> filed s ->
  let '(b, s') := run_op o s in
  filed s' /\
  (succeeded true i [o] [b] + present i s = present i s')%nat /\
  (succeeded false i [o] [b] + released i s = released i s')%nat.
Proof.
  unfold present, released. intros Hf Hk. destruct o as [r|clock j]; cbn.
  - unfold hold. destruct (s !! transaction_id r) as [r0|] eqn:E; cbn; [by split_and!|].
    split_and!.
    + intros k x Hx. apply lookup_insert_Some in Hx as [[<- <-]|[_ Hx]]; [done|by apply Hk].
    + case_bool_decide as Hi; [subst i; by rewrite E, lookup_insert_eq|by rewrite lookup_insert_ne by done].
    + destruct (decide (transaction_id r = i)) as [<-|Hji]; [|by rewrite lookup_insert_ne by done].
      rewrite E, lookup_insert_eq. unfold is_released. cbn in Hf. by rewrite Hf.
  - unfold release. destruct (s !! j) as [r|] eqn:E; cbn; [|by split_and!].
    destruct (is_released r) eqn:Er; cbn; [by split_and!|].
    split_and!.
    + intros k x Hx. apply lookup_insert_Some in Hx as [[<- <-]|[_ Hx]]; [cbn|]; by apply Hk.
    + destruct (decide (j = i)) as [<-|Hji]; [by rewrite E, lookup_insert_eq|].
      by rewrite lookup_insert_ne by done.
    + case_bool_decide as Hi; [subst i; by rewrite E, Er, lookup_insert_eq|by rewrite lookup_insert_ne by done].
Qed.

Lemma run_counts ops s i : Forall op_fresh ops -> filed s ->
  let '(oks, s') := run ops s in
  filed s' /\
  (succeeded true i ops oks + present i s = present i s')%nat /\
  (succeeded false i ops oks + released i s = released i s')%nat.
Proof.
  intros Hf. revert s. induction Hf as [|o ops Ho Hops IH]; intros s Hs; [done|]. cbn [run].
  pose proof (run_op_step o s i Ho Hs) as H1. destruct (run_op o s) as [b s1].
  destruct H1 as (Hs1 & Hp & Hr). specialize (IH s1 Hs1). destruct (run ops s1) as [oks s'].
  destruct IH as (Hs' & Hp' & Hr'). cbn in *. split_and!; [done|lia|lia].
Qed.

Lemma active_holds_spec s r :
  filed s -> r ∈ active_holds s <-> s !! transaction_id r = Some r /\ is_released r = false.
Proof.
  intros Hs. unfold active_holds. rewrite list_elem_of_bind. setoid_rewrite list_elem_of_fmap. split.
  - intros (x & Hr & ([k y] & -> & Hy)). cbn in *. apply elem_of_map_to_list in Hy.
    destruct (is_released y) eqn:E; [by apply not_elem_of_nil in Hr|]. apply list_elem_of_singleton in Hr as ->.
    by rewrite (Hs _ _ Hy).
  - intros [Hr E]. exists r. rewrite E. split; [by apply list_elem_of_singleton|].
    exists (transaction_id r, r). split; [done|]. by apply elem_of_map_to_list.
Qed.

(** over any sequence of calls, a transaction is held successfully at most once and
    released successfully at most once; it is in the store exactly when it was held, marked
    released exactly when a release succeeded, so no hold is lost or silently lifted, and
    the active holds are the held ones not released. *)
Theorem hold_lifecycle (ops : list Op) (i : string) :
  Forall op_fresh ops ->
  let '(oks, s) := run ops new in
  succeeded true i ops oks = present i s /\ succeeded false i ops oks = released i s /\
  (forall r, r ∈ active_holds s <-> s !! transaction_id r = Some r /\ is_released r = false).
Proof.
  intros Hf. pose proof (run_counts ops new i Hf) as H. destruct (run ops new) as [oks s].
  destruct H as (Hs & Hp & Hr); [intros k r; unfold new; by rewrite lookup_empty|].
  unfold present, released, new in Hp, Hr. rewrite lookup_empty, Nat.add_0_r in Hp, Hr.
  split_and!; [done|done|]. intros r. by apply active_holds_spec.
Qed.
End holds.

(** ** The batch worker *)
Section batch_worker.
Import types batch.
Variable screener : TransactionEvent -> ScreeningMode -> ScreeningResult.

Definition numbered (l : list TransactionEvent) : list (nat * TransactionEvent) := zip (seq 0 (length l)) l.
Definition screened (p : nat * TransactionEvent) : nat * ScreeningResult := (p.1, screener p.2 Batch).

Definition worker_inv (cap : nat) (w : Worker) : Prop :=
  capacity w = cap /\ (length (queue w) <= cap)%nat /\ (running w = false -> queue w = [] /\ senders w = 0%nat) /\
  exists done, delivered w = screened <$> done /\ numbered (submitted w) = done ++ queue w.

Lemma numbered_snoc l x : numbered (l ++ [x]) = numbered l ++ [(length l, x)].
Proof.
  unfold numbered. rewrite length_app, seq_app, zip_with_app by (by rewrite length_seq). done.
Qed.

Lemma worker_step_inv cap w w' : worker_inv cap w -> step screener w w' -> worker_inv cap w'.
Proof.
  intros (Ec & Hq & Hr & d & Ed & En) Hs. unfold worker_inv.
  destruct Hs as [w tx r w' _ H|w w' Hrun H|w Hn|w Hn]; cbn.
  - unfold submit in H. destruct (running w) eqn:Erun; cbn in H; [|by simplify_eq; split_and!; eauto].
    destruct (Nat.leb_spec (capacity w) (length (queue w))); [done|]. simplify_eq/=.
    split_and!; [done| |congruence|].
    + rewrite length_app. cbn. lia.
    + exists d. split; [done|]. by rewrite numbered_snoc, En, app_assoc.
  - unfold turn in H. destruct (queue w) as [|[i tx] q] eqn:Eq; cbn in *.
    + destruct (senders w); [|done]. simplify_eq/=. split_and!; [done|lia|done|]. by exists d.
    + simplify_eq/=. split_and!; [done|lia| |].
      * intros Hf. congruence.
      * exists (d ++ [(i, tx)]). split; [by rewrite fmap_app, Ed|]. by rewrite En, <- app_assoc.
  - split_and!; [done|done| |by exists d]. intros Hf. apply Hr in Hf as [_ H0]. lia.
  - split_and!; [done|done| |by exists d]. intros Hf. apply Hr in Hf as [_ H0]. lia.
Qed.

(** the batch worker loses and reorders nothing: whatever the interleaving of submissions,
    clones, drops and turns of the worker, the jobs answered are the first ones submitted,
    in order, each once and with the screener's batch verdict; the channel never exceeds
    its capacity; and when the worker stops every submitted job has been answered. *)
Theorem batch_worker_fifo (cap : nat) (w : Worker) :
  reachable screener cap w ->
  delivered w = screened <$> take (length (delivered w)) (numbered (submitted w)) /\
  (length (queue w) <= cap)%nat /\
  (running w = false -> delivered w = screened <$> numbered (submitted w)).
Proof.
  intros Hr. assert (worker_inv cap w) as (_ & Hq & Hstop & d & Ed & En).
  { assert (worker_inv cap (new cap)) as H0.
    { unfold worker_inv. cbn. split_and!; [done|lia|done|]. by exists []. }
    unfold reachable in Hr. revert H0. induction Hr as [|x y z Hxy _ IH]; [done|].
    intros Hx. apply IH. by eapply worker_step_inv. }
  split_and!; [|done|].
  - rewrite En, Ed, length_fmap. by rewrite take_app_length.
  - intros Hf. apply Hstop in Hf as [Hf _]. by rewrite En, Hf, app_nil_r.
Qed.
End batch_worker.

Module screening_examples.
Import types.

#[global] Instance epoch_dates : sar.Chrono := {| sar.format_date t := string_of_Z (Z.abs t) |}.

Definition hostile : sar.SarReport :=
  sar.MkSar "A & B <Bank>" "x]]>y" 250 "U'S" sar.Fraud "bad ]]></Narrative> ]]]]> end" 7 8 "t1".

Lemma sar_xml_faithful_witness : xml.lex xml.Content 0 (sar.to_xml hostile) = report_tokens hostile.
Proof.
  apply sar_xml_faithful; [|cbn; lia]. intros t. apply plain_number. lia.
Defined.

Definition held (i : string) : Op := OHold (hold.MkRecord i "match" true 5 None).
Definition calls : list Op := [held "a"; held "a"; held "b"; ORelease 9 "a"; ORelease 9 "a"; ORelease 9 "c"; held "a"].

Lemma hold_lifecycle_witness :
  (run calls hold.new).1 = [true; false; true; true; false; false; false] /\
  let '(oks, s) := run calls hold.new in
  succeeded true "a" calls oks = present "a" s /\ succeeded false "a" calls oks = released "a" s.
Proof.
  split; [vm_refl|]. pose proof (hold_lifecycle calls "a") as H. destruct (run calls hold.new) as [oks s].
  destruct H as (H1 & H2 & _); [repeat constructor|]. by split.
Defined.

Definition tx (n : Z) : TransactionEvent := new 0 "t" n "USD" "s" "r".
Definition by_amount : TransactionEvent -> ScreeningMode -> ScreeningResult :=
  mock_screener.screen mock_screener.new.

Lemma batch_worker_fifo_witness :
  exists w, batch.reachable by_amount 1 w /\ batch.running w = false /\
    batch.delivered w = [(0%nat, by_amount (tx 10) Batch)].
Proof.
  set (w := batch.MkWorker 1 [] 0 false [tx 10] [(0%nat, by_amount (tx 10) Batch)]).
  assert (batch.reachable by_amount 1 w) as Hr.
  { unfold batch.reachable.
    eapply rtc_l; [eapply (batch.step_submit _ _ (tx 10)); [cbn; lia|done]|].
    eapply rtc_l; [by eapply batch.step_turn|].
    eapply rtc_l; [apply batch.step_drop; cbn; lia|].
    eapply rtc_l; [by eapply batch.step_turn|]. apply rtc_refl. }
  exists w. split_and!; [done|done|].
  destruct (batch_worker_fifo by_amount 1 w Hr) as (_ & _ & H). rewrite H by done. done.
Defined.

(** The screening thresholds: the default screener flags from one million and rejects from
    five million minor units; the deny-list comes first. *)
Example thresholds :
  (fun n => (is_clear (by_amount (tx n) RealTime), is_blocked (by_amount (tx n) RealTime),
             requires_sar (by_amount (tx n) RealTime))) <$> [999999; 1000000; 4999999; 5000000] =
  [(true, false, false); (false, false, false); (false, false, false); (false, true, true)].
Proof. vm_refl. Qed.

(** A screener that is late lets even a blocked sender through, marked for screening again. *)
Example late_screener :
  let slow := fun tx mode => Some (51, by_amount tx mode) in
  let quick := fun tx mode => Some (50, by_amount tx mode) in
  realtime.screen slow (tx 9000000) = (Clear, true) /\
  (realtime.screen quick (tx 9000000)).2 = false /\ is_blocked (realtime.screen quick (tx 9000000)).1 = true.
Proof. by split_and!. Qed.
End screening_examples.
