(* ===== verification/Providers.v ===== *)
(** Screening providers: libs/screening/src/providers/mod.rs (module [provider]), sardine.rs
    ([sardine]), elliptic.rs ([elliptic]) and chainalysis.rs ([chainalysis]), on the types and
    the router of Screening.v.  A remote service is a function from the number of the request
    and its content to an answer or an HTTP error; number formatting, the JSON text of a body
    and HMAC-SHA256 are interfaces.  Scores are binary64. *)

From stdpp Require Import base numbers list gmap strings.
From Stdlib Require Import ZArith Lia SpecFloat.
From S2P Require Import Prelude Screening.

(** [reqwest::Error] *)
Inductive HttpError := MkHttpError (detail : string).

(** [format!] of a float with a number of decimals, [serde_json::to_string] and the
    hexadecimal HMAC. *)
Class Formats : Type := { format_f64 : nat -> spec_float -> string }.
Class Signing : Type := {
  json_of : list (string * string) -> string;
  hmac_hex : string -> string -> string;
}.

(** ** providers/mod.rs *)
Module provider.
Inductive Region := Apac | NorthAmerica | Eu.

Definition as_tag (r : Region) : string :=
  match r with Apac => "APAC" | NorthAmerica => "NA" | Eu => "EU" end.

(** [timeout] in milliseconds. *)
Record ProviderConfig : Type := MkProvider {
  endpoint : string;
  api_key : string;
  api_secret : option string;
  client_id : option string;
  region : Region;
  timeout : Z;
  max_retries : nat;
}.

Definition sardine (r : Region) (client secret_key : string) : ProviderConfig :=
  MkProvider "https://api.sardine.ai" secret_key None (Some client) r 45 2.
Definition elliptic (r : Region) (key secret : string) : ProviderConfig :=
  MkProvider "https://aml-api.elliptic.co" key (Some secret) None r 45 2.
Definition chainalysis (key : string) : ProviderConfig :=
  MkProvider "https://api.chainalysis.com" key None None NorthAmerica 5000 2.
Definition with_timeout (t : Z) (c : ProviderConfig) : ProviderConfig :=
  MkProvider (endpoint c) (api_key c) (api_secret c) (client_id c) (region c) t (max_retries c).
Definition with_max_retries (n : nat) (c : ProviderConfig) : ProviderConfig :=
  MkProvider (endpoint c) (api_key c) (api_secret c) (client_id c) (region c) (timeout c) n.

(** [subsec_jitter], the same in both providers, on the nanoseconds of the clock. *)
Definition subsec_jitter (max_ms subsec_nanos : Z) : Z := if max_ms =? 0 then 0 else subsec_nanos mod max_ms.

(** [100 * (1u64 << attempt)] *)
Definition backoff_base (attempt : nat) : Z :=
  as_unsigned 64 (100 * as_unsigned 64 (Z.shiftl 1 (Z.of_nat attempt mod 64))).

(** The loop [for attempt in 0..=max_retries] of [call_with_retry], the same in both
    providers: [tries] retries remain.  It returns the delays it slept. *)
Fixpoint retry_loop {A} (call_api : nat -> Result A HttpError) (subsec_nanos : nat -> Z) (exhausted : A)
    (attempt tries : nat) : A * list Z :=
  match call_api attempt with
  | Ok result => (result, [])
  | Err _ =>
      match tries with
      | O => (exhausted, [])
      | S tries =>
          let r := retry_loop call_api subsec_nanos exhausted (S attempt) tries in
          (r.1, subsec_jitter (backoff_base attempt) (subsec_nanos attempt) :: r.2)
      end
  end.
End provider.

Definition binary64 (n : Z) : spec_float := binary_normalize 53 1024 n 0 false.
Definition f64_div (a b : spec_float) : spec_float := SFdiv 53 1024 a b.
(** The literals [0.xx], correctly rounded, and [a >= b]. *)
Definition hundredths (n : Z) : spec_float := f64_div (binary64 n) (binary64 100).
Definition f64_geb (a b : spec_float) : bool := SFleb b a.

(** ** providers/sardine.rs *)
Module sardine.
Import Screening.types provider.

Record SardineRequest : Type := MkRequest {
  session_key : string;
  currency_code : string;
  r_amount : string;
  r_sender_id : string;
  recipient_id : string;
  r_region : string;
  r_metadata : gmap string string;
}.

Record SardineResponse : Type := MkResponse { risk_score : spec_float; risk_level : string }.

Section sardine.
Context `{Formats}.
Variables (config : ProviderConfig).

Definition map_sardine_response (resp : SardineResponse) : ScreeningResult :=
  let scored := "(score=" +:+ format_f64 3 (risk_score resp) +:+ ", level=" +:+ risk_level resp +:+ ")" in
  if f64_geb (risk_score resp) (hundredths 85) then Reject ("Sardine: high-risk transaction " +:+ scored) true
  else if f64_geb (risk_score resp) (hundredths 60) then Hold ("Sardine: elevated risk " +:+ scored) true
  else if f64_geb (risk_score resp) (hundredths 30)
  then Flag ("Sardine: suspicious activity detected " +:+ scored) Medium
  else Clear.

Definition build_request (tx : TransactionEvent) : SardineRequest :=
  MkRequest (transaction_id tx) (currency tx) (format_f64 2 (f64_div (binary64 (amount tx)) (binary64 100)))
    (sender_id tx) (receiver_id tx) (as_tag (region config)) (metadata tx).

(** The service: the answer to the [n]-th request. *)
Variable server : nat -> SardineRequest -> Result SardineResponse HttpError.
Variable subsec_nanos : nat -> Z.

Definition call_api (tx : TransactionEvent) (n : nat) : Result ScreeningResult HttpError :=
  let? parsed := server n (build_request tx) in
  Ok (map_sardine_response parsed).

Definition call_with_retry (tx : TransactionEvent) : ScreeningResult * list Z :=
  retry_loop (call_api tx) subsec_nanos
    (Hold "Sardine screening unavailable after retries. Transaction held for manual compliance review." true)
    0 (max_retries config).

Definition screen (tx : TransactionEvent) (mode : ScreeningMode) : ScreeningResult :=
  match mode with
  | RealTime =>
      match call_api tx 0 with
      | Ok result => result
      | Err _ => Hold "Sardine screening unavailable. Transaction held for manual compliance review." true
      end
  | Batch => (call_with_retry tx).1
  end.
End sardine.
End sardine.

(** ** providers/elliptic.rs *)
Module elliptic.
Import Screening.types provider.

Record EllipticRequest : Type := MkRequest {
  subject_type : string;
  asset : string;
  blockchain : string;
  hash : string;
  screening_type : string;
  jurisdiction : option string;
}.

(** The signed call. *)
Record EllipticCall : Type := MkCall {
  url : string;
  x_access_key : string;
  x_access_sign : string;
  x_access_timestamp : string;
  body : string;
}.

Section elliptic.
Context `{Formats, Signing}.
Variables (config : ProviderConfig).

Definition map_elliptic_response (risk_score : spec_float) : ScreeningResult :=
  let scored := "(score=" +:+ format_f64 3 risk_score +:+ ")" in
  if f64_geb risk_score (hundredths 80) then Reject ("Elliptic: high-risk address/tx " +:+ scored) true
  else if f64_geb risk_score (hundredths 50) then Hold ("Elliptic: elevated risk " +:+ scored) true
  else if f64_geb risk_score (hundredths 30) then Flag ("Elliptic: suspicious indicators " +:+ scored) High
  else Clear.

Definition build_request (tx : TransactionEvent) : option EllipticRequest :=
  match metadata tx !! "blockchain_address", metadata tx !! "blockchain", metadata tx !! "asset" with
  | Some address, Some chain, Some asset =>
      Some (MkRequest "address" asset chain address "destination" (Some (as_tag (region config))))
  | _, _, _ => None
  end.

Definition json_body (r : EllipticRequest) : string :=
  json_of [("subject.type", subject_type r); ("subject.asset", asset r); ("subject.blockchain", blockchain r);
           ("subject.hash", hash r); ("type", screening_type r); ("jurisdiction", default "" (jurisdiction r))]%string.

Definition signed_call (r : EllipticRequest) (timestamp : string) : EllipticCall :=
  let path := "/v2/wallet/synchronous" in
  let body_str := json_body r in
  let signing_input := timestamp +:+ "POST" +:+ path +:+ body_str in
  MkCall (endpoint config +:+ path) (api_key config) (hmac_hex (default "" (api_secret config)) signing_input)
    timestamp body_str.

(** The service answers with a risk score; the clock in seconds at the [n]-th request. *)
Variable server : nat -> EllipticCall -> Result spec_float HttpError.
Variable unix_seconds subsec_nanos : nat -> Z.

Definition call_api (tx : TransactionEvent) (n : nat) : Result ScreeningResult HttpError :=
  match build_request tx with
  | None =>
      Ok (Hold "Elliptic: transaction metadata missing required blockchain fields. Transaction held for manual compliance review." true)
  | Some r =>
      let? risk_score := server n (signed_call r (string_of_Z (unix_seconds n))) in
      Ok (map_elliptic_response risk_score)
  end.

Definition call_with_retry (tx : TransactionEvent) : ScreeningResult * list Z :=
  retry_loop (call_api tx) subsec_nanos
    (Hold "Elliptic screening unavailable after retries. Transaction held for manual compliance review." true)
    0 (max_retries config).

Definition screen (tx : TransactionEvent) (mode : ScreeningMode) : ScreeningResult :=
  match mode with
  | RealTime =>
      match call_api tx 0 with
      | Ok result => result
      | Err _ => Hold "Elliptic screening unavailable. Transaction held for manual compliance review." true
      end
  | Batch => (call_with_retry tx).1
  end.
End elliptic.
End elliptic.

(** ** providers/chainalysis.rs *)
Module chainalysis.
Import Screening.types provider.

Record RegisterRequest : Type := MkRegister {
  network : string;
  tx_hash : string;
  output_address : string;
  external_id : string;
  direction : string;
}.
Record SummaryResponse : Type := MkSummary { alert_status : string; alert_level : option string }.

Definition map_alert_level (level : option string) : ScreeningResult :=
  match level with
  | Some "SEVERE" => Reject "Chainalysis KYT: SEVERE alert — high-risk counterparty or sanctions exposure" true
  | Some "HIGH" => Hold "Chainalysis KYT: HIGH alert — elevated risk, manual review required" true
  | Some "MEDIUM" => Flag "Chainalysis KYT: MEDIUM alert — suspicious activity indicators" High
  | Some "LOW" => Flag "Chainalysis KYT: LOW alert — minor risk indicators" Low
  | _ => Clear
  end%string.

Definition MAX_POLL_ATTEMPTS : nat := 6.
Definition POLL_BASE_MS : Z := 500.

(** [{missing:?}] of the missing keys. *)
Fixpoint debug_list (l : list string) : string :=
  match l with
  | [] => ""
  | [k] => sar.dq +:+ k +:+ sar.dq
  | k :: l => sar.dq +:+ k +:+ sar.dq +:+ ", " +:+ debug_list l
  end.

Section chainalysis.
Variable config : ProviderConfig.

Definition auth_header : string := "Token " +:+ api_key config.

(** The two calls of the service: registration, and the [n]-th poll of a summary. *)
Variable register : string -> string -> RegisterRequest -> Result string HttpError.
Variable summary : nat -> string -> string -> Result SummaryResponse HttpError.

Definition register_transfer (tx : TransactionEvent) : Result string HttpError :=
  register (endpoint config +:+ "/api/kyt/v2/transfers") auth_header
    (MkRegister (default "" (metadata tx !! "network")) (default "" (metadata tx !! "tx_hash"))
       (default "" (metadata tx !! "output_address")) (transaction_id tx) "sent")%string.

(** The loop of [poll_summary] from an attempt on, and the delays slept. *)
Fixpoint poll_loop (url : string) (attempt tries : nat) : Result ScreeningResult HttpError * list Z :=
  match tries with
  | O => (Ok (Hold "Chainalysis KYT assessment timed out. Transaction held for manual compliance review." true), [])
  | S tries =>
      match summary attempt url auth_header with
      | Err e => (Err e, [])
      | Ok s =>
          if String.eqb (alert_status s) "COMPLETE" then (Ok (map_alert_level (alert_level s)), [])
          else let r := poll_loop url (S attempt) tries in
               (r.1, POLL_BASE_MS * Z.shiftl 1 (Z.of_nat attempt) :: r.2)
      end
  end.

Definition poll_summary (external_id : string) : Result ScreeningResult HttpError * list Z :=
  poll_loop (endpoint config +:+ "/api/kyt/v2/transfers/" +:+ external_id +:+ "/summary") 0 MAX_POLL_ATTEMPTS.

Definition screen_batch (tx : TransactionEvent) : ScreeningResult :=
  let missing := List.filter (fun k => negb (bool_decide (is_Some (metadata tx !! k))))
                   ["network"; "tx_hash"; "output_address"]%string in
  match missing with
  | _ :: _ =>
      Hold ("Chainalysis KYT: missing metadata fields [" +:+ debug_list missing +:+
            "]. Transaction held for manual compliance review.") true
  | [] =>
      match register_transfer tx with
      | Err _ => Hold "Chainalysis KYT registration failed. Transaction held for manual compliance review." true
      | Ok external_id =>
          match (poll_summary external_id).1 with
          | Ok result => result
          | Err _ => Hold "Chainalysis KYT polling failed. Transaction held for manual compliance review." true
          end
      end
  end.

Definition screen (tx : TransactionEvent) (mode : ScreeningMode) : ScreeningResult :=
  match mode with
  | RealTime =>
      Hold "Chainalysis KYT requires asynchronous processing. Transaction queued for batch re-screening." false
  | Batch => screen_batch tx
  end.
End chainalysis.
End chainalysis.

(** ** The retry loop *)
Section retrying.
Import provider.
Context {A : Type} (call_api : nat -> Result A HttpError) (subsec_nanos : nat -> Z) (exhausted : A).

Lemma retry_loop_spec attempt tries :
  let r := retry_loop call_api subsec_nanos exhausted attempt tries in
  (length r.2 <= tries)%nat /\
  (forall i d, r.2 !! i = Some d -> d = subsec_jitter (backoff_base (attempt + i)) (subsec_nanos (attempt + i))) /\
  (forall i, (i < length r.2)%nat -> exists e, call_api (attempt + i) = Err e) /\
  (call_api (attempt + length r.2)%nat = Ok r.1 \/
   r.1 = exhausted /\ length r.2 = tries /\ exists e, call_api (attempt + tries)%nat = Err e).
Proof.
  cbv zeta. revert attempt. induction tries as [|tries IH]; intros attempt; cbn [retry_loop].
  - destruct (call_api attempt) as [a|e] eqn:E; cbn; rewrite Nat.add_0_r; split_and!;
      try done; try (intros; lia); [by left|]. right. split_and!; [done|done|by exists e].
  - destruct (call_api attempt) as [a|e] eqn:E; cbn [fst snd length].
    + rewrite Nat.add_0_r. split_and!; [lia|done|intros; lia|by left].
    + destruct (IH (S attempt)) as (H1 & H2 & H3 & H4). split_and!.
      * lia.
      * intros [|i] d Hd; cbn in Hd; [simplify_eq; by rewrite Nat.add_0_r|].
        replace (attempt + S i)%nat with (S attempt + i)%nat by lia. by apply H2.
      * intros [|i] Hi; [exists e; by rewrite Nat.add_0_r|].
        replace (attempt + S i)%nat with (S attempt + i)%nat by lia. apply H3. lia.
      * rewrite !Nat.add_succ_r. destruct H4 as [H4|(H4 & H5 & H6)]; [by left|right; split_and!; [done|lia|done]].
Qed.
End retrying.

(** ** Failing closed *)
Section closed.
Import Screening.types provider.
Context `{Formats, Signing}.
Variables (config : ProviderConfig) (subsec_nanos unix_seconds : nat -> Z).

(** Attempts a mode allows after the first. *)
Definition retries (mode : ScreeningMode) : nat :=
  match mode with RealTime => 0 | Batch => max_retries config end.

(** A scoring provider that screens with one call in real time and the retry loop in batch
    only clears on an answer. *)
Lemma clear_is_answered (call_api : nat -> Result ScreeningResult HttpError) (h1 h2 : ScreeningResult) (mode : ScreeningMode) :
  is_clear h1 = false -> is_clear h2 = false ->
  match mode with
  | RealTime => match call_api 0%nat with Ok r => r | Err _ => h1 end
  | Batch => (retry_loop call_api subsec_nanos h2 0 (max_retries config)).1
  end = Clear ->
  exists n, (n <= retries mode)%nat /\ call_api n = Ok Clear.
Proof.
  intros H1 H2. destruct mode; cbn [retries].
  - destruct (call_api 0%nat) as [r|] eqn:E; intros Hc; subst; [|done]. by exists 0%nat.
  - intros Hc. destruct (retry_loop_spec call_api subsec_nanos h2 0 (max_retries config)) as (Hl & _ & _ & [Ho|(Ho & _)]);
      cbv zeta in *; rewrite Hc in Ho.
    + eexists. split; [exact Hl|exact Ho].
    + by subst.
Qed.

Lemma if_chain_clear (b1 b2 b3 : bool) (r1 r2 r3 : ScreeningResult) :
  is_clear r1 = false -> is_clear r2 = false -> is_clear r3 = false ->
  (if b1 then r1 else if b2 then r2 else if b3 then r3 else Clear) = Clear -> b3 = false.
Proof. intros H1 H2 H3. destruct b1, b2, b3; intros; by subst. Qed.

Lemma poll_loop_spec (summary : nat -> string -> string -> Result chainalysis.SummaryResponse HttpError) url attempt tries :
  let r := chainalysis.poll_loop config summary url attempt tries in
  (length r.2 <= tries)%nat /\
  (forall i d, r.2 !! i = Some d -> d = chainalysis.POLL_BASE_MS * 2 ^ Z.of_nat (attempt + i)) /\
  (r.1 = Ok Clear -> exists k s, (attempt <= k < attempt + tries)%nat /\
     summary k url (chainalysis.auth_header config) = Ok s /\ chainalysis.alert_status s = "COMPLETE"%string /\
     chainalysis.map_alert_level (chainalysis.alert_level s) = Clear).
Proof.
  cbv zeta. revert attempt. induction tries as [|tries IH]; intros attempt; cbn [chainalysis.poll_loop].
  - by split_and!.
  - destruct (summary attempt url (chainalysis.auth_header config)) as [s|e] eqn:E; [|split_and!; [cbn; lia|done|done]].
    destruct (String.eqb_spec (chainalysis.alert_status s) "COMPLETE") as [Ec|_]; cbn [fst snd length].
    + split_and!; [lia|done|]. intros [= Hm]. exists attempt, s. split_and!; [lia|lia|done|done|done].
    + destruct (IH (S attempt)) as (H1 & H2 & H3). split_and!.
      * lia.
      * intros [|i] d Hd; cbn in Hd.
        -- simplify_eq. rewrite Nat.add_0_r, Z.shiftl_1_l. done.
        -- replace (attempt + S i)%nat with (S attempt + i)%nat by lia. by apply H2.
      * intros Hr. destruct (H3 Hr) as (k & s' & Hk & H4). exists k, s'. split; [lia|done].
Qed.

(** C38: no provider clears a transaction by default: whatever the services answer or fail to
    answer, a [Clear] of Sardine or Elliptic comes from an answer, among the attempts the mode
    allows, whose score is not at least 0.30, and a [Clear] of Chainalysis from a completed
    assessment, in batch mode, of a registered transfer with all its blockchain fields. *)
Theorem providers_fail_closed (tx : TransactionEvent) (mode : ScreeningMode)
    (sardine_server : nat -> sardine.SardineRequest -> Result sardine.SardineResponse HttpError)
    (elliptic_server : nat -> elliptic.EllipticCall -> Result spec_float HttpError)
    (register : string -> string -> chainalysis.RegisterRequest -> Result string HttpError)
    (summary : nat -> string -> string -> Result chainalysis.SummaryResponse HttpError) :
  (sardine.screen config sardine_server subsec_nanos tx mode = Clear ->
     exists n resp, (n <= retries mode)%nat /\ sardine_server n (sardine.build_request config tx) = Ok resp /\
       f64_geb (sardine.risk_score resp) (hundredths 30) = false) /\
  (elliptic.screen config elliptic_server unix_seconds subsec_nanos tx mode = Clear ->
     exists n r score, (n <= retries mode)%nat /\ elliptic.build_request config tx = Some r /\
       elliptic_server n (elliptic.signed_call config r (string_of_Z (unix_seconds n))) = Ok score /\
       f64_geb score (hundredths 30) = false) /\
  (chainalysis.screen config register summary tx mode = Clear ->
     mode = Batch /\ exists id k s,
       chainalysis.register_transfer config register tx = Ok id /\ (k < 6)%nat /\
       summary k (endpoint config +:+ "/api/kyt/v2/transfers/" +:+ id +:+ "/summary") (chainalysis.auth_header config) = Ok s /\
       chainalysis.alert_status s = "COMPLETE"%string /\ chainalysis.map_alert_level (chainalysis.alert_level s) = Clear).
Proof.
  split_and!.
  - intros Hc. unfold sardine.screen, sardine.call_with_retry in Hc.
    apply clear_is_answered in Hc as (n & Hn & Ha); [|done|done].
    unfold sardine.call_api in Ha. apply rbind_ok in Ha as (resp & Hr & [= Hm]). exists n, resp. split_and!; [done|done|].
    unfold sardine.map_sardine_response in Hm. by eapply if_chain_clear, Hm.
  - intros Hc. unfold elliptic.screen, elliptic.call_with_retry in Hc.
    apply clear_is_answered in Hc as (n & Hn & Ha); [|done|done].
    unfold elliptic.call_api in Ha. destruct (elliptic.build_request config tx) as [r|] eqn:Eb; [|done].
    apply rbind_ok in Ha as (score & Hr & [= Hm]). exists n, r, score. split_and!; [done|done|done|].
    unfold elliptic.map_elliptic_response in Hm. by eapply if_chain_clear, Hm.
  - intros Hc. destruct mode; [done|]. split; [done|]. cbn [chainalysis.screen] in Hc. unfold chainalysis.screen_batch in Hc.
    destruct (List.filter _ _); [|done].
    destruct (chainalysis.register_transfer config register tx) as [id|] eqn:Er; [|done].
    destruct (chainalysis.poll_summary config summary id).1 as [r|] eqn:Ep; [|done]. subst r.
    unfold chainalysis.poll_summary in Ep.
    destruct (poll_loop_spec summary (endpoint config +:+ "/api/kyt/v2/transfers/" +:+ id +:+ "/summary") 0 chainalysis.MAX_POLL_ATTEMPTS)
      as (_ & _ & H3). destruct (H3 Ep) as (k & s & Hk & H4). exists id, k, s. split; [done|]. split; [unfold chainalysis.MAX_POLL_ATTEMPTS in Hk; lia|done].
Qed.

Lemma backoff_base_small attempt : (attempt < 58)%nat -> backoff_base attempt = 100 * 2 ^ Z.of_nat attempt.
Proof.
  intros Ha. unfold backoff_base. rewrite Z.mod_small, Z.shiftl_1_l by lia.
  assert (0 < 2 ^ Z.of_nat attempt) by lia.
  assert (2 ^ Z.of_nat attempt <= 2 ^ 57) by (apply Z.pow_le_mono_r; lia).
  rewrite (as_unsigned_id 64 (2 ^ Z.of_nat attempt)) by lia. apply as_unsigned_id. lia.
Qed.

(** batch screening makes at most [max_retries + 1] requests and returns the verdict of
    the first answered one; with none answered it holds the transaction.  The delay after
    attempt [i] is below [100 * 2 ^ i] milliseconds. *)
Theorem batch_screening_retries (tx : TransactionEvent)
    (server : nat -> sardine.SardineRequest -> Result sardine.SardineResponse HttpError) :
  (max_retries config <= 58)%nat -> (forall i, 0 <= subsec_nanos i) ->
  let r := sardine.call_with_retry config server subsec_nanos tx in
  (length r.2 <= max_retries config)%nat /\
  (forall i d, r.2 !! i = Some d -> 0 <= d < 100 * 2 ^ Z.of_nat i) /\
  (forall i, (i < length r.2)%nat -> exists e, server i (sardine.build_request config tx) = Err e) /\
  ((exists resp, server (length r.2) (sardine.build_request config tx) = Ok resp /\ r.1 = sardine.map_sardine_response resp) \/
   length r.2 = max_retries config /\ is_blocked r.1 = true /\
   exists e, server (max_retries config) (sardine.build_request config tx) = Err e).
Proof.
  intros Hm Hns. cbv zeta. unfold sardine.call_with_retry.
  set (call := sardine.call_api config server tx).
  assert (forall n e, call n = Err e -> server n (sardine.build_request config tx) = Err e) as Herr.
  { intros n e. unfold call, sardine.call_api. destruct (server n (sardine.build_request config tx)); [done|]. by intros [= <-]. }
  destruct (retry_loop_spec call subsec_nanos
    (Hold "Sardine screening unavailable after retries. Transaction held for manual compliance review." true)
    0 (max_retries config)) as (H1 & H2 & H3 & H4). cbn [Nat.add] in *. split_and!; [done| | |].
  - intros i d Hd. pose proof (lookup_lt_Some _ _ _ Hd). specialize (H2 i d Hd) as ->. rewrite backoff_base_small by lia.
    unfold subsec_jitter. assert (0 < 2 ^ Z.of_nat i) by lia.
    destruct (Z.eqb_spec (100 * 2 ^ Z.of_nat i) 0); [lia|]. apply Z.mod_pos_bound. lia.
  - intros i Hi. destruct (H3 i Hi) as [e He]. exists e. by apply Herr.
  - destruct H4 as [H4|(H4 & H5 & e & H6)].
    + left. unfold call, sardine.call_api in H4. apply rbind_ok in H4 as (resp & Hr & [= E]). by exists resp.
    + right. rewrite H4. split_and!; [done|done|]. exists e. by apply Herr.
Qed.
End closed.

Module provider_examples.
Import Screening.types provider.

#[global] Instance plain_formats : Formats := {| format_f64 _ _ := "x"%string |}.
#[global] Instance plain_signing : Signing :=
  {| json_of l := String.concat "," (snd <$> l); hmac_hex k s := k +:+ "/" +:+ s |}.

Definition cfg : ProviderConfig := sardine Apac "client" "key".
Definition payment : TransactionEvent := Screening.types.new 0 "t1" 10050 "USD" "s" "r".
Definition nanos (n : nat) : Z := 123456789.

(** Two failures, then a low score. *)
Definition flaky (n : nat) (_ : sardine.SardineRequest) : Result sardine.SardineResponse HttpError :=
  if (n <? 2)%nat then Err (MkHttpError "503") else Ok (sardine.MkResponse (hundredths 10) "low").

Lemma batch_screening_retries_witness :
  (length (sardine.call_with_retry cfg flaky nanos payment).2 <= 2)%nat /\
  sardine.call_with_retry cfg flaky nanos payment = (Clear, [89; 189]).
Proof.
  split; [|vm_refl]. apply (batch_screening_retries cfg nanos payment flaky); [cbn; lia|]. intros i. unfold nanos. lia.
Defined.

Lemma providers_fail_closed_witness :
  sardine.screen cfg flaky nanos payment Batch = Clear /\
  exists n resp, (n <= 2)%nat /\ flaky n (sardine.build_request cfg payment) = Ok resp /\
    f64_geb (sardine.risk_score resp) (hundredths 30) = false.
Proof.
  split; [vm_refl|].
  apply (providers_fail_closed cfg nanos (fun _ => 0) payment Batch flaky (fun _ _ => Err (MkHttpError "503"))
           (fun _ _ _ => Err (MkHttpError "503")) (fun _ _ _ => Err (MkHttpError "503"))). vm_refl.
Defined.

(** In real time the first failure decides. *)
Example realtime_holds : is_blocked (sardine.screen cfg flaky nanos payment RealTime) = true.
Proof. vm_refl. Qed.

(** The thresholds are inclusive. *)
Example thresholds_inclusive :
  (fun n => let r := sardine.map_sardine_response (sardine.MkResponse (hundredths n) "l") in
            (is_clear r, is_blocked r, requires_sar r)) <$> [29; 30; 59; 60; 84; 85] =
  [(true, false, false); (false, false, false); (false, false, false); (false, true, false); (false, true, false); (false, true, true)].
Proof. vm_refl. Qed.

(** An alert level outside the documented table clears the transaction, although only the
    absent level is documented to. *)
Example unknown_level_clears :
  chainalysis.map_alert_level (Some "CRITICAL"%string) = Clear /\ chainalysis.map_alert_level (Some "Severe"%string) = Clear.
Proof. done. Qed.

(** An assessment that never completes is waited for 31.5 seconds, the last 16 of them after
    the last poll; about 15 are documented. *)
Example poll_wait :
  Zsum_with id (chainalysis.poll_summary (provider.chainalysis "k") (fun _ _ _ => Ok (chainalysis.MkSummary "PENDING" None)) "id").2 = 31500.
Proof. vm_refl. Qed.

(** The amount sent to Sardine is the minor units over 100 in every currency: 10050 yen are
    sent as 100.50 yen. *)
Example yen_amount_divided (fmt : nat -> spec_float -> string) :
  sardine.r_amount (@sardine.build_request {| format_f64 := fmt |} cfg (Screening.types.new 0 "t" 10050 "JPY" "s" "r")) =
  fmt 2%nat (f64_div (binary64 10050) (binary64 100)).
Proof. done. Qed.
End provider_examples.
