(* ===== verification/MasTrm.v ===== *)
(** * libs/mas_trm: data residency, retention, risk scores and recovery targets

    [region] and [residency] are the fail-closed storage policy, [retention] the purge
    dates, [risk] the score matrix, [bcp] the recovery targets.  Times are nanoseconds of
    the epoch; the calendar arithmetic of chrono is the class [Calendar]. *)

From stdpp Require Import base numbers list gmap strings.
From Stdlib Require Import ZArith Lia.
From S2P Require Import Prelude.

(** ** region.rs *)
Module region.
Inductive Region := Singapore | UnitedStates | Europe | Unknown.
Inductive DataClassification := Public | Internal | Confidential | PersonalData | SensitivePersonalData.

#[global] Instance Region_eq_dec : EqDecision Region.
Proof. solve_decision. Defined.
#[global] Instance DataClassification_eq_dec : EqDecision DataClassification.
Proof. solve_decision. Defined.

Definition is_known (r : Region) : bool := negb (bool_decide (r = Unknown)).

(** The derived [Debug] texts. *)
Definition region_debug (r : Region) : string :=
  match r with
  | Singapore => "Singapore" | UnitedStates => "UnitedStates" | Europe => "Europe" | Unknown => "Unknown"
  end.
Definition class_debug (c : DataClassification) : string :=
  match c with
  | Public => "Public" | Internal => "Internal" | Confidential => "Confidential"
  | PersonalData => "PersonalData" | SensitivePersonalData => "SensitivePersonalData"
  end.
End region.
Export region.

(** ** residency.rs *)
Module residency.
Record ResidencyRule : Type := MkRule {
  classification : DataClassification;
  allowed_regions : list Region;
}.

Inductive ResidencyCheck := Permitted | Denied (reason : string).

Definition is_permitted (c : ResidencyCheck) : bool := match c with Permitted => true | Denied _ => false end.

Record ResidencyPolicy : Type := MkPolicy { rules : list ResidencyRule }.

Definition mas_compliant : ResidencyPolicy :=
  MkPolicy
    [MkRule SensitivePersonalData [Singapore];
     MkRule PersonalData [Singapore];
     MkRule Confidential [Singapore; UnitedStates];
     MkRule Internal [Singapore; UnitedStates; Europe];
     MkRule Public [Singapore; UnitedStates; Europe]].

Fixpoint check_rules (l : list ResidencyRule) (c : DataClassification) (target : Region) : ResidencyCheck :=
  match l with
  | [] => Denied ("no residency rule configured for " +:+ class_debug c)
  | r :: l =>
      if bool_decide (classification r = c)
      then if existsb (fun x => bool_decide (x = target)) (allowed_regions r) then Permitted
           else Denied (class_debug c +:+ " data may not reside in " +:+ region_debug target)
      else check_rules l c target
  end.

Definition check (p : ResidencyPolicy) : DataClassification -> Region -> ResidencyCheck := check_rules (rules p).

Definition add_rule (r : ResidencyRule) (p : ResidencyPolicy) : ResidencyPolicy := MkPolicy (rules p ++ [r]).
End residency.

(** ** retention.rs *)
Module retention.
Inductive RetentionClass := TransactionRecord | KycRecord | AuditLog | SarReport | SystemLog | ConsentRecord.

Definition retention_years (c : RetentionClass) : Z :=
  match c with TransactionRecord | KycRecord | AuditLog | SarReport => 5 | SystemLog => 1 | ConsentRecord => 2 end.

Record RetentionRecord : Type := MkRecord {
  id : string;
  record_class : RetentionClass;
  record_region : Region;
  transaction_date : Z;
  sar_filed_date : option Z;
}.

Definition new (i : string) (c : RetentionClass) (r : Region) (t : Z) (f : option Z) : RetentionRecord :=
  MkRecord i c r t f.

(** chrono: adding calendar months to an instant. *)
Class Calendar := { add_months : Z -> Z -> Z }.
Class CalendarLaws `{Calendar} : Prop := {
  add_months_mono m a b : 0 <= m -> a <= b -> add_months a m <= add_months b m;
  add_months_later m a : 0 < m -> a < add_months a m;
}.

Section retention.
Context `{CAL : Calendar}.

Definition retention_anchor (r : RetentionRecord) : Z :=
  match record_class r with
  | SarReport => match sar_filed_date r with Some d => d | None => transaction_date r end
  | _ => transaction_date r
  end.

Definition purge_after (r : RetentionRecord) : Z :=
  add_months (retention_anchor r) (retention_years (record_class r) * 12).

Definition is_eligible_for_purge (clock : Z) (r : RetentionRecord) : bool := purge_after r <=? clock.

(** [num_days] truncates towards zero. *)
Definition days_until_purge (clock : Z) (r : RetentionRecord) : Z :=
  Z.quot (purge_after r - clock) (86400 * 1000000000).
End retention.
End retention.

(** ** risk.rs *)
Module risk.
Inductive Likelihood := Rare | Unlikely | Possible | Likely | AlmostCertain.
Inductive Impact := Negligible | Minor | Moderate | Major | Catastrophic.

Definition likelihood_u8 (l : Likelihood) : Z :=
  match l with Rare => 1 | Unlikely => 2 | Possible => 3 | Likely => 4 | AlmostCertain => 5 end.
Definition impact_u8 (i : Impact) : Z :=
  match i with Negligible => 1 | Minor => 2 | Moderate => 3 | Major => 4 | Catastrophic => 5 end.

Record RiskScore : Type := MkScore { raw : Z }.
Inductive RiskRating := Low | Medium | High | Critical.

(** The product is taken in [u8]. *)
Definition new (l : Likelihood) (i : Impact) : RiskScore := MkScore (as_unsigned 8 (likelihood_u8 l * impact_u8 i)).

Definition rating (s : RiskScore) : RiskRating :=
  if (1 <=? raw s) && (raw s <=? 4) then Low
  else if (5 <=? raw s) && (raw s <=? 9) then Medium
  else if (10 <=? raw s) && (raw s <=? 16) then High
  else Critical.

(** The derived transparent [Deserialize]: any byte. *)
Definition deserialize (n : Z) : option RiskScore := if is_unsigned 8 n then Some (MkScore n) else None.

Inductive TreatmentStrategy := Accept | Mitigate | Transfer | Avoid.
Record TreatmentPlan : Type := MkPlan {
  strategy : TreatmentStrategy;
  plan_description : string;
  owner : string;
  target_date : Z;
}.
Record RiskAssessment : Type := MkAssessment {
  assessment_id : string;
  title : string;
  category : string;
  inherent_score : RiskScore;
  treatment : TreatmentPlan;
  residual_score : RiskScore;
  reviewer : string;
  reviewed_at : Z;
}.

Definition is_acceptable (a : RiskAssessment) : bool :=
  match rating (residual_score a) with Low | Medium => true | _ => false end.
End risk.

(** ** bcp.rs *)
Module bcp.
Inductive SystemCriticality := Low | Medium | High | Critical.

Definition max_rto_hours (c : SystemCriticality) : Z :=
  match c with Critical => 4 | High => 8 | Medium => 24 | Low => 72 end.
Definition max_rpo_hours (c : SystemCriticality) : Z :=
  match c with Critical => 4 | High => 8 | Medium => 24 | Low => 72 end.

Record BcpTarget : Type := MkTarget {
  system_name : string;
  criticality : SystemCriticality;
  rto_hours : Z;
  rpo_hours : Z;
  mtpd_hours : Z;
}.

Definition is_mas_compliant (t : BcpTarget) : bool :=
  (rto_hours t <=? max_rto_hours (criticality t)) && (rpo_hours t <=? max_rpo_hours (criticality t)).

(** [gaps.join("; ")] *)
Fixpoint join (l : list string) : string :=
  match l with
  | [] => ""
  | [s] => s
  | s :: l => s +:+ "; " +:+ join l
  end.

Definition exceeds (what : string) (hours limit : Z) : list string :=
  if limit <? hours
  then [what +:+ " " +:+ string_of_Z hours +:+ "h exceeds MAS limit " +:+ string_of_Z limit +:+ "h"]
  else [].

Definition compliance_gap (t : BcpTarget) : option string :=
  if is_mas_compliant t then None
  else Some (join (exceeds "RTO" (rto_hours t) (max_rto_hours (criticality t)) ++
                   exceeds "RPO" (rpo_hours t) (max_rpo_hours (criticality t)))).

Record BcpAssessment : Type := MkAssessment {
  targets : list BcpTarget;
  last_tested : Z;
  next_test_due : Z;
}.

Definition all_compliant (a : BcpAssessment) : bool := forallb is_mas_compliant (targets a).
Definition non_compliant (a : BcpAssessment) : list BcpTarget :=
  targets a ≫= (fun t => if is_mas_compliant t then [] else [t]).
Definition is_test_overdue (clock : Z) (a : BcpAssessment) : bool := next_test_due a <? clock.
End bcp.

(** ** Residency *)
Section residency_theorems.
Import residency.

(** What the first rule of a classification says. *)
Definition governing (p : ResidencyPolicy) (c : DataClassification) : option ResidencyRule :=
  head (rules p ≫= (fun r => if bool_decide (classification r = c) then [r] else [])).

Lemma check_governing p c t :
  is_permitted (check p c t) = true <-> exists r, governing p c = Some r /\ t ∈ allowed_regions r.
Proof.
  unfold check, governing. destruct p as [l]. cbn [rules]. induction l as [|r l IH]; cbn.
  - split; [done|]. by intros (? & ? & ?).
  - case_bool_decide as Hc; [|exact IH]. cbn. split.
    + destruct (existsb _ _) eqn:E; [|done]. intros _. exists r. split; [done|].
      apply existsb_exists in E as (x & Hx & E). apply bool_decide_eq_true in E as ->. by apply list_elem_of_In.
    + intros (r' & [= <-] & Ht). enough (existsb (fun x => bool_decide (x = t)) (allowed_regions r) = true) as -> by done.
      apply existsb_exists. exists t. split; [by apply list_elem_of_In|]. by apply bool_decide_eq_true.
Qed.

(** residency is fail-closed and cannot be widened afterwards: data may be stored in a
    region exactly when the first rule of its classification allows the region, the
    baseline policy never allows the unknown region and keeps personal data in Singapore,
    and appending a rule never changes a decision about a classification that has one. *)
Theorem residency_fail_closed (p : ResidencyPolicy) (c : DataClassification) (t : Region) (r : ResidencyRule) :
  (is_permitted (check p c t) = true <-> exists g, governing p c = Some g /\ t ∈ allowed_regions g) /\
  is_permitted (check mas_compliant c Unknown) = false /\
  (c = PersonalData \/ c = SensitivePersonalData -> is_permitted (check mas_compliant c t) = true -> t = Singapore) /\
  (is_Some (governing p c) -> check (add_rule r p) c t = check p c t).
Proof.
  split_and!.
  - apply check_governing.
  - by destruct c.
  - intros [->| ->]; by destruct t.
  - unfold governing, check, add_rule. destruct p as [l]. cbn [rules].
    induction l as [|x l IH]; cbn; [by intros []|]. by case_bool_decide.
Qed.
End residency_theorems.

(** ** Retention *)
Section retention_theorems.
Context `{CALa : retention.CalendarLaws}.
Import retention.

(** the fallback of an unfiled suspicious-activity report is not the conservative choice
    it is documented to be.  Reports are filed after the transaction, so counting from the
    transaction date never keeps the record longer than counting from the filing date:
    the report may be purged before its five years from filing are over. *)
Theorem unfiled_report_purged_earlier (i : string) (r : Region) (occurred filed : Z) :
  occurred <= filed ->
  purge_after (new i SarReport r occurred None) <= purge_after (new i SarReport r occurred (Some filed)) /\
  (forall clock, is_eligible_for_purge clock (new i SarReport r occurred (Some filed)) = true ->
                 is_eligible_for_purge clock (new i SarReport r occurred None) = true).
Proof.
  intros Hle. unfold is_eligible_for_purge, purge_after, retention_anchor. cbn.
  pose proof (add_months_mono 60 occurred filed ltac:(lia) Hle) as Hm. change (5 * 12) with 60.
  split; [done|]. intros clock. rewrite !Z.leb_le. lia.
Qed.

(** A record is kept at least until its anchor date has passed, and eligibility is not
    revoked as time goes on. *)
Lemma purge_after_anchor (r : RetentionRecord) clock clock' :
  retention_anchor r < purge_after r /\
  (clock <= clock' -> is_eligible_for_purge clock r = true -> is_eligible_for_purge clock' r = true).
Proof.
  unfold is_eligible_for_purge, purge_after. split.
  - apply add_months_later. by destruct (record_class r).
  - rewrite !Z.leb_le. lia.
Qed.
End retention_theorems.

(** ** Scores and recovery targets *)
Section risk_theorems.
Import risk.

(** A score made by the constructor is between 1 and 25 and never wraps; the bands are those
    of the product, so more likelihood or impact never lowers the rating. *)
Lemma risk_score_range (l : Likelihood) (i : Impact) :
  raw (new l i) = likelihood_u8 l * impact_u8 i /\ 1 <= raw (new l i) <= 25 /\
  (rating (new l i) = Critical <-> 17 <= raw (new l i)).
Proof. destruct l, i; vm_compute; by split_and!. Qed.

(** Deserialization does not keep the range the type is documented to have: 0 and 200 are
    scores, and both are rated critical. *)
Lemma deserialized_scores_unchecked :
  rating <$> deserialize 0 = Some Critical /\ rating <$> deserialize 200 = Some Critical.
Proof. done. Qed.
End risk_theorems.

Section bcp_theorems.
Import bcp.

Lemma compliance_gap_spec (t : BcpTarget) :
  compliance_gap t = None <-> rto_hours t <= max_rto_hours (criticality t) /\ rpo_hours t <= max_rpo_hours (criticality t).
Proof.
  unfold compliance_gap, is_mas_compliant. rewrite <- !Z.leb_le, <- andb_true_iff.
  by destruct (_ && _).
Qed.

Lemma all_compliant_spec (a : BcpAssessment) : all_compliant a = true <-> non_compliant a = [].
Proof.
  unfold all_compliant, non_compliant. induction (targets a) as [|t l IH]; cbn; [done|].
  by destruct (is_mas_compliant t).
Qed.
End bcp_theorems.

Module mas_examples.
Import residency.

#[global] Instance months : retention.Calendar := {| retention.add_months t m := t + m * 2592000000000000 |}.
#[global] Instance months_laws : retention.CalendarLaws.
Proof. constructor; cbn; lia. Qed.

Lemma residency_fail_closed_witness :
  check (add_rule (MkRule PersonalData [Europe]) mas_compliant) PersonalData Europe = check mas_compliant PersonalData Europe /\
  is_permitted (check mas_compliant PersonalData Europe) = false.
Proof.
  split; [|done].
  destruct (residency_fail_closed mas_compliant PersonalData Europe (MkRule PersonalData [Europe])) as (_ & _ & _ & H).
  apply H. by eexists.
Defined.

Lemma unfiled_report_purged_earlier_witness :
  retention.purge_after (retention.new "sar" retention.SarReport Singapore 0 None) <=
  retention.purge_after (retention.new "sar" retention.SarReport Singapore 0 (Some 1000)).
Proof. apply (unfiled_report_purged_earlier (CALa := months_laws) "sar" Singapore 0 1000). lia. Defined.
End mas_examples.
