(* ===== verification/Inference.v ===== *)
(** * core/inference: the 1-bit kernels and the token windows

    [bitnet] translates the portable path of kernels/bitnet.rs: packing weights into 64-bit
    words and the row kernel that walks the set bits of each word.  A 32-bit float is the
    class [F32] of the operations the kernels use, with binary32 and exact integers as
    instances.  [text] is the window planner of text.rs. *)

From stdpp Require Import base numbers list gmap strings.
From Stdlib Require Import ZArith Lia SpecFloat.
From S2P Require Import Prelude.

(** ** Floats *)

(** [f_sum] is [Iterator::sum], [f_mul_add a b c] the fused [a * b + c]. *)
Class F32 := {
  f32 : Type;
  f_zero : f32;
  f_two : f32;
  f_add : f32 -> f32 -> f32;
  f_opp : f32 -> f32;
  f_mul_add : f32 -> f32 -> f32 -> f32;
  f_sum : list f32 -> f32;
  f_gtb : f32 -> f32 -> bool;
}.

(** ** kernels/bitnet.rs *)
Module bitnet.
Inductive KernelError :=
  | DimensionMismatch (expected actual : Z)
  | WeightPackingError (msg : string)
  | UnsupportedHardware (msg : string).

(** [n.div_ceil(64)] *)
Definition div_ceil64 (n : nat) : nat := (n + 63) / 64.

(** [x.trailing_zeros()] of a non-zero word. *)
Fixpoint trailing_zeros (p : positive) : nat :=
  match p with xO p => S (trailing_zeros p) | _ => O end.

Section bitnet.
Context `{F : F32}.

(** [packed[block] |= 1 << bit]; an index out of range panics: [None]. *)
Definition set_bit (block bit : nat) (packed : list Z) : option (list Z) :=
  match packed !! block with
  | None => None
  | Some b => Some (<[block := Z.lor b (Z.shiftl 1 (Z.of_nat bit))]> packed)
  end.

(** The body of the inner loop. *)
Definition pack_one (weights : list f32) (cols blocks_per_row : nat) (threshold : f32) (row col : nat)
    (packed : list Z) : option (list Z) :=
  match weights !! (row * cols + col)%nat with
  | None => None
  | Some w =>
      if f_gtb w threshold
      then set_bit (row * blocks_per_row + col / 64) (col mod 64) packed
      else Some packed
  end.

Fixpoint for_each {A S} (f : A -> S -> option S) (l : list A) (s : S) : option S :=
  match l with
  | [] => Some s
  | a :: l => match f a s with None => None | Some s => for_each f l s end
  end.

(** [None]: the length assertion fails. *)
Definition pack_weights_1bit (weights : list f32) (rows cols : nat) (threshold : f32) : option (list Z) :=
  if negb (length weights =? rows * cols)%nat then None
  else
    let blocks_per_row := div_ceil64 cols in
    for_each (fun row => for_each (fun col => pack_one weights cols blocks_per_row threshold row col) (seq 0 cols))
      (seq 0 rows) (replicate (rows * blocks_per_row) 0).

Definition validate_bitnet_dimensions (input : list f32) (packed : list Z) (rows cols : nat) (output : list f32)
    : Result unit KernelError :=
  if negb (length input =? cols)%nat
  then Err (DimensionMismatch (Z.of_nat cols) (Z.of_nat (length input)))
  else if negb (length output =? rows)%nat
  then Err (DimensionMismatch (Z.of_nat rows) (Z.of_nat (length output)))
  else if negb (length packed =? rows * div_ceil64 cols)%nat
  then Err (WeightPackingError ("expected " +:+ string_of_Z (Z.of_nat (rows * div_ceil64 cols)) +:+
              " u64 blocks, got " +:+ string_of_Z (Z.of_nat (length packed))))
  else Ok tt.

(** The [while packed_block != 0] loop; a word has at most 64 set bits, which is the fuel. *)
Fixpoint block_loop (fuel : nat) (input : list f32) (base_col cols : nat) (block : Z) (sum : f32) : f32 :=
  match fuel, block with
  | S fuel, Zpos p =>
      let bit_pos := trailing_zeros p in
      let col := (base_col + bit_pos)%nat in
      let sum := if (col <? cols)%nat then match input !! col with Some x => f_add sum x | None => sum end
                 else sum in
      block_loop fuel input base_col cols (Z.land block (block - 1)) sum
  | _, _ => sum
  end.

Definition bitnet_row_sum_scalar (input : list f32) (packed : list Z) (row cols blocks_per_row : nat)
    (total_input_sum : f32) : f32 :=
  let row_offset := (row * blocks_per_row)%nat in
  let positive_sum :=
    foldl (fun sum block_idx =>
      match packed !! (row_offset + block_idx)%nat with
      | Some block => block_loop 64 input (block_idx * 64) cols block sum
      | None => sum
      end) f_zero (seq 0 blocks_per_row) in
  f_mul_add positive_sum f_two (f_opp total_input_sum).

(** The portable dispatch; the rows are written to [output] in any order. *)
Definition bitnet_linear_1bit (input : list f32) (packed : list Z) (rows cols : nat) (output : list f32)
    : Result (list f32) KernelError :=
  let? _ := validate_bitnet_dimensions input packed rows cols output in
  let total := f_sum input in
  Ok ((fun row => bitnet_row_sum_scalar input packed row cols (div_ceil64 cols) total) <$> seq 0 rows).

Definition bitnet_linear_1bit_parallel := bitnet_linear_1bit.

(** [input.chunks_exact(cols)]; [None]: it panics for zero columns. *)
Definition chunks_exact (cols : nat) (input : list f32) : option (list (list f32)) :=
  if (cols =? 0)%nat then None
  else Some ((fun i => take cols (drop (i * cols) input)) <$> seq 0 (length input / cols)).

Definition bitnet_linear_1bit_batched_parallel (input : list f32) (batch : nat) (packed : list Z)
    (rows cols : nat) (output : list f32) : option (Result (list f32) KernelError) :=
  if negb (length input =? batch * cols)%nat
  then Some (Err (DimensionMismatch (Z.of_nat (batch * cols)) (Z.of_nat (length input))))
  else if negb (length output =? batch * rows)%nat
  then Some (Err (DimensionMismatch (Z.of_nat (batch * rows)) (Z.of_nat (length output))))
  else if negb (length packed =? rows * div_ceil64 cols)%nat
  then Some (Err (WeightPackingError ("expected " +:+ string_of_Z (Z.of_nat (rows * div_ceil64 cols)) +:+
                    " u64 blocks, got " +:+ string_of_Z (Z.of_nat (length packed)))))
  else
    match chunks_exact cols input with
    | None => None
    | Some input_rows =>
        let total_input_sums := f_sum <$> input_rows in
        Some (Ok ((fun idx =>
          let batch_idx := (idx / rows)%nat in
          let row := (idx mod rows)%nat in
          let input_row := take cols (drop (batch_idx * cols) input) in
          bitnet_row_sum_scalar input_row packed row cols (div_ceil64 cols)
            (nth batch_idx total_input_sums f_zero)) <$> seq 0 (batch * rows)))
    end.
End bitnet.
End bitnet.

(** ** text.rs: the window planner *)
Module text.
Record WindowOptions : Type := MkOptions { window : nat; overlap : nat; max_windows : Z }.
Definition default_options : WindowOptions := MkOptions 128 32 32.

(** The loop over [s], with the number of content tokens as fuel. *)
Fixpoint window_starts (fuel n content_len step s : nat) : list nat :=
  if (n <=? s + content_len)%nat then [(n - content_len)%nat]
  else match fuel with
       | O => []
       | S fuel => s :: window_starts fuel n content_len step (s + step)
       end.

(** [Vec::dedup]: runs of equal neighbours. *)
Fixpoint dedup (l : list nat) : list nat :=
  match l with
  | x :: (y :: _) as t => if (x =? y)%nat then dedup t else x :: dedup t
  | _ => l
  end.

Definition pick (starts : list nat) (cap : Z) : list nat :=
  if Z.of_nat (length starts) <=? cap then starts
  else if cap =? 1 then take 1 starts
  else
    let k := Z.to_nat cap in
    let last := (length starts - 1)%nat in
    dedup ((fun i => nth ((i * last + (k - 1) / 2) / (k - 1)) starts 0%nat) <$> seq 0 k).

Definition plan_windows (n content_len overlap : nat) (max_windows : Z) : list (nat * nat) :=
  if (n =? 0)%nat then []
  else
    let content_len := Nat.max content_len 1 in
    if (n <=? content_len)%nat then [(0%nat, n)]
    else
      let step := (content_len - Nat.min overlap (content_len - 1))%nat in
      let starts := window_starts n n content_len step 0 in
      (fun st => (st, (st + content_len)%nat)) <$> pick starts (Z.max max_windows 1).

(** [encode_windows] on the content tokens of a text. *)
Record TokenWindows : Type := MkTokenWindows {
  windows : list (list Z);
  total_tokens : nat;
  total_windows : nat;
}.

Section encode.
Variables (special_prefix special_suffix : list Z) (max_len : nat).

Definition wrap (content : list Z) : list Z := special_prefix ++ content ++ special_suffix.

Definition encode_windows (content : list Z) (opts : WindowOptions) : TokenWindows :=
  let n := length content in
  let specials := (length special_prefix + length special_suffix)%nat in
  let w := Nat.max (Nat.min (window opts) max_len) (specials + 1) in
  let content_len := (w - specials)%nat in
  let all := plan_windows n content_len (overlap opts) u64_max in
  let planned := plan_windows n content_len (overlap opts) (max_windows opts) in
  MkTokenWindows
    (match planned with
     | [] => [wrap []]
     | _ => (fun '(s, e) => wrap (take (e - s) (drop s content))) <$> planned
     end)
    n (Nat.max (length all) 1).
End encode.

(** The fold of [score_class_windowed] over the scores of the windows. *)
Definition best_window {A} (gtb : A -> A -> bool) (zero : A) (scores : list A) : nat * A :=
  foldl (fun best '(i, s) => if gtb s best.2 then (i, s) else best) (0%nat, zero)
    (imap pair scores).
End text.

(** ** The planner *)
Section planner.
Import text.

Lemma window_starts_spec fuel n c step s :
  (1 <= step <= c)%nat -> (c < n)%nat -> (s < n)%nat -> (n <= fuel + s)%nat ->
  let l := window_starts fuel n c step s in
  (forall i, (s <= i < n)%nat -> exists st, st ∈ l /\ (st <= i < st + c)%nat) /\
  (forall st, st ∈ l -> (st + c <= n)%nat) /\ last l = Some (n - c)%nat /\
  (length l <= n - s)%nat /\ (l !! 0 = Some (if n <=? s + c then n - c else s))%nat.
Proof.
  intros Hstep Hc. revert s. induction fuel as [|fuel IH]; intros s Hs Hf; [lia|]. cbn.
  destruct (Nat.leb_spec n (s + c)) as [Hle|Hgt]; cbn.
  - split_and!; [| |done|lia|done].
    + intros i Hi. exists (n - c)%nat. split; [by apply list_elem_of_singleton|lia].
    + intros st Hst. apply list_elem_of_singleton in Hst. lia.
  - destruct (IH (s + step)%nat) as (H1 & H2 & H3 & H4 & _); [lia|lia|]. split_and!; [| | | |done].
    + intros i Hi. destruct (decide (i < s + step)%nat).
      * exists s. split; [by left|lia].
      * destruct (H1 i ltac:(lia)) as (st & Hst & ?). exists st. split; [by right|lia].
    + intros st [->|Hst]%elem_of_cons; [lia|by apply H2].
    + by rewrite last_cons, H3.
    + lia.
Qed.

Lemma elem_of_dedup l x : x ∈ dedup l <-> x ∈ l.
Proof.
  induction l as [|a [|b l] IH]; [done|done|].
  change (dedup (a :: b :: l)) with (if (a =? b)%nat then dedup (b :: l) else a :: dedup (b :: l)).
  destruct (Nat.eqb_spec a b) as [->|]; rewrite ?elem_of_cons, IH, !elem_of_cons; naive_solver.
Qed.

Lemma length_dedup l : (length (dedup l) <= length l)%nat.
Proof.
  induction l as [|a [|b l] IH]; [done|done|].
  change (dedup (a :: b :: l)) with (if (a =? b)%nat then dedup (b :: l) else a :: dedup (b :: l)).
  destruct (a =? b)%nat; cbn in *; lia.
Qed.

Lemma pick_spec l cap :
  l <> [] -> 1 <= cap ->
  (forall x, x ∈ pick l cap -> x ∈ l) /\ Z.of_nat (length (pick l cap)) <= cap /\
  (forall x, l !! 0%nat = Some x -> x ∈ pick l cap) /\
  (2 <= cap -> forall x, last l = Some x -> x ∈ pick l cap) /\
  (Z.of_nat (length l) <= cap -> pick l cap = l).
Proof.
  intros Hl Hc. unfold pick. destruct (Z.leb_spec (Z.of_nat (length l)) cap) as [Hle|Hgt].
  { split_and!; try done.
    - intros x Hx. by eapply list_elem_of_lookup_2.
    - intros _ x Hx. rewrite last_lookup in Hx. by eapply list_elem_of_lookup_2. }
  destruct (Z.eqb_spec cap 1) as [->|H1].
  { destruct l as [|a l]; [done|]. cbn. split_and!; try done; try (intros; cbn in *; lia).
    - intros x ->%list_elem_of_singleton. by left.
    - intros x [= ->]. by apply list_elem_of_singleton. }
  set (k := Z.to_nat cap). set (f := fun i => nth ((i * (length l - 1) + (k - 1) / 2) / (k - 1)) l 0%nat).
  assert (2 <= k < length l)%nat as Hk by lia.
  assert ((k - 1) / 2 < k - 1)%nat as Hh by (apply Nat.div_lt; lia).
  assert (forall i, (i < k)%nat -> ((i * (length l - 1) + (k - 1) / 2) / (k - 1) < length l)%nat) as Hi.
  { intros i Hi. apply Nat.Div0.div_lt_upper_bound. nia. }
  split_and!.
  - intros x Hx. apply elem_of_dedup, list_elem_of_fmap in Hx as (i & -> & Hi').
    apply elem_of_seq in Hi'. apply list_elem_of_In, nth_In, Hi. lia.
  - pose proof (length_dedup (f <$> seq 0 k)) as H. rewrite length_fmap, length_seq in H. fold f. lia.
  - intros x Hx. apply elem_of_dedup, list_elem_of_fmap. exists 0%nat. split; [|apply elem_of_seq; lia].
    unfold f. rewrite Nat.mul_0_l, Nat.add_0_l, Nat.div_small by done. by destruct l; simplify_eq/=.
  - intros _ x Hx. apply elem_of_dedup, list_elem_of_fmap. exists (k - 1)%nat. split; [|apply elem_of_seq; lia].
    unfold f. rewrite (Nat.mul_comm (k - 1)), Nat.add_comm, Nat.div_add, Nat.div_small, Nat.add_0_l by lia.
    rewrite last_lookup in Hx. symmetry. apply nth_lookup_Some.
    by replace (length l - 1)%nat with (pred (length l)) by lia.
  - intros. lia.
Qed.

(** scoring never reads outside the text and, within the cap, never leaves a token
    unread: every planned window is a non-empty piece of the text of exactly the window's
    content length (or the whole text), there are at most [max_windows] of them, the first
    one starts the text, from a cap of two on one of them ends it, and when the full text
    needs no more windows than the cap every token is in one of them. *)
Theorem plan_windows_cover (n content_len overlap : nat) (max_windows : Z) :
  let ws := plan_windows n content_len overlap max_windows in
  let len := Nat.min n (Nat.max content_len 1) in
  (forall s e, (s, e) ∈ ws -> s < e <= n /\ e - s = len)%nat /\
  Z.of_nat (length ws) <= Z.max max_windows 1 /\
  ((0 < n)%nat -> (0%nat, len) ∈ ws) /\
  (2 <= max_windows -> (0 < n)%nat -> ((n - len)%nat, n) ∈ ws) /\
  (Z.of_nat n <= u64_max ->
   Z.of_nat (length (plan_windows n content_len overlap u64_max)) <= max_windows ->
   forall i, (i < n)%nat -> exists s e, (s, e) ∈ ws /\ (s <= i < e)%nat).
Proof.
  unfold plan_windows. cbv zeta. set (c := Nat.max content_len 1). assert (1 <= c)%nat as Hc by lia. clearbody c.
  destruct (Nat.eqb_spec n 0) as [->|Hn].
  { split_and!; [by intros ? ? ?%not_elem_of_nil|cbn; lia|lia|lia|lia]. }
  destruct (Nat.leb_spec n c) as [Hle|Hgt].
  { rewrite (Nat.min_l n c) by lia. split_and!.
    - intros s e [= -> ->]%list_elem_of_singleton. lia.
    - cbn; lia.
    - intros _. by apply list_elem_of_singleton.
    - intros _ _. rewrite Nat.sub_diag. by apply list_elem_of_singleton.
    - intros _ _ i Hi. exists 0%nat, n. split; [by apply list_elem_of_singleton|lia]. }
  rewrite (Nat.min_r n c) by lia. set (step := (c - Nat.min overlap (c - 1))%nat).
  destruct (window_starts_spec n n c step 0) as (Hcov & Hin & Hlast & Hlen & Hhd); [subst step; lia|lia|lia|lia|].
  set (l := window_starts n n c step 0) in *. rewrite Nat.add_0_l in Hhd.
  rewrite (proj2 (Nat.leb_gt n c)) in Hhd by lia.
  assert (l <> []) as Hl by (by intros E; rewrite E in Hhd).
  destruct (pick_spec l (Z.max max_windows 1) Hl ltac:(lia)) as (Hp1 & Hp2 & Hp3 & Hp4 & Hp5).
  rewrite !length_fmap. split_and!.
  - intros s e Hse. apply list_elem_of_fmap in Hse as (st & [= -> ->] & Hst).
    apply Hp1, Hin in Hst. lia.
  - done.
  - intros _. apply list_elem_of_fmap. exists 0%nat. split; [done|]. by apply Hp3.
  - intros H2 _. apply list_elem_of_fmap. exists (n - c)%nat. split; [f_equal; lia|].
    apply Hp4; [lia|done].
  - intros Hu Hm i Hi.
    destruct (pick_spec l (Z.max u64_max 1) Hl ltac:(unfold u64_max; lia)) as (_ & _ & _ & _ & Hall).
    rewrite Hall in Hm by (unfold u64_max in *; lia). rewrite Hp5 by lia.
    destruct (Hcov i ltac:(lia)) as (st & Hst & Hr). exists st, (st + c)%nat.
    split; [|lia]. apply list_elem_of_fmap. by exists st.
Qed.
End planner.

(** ** The set bits of a word *)
Section set_bits.
Import bitnet.

Fixpoint pbits (p : positive) : list nat :=
  match p with xH => [0%nat] | xO p => S <$> pbits p | xI p => 0%nat :: (S <$> pbits p) end.
Definition zbits (z : Z) : list nat := match z with Zpos p => pbits p | _ => [] end.

Lemma zbits_double (b : bool) z : 0 <= z -> zbits (2 * z + Z.b2z b) = (if b then [0%nat] else []) ++ (S <$> zbits z).
Proof. intros Hz. destruct z as [|p|p], b; cbn; done || lia. Qed.

Lemma land_double_pred a b : Z.land (2 * a) (2 * b + 1) = 2 * Z.land a b.
Proof.
  apply Z.bits_inj'. intros n Hn. rewrite Z.land_spec. destruct (decide (n = 0)) as [->|H0].
  - rewrite !Z.testbit_even_0. done.
  - replace n with (Z.succ (n - 1)) by lia.
    rewrite !Z.testbit_even_succ, Z.testbit_odd_succ, Z.land_spec by lia. done.
Qed.

(** Clearing the lowest set bit, [x & (x - 1)], removes the first of the set bits. *)
Lemma pbits_clear_lowest p :
  pbits p = trailing_zeros p :: zbits (Z.land (Zpos p) (Zpos p - 1)) /\ 0 <= Z.land (Zpos p) (Zpos p - 1).
Proof.
  split; [|apply Z.land_nonneg; lia]. induction p as [p IH|p IH|]; [| |done].
  - replace (Zpos p~1 - 1) with (2 * Zpos p) by lia. rewrite Z.land_comm.
    replace (Zpos p~1) with (2 * Zpos p + 1) by lia. by rewrite land_double_pred, Z.land_diag.
  - change (pbits p~0) with (S <$> pbits p). rewrite IH, fmap_cons. cbn [trailing_zeros]. f_equal.
    replace (Zpos p~0 - 1) with (2 * (Zpos p - 1) + 1) by lia.
    change (Zpos p~0) with (2 * Zpos p). rewrite land_double_pred.
    pose proof (zbits_double false (Z.land (Zpos p) (Zpos p - 1))) as H. cbn [Z.b2z] in H.
    rewrite Z.add_0_r in H. rewrite H by (apply Z.land_nonneg; lia). done.
Qed.

Lemma zbits_filter n z : 0 <= z < 2 ^ Z.of_nat n ->
  zbits z = List.filter (fun i => Z.testbit z (Z.of_nat i)) (seq 0 n).
Proof.
  revert z; induction n as [|n IH]; intros z Hz.
  - change (2 ^ Z.of_nat 0) with 1 in Hz. by replace z with 0 by lia.
  - rewrite Nat2Z.inj_succ, Z.pow_succ_r in Hz by lia. rewrite (Z.div2_odd z) at 1.
    assert (0 <= Z.div2 z < 2 ^ Z.of_nat n) as Hd by (rewrite Z.div2_div; split; [apply Z.div_pos|apply Z.div_lt_upper_bound]; lia).
    rewrite zbits_double, IH by lia. cbn [seq List.filter]. rewrite <- seq_shift, List.filter_map_swap.
    rewrite Z.bit0_odd.
    rewrite (List.filter_ext (fun a => Z.testbit z (Z.of_nat (S a))) (fun i => Z.testbit (Z.div2 z) (Z.of_nat i))).
    + by destruct (Z.odd z).
    + intros i. by rewrite Nat2Z.inj_succ, Z.div2_spec, Z.shiftr_spec by lia.
Qed.
End set_bits.

(** ** The row kernel *)
Section row_kernel.
Import bitnet.
Context `{F : F32}.

(** One column added to a running sum. *)
Definition add_col (input : list f32) (cols : nat) (sum : f32) (col : nat) : f32 :=
  if (col <? cols)%nat then match input !! col with Some x => f_add sum x | None => sum end else sum.

Lemma block_loop_spec fuel input base cols z sum :
  (length (zbits z) <= fuel)%nat -> 0 <= z ->
  block_loop fuel input base cols z sum = foldl (add_col input cols) sum ((fun i => base + i)%nat <$> zbits z).
Proof.
  revert z sum. induction fuel as [|fuel IH]; intros z sum Hf Hz; destruct z as [|p|p]; try done; try lia.
  - destruct (pbits_clear_lowest p) as [E _]. cbn [zbits] in Hf. rewrite E in Hf. cbn in Hf. lia.
  - destruct (pbits_clear_lowest p) as [E Hn]. cbn [zbits block_loop] in *. rewrite E in *.
    rewrite fmap_cons. cbn [foldl length] in *. by rewrite IH by lia.
Qed.

(** Bit [col] of the row that starts at word [off]. *)
Definition row_bit (packed : list Z) (off col : nat) : bool :=
  match packed !! (off + col / 64)%nat with
  | Some w => Z.testbit w (Z.of_nat (col mod 64))
  | None => false
  end.

(** The columns of the set bits in increasing order, added up. *)
Definition positive_sum (input : list f32) (cols : nat) (bit : nat -> bool) : f32 :=
  foldl (add_col input cols) f_zero (List.filter bit (seq 0 cols)).

Lemma zbits_shifted m w base : 0 <= w < 2 ^ Z.of_nat m ->
  Nat.add base <$> zbits w = List.filter (fun c => Z.testbit w (Z.of_nat (c - base))) (seq base m) /\
  (length (zbits w) <= m)%nat.
Proof.
  intros Hw. rewrite (zbits_filter m w Hw). split.
  - replace (seq base m) with (Nat.add base <$> seq 0 m) by (by rewrite fmap_add_seq, Nat.add_0_r).
    change (Nat.add base <$> ?l) with (map (Nat.add base) l). rewrite List.filter_map_swap. f_equal. apply List.filter_ext. intros i.
    do 2 f_equal. lia.
  - etransitivity; [apply List.filter_length_le|]. by rewrite length_seq.
Qed.

Lemma row_bit_block packed off b w c :
  packed !! (off + b)%nat = Some w -> (b * 64 <= c < b * 64 + 64)%nat ->
  row_bit packed off c = Z.testbit w (Z.of_nat (c - b * 64)).
Proof.
  intros Ew Hc. unfold row_bit.
  rewrite <- (Nat.div_unique c 64 b (c - b * 64)) by lia.
  rewrite <- (Nat.mod_unique c 64 b (c - b * 64)) by lia. by rewrite Ew.
Qed.

Lemma blocks_sum input packed off cols n :
  (forall b, (b < n)%nat -> exists w, packed !! (off + b)%nat = Some w /\ 0 <= w < 2 ^ 64) ->
  foldl (fun sum b =>
    match packed !! (off + b)%nat with
    | Some block => block_loop 64 input (b * 64) cols block sum
    | None => sum
    end) f_zero (seq 0 n) =
  foldl (add_col input cols) f_zero (List.filter (row_bit packed off) (seq 0 (n * 64))).
Proof.
  induction n as [|n IH]; intros Hw; [done|].
  rewrite seq_S, foldl_app, IH by (intros; apply Hw; lia).
  rewrite Nat.mul_succ_l, seq_app, List.filter_app, foldl_app, !Nat.add_0_l. cbn [foldl].
  destruct (Hw n ltac:(lia)) as (w & Ew & Hr). rewrite Ew.
  destruct (zbits_shifted 64 w (n * 64) Hr) as [Ez Hl].
  rewrite block_loop_spec by (exact Hl || lia). f_equal. etransitivity; [exact Ez|].
  apply List.filter_ext_in. intros c Hc. apply in_seq in Hc. symmetry. by apply row_bit_block.
Qed.

Lemma add_col_beyond input cols sum l :
  (forall c, c ∈ l -> (cols <= c)%nat) -> foldl (add_col input cols) sum l = sum.
Proof.
  revert sum; induction l as [|c l IH]; intros sum Hl; [done|]. cbn [foldl]. unfold add_col at 2.
  rewrite (proj2 (Nat.ltb_ge _ _)) by (apply Hl; by left). apply IH. intros x Hx. apply Hl. by right.
Qed.

Lemma div_ceil64_bound cols : (cols <= div_ceil64 cols * 64)%nat.
Proof. unfold div_ceil64. pose proof (Nat.div_mod (cols + 63) 64). pose proof (Nat.mod_upper_bound (cols + 63) 64). lia. Qed.

Lemma row_sum_spec input packed row cols total :
  (forall b, (b < div_ceil64 cols)%nat ->
     exists w, packed !! (row * div_ceil64 cols + b)%nat = Some w /\ 0 <= w < 2 ^ 64) ->
  bitnet_row_sum_scalar input packed row cols (div_ceil64 cols) total =
    f_mul_add (positive_sum input cols (row_bit packed (row * div_ceil64 cols))) f_two (f_opp total).
Proof.
  intros Hw. unfold bitnet_row_sum_scalar. rewrite (blocks_sum input packed _ cols _ Hw). f_equal.
  unfold positive_sum. pose proof (div_ceil64_bound cols) as Hb.
  replace (div_ceil64 cols * 64)%nat with (cols + (div_ceil64 cols * 64 - cols))%nat by lia.
  rewrite seq_app, List.filter_app, foldl_app. apply add_col_beyond.
  intros c Hc. apply list_elem_of_In, List.filter_In in Hc as [Hc _]. apply in_seq in Hc. lia.
Qed.
End row_kernel.

(** ** Packing *)
Section packing.
Import bitnet.
Context `{F : F32}.

(** The rule for a loop over [0..n]. *)
Lemma for_each_seq {S} (f : nat -> S -> option S) (I : nat -> S -> Prop) n s0 :
  I 0%nat s0 -> (forall i s, (i < n)%nat -> I i s -> exists s', f i s = Some s' /\ I (1 + i)%nat s') ->
  exists s', for_each f (seq 0 n) s0 = Some s' /\ I n s'.
Proof.
  intros H0 Hstep.
  assert (forall k i s, (i + k = n)%nat -> I i s -> exists s', for_each f (seq i k) s = Some s' /\ I n s') as H.
  { induction k as [|k IH]; intros i s Hk Hi.
    - exists s. split; [done|]. by replace n with i by lia.
    - cbn [seq for_each]. destruct (Hstep i s ltac:(lia) Hi) as (s' & -> & Hs'). apply IH; [lia|done]. }
  by apply H.
Qed.

Variables (weights : list f32) (rows cols : nat) (threshold : f32).
Let bpr := div_ceil64 cols.

(** The weight of row [r] and column [c] is above the threshold. *)
Definition above (r c : nat) : bool :=
  match weights !! (r * cols + c)%nat with Some w => f_gtb w threshold | None => false end.

(** The words hold the bits [D]. *)
Definition holds_bits (D : nat -> nat -> bool) (packed : list Z) : Prop :=
  length packed = (rows * bpr)%nat /\
  forall r b, (r < rows)%nat -> (b < bpr)%nat ->
    exists w, packed !! (r * bpr + b)%nat = Some w /\ 0 <= w < 2 ^ 64 /\
      forall k, (k < 64)%nat -> Z.testbit w (Z.of_nat k) = D r (b * 64 + k)%nat.

Lemma bit_below n : 0 <= n < 64 -> 0 <= Z.shiftl 1 n < 2 ^ 64.
Proof.
  intros Hn. rewrite Z.shiftl_mul_pow2, Z.mul_1_l by lia. split; [apply Z.pow_nonneg; lia|].
  apply Z.pow_lt_mono_r; lia.
Qed.

Lemma lor_below a b : 0 <= a < 2 ^ 64 -> 0 <= b < 2 ^ 64 -> 0 <= Z.lor a b < 2 ^ 64.
Proof.
  assert (forall x, 0 <= x < 2 ^ 64 <-> 0 <= x /\ Z.shiftr x 64 = 0) as H.
  { intros x. rewrite Z.shiftr_div_pow2 by lia. split.
    - intros Hx. split; [lia|]. by apply Z.div_small.
    - intros [H0 Hx]. split; [done|]. apply Z.div_small_iff in Hx; lia. }
  rewrite !H, Z.lor_nonneg, Z.shiftr_lor. intros [? ->] [? ->]. done.
Qed.

Lemma set_bit_spec D packed r c :
  holds_bits D packed -> (r < rows)%nat -> (c < cols)%nat ->
  exists packed', set_bit (r * bpr + c / 64) (c mod 64) packed = Some packed' /\
    holds_bits (fun r' c' => D r' c' || ((r' =? r)%nat && (c' =? c)%nat)) packed'.
Proof.
  intros [Hlen Hw] Hr Hc.
  pose proof (Nat.mod_upper_bound c 64 ltac:(lia)) as Hm. pose proof (Nat.div_mod c 64 ltac:(lia)) as Hdm.
  assert (c / 64 < bpr)%nat as Hb.
  { apply Nat.Div0.div_lt_upper_bound. pose proof (div_ceil64_bound cols). unfold bpr. lia. }
  destruct (Hw r (c / 64)%nat Hr Hb) as (w & Ew & Hwr & Hbits). unfold set_bit. rewrite Ew.
  eexists. split; [done|]. split; [by rewrite length_insert|]. intros r' b Hr' Hb'.
  destruct (decide (r' = r /\ b = (c / 64)%nat)) as [[-> ->]|Hne].
  - eexists. split; [rewrite list_lookup_insert_eq; [done|by eapply lookup_lt_Some]|].
    split; [apply lor_below; [done|apply bit_below; lia]|]. intros k Hk.
    rewrite Z.lor_spec, Hbits, Z.shiftl_mul_pow2, Z.mul_1_l, Z.pow2_bits_eqb by lia.
    rewrite Nat.eqb_refl. f_equal. cbn [andb].
    destruct (Z.eqb_spec (Z.of_nat (c mod 64)) (Z.of_nat k)), (Nat.eqb_spec (c / 64 * 64 + k) c); try done; lia.
  - destruct (Hw r' b Hr' Hb') as (w' & Ew' & Hwr' & Hbits'). exists w'.
    assert (r' * bpr + b <> r * bpr + c / 64)%nat as Hidx.
    { intros E. apply Hne. assert (r' = r) as -> by nia. split; [done|lia]. }
    rewrite list_lookup_insert_ne by done. split; [done|]. split; [done|]. intros k Hk. rewrite Hbits' by done.
    destruct (Nat.eqb_spec r' r) as [->|]; [|by rewrite ?andb_false_l, ?andb_false_r, orb_false_r].
    destruct (Nat.eqb_spec (b * 64 + k) c) as [E|]; [|by rewrite ?andb_false_l, ?andb_false_r, orb_false_r].
    exfalso. apply Hne. split; [done|]. apply (Nat.div_unique c 64 b k); lia.
Qed.

Lemma holds_bits_ext D D' packed :
  (forall r c, (r < rows)%nat -> D r c = D' r c) -> holds_bits D packed -> holds_bits D' packed.
Proof.
  intros HD [Hlen Hw]. split; [done|]. intros r b Hr Hb. destruct (Hw r b Hr Hb) as (w & Ew & Hwr & Hbits).
  exists w. split; [done|]. split; [done|]. intros k Hk. by rewrite Hbits, HD.
Qed.

(** The bits set once the rows before [row] and the columns before [col] of it are done. *)
Definition packed_before (row col r c : nat) : bool :=
  above r c && (c <? cols)%nat && ((r <? row)%nat || ((r =? row)%nat && (c <? col)%nat)).

Lemma packed_before_skip row col r c :
  packed_before row (S col) r c =
  packed_before row col r c || ((r =? row)%nat && (c =? col)%nat && above row col && (col <? cols)%nat).
Proof.
  unfold packed_before. destruct (Nat.eqb_spec r row) as [->|]; [|by rewrite !andb_false_l, !orb_false_r].
  destruct (Nat.eqb_spec c col) as [->|Hc].
  - rewrite Nat.ltb_irrefl, (proj2 (Nat.ltb_lt col (S col))) by lia.
    rewrite (Nat.ltb_irrefl col). by destruct (above row col), (col <? cols)%nat.
  - rewrite !andb_false_r, orb_false_r. do 3 f_equal.
    destruct (Nat.ltb_spec c (S col)), (Nat.ltb_spec c col); done || lia.
Qed.

Lemma packed_before_next row r c : packed_before row cols r c = packed_before (S row) 0 r c.
Proof.
  unfold packed_before. rewrite <- !andb_assoc. f_equal. rewrite (proj2 (Nat.ltb_ge c 0)) by lia.
  destruct (Nat.ltb_spec c cols); rewrite ?andb_true_l, ?andb_false_l; [|done].
  rewrite andb_false_r, orb_false_r, andb_true_r.
  destruct (Nat.ltb_spec r row), (Nat.eqb_spec r row), (Nat.ltb_spec r (S row)); done || lia.
Qed.

(** The assertion holds exactly for a full matrix, no index is out of range, and bit [c] of
    row [r] is set exactly for the weights above the threshold; the padding bits are zero. *)
Lemma pack_weights_spec :
  length weights = (rows * cols)%nat ->
  exists packed, pack_weights_1bit weights rows cols threshold = Some packed /\
    holds_bits (fun r c => above r c && (c <? cols)%nat) packed.
Proof.
  intros Hlen. unfold pack_weights_1bit. rewrite Hlen, Nat.eqb_refl. cbn [negb].
  destruct (for_each_seq
    (fun row => for_each (fun col => pack_one weights cols (div_ceil64 cols) threshold row col) (seq 0 cols))
    (fun row => holds_bits (packed_before row 0)) rows (replicate (rows * div_ceil64 cols) 0))
    as (packed & Ep & Hp).
  - split; [apply length_replicate|]. intros r b Hr Hb. exists 0. split; [|split; [lia|]].
    + apply lookup_replicate_2. unfold bpr in *. nia.
    + intros k Hk. rewrite Z.bits_0. unfold packed_before.
      rewrite (proj2 (Nat.ltb_ge r 0)), (proj2 (Nat.ltb_ge (b * 64 + k) 0)) by lia.
      by rewrite !andb_false_r.
  - intros row s Hrow Hs.
    destruct (for_each_seq (fun col => pack_one weights cols (div_ceil64 cols) threshold row col)
      (fun col => holds_bits (packed_before row col)) cols s Hs) as (s' & Es' & Hs').
    + intros col s1 Hcol Hs1. unfold pack_one.
      destruct (lookup_lt_is_Some_2 weights (row * cols + col)%nat) as [w Ew]; [nia|]. rewrite Ew.
      assert (above row col = f_gtb w threshold) as Hpos by (unfold above; by rewrite Ew).
      destruct (f_gtb w threshold) eqn:Eg.
      * destruct (set_bit_spec _ s1 row col Hs1 Hrow Hcol) as (s2 & Es2 & Hs2). exists s2. split; [exact Es2|].
        revert Hs2. apply holds_bits_ext. intros r c _. rewrite packed_before_skip, Hpos.
        rewrite (proj2 (Nat.ltb_lt col cols)) by done. by rewrite !andb_true_r.
      * exists s1. split; [done|]. revert Hs1. apply holds_bits_ext. intros r c _.
        rewrite packed_before_skip, Hpos, andb_false_r. by rewrite orb_false_r.
    + exists s'. split; [done|]. revert Hs'. apply holds_bits_ext. intros r c _. apply packed_before_next.
  - exists packed. split; [done|]. revert Hp. apply holds_bits_ext. intros r c Hr. unfold packed_before.
    rewrite (proj2 (Nat.ltb_lt r rows)) by done. by rewrite orb_true_l, andb_true_r.
Qed.

Lemma packed_words packed r b :
  holds_bits (fun r c => above r c && (c <? cols)%nat) packed -> (r < rows)%nat -> (b < bpr)%nat ->
  exists w, packed !! (r * bpr + b)%nat = Some w /\ 0 <= w < 2 ^ 64.
Proof. intros [_ Hw] Hr Hb. destruct (Hw r b Hr Hb) as (w & ? & ? & _). by exists w. Qed.

Lemma packed_row_bit packed r c :
  holds_bits (fun r c => above r c && (c <? cols)%nat) packed -> (r < rows)%nat -> (c < cols)%nat ->
  row_bit packed (r * bpr) c = above r c.
Proof.
  intros [_ Hw] Hr Hc. pose proof (Nat.mod_upper_bound c 64 ltac:(lia)). pose proof (Nat.div_mod c 64 ltac:(lia)).
  destruct (Hw r (c / 64)%nat Hr) as (w & Ew & _ & Hbits).
  { apply Nat.Div0.div_lt_upper_bound. pose proof (div_ceil64_bound cols). unfold bpr. lia. }
  unfold row_bit. rewrite Ew, Hbits by done. replace (c / 64 * 64 + c mod 64)%nat with c by lia.
  by rewrite (proj2 (Nat.ltb_lt _ _)), andb_true_r by done.
Qed.

Lemma kernel_spec (input output : list f32) :
  length weights = (rows * cols)%nat -> length input = cols -> length output = rows ->
  exists packed, pack_weights_1bit weights rows cols threshold = Some packed /\
    bitnet_linear_1bit input packed rows cols output =
      Ok ((fun r => f_mul_add (positive_sum input cols (above r)) f_two (f_opp (f_sum input))) <$> seq 0 rows).
Proof.
  intros Hw Hi Ho. destruct (pack_weights_spec Hw) as (packed & Ep & Hp). exists packed. split; [done|].
  unfold bitnet_linear_1bit, validate_bitnet_dimensions.
  rewrite Hi, Ho, (proj1 Hp), !Nat.eqb_refl. cbn [negb rbind]. f_equal. apply list_fmap_ext. intros i r Hr.
  apply lookup_seq in Hr as [-> Hr]. cbn.
  rewrite row_sum_spec by (intros; by apply packed_words). f_equal. unfold positive_sum. f_equal.
  apply List.filter_ext_in. intros c Hc. apply in_seq in Hc. apply packed_row_bit; [done|lia|lia].
Qed.
(** the bit-packed kernel computes what the dense layer over the quantized weights does:
    packing a [rows * cols] matrix never panics, and the layer on the packed words returns
    for every row the fused [2 * P - T], where [P] adds the inputs at the columns whose
    weight is above the threshold, in column order, and [T] is the sum of the inputs.  The
    equation is exact in any float format. *)
Theorem bitnet_kernel_correct (input output : list f32) :
  length weights = (rows * cols)%nat -> length input = cols -> length output = rows ->
  exists packed, pack_weights_1bit weights rows cols threshold = Some packed /\
    bitnet_linear_1bit input packed rows cols output =
      Ok ((fun r => f_mul_add (positive_sum input cols (above r)) f_two (f_opp (f_sum input))) <$> seq 0 rows).
Proof. apply kernel_spec. Qed.
End packing.

(** ** Two float formats *)

(** Exact arithmetic, on integers. *)
#[global] Instance exact_f32 : F32 := {|
  f32 := Z; f_zero := 0; f_two := 2; f_add := Z.add; f_opp := Z.opp;
  f_mul_add a b c := a * b + c; f_sum := Zsum_with id; f_gtb a b := b <? a;
|}.

(** IEEE binary32.  The fused operation rounds the exact sum once. *)
Module binary32.
Definition prec : Z := 24.
Definition emax : Z := 128.

Definition exact_sum (m1 e1 m2 e2 : Z) : spec_float :=
  let e := Z.min e1 e2 in
  binary_normalize prec emax (m1 * 2 ^ (e1 - e) + m2 * 2 ^ (e2 - e)) e false.

Definition signed (s : bool) (m : positive) : Z := if s then Zneg m else Zpos m.

Definition fma (a b c : spec_float) : spec_float :=
  match a, b, c with
  | S754_finite s1 m1 e1, S754_finite s2 m2 e2, S754_finite s3 m3 e3 =>
      exact_sum (signed s1 m1 * signed s2 m2) (e1 + e2) (signed s3 m3) e3
  | S754_finite _ _ _, S754_finite _ _ _, S754_infinity s => S754_infinity s
  | _, _, _ => SFadd prec emax (SFmul prec emax a b) c
  end.

(** Sums start from the negative zero. *)
Definition lib : F32 := {|
  f32 := spec_float;
  f_zero := S754_zero false;
  f_two := S754_finite false 8388608 (-22);
  f_add := SFadd prec emax;
  f_opp := SFopp;
  f_mul_add := fma;
  f_sum := foldl (SFadd prec emax) (S754_zero true);
  f_gtb a b := SFltb b a;
|}.

Definition of_Z (n : Z) : spec_float := binary_normalize prec emax n 0 false.
End binary32.

Section exact_layer.
Import bitnet.

Definition at_col (input : list Z) (c : nat) : Z := default 0 (input !! c).

Lemma add_col_exact (input : list Z) cols (acc : Z) c :
  length input = cols -> (c < cols)%nat -> add_col input cols acc c = acc + at_col input c.
Proof.
  intros Hlen Hc. unfold add_col, at_col. rewrite (proj2 (Nat.ltb_lt _ _)) by done.
  transitivity (match (input !! c : option Z) with Some x => acc + x | None => acc end); [done|].
  destruct (lookup_lt_is_Some_2 input c) as [x ->]; [lia|done].
Qed.

Lemma positive_sum_exact input cols bit :
  length input = cols ->
  positive_sum input cols bit = Zsum_with (fun c => if bit c then at_col input c else 0) (seq 0 cols).
Proof.
  intros Hlen. unfold positive_sum.
  assert (forall l acc, (forall c, c ∈ l -> (c < cols)%nat) ->
    foldl (add_col input cols) acc (List.filter bit l) =
      acc + Zsum_with (fun c => if bit c then at_col input c else 0) l) as H.
  { induction l as [|c l IH]; intros acc Hl; [cbn; lia|]. rewrite Zsum_with_cons. cbn [List.filter].
    pose proof (Hl c ltac:(by left)) as Hc.
    assert (forall c', c' ∈ l -> (c' < cols)%nat) as Hl' by (intros c' Hc'; apply Hl; by right).
    destruct (bit c); [|rewrite IH by done; lia]. cbn [foldl]. rewrite IH by done.
    rewrite add_col_exact by (done || lia). lia. }
  rewrite H; [done|]. intros c Hc. apply elem_of_seq in Hc. lia.
Qed.

Lemma sum_by_index input : Zsum_with id input = Zsum_with (at_col input) (seq 0 (length input)).
Proof.
  induction input as [|x l IH] using rev_ind; [done|].
  rewrite length_app, Nat.add_1_r, seq_S, !Zsum_with_app, IH. f_equal.
  - apply Zsum_with_ext. intros c Hc. apply elem_of_seq in Hc. unfold at_col. by rewrite lookup_app_l by lia.
  - cbn. unfold at_col. rewrite lookup_app_r, Nat.sub_diag by lia. done.
Qed.

(** over exact arithmetic the 1-bit layer is the product with a matrix of signs: every
    output is the sum of the inputs, each with the sign of its weight (plus above the
    threshold, minus otherwise). *)
Theorem bitnet_is_sign_product (weights : list Z) (rows cols : nat) (threshold : Z) (input output : list Z) :
  length weights = (rows * cols)%nat -> length input = cols -> length output = rows ->
  exists packed, pack_weights_1bit weights rows cols threshold = Some packed /\
    bitnet_linear_1bit input packed rows cols output =
      Ok ((fun r => Zsum_with (fun c => (if above weights cols threshold r c then 1 else -1) * at_col input c)
                      (seq 0 cols)) <$> seq 0 rows).
Proof.
  intros Hw Hi Ho. destruct (kernel_spec (F := exact_f32) weights rows cols threshold input output Hw Hi Ho)
    as (packed & Ep & H). exists packed. split; [exact Ep|]. etransitivity; [exact H|]. f_equal.
  apply list_fmap_ext. intros i r _. rewrite positive_sum_exact by done. cbn [f_mul_add f_two f_opp f_sum exact_f32].
  rewrite sum_by_index, Hi. generalize (above (F := exact_f32) weights cols threshold r). intros bit. clear.
  induction (seq 0 cols) as [|c l IH]; [done|]. rewrite !Zsum_with_cons. destruct (bit c); lia.
Qed.
End exact_layer.

Module inference_examples.
Import bitnet text.

Definition weights : list Z := [5; -3; 8; -1; 2; -5; -6; 2].

Lemma bitnet_is_sign_product_witness :
  exists packed, pack_weights_1bit weights 2 4 0 = Some packed /\
    bitnet_linear_1bit [1; 2; 3; 4] packed 2 4 [0; 0] = Ok [-2; 0].
Proof. exact (bitnet_is_sign_product weights 2 4 0 [1; 2; 3; 4] [0; 0] eq_refl eq_refl eq_refl). Defined.

Lemma bitnet_kernel_correct_witness :
  exists packed, pack_weights_1bit (F := binary32.lib) (binary32.of_Z <$> weights) 2 4 (S754_zero false) = Some packed /\
    (let w := binary32.of_Z in
     is_ok (bitnet_linear_1bit (F := binary32.lib) (w <$> [1; 2; 3; 4]) packed 2 4 (w <$> [0; 0]))) = true.
Proof.
  destruct (bitnet_kernel_correct (F := binary32.lib) (binary32.of_Z <$> weights) 2 4 (S754_zero false)
    (binary32.of_Z <$> [1; 2; 3; 4]) (binary32.of_Z <$> [0; 0])) as (packed & E & H);
    [vm_refl|vm_refl|vm_refl|].
  exists packed. split; [exact E|]. exact (f_equal is_ok H).
Defined.

(** The documented example, in binary32. *)
Example documented_layer :
  (match pack_weights_1bit (F := binary32.lib) (binary32.of_Z <$> weights) 2 4 (S754_zero false) with
   | Some packed => bitnet_linear_1bit (F := binary32.lib) (binary32.of_Z <$> [1; 2; 3; 4]) packed 2 4 [S754_zero false; S754_zero false]
   | None => Err (WeightPackingError "")
   end) = Ok [binary32.of_Z (-2); S754_zero false].
Proof. vm_refl. Qed.

(** The batched kernel panics for zero columns, where the single one returns a result. *)
Example batched_zero_columns :
  bitnet_linear_1bit_batched_parallel (F := exact_f32) [] 2 [] 1 0 [0; 0] = None /\
  bitnet_linear_1bit (F := exact_f32) [] [] 1 0 [0] = Ok [0].
Proof. split; vm_refl. Qed.

Lemma plan_windows_cover_witness :
  exists s e, (s, e) ∈ plan_windows 300 126 32 32 /\ (s <= 200 < e)%nat.
Proof.
  destruct (plan_windows_cover 300 126 32 32) as (_ & _ & _ & _ & H). apply H; [unfold u64_max; lia| |lia].
  apply Z.leb_le. vm_refl.
Defined.

(** A cap of one window keeps the first window only: the end of the text is not scored. *)
Example one_window_drops_tail :
  plan_windows 300 126 32 1 = [(0%nat, 126%nat)] /\
  plan_windows 300 126 32 2 = [(0%nat, 126%nat); (174%nat, 300%nat)] /\
  plan_windows 300 126 32 32 = [(0, 126); (94, 220); (174, 300)]%nat.
Proof. split_and!; vm_refl. Qed.
End inference_examples.
