(* ===== verification/Quantize.v ===== *)
(** * Tensors and quantized weights

    [Candle] is the tensor library the service calls, as a class of operations that may fail.
    [int8] translates the symmetric 8-bit quantization of core/inference/src/kernels/bitnet.rs,
    [hybrid] the weights of services/inference/src/models/quantized_qwen2.rs that use 8 bits or
    1 bit depending on the layer. *)

From stdpp Require Import base numbers list gmap strings.
From Stdlib Require Import ZArith Lia QArith Qabs Qround Lqa Qfield.
From S2P Require Import Prelude Inference.

#[local] Open Scope Z_scope.

(** ** The float operations of the quantizers *)
Class QuantF32 `{F : F32} := {
  f_abs : f32 -> f32;
  f_mul : f32 -> f32 -> f32;
  f_div : f32 -> f32 -> f32;
  f_max : f32 -> f32 -> f32;
  f_round : f32 -> f32;
  f_clamp : f32 -> f32 -> f32 -> f32;
  f_of_Z : Z -> f32;
  f_to_i8 : f32 -> Z;
  f_1e8 : f32;
}.

(** ** kernels/bitnet.rs: 8-bit quantization *)
Module int8.
Section int8.
Context `{QF : QuantF32}.

(** [max_by] with [partial_cmp]: the last of the maximal elements. *)
Definition max_by (l : list f32) : option f32 :=
  match l with [] => None | a :: l => Some (foldl (fun a b => if f_gtb a b then a else b) a l) end.

Definition quantize_int8 (input : list f32) : list Z * f32 :=
  match input with
  | [] => ([], f_of_Z 1)
  | _ =>
      let absmax := default (f_of_Z 1) (max_by (f_abs <$> input)) in
      let scale := if f_gtb absmax (f_of_Z 0) then f_div absmax (f_of_Z 127) else f_of_Z 1 in
      ((fun x => f_to_i8 (f_clamp (f_of_Z (-128)) (f_of_Z 127) (f_round (f_div x scale)))) <$> input, scale)
  end.

Definition dequantize_int8 (input : list Z) (scale : f32) : list f32 :=
  (fun x => f_mul (f_of_Z x) scale) <$> input.
End int8.
End int8.

(** ** Tensors *)

(** The operations of candle the model uses.  [div_sqrt t n] divides by the square root of
    [n], [index_seq t n] is [t.i((.., n, ..))], [to_flat] flattens to a vector of floats and
    [unsqueezed tokens] is a tensor of token ids with a batch dimension. *)
Class Candle `{F : F32} := {
  tensor : Type;
  qmatmul : Type;
  rms_norm : Type;
  embedding : Type;
  dims : tensor -> list nat;
  t_add : tensor -> tensor -> Result tensor string;
  t_mul : tensor -> tensor -> Result tensor string;
  t_matmul : tensor -> tensor -> Result tensor string;
  t_broadcast_add : tensor -> tensor -> Result tensor string;
  t_t : tensor -> Result tensor string;
  contiguous : tensor -> Result tensor string;
  transpose : tensor -> nat -> nat -> Result tensor string;
  reshape : tensor -> list nat -> Result tensor string;
  narrow : tensor -> nat -> nat -> nat -> Result tensor string;
  rope : tensor -> tensor -> tensor -> Result tensor string;
  cat : list tensor -> nat -> Result tensor string;
  repeat_kv : tensor -> nat -> Result tensor string;
  div_sqrt : tensor -> nat -> Result tensor string;
  broadcast_as : tensor -> list nat -> Result tensor string;
  where_cond : tensor -> tensor -> tensor -> Result tensor string;
  softmax_last_dim : tensor -> Result tensor string;
  silu : tensor -> Result tensor string;
  index_seq : tensor -> nat -> Result tensor string;
  squeeze0 : tensor -> Result tensor string;
  qmm_forward : qmatmul -> tensor -> Result tensor string;
  norm_forward : rms_norm -> tensor -> Result tensor string;
  emb_forward : embedding -> tensor -> Result tensor string;
  unsqueezed : list Z -> Result tensor string;
  from_u8 : list Z -> nat * nat -> Result tensor string;
  from_vec : list f32 -> list nat -> Result tensor string;
  to_flat : tensor -> Result (list f32) string;
  to_vec2 : tensor -> Result (list (list f32)) string;
}.

(** ** models/quantized_qwen2.rs: weights by stage *)
Module hybrid.
Inductive QuantizationStage := Int8Stage1 | BitNet | Int8Stage3.

#[global] Instance QuantizationStage_eq_dec : EqDecision QuantizationStage.
Proof. solve_decision. Defined.

Section config.
Context `{F : F32}.
(** [HybridMatrixConfig] of config.rs. *)
Record HybridMatrixConfig : Type := MkHybridMatrixConfig {
  enabled : bool;
  stage1_end : nat;
  stage2_end : nat;
  total_layers : nat;
  bitnet_threshold : f32;
}.

Definition should_enable_hybrid_matrix (config : HybridMatrixConfig) (layers : nat) : bool :=
  if (stage2_end config <=? stage1_end config)%nat || (total_layers config <=? stage2_end config)%nat then false
  else if negb (layers =? total_layers config)%nat then false
  else true.

Definition for_layer (layer_idx : nat) (config : HybridMatrixConfig) : QuantizationStage :=
  if (layer_idx <? stage1_end config)%nat then Int8Stage1
  else if (layer_idx <? stage2_end config)%nat then BitNet
  else Int8Stage3.

Definition uses_bitnet_weights (layer_idx : nat) (config : HybridMatrixConfig) : bool :=
  bool_decide (for_layer layer_idx config = BitNet).
End config.

Section weights.
Context `{F : F32, QF : !QuantF32, CL : !Candle}.

Record HybridWeights : Type := MkHybridWeights {
  stage : QuantizationStage;
  rows : nat;
  cols : nat;
  bitnet_packed : option (list Z);
  bitnet_row_scales : option (list f32);
  int8_weight_tensor : option tensor;
}.

(** The loop over the rows that pushes their scales; [None]: a row out of range. *)
Definition row_scale (cols : nat) (row : list f32) : f32 :=
  f_max (f_div (f_sum (f_abs <$> row)) (f_of_Z (Z.of_nat cols))) f_1e8.
Definition row_scales (rows cols : nat) (flattened : list f32) : option (list f32) :=
  if (length flattened <? rows * cols)%nat then None
  else Some ((fun row => row_scale cols (take cols (drop (row * cols) flattened))) <$> seq 0 rows).

(** The outer [option] is [None] when the code panics. *)
Definition from_f32_tensor (t : tensor) (layer_idx : nat) (config : HybridMatrixConfig)
    : option (Result HybridWeights string) :=
  let stage := for_layer layer_idx config in
  match dims t with
  | [rows; cols] =>
      match to_vec2 t with
      | Err e => Some (Err e)
      | Ok weights_f32 =>
          let flattened := mjoin weights_f32 in
          match stage with
          | BitNet =>
              scales ← row_scales rows cols flattened;
              packed ← bitnet.pack_weights_1bit flattened rows cols (bitnet_threshold config);
              Some (Ok (MkHybridWeights stage rows cols (Some packed) (Some scales) None))
          | Int8Stage1 | Int8Stage3 =>
              let '(quantized, scale) := int8.quantize_int8 flattened in
              Some (let? weight_tensor := from_vec (int8.dequantize_int8 quantized scale) [rows; cols] in
                    Ok (MkHybridWeights stage rows cols None None (Some weight_tensor)))
          end
      end
  | _ => Some (Err "Expected 2D weight tensor")
  end.

(** [row_out.iter_mut().zip(row_scales)] *)
Fixpoint scaled (out scales : list f32) : list f32 :=
  match out, scales with
  | v :: out, s :: scales => f_mul v s :: scaled out scales
  | _, _ => out
  end.

(** [output_flat.chunks_mut(rows)] with the number of elements as fuel. *)
Fixpoint chunks (fuel n : nat) (l : list f32) : list (list f32) :=
  match fuel, l with
  | S fuel, _ :: _ => take n l :: chunks fuel n (drop n l)
  | _, _ => []
  end.

Definition kernel_error (e : bitnet.KernelError) : string := "BitNet kernel failed".

(** The loop over single rows, each of which overwrites the whole output. *)
Fixpoint rows_loop (packed : list Z) (scales : list f32) (rows cols : nat) (inputs : list (list f32))
    (output_flat : list f32) : option (Result (list f32) string) :=
  match inputs with
  | [] => Some (Ok output_flat)
  | input_row :: inputs =>
      match (if (1024 <=? rows)%nat
             then bitnet.bitnet_linear_1bit_parallel input_row packed rows cols (replicate rows f_zero)
             else bitnet.bitnet_linear_1bit input_row packed rows cols (replicate rows f_zero)) with
      | Err e => Some (Err (kernel_error e))
      | Ok row_out =>
          let row_out := scaled row_out scales in
          if negb (length output_flat =? length row_out)%nat then None
          else rows_loop packed scales rows cols inputs row_out
      end
  end.

(** The 1-bit branch from the extracted rows to the flat output; [None]: a panic. *)
Definition bitnet_outputs (packed : list Z) (scales : list f32) (rows cols : nat) (inputs : list (list f32))
    : option (Result (list f32) string) :=
  let batch := length inputs in
  if (1 <? batch)%nat then
    o ← bitnet.bitnet_linear_1bit_batched_parallel (mjoin inputs) batch packed rows cols (replicate (batch * rows) f_zero);
    match o with
    | Err e => Some (Err (kernel_error e))
    | Ok output_flat =>
        if (rows =? 0)%nat then None
        else Some (Ok (mjoin ((fun row_out => scaled row_out scales) <$> chunks (length output_flat) rows output_flat)))
    end
  else rows_loop packed scales rows cols inputs (replicate (batch * rows) f_zero).

(** [input_2d] and the shape to restore. *)
Definition flatten_input (input : tensor) : Result (tensor * option (nat * nat)) string :=
  match dims input with
  | [_; _] => Ok (input, None)
  | [batch; seq_len; in_features] =>
      let? flattened := reshape input [(batch * seq_len)%nat; in_features] in Ok (flattened, Some (batch, seq_len))
  | _ => Err "HybridWeights::forward: expected rank-2 or rank-3 input"
  end.

Definition restore_shape (w : HybridWeights) (original_shape : option (nat * nat)) (output_2d : tensor)
    : Result tensor string :=
  match original_shape with
  | Some (batch, seq_len) => reshape output_2d [batch; seq_len; rows w]
  | None => Ok output_2d
  end.

Definition forward (w : HybridWeights) (input : tensor) : option (Result tensor string) :=
  match flatten_input input with
  | Err e => Some (Err e)
  | Ok (input_2d, original_shape) =>
      output_2d ← match stage w with
        | BitNet =>
            packed ← bitnet_packed w;
            scales ← bitnet_row_scales w;
            match to_vec2 input_2d with
            | Err e => Some (Err e)
            | Ok inputs =>
                o ← bitnet_outputs packed scales (rows w) (cols w) inputs;
                Some (let? output_flat := o in from_vec output_flat [length inputs; rows w])
            end
        | Int8Stage1 | Int8Stage3 =>
            weight_tensor ← int8_weight_tensor w;
            Some (let? wt := t_t weight_tensor in t_matmul input_2d wt)
        end;
      Some (let? out := output_2d in restore_shape w original_shape out)
  end.
End weights.
End hybrid.

(** ** A batch is its rows *)
Section rowwise.
Import bitnet.
Context `{F : F32}.

Lemma chunks_of_join fuel n (ls : list (list f32)) :
  (n <> 0)%nat -> Forall (fun l => length l = n) ls -> (length ls <= fuel)%nat ->
  hybrid.chunks fuel n (mjoin ls) = ls.
Proof.
  intros Hn H. revert fuel. induction H as [|l ls Hl _ IH]; intros fuel Hf; [by destruct fuel|].
  destruct fuel as [|fuel]; [cbn in Hf; lia|]. change (mjoin (l :: ls)) with (l ++ mjoin ls).
  destruct l as [|x l]; [by subst n|]. cbn [app hybrid.chunks].
  change (x :: l ++ mjoin ls) with ((x :: l) ++ mjoin ls). rewrite <- Hl.
  rewrite take_app_length, drop_app_length, Hl. f_equal. apply IH. cbn in Hf. lia.
Qed.

(** The batched kernel returns the rows the single-row kernel returns, one after the other. *)
Lemma batched_rows (inputs : list (list f32)) packed rows cols :
  (rows <> 0)%nat -> (cols <> 0)%nat -> Forall (fun l => length l = cols) inputs ->
  length packed = (rows * div_ceil64 cols)%nat ->
  bitnet_linear_1bit_batched_parallel (mjoin inputs) (length inputs) packed rows cols
    (replicate (length inputs * rows) f_zero) =
  Some (Ok (mjoin ((fun input =>
    (fun r => bitnet_row_sum_scalar input packed r cols (div_ceil64 cols) (f_sum input)) <$> seq 0 rows) <$> inputs))).
Proof.
  intros Hr Hc Hin Hp. unfold bitnet_linear_1bit_batched_parallel, chunks_exact.
  rewrite (join_length _ cols), length_replicate, Hp, !Nat.eqb_refl by done. cbn [negb].
  rewrite (proj2 (Nat.eqb_neq cols 0)), Nat.div_mul by done. do 2 f_equal.
  set (sums := f_sum <$> _).
  rewrite (fmap_seq_product (fun b r => bitnet_row_sum_scalar (take cols (drop (b * cols) (mjoin inputs))) packed r cols
    (div_ceil64 cols) (nth b sums f_zero)) (length inputs) rows Hr). f_equal.
  apply list_eq. intros i. rewrite !list_lookup_fmap. destruct (inputs !! i) as [l|] eqn:El; cbn.
  - pose proof (lookup_lt_Some _ _ _ El) as Hi. rewrite lookup_seq_lt by done. cbn.
    assert (nth i sums f_zero = f_sum l) as ->.
    { apply nth_lookup_Some. subst sums. rewrite !list_lookup_fmap, lookup_seq_lt by done. cbn.
      by rewrite (row_of_join _ _ _ l). }
    by rewrite (row_of_join _ _ _ l).
  - by rewrite lookup_seq_ge by (by apply lookup_ge_None).
Qed.
End rowwise.

(** ** The 1-bit layer *)
Section one_bit_layer.
Import bitnet hybrid.
Context `{F : F32, QF : !QuantF32, CL : !Candle}.
Context (matrix : list (list f32)) (rows cols : nat) (threshold : f32).
Context (Hrows : length matrix = rows) (Hcols : Forall (fun l => length l = cols) matrix).
Context (Hr : (rows <> 0)%nat) (Hc : (cols <> 0)%nat).

(** What the layer means: per row, the inputs signed by the weights, times the row's scale. *)
Definition signed_row (input : list f32) (r : nat) : f32 :=
  f_mul (f_mul_add (positive_sum input cols (above (mjoin matrix) cols threshold r)) f_two (f_opp (f_sum input)))
    (row_scale cols (nth r matrix [])).

Definition layer_scales : list f32 := row_scale cols <$> matrix.

Lemma flattened_length : length (mjoin matrix) = (rows * cols)%nat.
Proof. by rewrite (join_length matrix cols), Hrows. Qed.

Lemma row_scales_spec : row_scales rows cols (mjoin matrix) = Some layer_scales.
Proof.
  unfold row_scales. rewrite flattened_length, Nat.ltb_irrefl. f_equal. apply list_eq. intros i.
  unfold layer_scales. rewrite !list_lookup_fmap. destruct (matrix !! i) as [l|] eqn:El; cbn.
  - pose proof (lookup_lt_Some _ _ _ El) as Hi. rewrite lookup_seq_lt by lia. cbn. by rewrite (row_of_join _ _ _ l).
  - by rewrite lookup_seq_ge by (rewrite <- Hrows; by apply lookup_ge_None).
Qed.

Lemma scaled_zip {A} (g : A -> f32) (h : A -> f32) (l : list A) :
  scaled (g <$> l) (h <$> l) = (fun x => f_mul (g x) (h x)) <$> l.
Proof. induction l as [|x l IH]; [done|]. cbn. by rewrite <- IH. Qed.

Lemma layer_scales_seq : layer_scales = (fun r => row_scale cols (nth r matrix [])) <$> seq 0 rows.
Proof.
  apply list_eq. intros i. unfold layer_scales. rewrite !list_lookup_fmap. destruct (matrix !! i) as [l|] eqn:El; cbn.
  - pose proof (lookup_lt_Some _ _ _ El) as Hi. rewrite lookup_seq_lt by lia. cbn.
    by rewrite (nth_lookup_Some _ _ _ _ El).
  - by rewrite lookup_seq_ge by (rewrite <- Hrows; by apply lookup_ge_None).
Qed.

Lemma row_kernel_spec packed input r :
  pack_weights_1bit (mjoin matrix) rows cols threshold = Some packed -> length input = cols -> (r < rows)%nat ->
  bitnet_row_sum_scalar input packed r cols (div_ceil64 cols) (f_sum input) =
    f_mul_add (positive_sum input cols (above (mjoin matrix) cols threshold r)) f_two (f_opp (f_sum input)).
Proof.
  intros Hp Hi Hlt. destruct (kernel_spec (mjoin matrix) rows cols threshold input (replicate rows f_zero)
    flattened_length Hi (length_replicate _ _)) as (p & Ep & E). rewrite Hp in Ep. injection Ep as <-.
  unfold bitnet_linear_1bit in E. destruct (validate_bitnet_dimensions _ _ _ _ _); [|done]. injection E as E.
  assert (forall f g : nat -> f32, f <$> seq 0 rows = g <$> seq 0 rows -> f r = g r) as H.
  { intros f g Efg. apply (f_equal (lookup r)) in Efg. rewrite !list_lookup_fmap, lookup_seq_lt in Efg by done.
    by injection Efg. }
  exact (H _ _ E).
Qed.

Lemma packed_length packed :
  pack_weights_1bit (mjoin matrix) rows cols threshold = Some packed -> length packed = (rows * div_ceil64 cols)%nat.
Proof.
  intros Hp. destruct (pack_weights_spec _ _ _ threshold flattened_length) as (p & Ep & [Hl _]).
  rewrite Hp in Ep. by injection Ep as <-.
Qed.

Lemma one_row packed input :
  pack_weights_1bit (mjoin matrix) rows cols threshold = Some packed -> length input = cols ->
  bitnet_linear_1bit input packed rows cols (replicate rows f_zero) =
    Ok ((fun r => bitnet_row_sum_scalar input packed r cols (div_ceil64 cols) (f_sum input)) <$> seq 0 rows).
Proof.
  intros Hp Hi. unfold bitnet_linear_1bit, validate_bitnet_dimensions.
  by rewrite length_replicate, Hi, (packed_length packed), !Nat.eqb_refl by done.
Qed.

Lemma row_outputs packed input :
  pack_weights_1bit (mjoin matrix) rows cols threshold = Some packed -> length input = cols ->
  scaled ((fun r => bitnet_row_sum_scalar input packed r cols (div_ceil64 cols) (f_sum input)) <$> seq 0 rows)
    layer_scales = signed_row input <$> seq 0 rows.
Proof.
  intros Hp Hi. rewrite layer_scales_seq, scaled_zip. apply list_fmap_ext. intros i r [-> Hlt]%lookup_seq. cbn.
  unfold signed_row. by rewrite (row_kernel_spec packed).
Qed.

Lemma bitnet_outputs_spec packed inputs :
  pack_weights_1bit (mjoin matrix) rows cols threshold = Some packed -> Forall (fun l => length l = cols) inputs ->
  bitnet_outputs packed layer_scales rows cols inputs =
    Some (Ok (mjoin ((fun input => signed_row input <$> seq 0 rows) <$> inputs))).
Proof.
  intros Hp Hin. unfold bitnet_outputs. destruct (1 <? length inputs)%nat eqn:Hb.
  - rewrite batched_rows by (done || by apply packed_length). cbn [mbind option_bind].
    rewrite (proj2 (Nat.eqb_neq rows 0)) by done. do 3 f_equal. rewrite chunks_of_join; [|done| |].
    + rewrite <- list_fmap_compose. apply list_fmap_ext. intros i l Hl. cbn. apply row_outputs; [done|].
      by apply (Forall_lookup_1 _ _ i l Hin).
    + apply Forall_fmap. eapply Forall_impl; [exact Hin|]. intros l _. cbn. by rewrite length_fmap, length_seq.
    + rewrite (join_length _ rows); [rewrite length_fmap; nia|]. apply Forall_fmap.
      eapply Forall_impl; [exact Hin|]. intros l _. cbn. by rewrite length_fmap, length_seq.
  - destruct inputs as [|x [|y l]]; [done| |done]. cbn [length Nat.mul]. rewrite Nat.add_0_r. inversion_clear Hin.
    cbn [rows_loop fmap list_fmap]. unfold bitnet_linear_1bit_parallel.
    transitivity (match bitnet_linear_1bit x packed rows cols (replicate rows f_zero) with
      | Err e => Some (Err (kernel_error e))
      | Ok row_out =>
          if negb (length (replicate rows f_zero) =? length (scaled row_out layer_scales))%nat then None
          else Some (Ok (scaled row_out layer_scales)) end); [by destruct (1024 <=? rows)%nat|].
    rewrite one_row, row_outputs by done. rewrite length_fmap, length_replicate, length_seq, Nat.eqb_refl. cbn [negb].
    do 2 f_equal. symmetry. apply app_nil_r.
Qed.

(** C19: a layer of the 1-bit stage computes the signed sums its weights stand for, whatever
    the batch: quantizing a [rows * cols] matrix neither fails nor panics, and on any number of
    input rows - the batched kernel for several, the single-row kernels for one - the flat
    output holds, row after row, twice the sum of the inputs whose weight is above the
    threshold less the sum of all of them, times the mean magnitude of the weight row. *)
Theorem one_bit_layer_correct (t : tensor) (layer_idx : nat) (config : HybridMatrixConfig) :
  dims t = [rows; cols] -> to_vec2 t = Ok matrix -> bitnet_threshold config = threshold ->
  for_layer layer_idx config = BitNet ->
  exists w packed scales, from_f32_tensor t layer_idx config = Some (Ok w) /\
    w = MkHybridWeights BitNet rows cols (Some packed) (Some scales) None /\
    forall inputs, Forall (fun l => length l = cols) inputs ->
      bitnet_outputs packed scales rows cols inputs =
        Some (Ok (mjoin ((fun input => signed_row input <$> seq 0 rows) <$> inputs))).
Proof.
  intros Hd Hv Ht Hs.
  destruct (kernel_spec (mjoin matrix) rows cols threshold (replicate cols f_zero) (replicate rows f_zero)
    flattened_length (length_replicate _ _) (length_replicate _ _)) as (packed & Ep & _).
  eexists _, packed, layer_scales. split; [|split; [reflexivity|]].
  - unfold from_f32_tensor. rewrite Hd, Hv, Hs, row_scales_spec, Ht. cbn [mbind option_bind]. by rewrite Ep.
  - intros inputs Hin. by apply bitnet_outputs_spec.
Qed.
End one_bit_layer.

(** ** Exact rationals *)
Module rational.
Open Scope Q_scope.

Definition gtb (a b : Q) : bool := negb (Qle_bool a b).
Definition max (a b : Q) : Q := if gtb a b then a else b.

(** Half-way cases are rounded away from zero. *)
Definition round (q : Q) : Z := if Qle_bool 0 q then Qfloor (q + (1 # 2)) else Qceiling (q - (1 # 2)).
Definition clamp (lo hi q : Q) : Q := if gtb lo q then lo else if gtb q hi then hi else q.
(** The cast truncates and saturates. *)
Definition to_i8 (q : Q) : Z := Z.max (-128) (Z.min 127 (Z.quot (Qnum q) (Zpos (Qden q)))).

#[local] Instance lib : F32 := {|
  f32 := Q; f_zero := 0; f_two := 2; f_add := Qplus; f_opp := Qopp;
  f_mul_add a b c := a * b + c; f_sum := foldl Qplus 0; f_gtb := gtb;
|}.

#[local] Instance quant : @QuantF32 lib := {|
  f_abs := Qabs : @f32 lib -> @f32 lib; f_mul := Qmult; f_div := Qdiv; f_max := max;
  f_round q := inject_Z (round q); f_clamp := clamp; f_of_Z := inject_Z; f_to_i8 := to_i8; f_1e8 := 1 # 100000000;
|}.

Lemma gtb_true a b : gtb a b = true <-> b < a.
Proof.
  unfold gtb. rewrite negb_true_iff. split; intros H.
  - apply Qnot_le_lt. intros Hle. apply Qle_bool_iff in Hle. congruence.
  - apply not_true_iff_false. intros Hle%Qle_bool_iff. by apply (Qlt_not_le _ _ H).
Qed.

Lemma gtb_false a b : gtb a b = false <-> a <= b.
Proof. unfold gtb. rewrite negb_false_iff. apply Qle_bool_iff. Qed.

Lemma round_near q : Qabs (inject_Z (round q) - q) <= 1 # 2.
Proof.
  unfold round. apply Qabs_Qle_condition. destruct (Qle_bool 0 q).
  - pose proof (Qfloor_le (q + (1 # 2))). pose proof (Qlt_floor (q + (1 # 2))) as H1.
    rewrite inject_Z_plus in H1. change (inject_Z 1) with 1 in H1. split; lra.
  - pose proof (Qle_ceiling (q - (1 # 2))). pose proof (Qceiling_lt (q - (1 # 2))) as H1.
    unfold Z.sub in H1. rewrite inject_Z_plus in H1. change (inject_Z (- (1))) with (- (1)) in H1. split; lra.
Qed.

Lemma round_bounds (n : Z) q : inject_Z (- n) <= q <= inject_Z n -> (- n <= round q <= n)%Z.
Proof.
  intros [Hl Hu]. pose proof (round_near q) as H. apply Qabs_Qle_condition in H as [H1 H2].
  assert (inject_Z (round q) < inject_Z (n + 1)) as Ha.
  { rewrite inject_Z_plus. change (inject_Z 1) with 1. lra. }
  assert (inject_Z (- n + - (1)) < inject_Z (round q)) as Hb.
  { rewrite inject_Z_plus. change (inject_Z (- (1))) with (- (1)). lra. }
  rewrite <- Zlt_Qlt in Ha, Hb. lia.
Qed.

Lemma to_i8_of_Z n : (-128 <= n <= 127)%Z -> to_i8 (inject_Z n) = n.
Proof. intros H. unfold to_i8. cbn [Qnum Qden inject_Z]. rewrite Z.quot_1_r. lia. Qed.

Lemma clamp_inside n : (-128 <= n <= 127)%Z -> clamp (inject_Z (-128)) (inject_Z 127) (inject_Z n) = inject_Z n.
Proof.
  intros [H1 H2]. unfold clamp. rewrite (proj2 (gtb_false _ _)) by (by rewrite <- Zle_Qle).
  by rewrite (proj2 (gtb_false _ _)) by (by rewrite <- Zle_Qle).
Qed.

Lemma max_by_upper (l : list Q) m x : int8.max_by l = Some m -> x ∈ l -> x <= m.
Proof.
  destruct l as [|a l]; [done|]. intros [= <-]. cbn -[f_gtb].
  assert (forall l a, a <= foldl (fun a b => if gtb a b then a else b) a l /\
    forall x, x ∈ l -> x <= foldl (fun a b => if gtb a b then a else b) a l) as H.
  { clear. induction l as [|b l IH]; intros a; cbn; [split; [lra|set_solver]|].
    destruct (IH (if gtb a b then a else b)) as [Ha Hl]. destruct (gtb a b) eqn:E.
    - apply gtb_true in E. split; [done|]. intros x [->|Hx]%elem_of_cons; [lra|by apply Hl].
    - apply gtb_false in E. split; [lra|]. intros x [->|Hx]%elem_of_cons; [done|by apply Hl]. }
  destruct (H l a) as [Ha Hl]. intros [->|Hx]%elem_of_cons; [exact Ha|by apply Hl].
Qed.

(** One value: with a scale of which it is at most 127 times, it is off by half a step. *)
Lemma quantized_near (x s : Q) :
  0 < s -> Qabs x <= inject_Z 127 * s ->
  let q := to_i8 (clamp (inject_Z (-128)) (inject_Z 127) (inject_Z (round (x / s)))) in
  (-127 <= q <= 127)%Z /\ Qabs (inject_Z q * s - x) <= s / 2.
Proof.
  intros Hs Hx. assert (x == (x / s) * s) as Ex by (field; lra). set (y := x / s) in *.
  apply Qabs_Qle_condition in Hx as [Hl Hu].
  assert (inject_Z (- (127)) <= y <= inject_Z 127) as Hy.
  { change (inject_Z (- (127))) with (- inject_Z 127). generalize dependent (inject_Z 127). intros c Hl Hu.
    split; apply (Qmult_lt_0_le_reg_r _ _ s Hs); rewrite <- Ex; lra. }
  pose proof (round_bounds _ _ Hy) as Hr. rewrite clamp_inside, to_i8_of_Z by lia. split; [lia|].
  assert (inject_Z (round y) * s - x == (inject_Z (round y) - y) * s) as -> by (rewrite Ex; ring).
  rewrite Qabs_Qmult, (Qabs_pos s) by lra. pose proof (round_near y).
  assert (s / 2 == (1 # 2) * s) as -> by field. apply Qmult_le_compat_r; [done|lra].
Qed.
End rational.

Section int8_accuracy.
Open Scope Q_scope.

(** 8-bit quantization is accurate to half a step, and its clamp never acts: over exact
    rationals the scale is positive, every quantized value lies in -127..127, and
    dequantizing differs from the input by at most half the scale, element by element. *)
Theorem int8_half_step (input : list Q) :
  let '(quantized, scale) := int8.quantize_int8 (QF := rational.quant) input in
  0 < scale /\ Forall (fun q => -127 <= q <= 127)%Z quantized /\
  Forall2 (fun y x => Qabs (y - x) <= scale / 2) (int8.dequantize_int8 (QF := rational.quant) quantized scale) input.
Proof.
  destruct input as [|a l]; [cbn; split_and!; [reflexivity|constructor|constructor]|].
  unfold int8.quantize_int8. set (input := a :: l). set (m := default _ _).
  assert (forall x, x ∈ input -> Qabs x <= m) as Hm.
  { intros x Hx. subst m. destruct (int8.max_by (f_abs <$> input)) as [m|] eqn:Em; [|done].
    apply (rational.max_by_upper _ _ _ Em). by apply list_elem_of_fmap_2. }
  clearbody m. set (s := if f_gtb m _ then _ else _).
  assert (0 < s /\ forall x, x ∈ input -> Qabs x <= inject_Z 127 * s) as [Hs Hx].
  { change s with (if rational.gtb m 0 then m / inject_Z 127 else 1). clear s.
    destruct (rational.gtb m 0) eqn:Eg.
    - apply rational.gtb_true in Eg. split; [apply Qlt_shift_div_l; [reflexivity|lra]|]. intros x Hx.
      assert (inject_Z 127 * (m / inject_Z 127) == m) as -> by (field; done). by apply Hm.
    - apply rational.gtb_false in Eg. split; [reflexivity|]. intros x Hx.
      assert (Qabs x <= m) by by apply Hm. assert (inject_Z 127 * 1 == 127) as -> by reflexivity. lra. }
  clearbody s. split; [done|]. revert Hx. generalize input. clear -Hs. intros l Hx.
  induction l as [|x l IH]; [split; constructor|].
  destruct IH as [IH1 IH2]; [intros y Hy; apply Hx; by right|].
  destruct (rational.quantized_near x s Hs (Hx x ltac:(by left))) as [H1 H2].
  split; constructor; [exact H1|exact IH1|exact H2|exact IH2].
Qed.
End int8_accuracy.
