(* ===== verification/ExactTensors.v ===== *)
(** * A concrete tensor library

    An instance of [Candle] on integers, with tensors of a batch of one and one attention
    head: a shape and its elements in row-major order.  It has the shapes and the
    data movement of the library, and arithmetic in place of the transcendental functions
    (the rotation adds a row of its table, the softmax keeps its argument).  The witnesses and
    the examples about the model run on it. *)

From stdpp Require Import base numbers list strings.
From Stdlib Require Import ZArith Lia.
From S2P Require Import Prelude Inference Quantize.

Module exact_tensors.
Record Tensor : Type := MkTensor { shape : list nat; data : list Z }.

Definition size (l : list nat) : nat := foldr Nat.mul 1%nat l.
Definition checked (shape : list nat) (data : list Z) : Result Tensor string :=
  if (size shape =? length data)%nat then Ok (MkTensor shape data) else Err "shape mismatch".

(** The last dimension, the one before it, and the number of matrices before them. *)
Definition last2 (l : list nat) : nat * nat * list nat :=
  match rev l with n :: m :: lead => (m, n, rev lead) | [n] => (1%nat, n, []) | [] => (1%nat, 1%nat, []) end.

Definition rows_of (width : nat) (l : list Z) : list (list Z) :=
  (fun i => take width (drop (i * width) l)) <$> seq 0 (length l / width).

Definition elementwise (f : Z -> Z -> Z) (a b : Tensor) : Result Tensor string :=
  if bool_decide (shape a = shape b) then Ok (MkTensor (shape a) (zip_with f (data a) (data b)))
  else Err "shape mismatch in binary op".

Definition dot (a b : list Z) : Z := Zsum_with id (zip_with Z.mul a b).
Definition columns (m n : nat) (l : list Z) : list (list Z) :=
  (fun j => (fun i => nth (i * n + j) l 0) <$> seq 0 m) <$> seq 0 n.

Definition single_matrix (lead : list nat) : bool := (size lead =? 1)%nat.

Definition matmul (a b : Tensor) : Result Tensor string :=
  let '(m, k, lead) := last2 (shape a) in
  let '(k', n, lead') := last2 (shape b) in
  if (k =? k')%nat && single_matrix lead' && (single_matrix lead || (length lead' =? 0)%nat)
  then checked (lead ++ [m; n])
         (mjoin ((fun row => (fun col => dot row col) <$> columns k n (data b)) <$> rows_of k (data a)))
  else Err "shape mismatch in matmul".

Definition transposed (a : Tensor) : Result Tensor string :=
  let '(m, n, lead) := last2 (shape a) in
  if single_matrix lead then Ok (MkTensor (lead ++ [n; m]) (mjoin (columns m n (data a))))
  else Err "transpose of a batch".

(** Exchanging two dimensions, one of which is 1. *)
Definition swap_dims (a : Tensor) (i j : nat) : Result Tensor string :=
  match shape a !! i, shape a !! j with
  | Some m, Some n =>
      if (m =? 1)%nat || (n =? 1)%nat then Ok (MkTensor (<[i := n]> (<[j := m]> (shape a))) (data a))
      else Err "transpose"
  | _, _ => Err "dimension out of range"
  end.

Definition narrow_rows (a : Tensor) (dim start len : nat) : Result Tensor string :=
  match dim, shape a with
  | O, n :: rest =>
      if (start + len <=? n)%nat
      then Ok (MkTensor (len :: rest) (take (len * size rest) (drop (start * size rest) (data a))))
      else Err "narrow: out of range"
  | _, _ => Err "narrow"
  end.

Definition add_rows (a table : Tensor) : Result Tensor string :=
  let '(_, n, _) := last2 (shape a) in
  if (length (data a) =? length (data table))%nat then Ok (MkTensor (shape a) (zip_with Z.add (data a) (data table)))
  else Err "rope: shape mismatch".

Definition concat_dim (l : list Tensor) (dim : nat) : Result Tensor string :=
  match l, dim with
  | [a; b], 2%nat =>
      match shape a, shape b with
      | [1%nat; 1%nat; s; h], [1%nat; 1%nat; s'; h'] =>
          if (h =? h')%nat then Ok (MkTensor [1; 1; s + s'; h]%nat (data a ++ data b)) else Err "cat"
      | _, _ => Err "cat"
      end
  | _, _ => Err "cat"
  end.

Definition add_bias (a bias : Tensor) : Result Tensor string :=
  let '(_, n, _) := last2 (shape a) in
  if (length (data bias) =? n)%nat
  then checked (shape a) (mjoin ((fun row => zip_with Z.add row (data bias)) <$> rows_of n (data a)))
  else Err "broadcast_add".

Definition broadcast (a : Tensor) (to : list nat) : Result Tensor string :=
  match data a with
  | [x] => Ok (MkTensor to (replicate (size to) x))
  | _ => checked to (data a)
  end.

Definition select (mask a b : Tensor) : Result Tensor string :=
  if bool_decide (shape mask = shape a) && bool_decide (shape a = shape b)
  then Ok (MkTensor (shape a) ((fun p : Z * (Z * Z) => if p.1 =? 0 then p.2.2 else p.2.1) <$>
             zip (data mask) (zip (data a) (data b))))
  else Err "where_cond".

Definition index_row (a : Tensor) (i : nat) : Result Tensor string :=
  match shape a with
  | [b; s; h] => if (b =? 1)%nat && (i <? s)%nat then Ok (MkTensor [b; h] (take h (drop (i * h) (data a))))
                 else Err "index out of range"
  | _ => Err "index"
  end.

Definition embed (h : nat) (a : Tensor) : Result Tensor string :=
  match shape a with
  | [b; s] => Ok (MkTensor [b; s; h] (mjoin ((fun t => replicate h t) <$> data a)))
  | _ => Err "embedding"
  end.

Definition linear (w : list (list Z)) (a : Tensor) : Result Tensor string :=
  let '(m, n, lead) := last2 (shape a) in
  Ok (MkTensor (take (length (shape a) - 1) (shape a) ++ [length w])
        (mjoin ((fun row => (dot row) <$> w) <$> rows_of n (data a)))).

(** A weight matrix is the list of its rows, a norm a factor, an embedding the width in which
    it repeats the token. *)
#[global] Instance lib : @Candle exact_f32 := {|
  tensor := Tensor; qmatmul := list (list Z); rms_norm := Z; embedding := nat;
  dims := shape;
  t_add := elementwise Z.add; t_mul := elementwise Z.mul; t_matmul := matmul; t_broadcast_add := add_bias;
  t_t := transposed; contiguous := Ok; transpose := swap_dims;
  reshape a s := checked s (data a);
  narrow := narrow_rows;
  rope x cos _ := add_rows x cos;
  cat := concat_dim;
  repeat_kv a n := if (n =? 1)%nat then Ok a else Err "repeat_kv";
  div_sqrt a n := Ok (MkTensor (shape a) ((fun x => x / Z.sqrt (Z.of_nat n)) <$> data a));
  broadcast_as := broadcast; where_cond := select;
  softmax_last_dim := Ok; silu := Ok;
  index_seq := index_row;
  squeeze0 a := match shape a with 1%nat :: s => Ok (MkTensor s (data a)) | _ => Ok a end;
  qmm_forward := linear;
  norm_forward k a := Ok (MkTensor (shape a) (Z.mul k <$> data a));
  emb_forward := embed;
  unsqueezed tokens := Ok (MkTensor [1%nat; length tokens] tokens);
  from_u8 l d := checked [d.1; d.2] l;
  from_vec (l : list (@f32 exact_f32)) s := Ok (MkTensor s l);
  to_flat a := Ok (data a : list (@f32 exact_f32));
  to_vec2 a := match shape a with [m; n] => Ok (rows_of n (data a) : list (list (@f32 exact_f32))) | _ => Err "to_vec2" end;
|}.

#[global] Instance quant : @QuantF32 exact_f32 := {|
  f_abs := Z.abs : @f32 exact_f32 -> @f32 exact_f32; f_mul := Z.mul; f_div := Z.div; f_max := Z.max;
  f_round x := x; f_clamp lo hi x := Z.max lo (Z.min hi x); f_of_Z x := x;
  f_to_i8 x := Z.max (-128) (Z.min 127 x); f_1e8 := 0;
|}.
End exact_tensors.

Module exact_tensor_examples.
Import exact_tensors.

Definition weights : Tensor := MkTensor [2; 3]%nat [4; -2; 6; -1; 5; 3].
Definition three_stages : @hybrid.HybridMatrixConfig exact_f32 := hybrid.MkHybridMatrixConfig true 1 3 4 (0 : @f32 exact_f32).

(** A 2 * 3 layer in the 1-bit stage, on two input rows. *)
Lemma one_bit_layer_correct_witness :
  exists w packed scales, hybrid.from_f32_tensor (CL := lib) weights 1 three_stages = Some (Ok w) /\
    w = hybrid.MkHybridWeights hybrid.BitNet 2 3 (Some packed) (Some scales) None /\
    forall inputs, Forall (fun l => length l = 3%nat) inputs ->
      hybrid.bitnet_outputs packed scales 2 3 inputs =
        Some (Ok (mjoin ((fun input => signed_row [[4; -2; 6]; [-1; 5; 3]] 3 0 input <$> seq 0 2) <$> inputs))).
Proof.
  apply (one_bit_layer_correct (F := exact_f32) (CL := lib) [[4; -2; 6]; [-1; 5; 3]] 2 3 0);
    [reflexivity|repeat constructor|lia|lia|reflexivity|reflexivity|reflexivity|reflexivity].
Defined.

(** Scales 4 and 3 for the rows (+, -, +) and (-, +, +). *)
Example one_bit_layer_runs :
  (w ← hybrid.from_f32_tensor (CL := lib) weights 1 three_stages;
   match w with
   | Ok w => hybrid.forward (CL := lib) w (MkTensor [1; 2; 3]%nat [1; 2; 3; 10; 20; 30])
   | Err e => Some (Err e)
   end) = Some (Ok (MkTensor [1; 2; 2]%nat [8; 12; 80; 120])).
Proof. vm_compute. reflexivity. Qed.
End exact_tensor_examples.
