(* ===== verification/Qwen.v ===== *)
(** * services/inference/src/models/quantized_qwen2.rs: the transformer

    Loading a model from a GGUF file, the attention layer with its key-value cache, the masks,
    the prefix snapshot, and the two ways to run the layers: [forward] runs all of them in one
    process, [forward_layer_range] a range of them for a stage of the pipeline.  A function of
    the code that can panic returns [None] in the outer option.  The model is mutated even
    when a call fails, so calls return the model next to their result. *)

From stdpp Require Import base numbers list gmap strings pretty.
From Stdlib Require Import ZArith Lia.
From S2P Require Import Prelude Inference Quantize ExactTensors.

(** ** Outcomes: a panic, an error or a value *)
Definition Outcome (A : Type) : Type := option (Result A string).

Definition obind {A B} (m : Outcome A) (k : A -> Outcome B) : Outcome B :=
  match m with Some (Ok a) => k a | Some (Err e) => Some (Err e) | None => None end.

Notation "'let!' x := m 'in' k" := (obind m (fun x => k))
  (at level 10, x binder, m at level 100, k at level 200) : blz_scope.

Module qwen.
Import hybrid.

Section layer.
Context `{F : F32, QF : !QuantF32, CL : !Candle}.

Record Mlp : Type := MkMlp {
  feed_forward_w1 : qmatmul;
  feed_forward_w2 : qmatmul;
  feed_forward_w3 : qmatmul;
  hybrid_w1 : option HybridWeights;
  hybrid_w2 : option HybridWeights;
  hybrid_w3 : option HybridWeights;
}.

(** [silu_optimized] as it is built by default.  With the feature [avx512], off by default and
    not modelled, it first takes the activation as a vector, which fails on a tensor of rank 3,
    and otherwise applies a vectorised approximation. *)
Definition gated (w1 w3 : tensor) : Outcome tensor :=
  Some (let? s := silu w1 in t_mul s w3).

Definition mlp_forward (m : Mlp) (xs : tensor) : Outcome tensor :=
  match hybrid_w1 m, hybrid_w2 m, hybrid_w3 m with
  | Some hw1, Some hw2, Some hw3 =>
      let! w1 := hybrid.forward hw1 xs in
      let! w3 := hybrid.forward hw3 xs in
      let! g := gated w1 w3 in
      hybrid.forward hw2 g
  | _, _, _ =>
      let! w1 := Some (qmm_forward (feed_forward_w1 m) xs) in
      let! w3 := Some (qmm_forward (feed_forward_w3 m) xs) in
      let! g := gated w1 w3 in
      Some (qmm_forward (feed_forward_w2 m) g)
  end.

Record LayerWeights : Type := MkLayerWeights {
  attention_wq : qmatmul;
  attention_wk : qmatmul;
  attention_wv : qmatmul;
  attention_bq : tensor;
  attention_bk : tensor;
  attention_bv : tensor;
  attention_wo : qmatmul;
  attention_norm : rms_norm;
  mlp : Mlp;
  ffn_norm : rms_norm;
  n_head : nat;
  n_kv_head : nat;
  head_dim : nat;
  cos : tensor;
  sin : tensor;
  neg_inf : tensor;
  kv_cache : option (tensor * tensor);
  hybrid_wq : option HybridWeights;
  hybrid_wk : option HybridWeights;
  hybrid_wv : option HybridWeights;
  hybrid_wo : option HybridWeights;
}.

Definition set_kv_cache (c : option (tensor * tensor)) (l : LayerWeights) : LayerWeights :=
  MkLayerWeights (attention_wq l) (attention_wk l) (attention_wv l) (attention_bq l) (attention_bk l) (attention_bv l)
    (attention_wo l) (attention_norm l) (mlp l) (ffn_norm l) (n_head l) (n_kv_head l) (head_dim l) (cos l) (sin l)
    (neg_inf l) c (hybrid_wq l) (hybrid_wk l) (hybrid_wv l) (hybrid_wo l).

Definition clear_kv_cache : LayerWeights -> LayerWeights := set_kv_cache None.

Definition masked_fill (on_false mask on_true : tensor) : Result tensor string :=
  let shape := dims mask in
  let? b := broadcast_as on_true shape in
  where_cond mask b on_false.

Definition apply_rotary_emb (l : LayerWeights) (x : tensor) (index_pos : nat) : Result tensor string :=
  match dims x with
  | [_; _; seq_len; _] =>
      let? cos := narrow (cos l) 0 index_pos seq_len in
      let? sin := narrow (sin l) 0 index_pos seq_len in
      let? x := contiguous x in
      rope x cos sin
  | _ => Err "unexpected rank"
  end.

(** The projections: the 1-bit ones when the layer has all three. *)
Definition qkv (l : LayerWeights) (x : tensor) : Outcome (tensor * tensor * tensor) :=
  match hybrid_wq l, hybrid_wk l, hybrid_wv l with
  | Some hwq, Some hwk, Some hwv =>
      let! q := hybrid.forward hwq x in
      let! k := hybrid.forward hwk x in
      let! v := hybrid.forward hwv x in
      Some (Ok (q, k, v))
  | _, _, _ =>
      Some (let? q := qmm_forward (attention_wq l) x in
            let? k := qmm_forward (attention_wk l) x in
            let? v := qmm_forward (attention_wv l) x in
            Ok (q, k, v))
  end.

Definition split_heads (b_sz seq_len heads head_dim : nat) (t : tensor) : Result tensor string :=
  let? t := reshape t [b_sz; seq_len; heads; head_dim] in
  let? t := transpose t 1 2 in
  contiguous t.

(** Queries, keys and values of the new tokens, rotated to their position. *)
Definition rotated_qkv (l : LayerWeights) (x : tensor) (b_sz seq_len index_pos : nat)
    : Outcome (tensor * tensor * tensor) :=
  let! p := qkv l x in
  let '(q, k, v) := p in
  Some (
    let? q := t_broadcast_add q (attention_bq l) in
    let? k := t_broadcast_add k (attention_bk l) in
    let? v := t_broadcast_add v (attention_bv l) in
    let? q := split_heads b_sz seq_len (n_head l) (head_dim l) q in
    let? k := split_heads b_sz seq_len (n_kv_head l) (head_dim l) k in
    let? v := split_heads b_sz seq_len (n_kv_head l) (head_dim l) v in
    let? q := apply_rotary_emb l q index_pos in
    let? k := apply_rotary_emb l k index_pos in
    Ok (q, k, v)).

(** The cache is extended, or replaced when the position is 0. *)
Definition extend_cache (cache : option (tensor * tensor)) (index_pos : nat) (k v : tensor)
    : Result (tensor * tensor) string :=
  match cache with
  | None => Ok (k, v)
  | Some (k_cache, v_cache) =>
      if (index_pos =? 0)%nat then Ok (k, v)
      else
        let? k := cat [k_cache; k] 2 in
        let? v := cat [v_cache; v] 2 in
        Ok (k, v)
  end.

(** Attention of the queries over all keys and values. *)
Definition attend (l : LayerWeights) (b_sz seq_len n_embd : nat) (q k v : tensor) (mask : option tensor)
    : Outcome tensor :=
  if (n_kv_head l =? 0)%nat then None
  else
    let! y := Some (
      let? k := repeat_kv k (n_head l / n_kv_head l) in
      let? v := repeat_kv v (n_head l / n_kv_head l) in
      let? kt := t_t k in
      let? att := t_matmul q kt in
      let? att := div_sqrt att (head_dim l) in
      let? att := match mask with
        | None => Ok att
        | Some mask => let? mask := broadcast_as mask (dims att) in masked_fill att mask (neg_inf l)
        end in
      let? att := softmax_last_dim att in
      let? v := contiguous v in
      let? y := t_matmul att v in
      let? y := transpose y 1 2 in
      reshape y [b_sz; seq_len; n_embd]) in
    match hybrid_wo l with
    | Some hwo => hybrid.forward hwo y
    | None => Some (qmm_forward (attention_wo l) y)
    end.

Definition forward_attn (l : LayerWeights) (x : tensor) (mask : option tensor) (index_pos : nat)
    : LayerWeights * Outcome tensor :=
  match dims x with
  | [b_sz; seq_len; n_embd] =>
      match rotated_qkv l x b_sz seq_len index_pos with
      | None => (l, None)
      | Some (Err e) => (l, Some (Err e))
      | Some (Ok (q, k, v)) =>
          match extend_cache (kv_cache l) index_pos k v with
          | Err e => (l, Some (Err e))
          | Ok (k, v) =>
              let l := set_kv_cache (Some (k, v)) l in
              (l, attend l b_sz seq_len n_embd q k v mask)
          end
      end
  | _ => (l, Some (Err "unexpected rank"))
  end.

(** The body of the loop over the layers. *)
Definition run_layer (l : LayerWeights) (x : tensor) (mask : option tensor) (index_pos : nat)
    : LayerWeights * Outcome tensor :=
  let residual := x in
  match norm_forward (attention_norm l) x with
  | Err e => (l, Some (Err e))
  | Ok x =>
      let '(l, attn) := forward_attn l x mask index_pos in
      (l, let! attn := attn in
          let! x := Some (t_add attn residual) in
          let residual := x in
          let! x := Some (norm_forward (ffn_norm l) x) in
          let! x := mlp_forward (mlp l) x in
          Some (t_add x residual))
  end.

(** [for layer in self.layers.iter_mut()] *)
Fixpoint run_layers (ls : list LayerWeights) (x : tensor) (mask : option tensor) (index_pos : nat)
    : list LayerWeights * Outcome tensor :=
  match ls with
  | [] => ([], Some (Ok x))
  | l :: ls =>
      let '(l, o) := run_layer l x mask index_pos in
      match o with
      | Some (Ok x) => let '(ls, o) := run_layers ls x mask index_pos in (l :: ls, o)
      | _ => (l :: ls, o)
      end
  end.

(** [for layer_idx in ..] with [&mut self.layers[layer_idx]] *)
Fixpoint run_indices (idxs : list nat) (ls : list LayerWeights) (x : tensor) (mask : option tensor) (index_pos : nat)
    : list LayerWeights * Outcome tensor :=
  match idxs with
  | [] => (ls, Some (Ok x))
  | i :: idxs =>
      match ls !! i with
      | None => (ls, None)
      | Some l =>
          let '(l, o) := run_layer l x mask index_pos in
          let ls := <[i := l]> ls in
          match o with
          | Some (Ok x) => run_indices idxs ls x mask index_pos
          | _ => (ls, o)
          end
      end
  end.
End layer.

(** ** The model *)
Section model.
Context `{F : F32, QF : !QuantF32, CL : !Candle}.

Record KVCacheSnapshot : Type := MkKVCacheSnapshot {
  layer_kvs : list (tensor * tensor);
  prefix_len : nat;
  prefix_hash : Z;
}.

Record ModelWeights : Type := MkModelWeights {
  tok_embeddings : embedding;
  layers : list LayerWeights;
  norm : rms_norm;
  output : qmatmul;
  masks : gmap nat tensor;
  hybrid_matrix_config : option HybridMatrixConfig;
  prefix_kv_snapshot : option KVCacheSnapshot;
}.

Definition set_layers (ls : list LayerWeights) (m : ModelWeights) : ModelWeights :=
  MkModelWeights (tok_embeddings m) ls (norm m) (output m) (masks m) (hybrid_matrix_config m) (prefix_kv_snapshot m).
Definition set_masks (ms : gmap nat tensor) (m : ModelWeights) : ModelWeights :=
  MkModelWeights (tok_embeddings m) (layers m) (norm m) (output m) ms (hybrid_matrix_config m) (prefix_kv_snapshot m).
Definition set_snapshot (s : option KVCacheSnapshot) (m : ModelWeights) : ModelWeights :=
  MkModelWeights (tok_embeddings m) (layers m) (norm m) (output m) (masks m) (hybrid_matrix_config m) s.

Definition apply_final_projection (m : ModelWeights) (hidden : tensor) : Result tensor string :=
  let? normed := norm_forward (norm m) hidden in
  qmm_forward (output m) normed.

Definition clear_all_kv_caches (m : ModelWeights) : ModelWeights := set_layers (clear_kv_cache <$> layers m) m.

Definition capture_kv_snapshot (prefix_len : nat) (prefix_hash : Z) (m : ModelWeights) : ModelWeights :=
  let layer_kvs := omap kv_cache (layers m) in
  if (length layer_kvs =? length (layers m))%nat
  then set_snapshot (Some (MkKVCacheSnapshot layer_kvs prefix_len prefix_hash)) m
  else m.

(** [layers.iter_mut().zip(layer_kvs)] *)
Fixpoint restore_kvs (ls : list LayerWeights) (kvs : list (tensor * tensor)) : list LayerWeights :=
  match ls, kvs with
  | l :: ls, kv :: kvs => set_kv_cache (Some kv) l :: restore_kvs ls kvs
  | _, _ => ls
  end.

Definition restore_kv_snapshot (m : ModelWeights) : ModelWeights * bool :=
  match prefix_kv_snapshot m with
  | Some snapshot => (set_layers (restore_kvs (layers m) (layer_kvs snapshot)) m, true)
  | None => (m, false)
  end.

(** [compute_prefix_hash] is a hasher of the standard library. *)
Context (compute_prefix_hash : list Z -> Z).

Definition restore_kv_snapshot_for_prefix (prefix_tokens : list Z) (m : ModelWeights) : ModelWeights * option nat :=
  let expected_hash := compute_prefix_hash prefix_tokens in
  match prefix_kv_snapshot m with
  | Some snapshot =>
      if negb (prefix_hash snapshot =? expected_hash) || negb (prefix_len snapshot =? length prefix_tokens)%nat
      then (m, None)
      else (set_layers (restore_kvs (layers m) (layer_kvs snapshot)) m, Some (prefix_len snapshot))
  | None => (m, None)
  end.

Definition finalize_prefill_and_capture_snapshot (prefix_tokens : list Z) (m : ModelWeights) : ModelWeights :=
  capture_kv_snapshot (length prefix_tokens) (compute_prefix_hash prefix_tokens) m.

Definition should_clear_kv_cache (seq_len layer_start : nat) : bool :=
  (1 <? seq_len)%nat && (layer_start =? 0)%nat.

(** The causal mask: position [i] may not see [j > i]. *)
Definition mask_bits (t past_len : nat) : list Z :=
  mjoin ((fun i => (fun j => Z.b2z (past_len + i <? j)%nat) <$> seq 0 (past_len + t)) <$> seq 0 t).

Definition mask (t : nat) (m : ModelWeights) : ModelWeights * Result tensor string :=
  match masks m !! t with
  | Some mask => (m, Ok mask)
  | None =>
      match from_u8 (mask_bits t 0) (t, t) with
      | Ok mask => (set_masks (<[t := mask]> (masks m)) m, Ok mask)
      | Err e => (m, Err e)
      end
  end.

Definition mask_with_past (t past_len : nat) : Result tensor string :=
  from_u8 (mask_bits t past_len) (t, (past_len + t)%nat).

(** The choice of the mask in [forward]. *)
Definition forward_mask (seq_len index_pos : nat) (m : ModelWeights) : ModelWeights * Result (option tensor) string :=
  if (seq_len =? 1)%nat then (m, Ok None)
  else if (0 <? index_pos)%nat then (m, let? k := mask_with_past seq_len index_pos in Ok (Some k))
  else let '(m, r) := mask seq_len m in (m, let? k := r in Ok (Some k)).

Definition last_logits (m : ModelWeights) (seq_len : nat) (x : tensor) : Result tensor string :=
  let? x := norm_forward (norm m) x in
  let? x := index_seq x (seq_len - 1) in
  qmm_forward (output m) x.

(** A length of 0 would underflow in [seq_len - 1]. *)
Definition forward (m : ModelWeights) (x : tensor) (index_pos : nat) : ModelWeights * Outcome tensor :=
  match dims x with
  | [_; seq_len] =>
      let '(m, mask) := forward_mask seq_len index_pos m in
      match mask with
      | Err e => (m, Some (Err e))
      | Ok mask =>
          match emb_forward (tok_embeddings m) x with
          | Err e => (m, Some (Err e))
          | Ok layer_in =>
              let '(ls, o) := run_layers (layers m) layer_in mask index_pos in
              let m := set_layers ls m in
              (m, let! x := o in if (seq_len =? 0)%nat then None else Some (last_logits m seq_len x))
          end
      end
  | _ => (m, Some (Err "unexpected rank"))
  end.

Definition seq_len_of (x : tensor) (apply_embeddings : bool) : Result nat string :=
  match apply_embeddings, dims x with
  | true, [_; seq_len] => Ok seq_len
  | false, [_; seq_len; _] => Ok seq_len
  | _, _ => Err "unexpected rank"
  end.

(** The mask of a stage: there is no variant for past tokens. *)
Definition range_mask (seq_len : nat) (m : ModelWeights) : ModelWeights * Result (option tensor) string :=
  if (seq_len =? 1)%nat then (m, Ok None)
  else let '(m, r) := mask seq_len m in (m, let? k := r in Ok (Some k)).

Definition forward_layer_range (m : ModelWeights) (x : tensor) (layer_start layer_end index_pos : nat)
    (apply_embeddings apply_final_projection : bool) : ModelWeights * Outcome tensor :=
  if (layer_end <=? layer_start)%nat then (m, Some (Err "Invalid layer range"))
  else if (length (layers m) <? layer_end)%nat then (m, Some (Err "Layer end index exceeds model layers count"))
  else
    match seq_len_of x apply_embeddings with
    | Err e => (m, Some (Err e))
    | Ok seq_len =>
        let m := if should_clear_kv_cache seq_len layer_start then clear_all_kv_caches m else m in
        let '(m, mask) := range_mask seq_len m in
        match mask with
        | Err e => (m, Some (Err e))
        | Ok mask =>
            let m := if apply_embeddings && (1 <? seq_len)%nat && (layer_start =? 0)%nat
                     then (restore_kv_snapshot m).1 else m in
            match (if apply_embeddings then emb_forward (tok_embeddings m) x else Ok x) with
            | Err e => (m, Some (Err e))
            | Ok layer_in =>
                let '(ls, o) := run_indices (seq layer_start (layer_end - layer_start)) (layers m) layer_in mask index_pos in
                let m := set_layers ls m in
                (m, let! x := o in
                    if apply_final_projection
                    then if (seq_len =? 0)%nat then None else Some (last_logits m seq_len x)
                    else Some (Ok x))
            end
        end
    end.
End model.

(** ** Loading *)

(** What loading needs of the library: the metadata of a GGUF file and its tensors, by name,
    and the conversions of a quantized tensor. *)
Class GgufLib `{F : F32, CL : !Candle} := {
  Value : Type;
  to_u32 : Value -> Result Z string;
  to_f32 : Value -> Result f32 string;
  qtensor : Type;
  dequantize : qtensor -> Result tensor string;
  qmm_of_qtensor : qtensor -> Result qmatmul string;
  norm_of_qtensor : qtensor -> f32 -> Result rms_norm string;
  embedding_new : tensor -> nat -> embedding;
  scalar_neg_infinity : Result tensor string;
  vector : list f32 -> Result tensor string;
  elem_count : tensor -> nat;
  arange_f32 : nat -> Result tensor string;
  t_cos : tensor -> Result tensor string;
  t_sin : tensor -> Result tensor string;
  f_powf : f32 -> f32 -> f32;
}.

Section load.
Context `{F : F32, QF : !QuantF32, CL : !Candle, GL : !GgufLib}.

(** [gguf_file::Content] with its reader. *)
Record Content : Type := MkContent {
  metadata : gmap string Value;
  tensor_named : string -> Result qtensor string;
}.

Definition md_get (ct : Content) (s : string) : Result Value string :=
  match metadata ct !! s with
  | None => Err ("cannot find " +:+ s +:+ " in metadata")
  | Some v => Ok v
  end.

Definition md_usize (ct : Content) (s : string) : Result nat string :=
  let? v := md_get ct s in let? n := to_u32 v in Ok (Z.to_nat n).

Definition precomput_freqs_cis (head_dim : nat) (freq_base : f32) (context_length : nat)
    : Result (tensor * tensor) string :=
  let theta := (fun i => f_div (f_of_Z 1)
                 (f_powf freq_base (f_div (f_of_Z (Z.of_nat (2 * i))) (f_of_Z (Z.of_nat head_dim))))) <$>
               seq 0 ((head_dim + 1) / 2) in
  let? theta := vector theta in
  let? idx := arange_f32 context_length in
  let? idx := reshape idx [context_length; 1%nat] in
  let? theta := reshape theta [1%nat; elem_count theta] in
  let? idx_theta := t_matmul idx theta in
  let? cos := t_cos idx_theta in
  let? sin := t_sin idx_theta in
  Ok (cos, sin).

(** The weights of a layer are the 1-bit ones in the middle stage of an accepted
    configuration, and the ones of the file otherwise. *)
Definition bitnet_config (hybrid_matrix_enabled : bool) (config : option HybridMatrixConfig) (layer_idx : nat)
    : option HybridMatrixConfig :=
  match config with
  | Some c => if hybrid_matrix_enabled && uses_bitnet_weights layer_idx c then Some c else None
  | None => None
  end.

Definition hybrid_of (config : option HybridMatrixConfig) (layer_idx : nat) (w : qtensor)
    : Outcome (option HybridWeights) :=
  match config with
  | None => Some (Ok None)
  | Some c =>
      let! t := Some (dequantize w) in
      let! h := from_f32_tensor t layer_idx c in
      Some (Ok (Some h))
  end.

Record Shape : Type := MkShape {
  head_count : nat;
  head_count_kv : nat;
  head_size : nat;
  rms_norm_eps : f32;
  tables : tensor * tensor;
  infinity : tensor;
}.

Definition load_mlp (ct : Content) (prefix : string) (config : option HybridMatrixConfig) (layer_idx : nat)
    : Outcome Mlp :=
  let! w1 := Some (tensor_named ct (prefix +:+ ".ffn_gate.weight")) in
  let! w2 := Some (tensor_named ct (prefix +:+ ".ffn_down.weight")) in
  let! w3 := Some (tensor_named ct (prefix +:+ ".ffn_up.weight")) in
  let! h1 := hybrid_of config layer_idx w1 in
  let! h2 := hybrid_of config layer_idx w2 in
  let! h3 := hybrid_of config layer_idx w3 in
  Some (let? w1 := qmm_of_qtensor w1 in
        let? w2 := qmm_of_qtensor w2 in
        let? w3 := qmm_of_qtensor w3 in
        Ok (MkMlp w1 w2 w3 h1 h2 h3)).

Definition load_layer (ct : Content) (s : Shape) (hybrid_matrix_enabled : bool) (config : option HybridMatrixConfig)
    (layer_idx : nat) : Outcome LayerWeights :=
  let prefix := "blk." +:+ pretty (Z.of_nat layer_idx) in
  let config := bitnet_config hybrid_matrix_enabled config layer_idx in
  let named n := Some (tensor_named ct (prefix +:+ n)) in
  let! wq := named ".attn_q.weight" in
  let! wk := named ".attn_k.weight" in
  let! wv := named ".attn_v.weight" in
  let! bq := named ".attn_q.bias" in
  let! bk := named ".attn_k.bias" in
  let! bv := named ".attn_v.bias" in
  let! wo := named ".attn_output.weight" in
  let! hq := hybrid_of config layer_idx wq in
  let! hk := hybrid_of config layer_idx wk in
  let! hv := hybrid_of config layer_idx wv in
  let! ho := hybrid_of config layer_idx wo in
  let! mlp := load_mlp ct prefix config layer_idx in
  let! an := named ".attn_norm.weight" in
  let! fn := named ".ffn_norm.weight" in
  Some (let? wq := qmm_of_qtensor wq in
        let? wk := qmm_of_qtensor wk in
        let? wv := qmm_of_qtensor wv in
        let? bq := dequantize bq in
        let? bk := dequantize bk in
        let? bv := dequantize bv in
        let? wo := qmm_of_qtensor wo in
        let? an := norm_of_qtensor an (rms_norm_eps s) in
        let? fn := norm_of_qtensor fn (rms_norm_eps s) in
        Ok (MkLayerWeights wq wk wv bq bk bv wo an mlp fn (head_count s) (head_count_kv s) (head_size s)
              (tables s).1 (tables s).2 (infinity s) None hq hk hv ho)).

Fixpoint load_layers (load : nat -> Outcome LayerWeights) (idxs : list nat) : Outcome (list LayerWeights) :=
  match idxs with
  | [] => Some (Ok [])
  | i :: idxs => let! l := load i in let! ls := load_layers load idxs in Some (Ok (l :: ls))
  end.

Definition hybrid_enabled (config : option HybridMatrixConfig) (block_count : nat) : bool :=
  match config with Some c => should_enable_hybrid_matrix c block_count | None => false end.

Definition from_gguf (ct : Content) (config : option HybridMatrixConfig) : Outcome ModelWeights :=
  let! head_count := Some (md_usize ct "qwen2.attention.head_count") in
  let! head_count_kv := Some (md_usize ct "qwen2.attention.head_count_kv") in
  let! embedding_length := Some (md_usize ct "qwen2.embedding_length") in
  let! context_length := Some (md_usize ct "qwen2.context_length") in
  let! block_count := Some (md_usize ct "qwen2.block_count") in
  let! rms_norm_eps := Some (let? v := md_get ct "qwen2.attention.layer_norm_rms_epsilon" in to_f32 v) in
  let rope_freq_base :=
    match (let? v := md_get ct "qwen2.rope.freq_base" in to_f32 v) with Ok v => v | Err _ => f_of_Z 10000 end in
  let hybrid_matrix_enabled := hybrid_enabled config block_count in
  if (head_count =? 0)%nat then None
  else
    let head_dim := (embedding_length / head_count)%nat in
    let! neg_inf := Some scalar_neg_infinity in
    let! tok_embeddings := Some (let? t := tensor_named ct "token_embd.weight" in dequantize t) in
    let! norm := Some (let? t := tensor_named ct "output_norm.weight" in norm_of_qtensor t rms_norm_eps) in
    let! output := Some (match tensor_named ct "output.weight" with
      | Ok v => qmm_of_qtensor v
      | Err _ => let? v := tensor_named ct "token_embd.weight" in qmm_of_qtensor v
      end) in
    let! tables := Some (precomput_freqs_cis head_dim rope_freq_base context_length) in
    let s := MkShape head_count head_count_kv head_dim rms_norm_eps tables neg_inf in
    let! layers := load_layers (load_layer ct s hybrid_matrix_enabled config) (seq 0 block_count) in
    Some (Ok (MkModelWeights (embedding_new tok_embeddings embedding_length) layers norm output ∅
                (if hybrid_matrix_enabled then config else None) None)).
End load.
End qwen.

(** ** Documented behaviour of the library *)
Class CandleLaws `{F : F32, CL : !Candle} : Prop := {
  (** an addition keeps the shape, *)
  add_dims a b c : t_add a b = Ok c -> dims c = dims b;
  (** an embedding adds a dimension, *)
  emb_dims e x y b s : emb_forward e x = Ok y -> dims x = [b; s] -> exists h, dims y = [b; s; h];
  (** tokens are a batch of one, *)
  unsqueezed_dims ts x : unsqueezed ts = Ok x -> dims x = [1%nat; length ts];
  (** a tensor is its elements and its shape, *)
  to_flat_ok x : exists l, to_flat x = Ok l;
  from_to_flat x l : to_flat x = Ok l -> from_vec l (dims x) = Ok x;
  (** and a norm treats every row alike. *)
  norm_rows n x y i z : norm_forward n x = Ok y -> index_seq y i = Ok z ->
    exists w, index_seq x i = Ok w /\ norm_forward n w = Ok z;
}.

#[global] Instance exact_laws : @CandleLaws exact_f32 exact_tensors.lib.
Proof.
  split.
  - intros a b c H. cbn in H. unfold exact_tensors.elementwise in H. case_bool_decide; [|done]. by injection H as <-.
  - intros e x y b s H Hd. cbn in H, Hd. unfold exact_tensors.embed in H. rewrite Hd in H. injection H as <-. by exists e.
  - by intros ts x [= <-].
  - intros x. by eexists.
  - intros [s d] l [= <-]. reflexivity.
  - intros k [s d] y i z [= <-] H. cbn in H |- *. unfold exact_tensors.index_row in *. cbn [exact_tensors.shape exact_tensors.data] in *.
    destruct s as [|b [|s [|h [|]]]]; try done. destruct (_ && _); [|done]. injection H as <-.
    eexists. split; [reflexivity|]. cbn. by rewrite fmap_take, fmap_drop.
Qed.

(** ** Running the layers in stages *)
Section stages.
Import qwen.
Context `{F : F32, QF : !QuantF32, CL : !Candle, LW : !CandleLaws}.

(** Two layers with the same weights, whatever their caches. *)
Definition same_weights (l l' : LayerWeights) : Prop := clear_kv_cache l = clear_kv_cache l'.

#[global] Instance same_weights_equivalence : Equivalence same_weights.
Proof. split; [by intros x|by intros x y|intros x y z H1 H2; unfold same_weights in *; congruence]. Qed.

Lemma same_weights_set l c : same_weights (set_kv_cache c l) l.
Proof. by destruct l. Qed.

Lemma same_weights_cached l l' : same_weights l l' -> l' = set_kv_cache (kv_cache l') l.
Proof. destruct l, l'. unfold same_weights, clear_kv_cache, set_kv_cache. cbn. intros [=]. by subst. Qed.

(** A layer keeps its weights. *)
Lemma run_layer_weights l x mask pos : same_weights (run_layer l x mask pos).1 l.
Proof.
  unfold run_layer. destruct (norm_forward _ _) as [y|]; [|reflexivity]. unfold forward_attn.
  destruct (dims y) as [|b [|s [|e [|]]]]; try reflexivity.
  destruct (rotated_qkv _ _ _ _ _) as [[[[q k] v]|]|]; try reflexivity.
  destruct (extend_cache _ _ _ _) as [[k' v']|]; [|reflexivity]. apply same_weights_set.
Qed.

(** At position 0 nothing depends on what was cached. *)
Lemma run_layer_reset l l' x mask r y :
  same_weights l l' -> run_layer l x mask 0 = (r, Some (Ok y)) -> run_layer l' x mask 0 = (r, Some (Ok y)).
Proof.
  intros ->%same_weights_cached. generalize (kv_cache l'). intros c. unfold run_layer.
  change (attention_norm (set_kv_cache c l)) with (attention_norm l).
  destruct (norm_forward _ _) as [z|]; [|done]. unfold forward_attn.
  destruct (dims z) as [|b [|s [|e [|]]]]; try done.
  change (rotated_qkv (set_kv_cache c l) z b s 0) with (rotated_qkv l z b s 0).
  destruct (rotated_qkv _ _ _ _ _) as [[[[q k] v]|]|]; try done.
  assert (forall o, extend_cache o 0 k v = Ok (k, v)) as H by (by intros [[]|]). by rewrite !H.
Qed.

Lemma run_layer_dims l x mask pos r y b s h :
  run_layer l x mask pos = (r, Some (Ok y)) -> dims x = [b; s; h] -> dims y = dims x.
Proof.
  unfold run_layer. destruct (norm_forward _ _) as [z|]; [|done]. destruct (forward_attn _ _ _ _) as [l' o].
  destruct o as [[a|]|]; try done. cbn [obind]. destruct (t_add a x) as [u|] eqn:E1; [|done]. cbn [obind].
  destruct (norm_forward _ _) as [w|]; [|done]. cbn [obind]. destruct (mlp_forward _ _) as [[g|]|]; try done. cbn [obind].
  intros [= _ H] _. by rewrite (add_dims _ _ _ H), (add_dims _ _ _ E1).
Qed.

Lemma run_layers_weights ls x mask pos : Forall2 same_weights (run_layers ls x mask pos).1 ls.
Proof.
  revert x. induction ls as [|l ls IH]; intros x; [constructor|]. cbn.
  pose proof (run_layer_weights l x mask pos) as Hl. destruct (run_layer l x mask pos) as [l' o]. cbn in Hl.
  assert (Forall2 same_weights (l' :: ls) (l :: ls)) by (constructor; [done|by apply reflexivity]).
  destruct o as [[y|]|]; try done. specialize (IH y). destruct (run_layers ls y mask pos) as [ls' o].
  by constructor.
Qed.

Lemma run_layers_length ls x mask pos : length (run_layers ls x mask pos).1 = length ls.
Proof. eapply Forall2_length, run_layers_weights. Qed.

Lemma run_layers_reset ls ls' x mask r y :
  Forall2 same_weights ls ls' -> run_layers ls x mask 0 = (r, Some (Ok y)) -> run_layers ls' x mask 0 = (r, Some (Ok y)).
Proof.
  intros H. revert x r. induction H as [|l l' ls ls' Hl _ IH]; intros x r; [done|]. cbn.
  destruct (run_layer l x mask 0) as [k [[z|]|]] eqn:E; try done.
  rewrite (run_layer_reset _ _ _ _ _ _ Hl E).
  destruct (run_layers ls z mask 0) as [ks o] eqn:E2. intros [= <- ->]. by rewrite (IH _ _ E2).
Qed.

Lemma run_layers_dims ls x mask pos r y b s h :
  run_layers ls x mask pos = (r, Some (Ok y)) -> dims x = [b; s; h] -> dims y = dims x.
Proof.
  revert x r. induction ls as [|l ls IH]; intros x r; [by intros [= _ ->]|]. cbn.
  destruct (run_layer l x mask pos) as [k [[z|]|]] eqn:E; try done.
  destruct (run_layers ls z mask pos) as [ks o] eqn:E2. intros [= <- ->] Hd.
  pose proof (run_layer_dims _ _ _ _ _ _ _ _ _ E Hd) as Hz. rewrite <- Hz. apply (IH _ _ E2). by rewrite Hz.
Qed.

(** Running a list of layers is running its parts one after the other. *)
Lemma run_layers_app ls ks x mask pos r y :
  run_layers (ls ++ ks) x mask pos = (r, Some (Ok y)) <->
  exists ls' z ks', run_layers ls x mask pos = (ls', Some (Ok z)) /\ run_layers ks z mask pos = (ks', Some (Ok y)) /\ r = ls' ++ ks'.
Proof.
  revert x r. induction ls as [|l ls IH]; intros x r; cbn.
  { split; [intros H; by exists [], x, r|]. intros (? & ? & ? & [= <- <-] & H & ->). exact H. }
  destruct (run_layer l x mask pos) as [k [[z|]|]] eqn:E; [| |]; try (split; [done|by intros (? & ? & ? & ? & _)]).
  destruct (run_layers (ls ++ ks) z mask pos) as [t o] eqn:E2. split.
  - intros [= <- ->]. apply IH in E2 as (ls' & w & ks' & E3 & E4 & ->). rewrite E3. by exists (k :: ls'), w, ks'.
  - intros (ls' & w & ks' & H1 & H2 & ->). destruct (run_layers ls z mask pos) as [t' o'] eqn:E3.
    injection H1 as <- ->. assert ((t, o) = (t' ++ ks', Some (Ok y))) as [= -> ->]; [|done].
    rewrite <- E2. apply IH. by exists t', w, ks'.
Qed.

(** The loop over indices runs a segment of the list. *)
Lemma run_indices_segment pre mid post x mask pos :
  run_indices (seq (length pre) (length mid)) (pre ++ mid ++ post) x mask pos =
  let '(mid', o) := run_layers mid x mask pos in (pre ++ mid' ++ post, o).
Proof.
  revert pre x. induction mid as [|l mid IH]; intros pre x; [done|]. cbn.
  rewrite lookup_app_r, Nat.sub_diag by done. cbn.
  destruct (run_layer l x mask pos) as [k o] eqn:E.
  rewrite insert_app_r_alt, Nat.sub_diag by done. cbn.
  assert (forall (ls : list LayerWeights), pre ++ k :: ls = (pre ++ [k]) ++ ls) as Hcons by (intros; by rewrite <- app_assoc).
  destruct o as [[z|]|]; [|done..].
  rewrite Hcons. replace (S (length pre)) with (length (pre ++ [k])) by (rewrite length_app; cbn; lia).
  rewrite IH. destruct (run_layers mid z mask pos) as [mid' o]. by rewrite <- app_assoc.
Qed.

(** *** Masks *)

(** A cached mask is the mask of its length. *)
Definition masks_ok (m : ModelWeights) : Prop :=
  forall t k, masks m !! t = Some k -> from_u8 (mask_bits t 0) (t, t) = Ok k.

Lemma mask_spec t m :
  masks_ok m -> exists ms, mask t m = (set_masks ms m, from_u8 (mask_bits t 0) (t, t)) /\ masks_ok (set_masks ms m).
Proof.
  intros H. unfold mask. destruct (masks m !! t) as [k|] eqn:E.
  - exists (masks m). rewrite (H _ _ E). by destruct m.
  - destruct (from_u8 _ _) as [k|e] eqn:Ek.
    + exists (<[t := k]> (masks m)). split; [done|]. intros t' k'. cbn. rewrite lookup_insert_Some.
      intros [[<- <-]|[_ Hk]]; [done|by apply H].
    + exists (masks m). by destruct m.
Qed.

Definition plain_mask (seq_len : nat) : Result (option tensor) string :=
  if (seq_len =? 1)%nat then Ok None else let? k := from_u8 (mask_bits seq_len 0) (seq_len, seq_len) in Ok (Some k).

Lemma range_mask_spec s m :
  masks_ok m -> exists ms, range_mask s m = (set_masks ms m, plain_mask s) /\ masks_ok (set_masks ms m).
Proof.
  intros H. unfold range_mask, plain_mask. destruct (s =? 1)%nat.
  - exists (masks m). by destruct m.
  - destruct (mask_spec s m H) as (ms & -> & Hms). by exists ms.
Qed.

(** In one process the mask is the same one for a prompt at position 0 or a single token. *)
Lemma forward_mask_spec s pos m :
  masks_ok m -> pos = 0%nat \/ s = 1%nat ->
  exists ms, forward_mask s pos m = (set_masks ms m, plain_mask s) /\ masks_ok (set_masks ms m).
Proof.
  intros H Hp. unfold forward_mask, plain_mask.
  destruct (Nat.eqb_spec s 1) as [->|Hs]; [exists (masks m); by destruct m|].
  destruct Hp as [->|]; [|done]. cbn [Nat.ltb Nat.leb]. destruct (mask_spec s m H) as (ms & -> & Hms). by exists ms.
Qed.

(** *** Stages *)

Definition slice (a b : nat) (ls : list LayerWeights) : list LayerWeights := take (b - a) (drop a ls).

Lemma slice_decompose a b ls :
  (a <= b <= length ls)%nat -> ls = take a ls ++ slice a b ls ++ drop b ls /\ length (slice a b ls) = (b - a)%nat /\
    length (take a ls) = a.
Proof.
  intros [H1 H2]. unfold slice. split_and!.
  - assert (drop b ls = drop (b - a) (drop a ls)) as -> by (rewrite drop_drop; f_equal; lia). by rewrite !take_drop.
  - rewrite length_take, length_drop. lia.
  - rewrite length_take. lia.
Qed.

Lemma slice_middle a b (pre mid post : list LayerWeights) :
  length pre = a -> length mid = (b - a)%nat -> slice a b (pre ++ mid ++ post) = mid.
Proof. intros <- H. unfold slice. by rewrite drop_app_length, <- H, take_app_length. Qed.

(** Two models with the same weights. *)
Record same_model (w w' : ModelWeights) : Prop := {
  same_tok : tok_embeddings w = tok_embeddings w';
  same_norm : norm w = norm w';
  same_output : output w = output w';
  same_layers : Forall2 same_weights (layers w) (layers w');
}.

Lemma same_weights_all_sym ls ks : Forall2 same_weights ls ks -> Forall2 same_weights ks ls.
Proof. intros H. apply Forall2_flip. eapply Forall2_impl; [exact H|]. intros l k Hl. by symmetry. Qed.

Lemma same_weights_all_trans ls ks js : Forall2 same_weights ls ks -> Forall2 same_weights ks js -> Forall2 same_weights ls js.
Proof. intros H. revert js. induction H as [|x y ls ks Hx _ IH]; intros js Hj; inversion_clear Hj; constructor; [by transitivity y|by apply IH]. Qed.

Lemma same_weights_all_refl ls : Forall2 same_weights ls ls.
Proof. induction ls; constructor; [reflexivity|done]. Qed.

Lemma same_model_refl w : same_model w w.
Proof. split; [done..|apply same_weights_all_refl]. Qed.

Lemma same_model_trans w w' w'' : same_model w w' -> same_model w' w'' -> same_model w w''.
Proof. intros [] []. split; try congruence. by eapply same_weights_all_trans. Qed.

Lemma same_model_layers w w' ls :
  same_model w w' -> Forall2 same_weights ls (layers w') -> same_model (set_layers ls w) w'.
Proof. intros [] H. by split. Qed.

Lemma same_model_masks w w' ms : same_model w w' -> same_model (set_masks ms w) w'.
Proof. by intros []. Qed.

Lemma cleared_weights ls : Forall2 same_weights (clear_kv_cache <$> ls) ls.
Proof. induction ls as [|l ls IH]; constructor; [apply same_weights_set|exact IH]. Qed.

Lemma restored_weights ls kvs : Forall2 same_weights (restore_kvs ls kvs) ls.
Proof.
  revert kvs. induction ls as [|l ls IH]; intros [|kv kvs]; try constructor; try apply same_weights_all_refl; [done| |].
  - apply same_weights_set.
  - apply IH.
Qed.

(** What a stage does before its layers: the caches may be cleared and the snapshot restored,
    for a prompt; for a single token nothing changes. *)
Definition prepared (s a : nat) (emb : bool) (m : ModelWeights) : ModelWeights :=
  if emb && (1 <? s)%nat && (a =? 0)%nat then (restore_kv_snapshot m).1 else m.

Lemma prepared_spec s a emb m :
  same_model (prepared s a emb m) m /\ masks (prepared s a emb m) = masks m /\ (s = 1%nat -> prepared s a emb m = m).
Proof.
  unfold prepared. destruct (emb && _ && _) eqn:E; [|split_and!; [apply same_model_refl|done..]].
  split_and!.
  - unfold restore_kv_snapshot. destruct (prefix_kv_snapshot m); [|apply same_model_refl].
    apply same_model_layers; [apply same_model_refl|apply restored_weights].
  - unfold restore_kv_snapshot. by destruct (prefix_kv_snapshot m).
  - intros ->. destruct emb; discriminate E.
Qed.

Definition maybe_cleared (s a : nat) (m : ModelWeights) : ModelWeights :=
  if should_clear_kv_cache s a then clear_all_kv_caches m else m.

Lemma maybe_cleared_spec s a m :
  same_model (maybe_cleared s a m) m /\ masks (maybe_cleared s a m) = masks m /\ (s = 1%nat -> maybe_cleared s a m = m).
Proof.
  unfold maybe_cleared. destruct (should_clear_kv_cache s a) eqn:E; [|split_and!; [apply same_model_refl|done..]].
  split_and!; [|done|by intros ->]. apply same_model_layers; [apply same_model_refl|apply cleared_weights].
Qed.

(** A stage runs its segment as the whole model would. *)
Lemma range_segment wi (x0 x : tensor) a b pos (emb : bool) bz s h mask mid mid' y :
  (a < b <= length (layers wi))%nat -> masks_ok wi -> plain_mask s = Ok mask ->
  (if emb then dims x0 = [bz; s] /\ emb_forward (tok_embeddings wi) x0 = Ok x else x0 = x) -> dims x = [bz; s; h] ->
  Forall2 same_weights mid (slice a b (layers wi)) -> pos = 0%nat \/ (s = 1%nat /\ mid = slice a b (layers wi)) ->
  run_layers mid x mask pos = (mid', Some (Ok y)) ->
  exists wi', forward_layer_range wi x0 a b pos emb false = (wi', Some (Ok y)) /\
    slice a b (layers wi') = mid' /\ same_model wi' wi /\ masks_ok wi'.
Proof.
  intros Hab Hm Hk Hx Hd Hmid Hpos Hrun. unfold forward_layer_range.
  rewrite (proj2 (Nat.leb_gt b a)), (proj2 (Nat.ltb_ge _ b)) by lia.
  assert (seq_len_of x0 emb = Ok s) as -> by (unfold seq_len_of; destruct emb; [by rewrite (proj1 Hx)|by rewrite Hx, Hd]).
  fold (maybe_cleared s a wi). destruct (maybe_cleared_spec s a wi) as (Hs1 & Hm1 & He1). set (w1 := maybe_cleared s a wi) in *.
  assert (masks_ok w1) as Hok1 by (intros t k; rewrite Hm1; apply Hm).
  destruct (range_mask_spec s w1 Hok1) as (ms & -> & Hok2). rewrite Hk.
  fold (prepared s a emb (set_masks ms w1)). destruct (prepared_spec s a emb (set_masks ms w1)) as (Hs2 & Hm2 & He2).
  set (w2 := prepared s a emb (set_masks ms w1)) in *.
  assert (same_model w2 wi) as Hs by (eapply same_model_trans; [exact Hs2|by apply same_model_masks]).
  assert ((if emb then emb_forward (tok_embeddings w2) x0 else Ok x0) = Ok x) as ->.
  { destruct emb; [|by rewrite Hx]. by rewrite (same_tok _ _ Hs), (proj2 Hx). }
  assert (length (layers w2) = length (layers wi)) as Hlen by (eapply Forall2_length, same_layers, Hs).
  destruct (slice_decompose a b (layers w2)) as (E & El & Ea); [lia|].
  assert (run_layers (slice a b (layers w2)) x mask pos = (mid', Some (Ok y))) as Hrun2.
  { destruct Hpos as [->|[-> Eq]].
    - eapply run_layers_reset; [|exact Hrun]. eapply same_weights_all_trans; [exact Hmid|].
      unfold slice. apply Forall2_take, Forall2_drop, same_weights_all_sym, same_layers, Hs.
    - subst mid. rewrite He2 by done. change (layers (set_masks ms w1)) with (layers w1). by rewrite He1. }
  pose proof (run_indices_segment (take a (layers w2)) (slice a b (layers w2)) (drop b (layers w2)) x mask pos) as Hseg.
  rewrite <- E, El, Ea, Hrun2 in Hseg. rewrite Hseg. eexists. split; [reflexivity|].
  pose proof (run_layers_length (slice a b (layers w2)) x mask pos) as Hl. rewrite Hrun2 in Hl. cbn in Hl. split_and!.
  - cbn. apply slice_middle; [done|]. by rewrite Hl.
  - apply same_model_layers; [done|]. eapply same_weights_all_trans; [|exact (same_layers _ _ Hs)].
    rewrite E at 3. apply Forall2_app; [apply same_weights_all_refl|]. apply Forall2_app; [|apply same_weights_all_refl].
    pose proof (run_layers_weights (slice a b (layers w2)) x mask pos) as Hw. by rewrite Hrun2 in Hw.
  - intros t k. cbn. rewrite Hm2. apply Hok2.
Qed.

(** The single process and the three stages. *)
Record similar (w w1 w2 w3 : ModelWeights) : Prop := {
  similar_masks : masks_ok w;
  similar_1 : same_model w1 w /\ masks_ok w1;
  similar_2 : same_model w2 w /\ masks_ok w2;
  similar_3 : same_model w3 w /\ masks_ok w3;
}.

(** Each stage caches for its layers what the single process caches. *)
Definition in_step (a b : nat) (w w1 w2 w3 : ModelWeights) : Prop :=
  let n := length (layers w) in
  slice 0 a (layers w) = slice 0 a (layers w1) /\ slice a b (layers w) = slice a b (layers w2) /\
  slice b n (layers w) = slice b n (layers w3).

Lemma slice_weights a b ls ks : Forall2 same_weights ls ks -> Forall2 same_weights (slice a b ls) (slice a b ks).
Proof. intros H. unfold slice. by apply Forall2_take, Forall2_drop. Qed.

Lemma forward_inv w x pos bz s w' logits :
  masks_ok w -> dims x = [bz; s] -> pos = 0%nat \/ s = 1%nat -> forward w x pos = (w', Some (Ok logits)) ->
  exists ms mask y h ls z row,
    plain_mask s = Ok mask /\ emb_forward (tok_embeddings w) x = Ok y /\ dims y = [bz; s; h] /\
    run_layers (layers w) y mask pos = (ls, Some (Ok z)) /\ s <> 0%nat /\ index_seq z (s - 1) = Ok row /\
    apply_final_projection w row = Ok logits /\ w' = set_layers ls (set_masks ms w) /\ masks_ok (set_masks ms w).
Proof.
  intros Hm Hx Hpos. unfold forward. rewrite Hx.
  destruct (forward_mask_spec s pos w Hm Hpos) as (ms & -> & Hms).
  destruct (plain_mask s) as [mask|] eqn:Hk; [|done].
  destruct (emb_forward _ _) as [y|] eqn:Ey; [|done]. destruct (emb_dims _ _ _ _ _ Ey Hx) as (h & Hy).
  change (layers (set_masks ms w)) with (layers w).
  destruct (run_layers (layers w) y mask pos) as [ls o] eqn:Er. destruct o as [[z|]|]; try (intros [= _]; done).
  cbn [obind]. destruct (Nat.eqb_spec s 0) as [|Hs]; [intros [= _]; done|]. intros [= <- Hl].
  unfold last_logits in Hl. cbn [norm set_layers set_masks output] in Hl.
  destruct (norm_forward _ _) as [u|] eqn:Eu; [|done]. cbn [rbind] in Hl.
  destruct (index_seq u _) as [v|] eqn:Ev; [|done]. cbn [rbind] in Hl.
  destruct (norm_rows _ _ _ _ _ Eu Ev) as (row & Hrow & Hnorm).
  exists ms, mask, y, h, ls, z, row. split_and!; try done. unfold apply_final_projection. by rewrite Hnorm.
Qed.

Lemma three_slices a b ls :
  (0 < a < b)%nat -> (b < length ls)%nat ->
  ls = slice 0 a ls ++ slice a b ls ++ slice b (length ls) ls /\ length (slice 0 a ls) = a /\
    length (slice a b ls) = (b - a)%nat /\ length (slice b (length ls) ls) = (length ls - b)%nat.
Proof.
  intros Hab Hb. destruct (slice_decompose 0 a ls) as (_ & L1 & _); [lia|].
  destruct (slice_decompose a b ls) as (E & L2 & _); [lia|]. destruct (slice_decompose b (length ls) ls) as (_ & L3 & _); [lia|].
  split_and!; [|lia..]. rewrite E at 1. f_equal; [unfold slice; by rewrite Nat.sub_0_r, drop_0|]. f_equal.
  unfold slice. rewrite take_ge; [done|]. rewrite length_drop. lia.
Qed.

(** Running the three segments in turn. *)
Lemma run_three ls x mask pos r y a b bz s h :
  (0 < a < b)%nat -> (b < length ls)%nat -> dims x = [bz; s; h] -> run_layers ls x mask pos = (r, Some (Ok y)) ->
  exists l1 z1 l2 z2 l3, r = l1 ++ l2 ++ l3 /\
    run_layers (slice 0 a ls) x mask pos = (l1, Some (Ok z1)) /\ dims z1 = [bz; s; h] /\
    run_layers (slice a b ls) z1 mask pos = (l2, Some (Ok z2)) /\ dims z2 = [bz; s; h] /\
    run_layers (slice b (length ls) ls) z2 mask pos = (l3, Some (Ok y)) /\ dims y = [bz; s; h] /\
    slice 0 a r = l1 /\ slice a b r = l2 /\ slice b (length ls) r = l3.
Proof.
  intros Hab Hb Hx Hrun. destruct (three_slices a b ls Hab Hb) as (E & L1 & L2 & L3).
  set (n := length ls) in *. rewrite E in Hrun. apply run_layers_app in Hrun as (l1 & z1 & l23 & R1 & Hrun & ->).
  apply run_layers_app in Hrun as (l2 & z2 & l3 & R2 & R3 & ->).
  pose proof (run_layers_dims _ _ _ _ _ _ _ _ _ R1 Hx) as D1. rewrite Hx in D1.
  pose proof (run_layers_dims _ _ _ _ _ _ _ _ _ R2 D1) as D2. rewrite D1 in D2.
  pose proof (run_layers_dims _ _ _ _ _ _ _ _ _ R3 D2) as D3. rewrite D2 in D3.
  assert (forall ks u k o, run_layers ks u mask pos = (k, o) -> length k = length ks) as Hlen.
  { intros ks u k o H. pose proof (run_layers_length ks u mask pos) as Q. by rewrite H in Q. }
  apply Hlen in R1 as Q1. apply Hlen in R2 as Q2. apply Hlen in R3 as Q3.
  exists l1, z1, l2, z2, l3. split_and!; try done.
  - apply (slice_middle 0 a []); [done|lia].
  - apply slice_middle; lia.
  - transitivity (slice b n ((l1 ++ l2) ++ l3 ++ [])); [by rewrite app_nil_r, <- app_assoc|].
    apply slice_middle; [rewrite length_app|]; lia.
Qed.

Lemma run_layers_model w ls ms x mask pos o :
  run_layers (layers w) x mask pos = (ls, o) -> same_model (set_layers ls (set_masks ms w)) w.
Proof.
  intros H. apply same_model_layers; [apply same_model_masks, same_model_refl|].
  pose proof (run_layers_weights (layers w) x mask pos) as Q. by rewrite H in Q.
Qed.

Lemma stages_step w w1 w2 w3 a b x pos bz s w' logits :
  (0 < a < b)%nat -> (b < length (layers w))%nat -> similar w w1 w2 w3 -> dims x = [bz; s] ->
  pos = 0%nat \/ (s = 1%nat /\ in_step a b w w1 w2 w3) ->
  forward w x pos = (w', Some (Ok logits)) ->
  exists h1 h2 h3 w1' w2' w3' row,
    forward_layer_range w1 x 0 a pos true false = (w1', Some (Ok h1)) /\
    forward_layer_range w2 h1 a b pos false false = (w2', Some (Ok h2)) /\
    forward_layer_range w3 h2 b (length (layers w)) pos false false = (w3', Some (Ok h3)) /\
    (exists h, dims h3 = [bz; s; h]) /\ (s <> 0)%nat /\
    index_seq h3 (s - 1) = Ok row /\ apply_final_projection w3' row = Ok logits /\
    similar w' w1' w2' w3' /\ in_step a b w' w1' w2' w3' /\ same_model w' w /\
    same_model w1' w1 /\ same_model w2' w2 /\ same_model w3' w3.
Proof.
  intros Hab Hb [Hm [S1 M1] [S2 M2] [S3 M3]] Hx Hpos Hf.
  destruct (forward_inv w x pos bz s w' logits Hm Hx ltac:(destruct Hpos as [?|[? _]]; [by left|by right]) Hf)
    as (ms & mask & y & h & ls & z & row & Hk & Ey & Hy & Er & Hs & Hrow & Hl & -> & Hms).
  destruct (run_three _ _ _ _ _ _ a b _ _ _ Hab Hb Hy Er)
    as (l1 & z1 & l2 & z2 & l3 & -> & R1 & D1 & R2 & D2 & R3 & D3 & C1 & C2 & C3).
  assert (forall wi, same_model wi w -> length (layers wi) = length (layers w)) as Hlen
    by (intros wi Hwi; eapply Forall2_length, same_layers, Hwi).
  assert (forall wi p q, same_model wi w -> Forall2 same_weights (slice p q (layers w)) (slice p q (layers wi))) as Hsl.
  { intros wi p q Hwi. apply slice_weights, same_weights_all_sym, same_layers, Hwi. }
  destruct (range_segment w1 x y 0 a pos true bz s h mask _ _ _ ltac:(rewrite (Hlen w1) by done; lia) M1 Hk
    ltac:(split; [done|by rewrite (same_tok _ _ S1)]) Hy (Hsl _ _ _ S1)
    ltac:(destruct Hpos as [?|(? & ? & _)]; [by left|by right]) R1) as (w1' & F1 & C1' & S1' & M1').
  destruct (range_segment w2 z1 z1 a b pos false bz s h mask _ _ _ ltac:(rewrite (Hlen w2) by done; lia) M2 Hk
    eq_refl D1 (Hsl _ _ _ S2) ltac:(destruct Hpos as [?|(? & _ & ? & _)]; [by left|by right]) R2) as (w2' & F2 & C2' & S2' & M2').
  destruct (range_segment w3 z2 z2 b (length (layers w)) pos false bz s h mask _ _ _ ltac:(rewrite (Hlen w3) by done; lia) M3 Hk
    eq_refl D2 (Hsl _ _ _ S3) ltac:(destruct Hpos as [?|(? & _ & _ & ?)]; [by left|by right]) R3) as (w3' & F3 & C3' & S3' & M3').
  pose proof (run_layers_model w _ ms _ _ _ _ Er) as Sw.
  assert (forall wi wi', same_model wi w -> same_model wi' wi ->
    same_model wi' (set_layers (l1 ++ l2 ++ l3) (set_masks ms w))) as Hback.
  { intros wi wi' Hi Hi'. pose proof (same_model_trans _ _ _ Hi' Hi) as Hj. destruct Sw, Hj. split; try congruence.
    eapply same_weights_all_trans; [eassumption|]. by apply same_weights_all_sym. }
  exists z1, z2, z, w1', w2', w3', row. split_and!; try done.
  - by exists h.
  - unfold apply_final_projection in Hl |- *.
    by rewrite (same_norm _ _ S3'), (same_norm _ _ S3), (same_output _ _ S3'), (same_output _ _ S3).
  - split; [exact Hms| | |]; (split; [|done]); [by apply (Hback w1)|by apply (Hback w2)|by apply (Hback w3)].
  - unfold in_step. change (layers (set_layers ?l _)) with l.
    rewrite (Hlen _ Sw : length (l1 ++ l2 ++ l3) = _), C1', C2', C3'. by split_and!.
Qed.
End stages.

(** ** What loading builds *)
Section loading.
Import qwen hybrid.
Context `{F : F32, QF : !QuantF32, CL : !Candle, GL : !GgufLib}.

Lemma obind_ok {A B} (m : Outcome A) (k : A -> Outcome B) b :
  obind m k = Some (Ok b) -> exists a, m = Some (Ok a) /\ k a = Some (Ok b).
Proof. destruct m as [[a|]|]; try done. by exists a. Qed.

Lemma some_rbind_ok {A B} (m : Result A string) (k : A -> Result B string) b :
  Some (rbind m k) = Some (Ok b) -> exists a, m = Ok a /\ Some (k a) = Some (Ok b).
Proof. destruct m as [a|]; [|done]. by exists a. Qed.

Ltac unbind H :=
  repeat first
    [ apply obind_ok in H; let a := fresh "v" in let E := fresh "E" in destruct H as (a & E & H)
    | apply some_rbind_ok in H; let a := fresh "v" in let E := fresh "E" in destruct H as (a & E & H) ];
  injection H as <-.

(** The seven matrices of a layer. *)
Definition hybrids (l : LayerWeights) : list (option HybridWeights) :=
  [hybrid_wq l; hybrid_wk l; hybrid_wv l; hybrid_wo l; hybrid_w1 (mlp l); hybrid_w2 (mlp l); hybrid_w3 (mlp l)].

(** Either the 1-bit form, or none. *)
Definition expected_weights (c : option HybridMatrixConfig) (h : option HybridWeights) : Prop :=
  match c with None => h = None | Some _ => exists w, h = Some w /\ stage w = BitNet end.

Lemma from_f32_tensor_stage t i c w : from_f32_tensor t i c = Some (Ok w) -> stage w = for_layer i c.
Proof.
  unfold from_f32_tensor. destruct (dims t) as [|r [|k [|]]]; try done. destruct (to_vec2 t) as [m|]; [|done].
  destruct (for_layer i c).
  - destruct (int8.quantize_int8 _) as [q s]. intros H. unbind H. done.
  - intros (scales & _ & H)%bind_Some. apply bind_Some in H as (packed & _ & H). by injection H as <-.
  - destruct (int8.quantize_int8 _) as [q s]. intros H. unbind H. done.
Qed.

Lemma hybrid_of_spec c en i w h : hybrid_of (bitnet_config en c i) i w = Some (Ok h) -> expected_weights (bitnet_config en c i) h.
Proof.
  unfold bitnet_config, hybrid_of. destruct c as [c|]; [|by intros [= <-]].
  destruct (en && uses_bitnet_weights i c) eqn:E; [|by intros [= <-]].
  intros H. unbind H. cbn. eexists. split; [done|]. erewrite from_f32_tensor_stage by eassumption.
  apply andb_true_iff in E as [_ E]. unfold uses_bitnet_weights in E. by apply bool_decide_eq_true in E.
Qed.

Lemma load_mlp_spec ct pre c en i m :
  load_mlp ct pre (bitnet_config en c i) i = Some (Ok m) ->
  Forall (expected_weights (bitnet_config en c i)) [hybrid_w1 m; hybrid_w2 m; hybrid_w3 m].
Proof. intros H. unfold load_mlp in H. unbind H. repeat constructor; by eapply hybrid_of_spec. Qed.

Lemma load_layer_spec ct s en c i l :
  load_layer ct s en c i = Some (Ok l) ->
  kv_cache l = None /\ Forall (expected_weights (bitnet_config en c i)) (hybrids l).
Proof.
  intros H. unfold load_layer in H. unbind H. split; [done|].
  match goal with E : load_mlp _ _ _ _ = _ |- _ => apply load_mlp_spec in E end.
  repeat (constructor; [by eapply hybrid_of_spec|]). done.
Qed.

Lemma load_layers_spec load idxs ls :
  load_layers load idxs = Some (Ok ls) -> Forall2 (fun i l => load i = Some (Ok l)) idxs ls.
Proof. revert ls. induction idxs as [|i idxs IH]; intros ls H; cbn in H; unbind H; constructor; [done|by apply IH]. Qed.

(** what a loaded model is: it has the number of layers the file names, no layer holds keys
    or values, no mask is cached, there is no snapshot, and the weights of layer [i] are 1-bit
    matrices - all seven of them - exactly when the hybrid configuration was accepted for this
    number of layers and [i] is in its middle stage.  The 8-bit form is never used. *)
Theorem loaded_model (ct : Content) (c : option HybridMatrixConfig) (m : ModelWeights) :
  from_gguf ct c = Some (Ok m) ->
  exists n, md_usize ct "qwen2.block_count" = Ok n /\ length (layers m) = n /\ masks m = ∅ /\
    prefix_kv_snapshot m = None /\
    forall i l, layers m !! i = Some l ->
      kv_cache l = None /\ Forall (expected_weights (bitnet_config (hybrid_enabled c n) c i)) (hybrids l).
Proof.
  intros H. unfold from_gguf in H. do 4 (apply obind_ok in H as (? & _ & H)).
  apply obind_ok in H as (n & Hn & H). apply obind_ok in H as (? & _ & H). destruct (_ =? 0)%nat; [done|]. unbind H.
  match goal with E : load_layers _ _ = _ |- _ => apply load_layers_spec in E as Hl end.
  injection Hn as Hn. exists n. split; [done|]. cbn [layers masks prefix_kv_snapshot]. split_and!; try done.
  - apply Forall2_length in Hl. by rewrite length_seq in Hl.
  - intros i l Hi. destruct (Forall2_lookup_r _ _ _ _ _ Hl Hi) as (j & [-> _]%lookup_seq & Hj).
    by apply load_layer_spec in Hj.
Qed.
End loading.
