(* ===== verification/ServiceConfig.v ===== *)
(** * services/inference/src/config.rs

    The configuration of the inference server: its records and defaults, the choice of a
    backend by file name, validation, and the expansion of environment placeholders in the
    text of the file.  Texts are lists of code points. *)

From stdpp Require Import base numbers list strings.
From Stdlib Require Import ZArith Lia.
From S2P Require Import Prelude Inference Quantize.

Module config.
Import unicode.

(** ** Backends *)
Inductive ModelBackend := Onnx | Gguf.

(** [Path::extension]: what follows the last dot of the file name, unless the name begins
    with it. *)
Definition dot : Z := 46.
Fixpoint last_dot (l : list Z) : option (list Z * list Z) :=
  match l with
  | [] => None
  | c :: t =>
      match last_dot t with
      | Some (a, b) => Some (c :: a, b)
      | None => if c =? dot then Some ([], t) else None
      end
  end.
Definition extension (file_name : list Z) : option (list Z) :=
  match last_dot file_name with
  | Some ([], _) | None => None
  | Some (_, e) => Some e
  end.

(** [lower] is [str::to_lowercase]. *)
Definition detect (lower : list Z -> list Z) (file_name : list Z) : Result ModelBackend string :=
  let? ext := ok_or (extension file_name) "Model file has no extension" in
  if bool_decide (lower ext = of_string "onnx") then Ok Onnx
  else if bool_decide (lower ext = of_string "gguf") then Ok Gguf
  else Err "Unsupported model format".

(** ** Records *)
Record GgufConfig {F : F32} : Type := MkGgufConfig {
  n_threads : Z;
  n_ctx : Z;
  temperature : f32;
  max_tokens : nat;
  enable_prefix_kv_warmup : bool;
}.

Record IdentityConfig : Type := MkIdentityConfig {
  assistant_name : list Z;
  runtime_platform : list Z;
  assistant_description : list Z;
  system_prompt_suffix : list Z;
  blocked_origin_terms : list (list Z);
}.

Definition default_identity_name : list Z := of_string "ClarkenAI Core".
Definition default_identity_runtime : list Z := of_string "Blazil infrastructure".
Definition default_identity_description : list Z :=
  of_string "a high-performance financial AI assistant for markets, treasury, operations, and risk".
Definition default_identity_blocked_terms : list (list Z) :=
  of_string <$> ["Qwen"; "DeepSeek"; "Alibaba"; "Alibaba Cloud"; "LLaMA"; "Llama"; "Meta"].

Definition default_identity : IdentityConfig :=
  MkIdentityConfig default_identity_name default_identity_runtime default_identity_description []
    default_identity_blocked_terms.

Record DistributedConfig : Type := MkDistributedConfig {
  enabled : bool;
  node_stage : nat;
  layer_start : nat;
  layer_end : nat;
  prev_stream_id : Z;
  next_stream_id : Z;
  assigned_cores : list nat;
  enable_spin_poll : bool;
  enable_realtime_priority : bool;
}.

Definition default_distributed : DistributedConfig := MkDistributedConfig false 1 0 0 0 0 [] true false.

Record ServerConfig {F : F32} : Type := MkServerConfig {
  channel : list Z;
  aeron_dir : list Z;
  model_path : option (list Z);
  inference_workers : nat;
  device : list Z;
  optimization_level : list Z;
  http_port : Z;
  model_dir : list Z;
  api_key : list Z;
  gguf : GgufConfig;
  identity : IdentityConfig;
  distributed : DistributedConfig;
  hybrid_matrix : hybrid.HybridMatrixConfig;
}.

Section defaults.
Context {F : F32}.
(** The number of CPUs, the float 0.7 and the float 0. *)
Context (num_cpus : nat) (f_0_7 f_0_0 : f32).

Definition default_hybrid_matrix : hybrid.HybridMatrixConfig := hybrid.MkHybridMatrixConfig false 25 60 80 f_0_0.
Definition default_gguf : GgufConfig := MkGgufConfig F (as_unsigned 32 (Z.of_nat num_cpus)) 4096 f_0_7 2048 true.
Definition default_server : ServerConfig :=
  MkServerConfig F (of_string "aeron:ipc?term-length=67108864") (of_string "/dev/shm/aeron-inference") None num_cpus
    (of_string "cpu") (of_string "basic") 8090 (of_string "/opt/blazil/models") []
    default_gguf default_identity default_distributed default_hybrid_matrix.
End defaults.

(** ** Validation *)
Section validation.
Context {F : F32}.
Context (exists_ : list Z -> bool) (env : list Z -> option (list Z)).

Definition validate (c : ServerConfig) : Result unit string :=
  if (match model_path c with Some p => negb (exists_ p) | None => false end)
  then Err "model_path does not exist"
  else if negb (bool_decide (device c ∈ of_string <$> ["cpu"; "cuda"; "tensorrt"])) then Err "Invalid device"
  else if negb (bool_decide (optimization_level c ∈ of_string <$> ["disable"; "basic"; "extended"; "all"]))
  then Err "Invalid optimization_level"
  else Ok tt.

Definition effective_api_key (c : ServerConfig) : Result (list Z) string :=
  match api_key c with
  | [] => ok_or (env (of_string "BLAZIL_INFERENCE_API_KEY"))
            "No API key configured. Set BLAZIL_INFERENCE_API_KEY env var or api_key in config."
  | k => Ok k
  end.
End validation.

(** ** Placeholders *)
Section placeholders.
Context (env : list Z -> option (list Z)).

Definition opening : list Z := of_string "${".
Definition closing : list Z := of_string "}".
Definition separator : list Z := of_string ":-".

Definition placeholder_value (expr : list Z) : Result (list Z) string :=
  match split_at separator expr with
  | Some (name, default) => Ok (match env name with Some v => v | None => default end)
  | None => ok_or (env expr) "Missing required env var in config placeholder"
  end.

(** The loop, on the text after the cursor, with its length as fuel: a round consumes at
    least the two characters of the opening. *)
Fixpoint expand_loop (fuel : nat) (expanded input : list Z) : Result (list Z) string :=
  match split_at opening input with
  | None => Ok (expanded ++ input)
  | Some (before, rest) =>
      let? e := ok_or (split_at closing rest) "Unclosed env placeholder in config" in
      let '(expr, rest) := e in
      let? value := placeholder_value expr in
      match fuel with
      | O => Err "out of fuel"
      | S fuel => expand_loop fuel (expanded ++ before ++ value) rest
      end
  end.

Definition expand_env_placeholders (input : list Z) : Result (list Z) string :=
  expand_loop (length input) [] input.

(** [from_file], given what reading the file returned; [parse] is the TOML parser. *)
Definition from_file {F : F32} (exists_ : list Z -> bool) (parse : list Z -> Result ServerConfig string)
    (content : Result (list Z) string) : Result ServerConfig string :=
  let? content := map_err (fun e => "Failed to read config file: " +:+ e)%string content in
  let? expanded := map_err (fun e => "Failed to expand config env vars: " +:+ e)%string
                     (expand_env_placeholders content) in
  let? config := map_err (fun e => "Failed to parse config file: " +:+ e)%string (parse expanded) in
  let? _ := validate exists_ config in
  Ok config.
End placeholders.
End config.

(** ** A file of placeholders *)
Section expansion.
Import unicode config.
Context (env : list Z -> option (list Z)).

(** A text, then a placeholder: a name and perhaps a default. *)
Record Piece : Type := MkPiece { text_before : list Z; var_name : list Z; default_value : option (list Z) }.

Definition render_expr (p : Piece) : list Z :=
  var_name p ++ match default_value p with Some d => separator ++ d | None => [] end.
Definition render (p : Piece) : list Z := text_before p ++ opening ++ render_expr p ++ closing.
Definition render_all (ps : list Piece) (tail : list Z) : list Z := mjoin (render <$> ps) ++ tail.

(** What a placeholder stands for. *)
Definition piece_value (p : Piece) : option (list Z) :=
  match env (var_name p) with Some v => Some v | None => default_value p end.

Definition well_formed (p : Piece) : Prop :=
  contains opening (text_before p) = false /\ contains closing (render_expr p) = false /\
  contains separator (var_name p) = false.

(** The first piece without a value ends the expansion. *)
Fixpoint expected (ps : list Piece) (tail : list Z) : Result (list Z) string :=
  match ps with
  | [] => Ok tail
  | p :: ps =>
      match piece_value p with
      | None => Err "Missing required env var in config placeholder"
      | Some v => let? rest := expected ps tail in Ok (text_before p ++ v ++ rest)
      end
  end.

(** A pattern of one character, or of two different ones, has no occurrence that begins in a
    text without it. *)
Lemma no_overlap pat a b :
  (exists x, pat = [x]) \/ (exists x y, pat = [x; y] /\ x <> y) -> contains pat a = false ->
  split_at pat (a ++ pat ++ b) = Some (a, b).
Proof.
  intros Hp Hc. apply split_at_first. intros a1 a2 -> Hne. apply not_true_iff_false. intros Hs.
  apply not_true_iff_false in Hc. apply Hc, contains_spec.
  destruct a2 as [|u a2]; [done|]. destruct Hp as [[x ->]|(x & y & -> & Hxy)].
  - apply starts_with_spec in Hs as [c [= -> _]]. by exists a1, a2.
  - destruct a2 as [|v a2].
    + apply starts_with_spec in Hs as [c [= -> ->]]. done.
    + apply starts_with_spec in Hs as [c [= -> -> _]]. exists a1, a2. done.
Qed.

Lemma placeholder_value_spec p :
  well_formed p ->
  placeholder_value env (render_expr p) = ok_or (piece_value p) "Missing required env var in config placeholder".
Proof.
  intros (_ & _ & Hn). unfold placeholder_value, render_expr, piece_value. destruct (default_value p) as [d|].
  - rewrite no_overlap; [by destruct (env _)|right; by eexists _, _|done].
  - rewrite app_nil_r. unfold contains in Hn. destruct (split_at separator (var_name p)) as [[]|]; [done|].
    by destruct (env _).
Qed.

Lemma expand_loop_spec ps tail fuel acc :
  Forall well_formed ps -> contains opening tail = false -> (length ps <= fuel)%nat ->
  expand_loop env fuel acc (render_all ps tail) = (let? r := expected ps tail in Ok (acc ++ r)).
Proof.
  intros H Ht. revert fuel acc. induction H as [|p ps Hp _ IH]; intros fuel acc Hf.
  - unfold contains in Ht. unfold render_all. cbn [fmap list_fmap app].
    change (mjoin [] ++ tail) with tail. destruct fuel; cbn [expand_loop]; by destruct (split_at opening tail) as [[]|].
  - destruct fuel as [|fuel]; [cbn in Hf; lia|]. destruct (Hp) as (Hb & Hx & _).
    assert (render_all (p :: ps) tail = text_before p ++ opening ++ (render_expr p ++ closing ++ render_all ps tail)) as ->.
    { unfold render_all, render. cbn [fmap list_fmap]. change (mjoin (?x :: ?l)) with (x ++ mjoin l).
      by rewrite <- !app_assoc. }
    cbn [expand_loop]. rewrite no_overlap; [|right; by eexists _, _|done].
    rewrite no_overlap; [|left; by eexists|done]. cbn [ok_or rbind].
    rewrite placeholder_value_spec by done. cbn [expected].
    destruct (piece_value p) as [v|]; [|done]. cbn [ok_or rbind]. rewrite IH by (cbn in Hf; lia).
    destruct (expected ps tail) as [r|]; [|done]. cbn [rbind]. by rewrite <- !app_assoc.
Qed.

(** a configuration file expands piece by piece: in a text with placeholders, each a name
    with or without a default, every placeholder is replaced by the variable's value, or by
    its default when the variable is not set, all other text is kept, and the first required
    variable that is not set fails the load. *)
Theorem expansion_by_pieces (ps : list Piece) (tail : list Z) :
  Forall well_formed ps -> contains opening tail = false ->
  expand_env_placeholders env (render_all ps tail) = expected ps tail.
Proof.
  intros H Ht. unfold expand_env_placeholders. rewrite expand_loop_spec; [by destruct (expected ps tail)|done..|].
  unfold render_all. rewrite length_app. assert (length ps <= length (mjoin (render <$> ps)))%nat; [|lia].
  clear. induction ps as [|p ps IH]; [done|]. cbn [fmap list_fmap]. change (mjoin (?x :: ?l)) with (x ++ mjoin l).
  rewrite length_app. unfold render at 1. rewrite !length_app. cbn. cbn in IH. lia.
Qed.
End expansion.

Module config_examples.
Import unicode config.

Definition env (name : list Z) : option (list Z) :=
  if bool_decide (name = of_string "KEY") then Some (of_string "s3") else None.

Lemma expansion_by_pieces_witness :
  expand_env_placeholders env (of_string "key = ${KEY}, port = ${PORT:-8090}!") = Ok (of_string "key = s3, port = 8090!").
Proof.
  apply (expansion_by_pieces env
    [MkPiece (of_string "key = ") (of_string "KEY") None; MkPiece (of_string ", port = ") (of_string "PORT") (Some (of_string "8090"))]
    (of_string "!")); [repeat constructor|reflexivity].
Defined.

(** A default ends at the first brace, so a placeholder inside it is not expanded. *)
Example nested_default :
  expand_env_placeholders env (of_string "${A:-${KEY}}") = Ok (of_string "${KEY}").
Proof. vm_compute. reflexivity. Qed.
End config_examples.
