(* ===== verification/Gguf.v ===== *)
(** * services/inference/src/gguf_model.rs: text generation

    The identity filter on generated text, the prompts, loading, generation in one process
    ([generate_streaming]) and the operations of the stages of a pipeline.  The tokenizer and
    the sampler are classes. *)

From stdpp Require Import base numbers list gmap strings.
From Stdlib Require Import ZArith Lia.
From S2P Require Import Prelude Inference Quantize ExactTensors Qwen ServiceConfig.

(** ** Identity *)
Module identity.
Import unicode config.

(** [ClarkenIdentity] has the fields of the configuration, trimmed. *)
Definition from_config (value : IdentityConfig) : IdentityConfig :=
  MkIdentityConfig (trim (assistant_name value)) (trim (runtime_platform value)) (trim (assistant_description value))
    (trim (system_prompt_suffix value))
    (match blocked_origin_terms value with [] => default_identity_blocked_terms | l => l end).

(** The three replacements for one term. *)
Definition replace_term (replacement blocked text : list Z) : list Z :=
  match blocked with
  | [] => text
  | _ =>
      let lower := ascii_lower blocked in
      let upper := ascii_upper blocked in
      replace upper replacement (replace lower (ascii_lower replacement) (replace blocked replacement text))
  end.

Definition apply_origin_replacements (i : IdentityConfig) (text replacement : list Z) : list Z :=
  foldl (fun sanitized blocked => replace_term replacement blocked sanitized) text (blocked_origin_terms i).

Definition contains_blocked_origin_term (i : IdentityConfig) (text : list Z) : bool :=
  let lower := ascii_lower text in
  existsb (fun term => contains (ascii_lower term) lower) (blocked_origin_terms i).

Definition vendor_sentences : list (list Z * list Z) :=
  prod_map of_string of_string <$>
  [("developed by Alibaba Cloud", "developed by the Clarken team");
   ("Developed by Alibaba Cloud", "Developed by the Clarken team");
   ("built by Alibaba Cloud", "built by the Clarken team");
   ("Built by Alibaba Cloud", "Built by the Clarken team");
   ("created by Alibaba Cloud", "created by the Clarken team");
   ("Created by Alibaba Cloud", "Created by the Clarken team")]%string.

Definition fallback (i : IdentityConfig) : list Z :=
  of_string "I am " ++ assistant_name i ++ of_string ", a Clarken financial AI assistant running on " ++
  runtime_platform i ++ of_string ".".

Definition sanitize_response (i : IdentityConfig) (text : list Z) : list Z :=
  let sanitized := foldl (fun s p => replace p.1 p.2 s) text vendor_sentences in
  let sanitized := trim (apply_origin_replacements i sanitized (assistant_name i)) in
  if contains_blocked_origin_term i sanitized then fallback i else sanitized.

Definition line_feed : list Z := [10].

Definition build_system_prompt (i : IdentityConfig) : list Z :=
  of_string "You are " ++ assistant_name i ++ of_string "." ++ line_feed ++
  of_string "You are " ++ assistant_description i ++ of_string " running on " ++ runtime_platform i ++ of_string "." ++
  line_feed ++
  of_string "Never mention upstream model families, vendors, checkpoints, labs, or training provenance." ++ line_feed ++
  of_string "If asked who you are, what model you are, or who built you, answer only with the Clarken identity above." ++
  line_feed ++
  of_string "Do not say you are Qwen, DeepSeek, LLaMA, Meta, Alibaba, or any external model/vendor." ++ line_feed ++
  of_string "Answer directly and concretely. Do not emit prompt templates, role labels, markdown placeholders, or example scaffolding unless the user explicitly asks for them." ++
  line_feed ++
  of_string "Provide accurate, concise answers focused on finance, trading, treasury, operations, and risk." ++
  match system_prompt_suffix i with [] => [] | suffix => line_feed ++ line_feed ++ suffix end.

Definition build_chatml_system_prefix (i : IdentityConfig) : list Z :=
  of_string "<|im_start|>system" ++ line_feed ++ build_system_prompt i ++ line_feed ++ of_string "<|im_end|>" ++ line_feed.

Definition build_chatml_user_suffix (prompt : list Z) : list Z :=
  of_string "<|im_start|>user" ++ line_feed ++ trim prompt ++ line_feed ++ of_string "<|im_end|>" ++ line_feed ++
  of_string "<|im_start|>assistant" ++ line_feed.
End identity.

(** ** The tokenizer and the sampler *)
Class Tokenizer := {
  tokenizer : Type;
  encode : tokenizer -> list Z -> bool -> Result (list Z) string;
  decode : tokenizer -> list Z -> Result (list Z) string;
  token_to_id : tokenizer -> list Z -> option Z;
}.

(** [All t] samples at temperature [t]; a processor carries the state of its generator. *)
Inductive Sampling `{F : F32} := ArgMax | All (temperature : f32).

Class Sampler `{F : F32, CL : !Candle} := {
  processor : Type;
  from_sampling : Z -> Sampling -> processor;
  sample : processor -> tensor -> Result (Z * processor) string;
  f_leb : f32 -> f32 -> bool;
}.

Module gguf.
Import qwen.
Section gguf.
Context `{F : F32, QF : !QuantF32, CL : !Candle, TK : !Tokenizer, SP : !Sampler}.

Record ActivationState : Type := MkActivation {
  shape : list nat;
  data : list f32;
  position : nat;
  tokens : list Z;
}.

Record SampledToken : Type := MkSampledToken {
  token_id : Z;
  token_text : list Z;
  is_eos : bool;
  token_position : nat;
}.

Record GgufModel : Type := MkGgufModel {
  model : ModelWeights;
  tok : tokenizer;
  temp : f32;
  max_tokens : nat;
  max_seq_len : nat;
  identity : config.IdentityConfig;
  stop_token_ids : list Z;
}.

Definition set_model (m : ModelWeights) (g : GgufModel) : GgufModel :=
  MkGgufModel m (tok g) (temp g) (max_tokens g) (max_seq_len g) (identity g) (stop_token_ids g).

Definition set_temperature (t : f32) (g : GgufModel) : GgufModel :=
  MkGgufModel (model g) (tok g) (f_clamp (f_of_Z 0) (f_of_Z 2) t) (max_tokens g) (max_seq_len g) (identity g)
    (stop_token_ids g).
Definition set_max_tokens (n : nat) (g : GgufModel) : GgufModel :=
  MkGgufModel (model g) (tok g) (temp g) n (max_seq_len g) (identity g) (stop_token_ids g).

(** *** Helpers *)
Definition sampling_of (g : GgufModel) : Sampling := if f_leb (temp g) (f_of_Z 0) then ArgMax else All (temp g).
Definition create_logits_processor (g : GgufModel) : processor := from_sampling 42 (sampling_of g).

Definition is_eos_token (g : GgufModel) (token : Z) : bool :=
  (token =? 151643) || (token =? 151645) || (token =? 128001) || (token =? 128009) || (token =? 2) ||
  bool_decide (token ∈ stop_token_ids g).

Definition filter_token (g : GgufModel) (token : list Z) : list Z :=
  identity.apply_origin_replacements (identity g) token (config.assistant_name (identity g)).

(** The text of a token, when it decodes. *)
Definition token_str (g : GgufModel) (token : Z) : option (list Z) :=
  match decode (tok g) [token] with Ok s => Some (filter_token g s) | Err _ => None end.

(** *** Generation in one process *)

(** One forward pass: the whole prompt at position 0, afterwards the last token.  [Ok None]
    is the break at the end of the context. *)
Definition next_logits (g : GgufModel) (index : nat) (tokens : list Z) : GgufModel * Outcome (option tensor) :=
  let run input pos :=
    match input with
    | Err e => (g, Some (Err e))
    | Ok input =>
        let '(m, o) := forward (model g) input pos in
        (set_model m g, let! l := o in Some (let? l := squeeze0 l in Ok (Some l)))
    end in
  match index with
  | O => run (unsqueezed tokens) 0%nat
  | S _ =>
      match last tokens with
      | None => (g, None)
      | Some t =>
          let pos := (length tokens - 1)%nat in
          if (max_seq_len g <=? pos)%nat then (g, Some (Ok None)) else run (unsqueezed [t]) pos
      end
  end.

(** The loop over [index], of which [fuel] rounds are left.  [out] are the calls of
    [on_token] so far, whose concatenation is [generated]. *)
Fixpoint generate_loop (fuel index : nat) (g : GgufModel) (p : processor) (tokens : list Z) (out : list (list Z))
    : GgufModel * list (list Z) * Outcome unit :=
  match fuel with
  | O => (g, out, Some (Ok tt))
  | S fuel =>
      let '(g, o) := next_logits g index tokens in
      match o with
      | None => (g, out, None)
      | Some (Err e) => (g, out, Some (Err e))
      | Some (Ok None) => (g, out, Some (Ok tt))
      | Some (Ok (Some logits)) =>
          match sample p logits with
          | Err e => (g, out, Some (Err e))
          | Ok (next_token, p) =>
              if is_eos_token g next_token then (g, out, Some (Ok tt))
              else
                let out := match token_str g next_token with Some s => out ++ [s] | None => out end in
                generate_loop fuel (S index) g p (tokens ++ [next_token]) out
          end
      end
  end.

Definition cleared (g : GgufModel) : GgufModel := set_model (clear_all_kv_caches (model g)) g.

(** The prompt is encoded in two parts. *)
Definition prompt_tokens (g : GgufModel) (prompt : list Z) : Result (list Z) string :=
  let? system := map_err (fun e => "Tokenization failed: " +:+ e)
                   (encode (tok g) (identity.build_chatml_system_prefix (identity g)) true) in
  let? user := map_err (fun e => "Tokenization failed: " +:+ e)
                 (encode (tok g) (identity.build_chatml_user_suffix prompt) false) in
  Ok (system ++ user).

Definition generate_streaming (g : GgufModel) (prompt : list Z) (max : nat)
    : GgufModel * list (list Z) * Outcome (list Z) :=
  let g := cleared g in
  match prompt_tokens g prompt with
  | Err e => (g, [], Some (Err e))
  | Ok tokens =>
      if (max_seq_len g <=? length tokens)%nat then (g, [], Some (Err "Prompt too long"))
      else
        let max_gen := match max with O => max_tokens g | _ => max end in
        let '(g, out, o) := generate_loop max_gen 0 g (create_logits_processor g) tokens [] in
        match o with
        | Some (Ok tt) =>
            (cleared g, out, Some (Ok (identity.sanitize_response (identity g) (mjoin out))))
        | Some (Err e) => (g, out, Some (Err e))
        | None => (g, out, None)
        end
  end.

(** *** Stages *)
Definition extract (t : tensor) (position : nat) (tokens : list Z) : Result ActivationState string :=
  let? data := to_flat t in Ok (MkActivation (dims t) data position tokens).

Definition forward_layer_range (g : GgufModel) (tokens : list Z) (position layer_start layer_end : nat)
    : GgufModel * Outcome ActivationState :=
  if (layer_end <=? layer_start)%nat then (g, Some (Err "Invalid layer range"))
  else
    let apply_embeddings := (layer_start =? 0)%nat in
    let apply_final_projection := (layer_end =? length (layers (model g)))%nat in
    match unsqueezed tokens with
    | Err e => (g, Some (Err e))
    | Ok input =>
        let '(m, o) := qwen.forward_layer_range (model g) input layer_start layer_end position
                         apply_embeddings apply_final_projection in
        (set_model m g, let! hidden_states := o in Some (extract hidden_states position tokens))
    end.

Definition reconstruct_activation (a : ActivationState) : Result tensor string := from_vec (data a) (shape a).

(** The end of the last stage: the row of the last token, the projection, one sample. *)
Definition sample_one (g : GgufModel) (a : ActivationState) (hidden_output : tensor) : Outcome SampledToken :=
  match dims hidden_output with
  | [_; seq_len; _] =>
      if (seq_len =? 0)%nat then None
      else
        Some (
          let? last_token_hidden := index_seq hidden_output (seq_len - 1) in
          let? output_tensor := apply_final_projection (model g) last_token_hidden in
          let? logits := squeeze0 output_tensor in
          let? s := sample (create_logits_processor g) logits in
          Ok (MkSampledToken s.1 (default [] (token_str g s.1)) (is_eos_token g s.1) (position a + 1)))
  | _ => Some (Err "Expected rank-3 hidden output")
  end.

(** [Either]: the activation for the next stage, or a token. *)
Definition generate_from_activation (g : GgufModel) (a : ActivationState) (layer_start layer_end : nat)
    : GgufModel * Outcome (ActivationState + SampledToken) :=
  match reconstruct_activation a with
  | Err e => (g, Some (Err e))
  | Ok incoming_hidden =>
      let is_final_stage := (layer_end =? length (layers (model g)))%nat in
      let '(m, o) := qwen.forward_layer_range (model g) incoming_hidden layer_start layer_end (position a) false false in
      let g := set_model m g in
      (g, let! hidden_output := o in
          if negb is_final_stage
          then Some (let? s := extract hidden_output (position a) (tokens a) in Ok (inl s))
          else let! t := sample_one g a hidden_output in Some (Ok (inr t)))
  end.

(** The whole prompt is encoded at once. *)
Definition generate_from_tokens_layer_range (g : GgufModel) (prompt : list Z) (layer_start layer_end : nat)
    : GgufModel * Outcome ActivationState :=
  let full_prompt := identity.build_chatml_system_prefix (identity g) ++ identity.build_chatml_user_suffix prompt in
  match map_err (fun e => "Tokenization failed: " +:+ e) (encode (tok g) full_prompt true) with
  | Err e => (g, Some (Err e))
  | Ok tokens =>
      if (max_seq_len g <=? length tokens)%nat then (g, Some (Err "Prompt too long"))
      else forward_layer_range g tokens 0 layer_start layer_end
  end.

Definition decode_single_token (g : GgufModel) (token_id : Z) (position layer_start layer_end : nat)
    : GgufModel * Outcome ActivationState :=
  forward_layer_range g [token_id] position layer_start layer_end.

(** *** Loading *)
Context `{GL : !GgufLib} (compute_prefix_hash : list Z -> Z).

Definition warmup_prefix_kv_snapshot (g : GgufModel) : GgufModel * Outcome unit :=
  match map_err (fun e => "System prompt tokenization failed: " +:+ e)
          (encode (tok g) (identity.build_chatml_system_prefix (identity g)) true) with
  | Err e => (g, Some (Err e))
  | Ok [] => (g, Some (Err "System prompt tokenization produced empty token list"))
  | Ok system_tokens =>
      match unsqueezed system_tokens with
      | Err e => (g, Some (Err e))
      | Ok input =>
          let '(m, o) := forward (model g) input 0 in
          match o with
          | Some (Ok _) =>
              let m := finalize_prefill_and_capture_snapshot compute_prefix_hash system_tokens m in
              (set_model (clear_all_kv_caches m) g, Some (Ok tt))
          | Some (Err e) => (set_model m g, Some (Err e))
          | None => (set_model m g, None)
          end
      end
  end.

(** What the file system and the library return for a path. *)
Record Files : Type := MkFiles {
  path_exists : bool;
  path_extension : option (list Z);
  tokenizer_file : option (Result tokenizer string);
  weights : Result Content string;
}.

(** [temp] starts at 0.7. *)
Definition load_with_layer_range (f_0_7 : f32) (files : Files) (n_ctx : nat) (layer_range : option (nat * nat))
    (identity_config : config.IdentityConfig) (enable_prefix_kv_warmup : bool)
    (hybrid_matrix_config : option hybrid.HybridMatrixConfig) : Outcome GgufModel :=
  if negb (path_exists files) then Some (Err "Model file not found")
  else if negb (bool_decide (path_extension files = Some (unicode.of_string "gguf"))) then Some (Err "Expected .gguf file")
  else
    match tokenizer_file files with
    | None => Some (Err "tokenizer.json not found in model directory")
    | Some (Err e) => Some (Err ("Failed to load tokenizer: " +:+ e))
    | Some (Ok tokenizer) =>
        let stop_token_ids := omap (fun t => token_to_id tokenizer (unicode.of_string t)) ["<|im_end|>"; "<|endoftext|>"] in
        match weights files with
        | Err e => Some (Err ("Failed to read GGUF file: " +:+ e))
        | Ok gguf_content =>
            let! m := from_gguf gguf_content hybrid_matrix_config in
            let g := MkGgufModel m tokenizer f_0_7 2048 n_ctx (identity.from_config identity_config) stop_token_ids in
            if (match layer_range with None => enable_prefix_kv_warmup | Some _ => false end)
            then let '(g, o) := warmup_prefix_kv_snapshot g in
                 match o with None => None | Some _ => Some (Ok g) end
            else Some (Ok g)
        end
    end.

Definition load (f_0_7 : f32) (files : Files) (n_ctx : nat) (identity_config : config.IdentityConfig)
    (enable_prefix_kv_warmup : bool) (hybrid_matrix_config : option hybrid.HybridMatrixConfig) : Outcome GgufModel :=
  load_with_layer_range f_0_7 files n_ctx None identity_config enable_prefix_kv_warmup hybrid_matrix_config.
End gguf.
End gguf.

(** ** What an answer may contain *)
Section answers.
Import unicode gguf.
Context `{F : F32, QF : !QuantF32, CL : !Candle, TK : !Tokenizer, SP : !Sampler}.

(** A text that names no blocked term, in any case. *)
Definition names_no_vendor (i : config.IdentityConfig) (text : list Z) : Prop :=
  forall term a b, term ∈ config.blocked_origin_terms i -> ascii_lower text <> a ++ ascii_lower term ++ b.

Lemma sanitized_clean i text :
  identity.sanitize_response i text = identity.fallback i \/ names_no_vendor i (identity.sanitize_response i text).
Proof.
  unfold identity.sanitize_response. set (s := trim _).
  destruct (identity.contains_blocked_origin_term i s) eqn:E; [by left|]. right. intros term a b Ht H.
  apply not_true_iff_false in E. apply E, existsb_exists. exists term. split; [by apply list_elem_of_In|].
  apply contains_spec. by exists a, b.
Qed.

Lemma cleared_caches g l : l ∈ qwen.layers (model (cleared g)) -> qwen.kv_cache l = None.
Proof. cbn. rewrite list_elem_of_fmap. by intros (k & -> & _). Qed.

Lemma next_logits_model g index ts : 
  identity (next_logits g index ts).1 = identity g /\ max_seq_len (next_logits g index ts).1 = max_seq_len g.
Proof.
  unfold next_logits. destruct index.
  - destruct (unsqueezed ts); [|done]. by destruct (qwen.forward _ _ _).
  - destruct (last ts); [|done]. destruct (_ <=? _)%nat; [done|]. destruct (unsqueezed _); [|done]. by destruct (qwen.forward _ _ _).
Qed.

Lemma generate_loop_spec fuel index g p ts out g' out' o :
  generate_loop fuel index g p ts out = (g', out', o) ->
  identity g' = identity g /\ exists new, out' = out ++ new /\ (length new <= fuel)%nat.
Proof.
  revert index g p ts out. induction fuel as [|fuel IH]; intros index g p ts out; cbn [generate_loop].
  { intros [= <- <- <-]. split; [done|]. exists []. by rewrite app_nil_r. }
  destruct (next_logits_model g index ts) as [Hi _]. destruct (next_logits g index ts) as [g1 o1]. cbn in Hi.
  assert (forall x, (g1, out, x) = (g', out', o) ->
    identity g' = identity g /\ exists new, out' = out ++ new /\ (length new <= S fuel)%nat) as Hstop.
  { intros x [= <- <- <-]. split; [done|]. exists []. rewrite app_nil_r. split; [done|cbn; lia]. }
  destruct o1 as [[[logits|]|]|]; try by apply Hstop.
  destruct (sample p logits) as [[t p']|]; [|by apply Hstop]. destruct (is_eos_token g1 t); [by apply Hstop|].
  intros H. apply IH in H as (-> & new & -> & Hn). split; [done|]. destruct (token_str g1 t) as [s|].
  - exists (s :: new). rewrite <- app_assoc. split; [done|]. cbn. lia.
  - exists new. split; [done|]. lia.
Qed.

(** C18: what one process answers: when generation succeeds, at most the requested number of
    pieces was streamed (the configured one for a request of 0), the returned text is either
    the fixed sentence of the identity or names no blocked vendor in any mixture of cases, and
    no layer keeps keys and values of the request. *)
Theorem answer_bounded_and_clean (g : GgufModel) (prompt : list Z) (max : nat) g' chunks text :
  generate_streaming g prompt max = (g', chunks, Some (Ok text)) ->
  (length chunks <= if (max =? 0)%nat then max_tokens g else max)%nat /\
  (text = identity.fallback (identity g) \/ names_no_vendor (identity g) text) /\
  (forall l, l ∈ qwen.layers (model g') -> qwen.kv_cache l = None).
Proof.
  unfold generate_streaming. destruct (prompt_tokens (cleared g) prompt) as [ts|]; [|done].
  destruct (_ <=? _)%nat; [done|]. set (n := match max with O => _ | _ => _ end).
  destruct (generate_loop n 0 (cleared g) _ ts []) as [[g1 out] o] eqn:E.
  destruct (generate_loop_spec _ _ _ _ _ _ _ _ _ E) as (Hi & new & -> & Hn).
  destruct o as [[[]|]|]; try done. intros [= <- <- <-]. split_and!.
  - subst n. by destruct max.
  - rewrite Hi. apply sanitized_clean.
  - apply cleared_caches.
Qed.
End answers.

(** ** Three processes and one *)
Section pipeline.
Import qwen gguf.
Context `{F : F32, QF : !QuantF32, CL : !Candle, TK : !Tokenizer, SP : !Sampler, LW : !CandleLaws}.

(** One pass of tokens through the stages, as the servers of the pipeline make it: the first
    embeds and runs the layers up to [a], the second those up to [b], the third the rest. *)
Definition pipeline_pass (a b n : nat) (gs : GgufModel * GgufModel * GgufModel) (call : list Z * nat)
    : GgufModel * GgufModel * GgufModel * Outcome SampledToken :=
  let '(g1, g2, g3) := gs in
  let '(g1, o) := forward_layer_range g1 call.1 call.2 0 a in
  match o with
  | Some (Ok act) =>
      let '(g2, o) := generate_from_activation g2 act a b in
      match o with
      | Some (Ok (inl act)) =>
          let '(g3, o) := generate_from_activation g3 act b n in
          (g1, g2, g3, let! r := o in match r with inr t => Some (Ok t) | inl _ => Some (Err "Unexpected intermediate output") end)
      | Some (Ok (inr _)) => (g1, g2, g3, Some (Err "Unexpected final output"))
      | Some (Err e) => (g1, g2, g3, Some (Err e))
      | None => (g1, g2, g3, None)
      end
  | Some (Err e) => (g1, g2, g3, Some (Err e))
  | None => (g1, g2, g3, None)
  end.

Fixpoint pipeline_calls (a b n : nat) (gs : GgufModel * GgufModel * GgufModel) (calls : list (list Z * nat))
    : list (Outcome SampledToken) :=
  match calls with
  | [] => []
  | c :: calls => let '(gs, o) := pipeline_pass a b n gs c in o :: pipeline_calls a b n gs calls
  end.

(** One process making the same calls; [None] when one fails. *)
Fixpoint model_calls (w : ModelWeights) (calls : list (list Z * nat)) : option (list tensor) :=
  match calls with
  | [] => Some []
  | (ts, pos) :: calls =>
      match unsqueezed ts with
      | Err _ => None
      | Ok x =>
          match forward w x pos with
          | (w, Some (Ok l)) => ls ← model_calls w calls; Some (l :: ls)
          | _ => None
          end
      end
  end.

(** The token a process samples from logits with a fresh processor. *)
Definition sampled_from (g : GgufModel) (l : tensor) (pos : nat) : Result SampledToken string :=
  let? logits := squeeze0 l in
  let? s := sample (create_logits_processor g) logits in
  Ok (MkSampledToken s.1 (default [] (token_str g s.1)) (is_eos_token g s.1) (pos + 1)).

(** The configurations agree, the models may have different caches. *)
Definition configured_as (g g' : GgufModel) : Prop :=
  tok g = tok g' /\ temp g = temp g' /\ identity g = identity g' /\ stop_token_ids g = stop_token_ids g'.

Lemma sampled_from_configured g g' l pos : configured_as g g' -> sampled_from g l pos = sampled_from g' l pos.
Proof.
  intros (Ht & Htemp & Hi & Hs). unfold sampled_from, create_logits_processor, sampling_of, token_str, filter_token, is_eos_token.
  by rewrite Ht, Htemp, Hi, Hs.
Qed.

Lemma sample_one_spec g a h bz s hid row l :
  dims h = [bz; s; hid] -> s <> 0%nat -> index_seq h (s - 1) = Ok row -> apply_final_projection (model g) row = Ok l ->
  sample_one g a h = Some (sampled_from g l (position a)).
Proof.
  intros Hd Hs Hrow Hl. unfold sample_one. rewrite Hd. destruct (Nat.eqb_spec s 0); [done|].
  rewrite Hrow. cbn [rbind]. by rewrite Hl.
Qed.

Lemma middle_stage g a b act x h m' :
  reconstruct_activation act = Ok x -> (b =? length (layers (model g)))%nat = false ->
  qwen.forward_layer_range (model g) x a b (position act) false false = (m', Some (Ok h)) ->
  exists l, to_flat h = Ok l /\ generate_from_activation g act a b =
    (set_model m' g, Some (Ok (inl (MkActivation (dims h) l (position act) (tokens act))))).
Proof.
  intros Hx Hn Hf. destruct (to_flat_ok h) as [l Hl]. exists l. split; [done|].
  unfold generate_from_activation. rewrite Hx, Hf, Hn. cbn [negb obind]. unfold extract. by rewrite Hl.
Qed.

Lemma pass_step g w g1 g2 g3 a b ts pos x w' l :
  (0 < a < b)%nat -> (b < length (layers w))%nat -> configured_as g3 g ->
  similar w (model g1) (model g2) (model g3) -> unsqueezed ts = Ok x ->
  pos = 0%nat \/ (length ts = 1%nat /\ in_step a b w (model g1) (model g2) (model g3)) ->
  forward w x pos = (w', Some (Ok l)) ->
  exists g1' g2' g3', pipeline_pass a b (length (layers w)) (g1, g2, g3) (ts, pos) = (g1', g2', g3', Some (sampled_from g l pos)) /\
    configured_as g3' g /\ similar w' (model g1') (model g2') (model g3') /\
    in_step a b w' (model g1') (model g2') (model g3') /\ length (layers w') = length (layers w).
Proof.
  intros Hab Hb Hc Hsim Hx Hpos Hf. pose proof (unsqueezed_dims _ _ Hx) as Hd.
  destruct (stages_step w (model g1) (model g2) (model g3) a b x pos 1 (length ts) w' l Hab Hb Hsim Hd Hpos Hf)
    as (h1 & h2 & h3 & w1' & w2' & w3' & row & F1 & F2 & F3 & (hid & D3) & Hs & Hrow & Hl & Hsim' & Hin & Sw & S1 & S2 & S3).
  assert (forall m m' : ModelWeights, same_model m m' -> length (layers m) = length (layers m')) as Hlen
    by (intros m m' H; eapply Forall2_length, same_layers, H).
  destruct Hsim as [_ [Q1 _] [Q2 _] [Q3 _]]. apply Hlen in Q1, Q2, Q3.
  destruct (to_flat_ok h1) as [l1 T1].
  destruct (middle_stage g2 a b (MkActivation (dims h1) l1 pos ts) h1 h2 w2') as (l2 & T2 & E2);
    [by apply from_to_flat|by apply Nat.eqb_neq; lia|done|].
  exists (set_model w1' g1), (set_model w2' g2), (set_model w3' g3). split_and!; [|done|done|done|by apply Hlen].
  unfold pipeline_pass. cbn [fst snd]. unfold forward_layer_range at 1.
  rewrite (proj2 (Nat.leb_gt a 0)), Hx by lia. replace (a =? length (layers (model g1)))%nat with false
    by (symmetry; apply Nat.eqb_neq; lia). rewrite Nat.eqb_refl.
  rewrite F1. cbn [obind]. unfold extract. rewrite T1. cbn [rbind]. rewrite E2. cbn [position tokens].
  unfold generate_from_activation, reconstruct_activation. cbn [data shape position].
  rewrite (from_to_flat h2 l2 T2), F3, Q3, Nat.eqb_refl. cbn [negb obind].
  rewrite (sample_one_spec (set_model w3' g3) _ h3 1 (length ts) hid row l) by done. cbn [position].
  rewrite (sampled_from_configured _ g) by done.
  by destruct (sampled_from g l pos).
Qed.

(** C15: splitting the model over three processes does not change what it computes: take a
    model of [n] layers loaded by one process and by three stages that run the layers
    [0..a], [a..b] and [b..n], with whatever caches and snapshots earlier requests left.  If
    the single process can run a prompt at position 0 and then any single tokens at any
    positions, the pipeline returns for every call the token sampled from the very logits the
    single process computes. *)
Theorem pipeline_equals_model (g g1 g2 g3 : GgufModel) (a b : nat) (prompt : list Z) (steps : list (Z * nat))
    (logits : list tensor) :
  (0 < a < b)%nat -> (b < length (layers (model g)))%nat -> configured_as g3 g ->
  similar (model g) (model g1) (model g2) (model g3) ->
  model_calls (model g) ((prompt, 0%nat) :: ((fun s => ([s.1], s.2)) <$> steps)) = Some logits ->
  pipeline_calls a b (length (layers (model g))) (g1, g2, g3) ((prompt, 0%nat) :: ((fun s => ([s.1], s.2)) <$> steps)) =
    zip_with (fun l pos => Some (sampled_from g l pos)) logits (0%nat :: steps.*2).
Proof.
  intros Hab Hb Hc Hsim. set (n := length (layers (model g))) in *. cbn [model_calls].
  destruct (unsqueezed prompt) as [x|] eqn:Hx; [|done]. destruct (forward (model g) x 0) as [w o] eqn:Hf.
  destruct o as [[l|]|]; try done.
  destruct (pass_step g (model g) g1 g2 g3 a b prompt 0 x w l) as (h1 & h2 & h3 & E & C & S & I & N); try done; [by left|].
  cbn [pipeline_calls]. fold n in E. rewrite E. fold n in N. clear -Hab Hb C S I N LW.
  destruct (model_calls w _) as [ls|] eqn:M; [|done]. intros [= <-]. cbn [zip_with]. f_equal.
  revert ls w h1 h2 h3 M C S I N. induction steps as [|[t pos] steps IH]; intros ls w h1 h2 h3 M C S I N.
  - by injection M as <-.
  - cbn [fmap list_fmap model_calls fst snd] in M. destruct (unsqueezed [t]) as [x|] eqn:Hx; [|done].
    destruct (forward w x pos) as [w' o] eqn:Hf. destruct o as [[l'|]|]; try done.
    destruct (pass_step g w h1 h2 h3 a b [t] pos x w' l') as (k1 & k2 & k3 & E & C' & S' & I' & N'); try done; [by rewrite N|by right|].
    destruct (model_calls w' _) as [ls'|] eqn:M'; [|done]. injection M as <-.
    cbn [fmap list_fmap pipeline_calls zip_with fst snd]. rewrite N in E. rewrite E. f_equal.
    eapply IH; [exact M'|done..|by rewrite N'].
Qed.
End pipeline.

(** ** A model on exact tensors *)
Module gguf_examples.
Import qwen gguf exact_tensors.

#[global] Instance exact_gguf : @GgufLib exact_f32 lib := {|
  Value := Z; to_u32 := Ok; to_f32 v := Ok (v : @f32 exact_f32);
  qtensor := list (list Z);
  dequantize w := Ok (MkTensor [length w; length (nth 0 w [])] (mjoin w) : @tensor _ lib);
  qmm_of_qtensor w := Ok (w : @qmatmul _ lib);
  norm_of_qtensor w _ := Ok (nth 0 (nth 0 w []) 0 : @rms_norm _ lib);
  embedding_new _ n := (n : @embedding _ lib);
  scalar_neg_infinity := Ok (MkTensor [] [-100] : @tensor _ lib);
  vector (l : list (@f32 exact_f32)) := Ok (MkTensor [length l] l : @tensor _ lib);
  elem_count (t : @tensor _ lib) := length (data t);
  arange_f32 n := Ok (MkTensor [n] (Z.of_nat <$> seq 0 n) : @tensor _ lib);
  t_cos := Ok; t_sin := Ok;
  f_powf _ _ := (1 : @f32 exact_f32);
|}.

(** The tokens of a text are its digits and its closing angle brackets; a token is written as
    one character, and the token 20 ends a text. *)
#[global] Instance exact_tokenizer : Tokenizer := {|
  tokenizer := unit;
  encode _ text _ :=
    Ok (omap (fun c => if c =? 62 then Some 4 else if (48 <=? c) && (c <=? 57) then Some (c - 38) else None) text);
  decode _ ts := Ok ((fun t => 65 + t) <$> ts);
  token_to_id _ _ := Some 20;
|}.

(** The sample is the first logit, from 3 on and below 26. *)
#[global] Instance exact_sampler : @Sampler exact_f32 lib := {|
  processor := unit;
  from_sampling _ _ := tt;
  sample _ (l : @tensor _ lib) := Ok (3 + nth 0 (data l) 0 mod 23, tt);
  f_leb a b := a <=? b;
|}.

(** Four layers of width 1; the 1-bit stage is the layer 1. *)
Definition unit_matrix : list (list Z) := [[1]].
Definition file : @Content _ lib exact_gguf := {|
  metadata := list_to_map [("qwen2.attention.head_count", 1); ("qwen2.attention.head_count_kv", 1);
    ("qwen2.embedding_length", 1); ("qwen2.context_length", 16); ("qwen2.block_count", 4);
    ("qwen2.attention.layer_norm_rms_epsilon", 0)]%string;
  tensor_named _ := Ok (unit_matrix : @qtensor _ _ exact_gguf);
|}.
Definition hybrid_file : @hybrid.HybridMatrixConfig exact_f32 := hybrid.MkHybridMatrixConfig true 1 2 4 (0 : @f32 exact_f32).

Definition loaded (c : option hybrid.HybridMatrixConfig) : GgufModel :=
  match load (GL := exact_gguf) (fun l => Z.of_nat (length l)) (0 : @f32 exact_f32)
          (MkFiles true (Some (unicode.of_string "gguf")) (Some (Ok tt)) (Ok file)) 16 config.default_identity true c with
  | Some (Ok g) => g
  | _ => MkGgufModel (MkModelWeights (1%nat : @embedding _ lib) [] (1 : @rms_norm _ lib) (unit_matrix : @qmatmul _ lib) ∅ None None)
           tt (0 : @f32 exact_f32) 0 0 config.default_identity []
  end.
Definition g4 : GgufModel := Eval vm_compute in loaded None.

Example loaded_layers : length (layers (model g4)) = 4%nat /\ is_Some (prefix_kv_snapshot (model g4)).
Proof. split; [reflexivity|by eexists]. Qed.

Definition hybrid_loaded : ModelWeights :=
  Eval vm_compute in match from_gguf file (Some hybrid_file) with Some (Ok m) => m | _ => model g4 end.
Lemma hybrid_loads : from_gguf file (Some hybrid_file) = Some (Ok hybrid_loaded).
Proof. vm_refl. Qed.

Lemma loaded_model_witness :
  exists n, md_usize file "qwen2.block_count" = Ok n /\ length (layers hybrid_loaded) = n /\ masks hybrid_loaded = ∅ /\
    prefix_kv_snapshot hybrid_loaded = None /\
    forall i l, layers hybrid_loaded !! i = Some l ->
      kv_cache l = None /\
      Forall (expected_weights (bitnet_config (hybrid_enabled (Some hybrid_file) n) (Some hybrid_file) i)) (hybrids l).
Proof. exact (loaded_model file (Some hybrid_file) hybrid_loaded hybrid_loads). Defined.

(** Layer 1 runs 1-bit matrices, layers 0, 2 and 3 those of the file: nothing is in 8 bits. *)
Example no_eight_bit_layer :
  (fun l => (fun w => hybrid.stage w) <$> hybrid_wq l) <$> layers hybrid_loaded = [None; Some hybrid.BitNet; None; None] /\
  (hybrid.for_layer 0 hybrid_file, hybrid.for_layer 3 hybrid_file) = (hybrid.Int8Stage1, hybrid.Int8Stage3).
Proof. vm_compute. done. Qed.

Definition steps : list (Z * nat) := [(9, 3%nat)].

(** A stage whose layers hold the keys and values of some earlier request. *)
Definition stale : option (@tensor _ lib * @tensor _ lib) := Some (MkTensor [1; 1; 2; 1]%nat [70; 71], MkTensor [1; 1; 2; 1]%nat [8; 9]).
Definition used : GgufModel := set_model (set_layers (set_kv_cache stale <$> layers (model g4)) (model g4)) g4.

Definition mask_of (t : nat) : @tensor _ lib := MkTensor [t; t] (mask_bits t 0).

Lemma cached_masks_ok (m : ModelWeights) ts :
  masks m = list_to_map ((fun t => (t, mask_of t)) <$> ts) -> masks_ok m.
Proof.
  intros E t k. rewrite E. clear E. induction ts as [|u ts IH]; [done|]. cbn. rewrite lookup_insert_Some.
  intros [[<- <-]|[_ H]]; [|by apply IH]. unfold mask_of. unfold checked. cbn [shape data].
  rewrite (proj2 (Nat.eqb_eq _ _)); [done|]. cbn. unfold mask_bits. rewrite (join_length _ u).
  - rewrite length_fmap, length_seq. lia.
  - apply Forall_fmap, Forall_forall. intros x _. cbn. by rewrite length_fmap, length_seq.
Qed.

Lemma stale_weights c (ls : list LayerWeights) : Forall2 same_weights (set_kv_cache c <$> ls) ls.
Proof. induction ls as [|l ls IH]; constructor; [apply same_weights_set|exact IH]. Qed.

Lemma used_similar : similar (model g4) (model used) (model g4) (model g4).
Proof.
  assert (masks_ok (model g4)) by (by apply (cached_masks_ok _ [2%nat])).
  split; [done| |split; [apply same_model_refl|done]..].
  split; [|done]. apply same_model_layers; [apply same_model_refl|apply stale_weights].
Qed.

(** Three processes, the first of them used before, on layers 0, 1-2 and 3. *)
Definition calls : list (list Z * nat) := ([5; 6; 1], 0%nat) :: ((fun s => ([s.1], s.2)) <$> steps).
Definition logits : list (@tensor _ lib) := Eval vm_compute in default [] (model_calls (model g4) calls).
Lemma calls_run : model_calls (model g4) calls = Some logits.
Proof. vm_refl. Qed.

Lemma pipeline_equals_model_witness :
  pipeline_calls 1 3 4 (used, g4, g4) calls =
    zip_with (fun l pos => Some (sampled_from g4 l pos)) logits (0%nat :: steps.*2).
Proof.
  apply (pipeline_equals_model (LW := exact_laws) g4 used g4 g4 1 3 [5; 6; 1] steps logits);
    [lia|cbn; lia|repeat split|exact used_similar|exact calls_run].
Defined.

(** The model with one more stop token. *)
Definition g5 : GgufModel := MkGgufModel (model g4) tt (temp g4) (max_tokens g4) (max_seq_len g4) (identity g4) [24].
Definition answer : GgufModel * list (list Z) * Outcome (list Z) :=
  Eval vm_compute in generate_streaming g5 (unicode.of_string "7?") 2.
Definition answer_text : list Z := Eval vm_compute in match answer.2 with Some (Ok t) => t | _ => [] end.

Lemma answer_runs : generate_streaming g5 (unicode.of_string "7?") 2 = (answer.1.1, answer.1.2, Some (Ok answer_text)).
Proof. vm_refl. Qed.

Lemma answer_bounded_and_clean_witness :
  (length answer.1.2 <= 2)%nat /\
  (answer_text = identity.fallback (identity g5) \/ names_no_vendor (identity g5) answer_text) /\
  (forall l, l ∈ layers (model answer.1.1) -> kv_cache l = None).
Proof. exact (answer_bounded_and_clean g5 (unicode.of_string "7?") 2 _ _ _ answer_runs). Defined.

(** *** The identity filter *)
Definition id0 : config.IdentityConfig := identity.from_config config.default_identity.
Definition txt : string -> list Z := unicode.of_string.

(** A name split over two tokens passes the filter of the streamed tokens. *)
Example split_name_is_streamed :
  mjoin ((fun t => identity.apply_origin_replacements id0 t (config.assistant_name id0)) <$> [txt "I am Deep"; txt "Seek"]) =
    txt "I am DeepSeek" /\
  identity.sanitize_response id0 (txt "I am DeepSeek") = txt "I am ClarkenAI Core".
Proof. split; vm_refl. Qed.

(** The term Meta is replaced inside other words. *)
Example metals_are_renamed :
  identity.sanitize_response id0 (txt "Gold and other metals rallied.") = txt "Gold and other clarkenai corels rallied.".
Proof. vm_refl. Qed.

(** A term in any other mixture of cases is not replaced but costs the whole answer. *)
Example mixed_case_costs_the_answer :
  identity.sanitize_response id0 (txt "Yields rose 3 bp. MeTal prices fell.") = identity.fallback id0.
Proof. vm_refl. Qed.

(** An empty term is skipped by the replacement, and found in every answer by the check. *)
Definition empty_term : config.IdentityConfig := config.MkIdentityConfig (txt "C") (txt "P") (txt "D") [] [[]].
Example empty_term_blocks_everything :
  identity.sanitize_response empty_term (txt "Yields rose.") = identity.fallback empty_term.
Proof. vm_refl. Qed.
End gguf_examples.
