(* ===== verification/Distributed.v ===== *)
(** * services/inference: requests over Aeron

    The wire records of protocol.rs, the single-stage server ([process_gguf_inference_streaming]
    and the frames a request is answered with) and the three-stage pipeline of aeron_server.rs:
    stage 1 admits requests and drives the decode loop, stages 2 and 3 run their layers on
    the activations they receive.  The pipeline is a step relation over the main loops, the
    threads they spawn, the channels between them and the streams between the processes. *)

From stdpp Require Import base numbers list gmap strings relations.
From Stdlib Require Import ZArith Lia.
From S2P Require Import Prelude Protocol Inference Quantize ExactTensors Qwen ServiceConfig Gguf.

(** ** Bytes of a text *)
Module utf8.
Definition cont (b : Z) : bool := (0x80 <=? b) && (b <=? 0xBF).

(** [String::from_utf8] *)
Fixpoint from_utf8 (l : list Z) : option (list Z) :=
  match l with
  | [] => Some []
  | b0 :: t0 =>
      if (0 <=? b0) && (b0 <? 0x80) then cons b0 <$> from_utf8 t0
      else match t0 with
      | [] => None
      | b1 :: t1 =>
          if (0xC2 <=? b0) && (b0 <=? 0xDF) && cont b1
          then cons ((b0 - 0xC0) * 64 + (b1 - 0x80)) <$> from_utf8 t1
          else match t1 with
          | [] => None
          | b2 :: t2 =>
              if (0xE0 <=? b0) && (b0 <=? 0xEF) && cont b1 && cont b2 &&
                 negb ((b0 =? 0xE0) && (b1 <? 0xA0)) && negb ((b0 =? 0xED) && (0x9F <? b1))
              then cons ((b0 - 0xE0) * 4096 + (b1 - 0x80) * 64 + (b2 - 0x80)) <$> from_utf8 t2
              else match t2 with
              | [] => None
              | b3 :: t3 =>
                  if (0xF0 <=? b0) && (b0 <=? 0xF4) && cont b1 && cont b2 && cont b3 &&
                     negb ((b0 =? 0xF0) && (b1 <? 0x90)) && negb ((b0 =? 0xF4) && (0x8F <? b1))
                  then cons ((b0 - 0xF0) * 262144 + (b1 - 0x80) * 4096 + (b2 - 0x80) * 64 + (b3 - 0x80)) <$> from_utf8 t3
                  else None
              end
          end
      end
  end.

(** [str::bytes] *)
Definition bytes_of (c : Z) : list Z :=
  if c <? 0x80 then [c]
  else if c <? 0x800 then [0xC0 + c / 64; 0x80 + c mod 64]
  else if c <? 0x10000 then [0xE0 + c / 4096; 0x80 + c / 64 mod 64; 0x80 + c mod 64]
  else [0xF0 + c / 262144; 0x80 + c / 4096 mod 64; 0x80 + c / 64 mod 64; 0x80 + c mod 64].
Definition bytes (l : list Z) : list Z := mjoin (bytes_of <$> l).
End utf8.

(** ** protocol.rs *)
Module wire.
Section wire.
Context `{F : F32}.

Definition INFERENCE_REQ_STREAM_ID : Z := 2001.
Definition INFERENCE_RSP_STREAM_ID : Z := 2002.
Definition PIPELINE_CLIENT_TO_STAGE1 : Z := 1001.
Definition PIPELINE_STAGE3_TO_CLIENT : Z := 1002.
Definition PIPELINE_STAGE3_TO_STAGE1 : Z := 1003.

Record InferenceRequest : Type := MkRequest {
  req_id : list Z;
  input_data : list Z;
  input_shape : list Z;
  model_version : list Z;
}.

Record InferenceResponse : Type := MkResponse {
  rsp_id : list Z;
  class_id : option Z;
  probabilities : list f32;
  raw_output : list f32;
  confidence : f32;
  latency_us : Z;
  error : list Z;
}.

Record ActivationTransfer : Type := MkTransfer {
  act_id : list Z;
  act_shape : list nat;
  act_data : list f32;
  act_position : nat;
  act_tokens : list Z;
}.

Record TokenResponse : Type := MkTokenResponse {
  tok_request_id : list Z;
  tok_id : Z;
  tok_text : list Z;
  tok_is_eos : bool;
  tok_position : nat;
}.

Context `{RQ : !protocol.Rmp InferenceRequest, RS : !protocol.Rmp InferenceResponse, RA : !protocol.Rmp ActivationTransfer,
  RT : !protocol.Rmp TokenResponse}.

Definition serialize_response (r : InferenceResponse) : Result (list Z) string := protocol.to_vec r.
Definition deserialize_request (b : list Z) : Result InferenceRequest string := protocol.from_slice b.
Definition serialize_activation (a : ActivationTransfer) : Result (list Z) string := protocol.to_vec a.
Definition deserialize_activation (b : list Z) : Result ActivationTransfer string := protocol.from_slice b.
Definition serialize_token_response (t : TokenResponse) : Result (list Z) string := protocol.to_vec t.
Definition deserialize_token_response (b : list Z) : Result TokenResponse string := protocol.from_slice b.
End wire.
End wire.

(** ** The single-stage server *)
Module single.
Import wire gguf.
Section single.
Context `{F : F32, QF : !QuantF32, CL : !Candle, TK : !Tokenizer, SP : !Sampler}.

(** Text as floats, a byte each. *)
Definition text_output (text : list Z) : list f32 := f_of_Z <$> utf8.bytes text.

Definition build_streaming_ack (id : list Z) : InferenceResponse := MkResponse id None [] [] (f_of_Z 0) 0 [].
Definition error_response (id : list Z) (e : string) : InferenceResponse :=
  MkResponse id None [] [] (f_of_Z 0) 0 (unicode.of_string e).

(** The override is the first dimension of the shape. *)
Definition max_tokens_override (req : InferenceRequest) : nat := Z.to_nat (default 0 (head (input_shape req))).

(** The model under its mutex; [None] is a poisoned mutex.  The result is [None] when the
    thread panics, which poisons the mutex.  The chunks are the calls of [on_chunk]. *)
Definition process_gguf_inference_streaming (m : option GgufModel) (req : InferenceRequest)
    : option GgufModel * list (list Z) * option InferenceResponse :=
  match utf8.from_utf8 (input_data req) with
  | None => (m, [], Some (error_response (req_id req) "Invalid UTF-8 prompt"))
  | Some prompt =>
      match m with
      | None => (m, [], Some (error_response (req_id req) "Failed to lock model mutex"))
      | Some g =>
          let '(g, chunks, o) := generate_streaming g prompt (max_tokens_override req) in
          match o with
          | None => (None, chunks, None)
          | Some (Err e) => (Some g, chunks, Some (error_response (req_id req) ("Text generation failed: " +:+ e)))
          | Some (Ok _) =>
              let generated_text := mjoin chunks in
              (Some g, chunks, Some (MkResponse (req_id req) None [] (text_output generated_text) (f_of_Z 1) 0 []))
          end
      end
  end.

(** The chunk handler of [run_single_stage]: no frame for an empty chunk. *)
Definition chunk_frame (id token_chunk : list Z) : option InferenceResponse :=
  match token_chunk with
  | [] => None
  | _ => Some (MkResponse id None [] (text_output token_chunk) (f_of_Z 0) 0 [])
  end.

Definition set_latency (l : Z) (r : InferenceResponse) : InferenceResponse :=
  MkResponse (rsp_id r) (class_id r) (probabilities r) (raw_output r) (confidence r) l (error r).

(** What the main loop and the worker thread of a request send, besides the heartbeats:
    the acknowledgement, a frame per chunk, and the final response unless the thread
    panicked.  The flag says whether the heartbeat thread is stopped. *)
Definition request_frames (m : option GgufModel) (req : InferenceRequest) (elapsed : Z)
    : option GgufModel * list InferenceResponse * bool :=
  let '(m, chunks, o) := process_gguf_inference_streaming m req in
  let streamed := build_streaming_ack (req_id req) :: omap (chunk_frame (req_id req)) chunks in
  match o with
  | Some response => (m, streamed ++ [set_latency elapsed response], true)
  | None => (m, streamed, false)
  end.
End single.
End single.

(** ** What a single-stage request is answered with *)
Section single_stage.
Import wire single gguf.
Context `{F : F32, QF : !QuantF32, CL : !Candle, TK : !Tokenizer, SP : !Sampler}.

Lemma text_output_app a b : text_output (a ++ b) = text_output a ++ text_output b.
Proof. unfold text_output, utf8.bytes. by rewrite !fmap_app, join_app, fmap_app. Qed.

Lemma chunk_frames_text id chunks :
  mjoin (raw_output <$> omap (chunk_frame id) chunks) = text_output (mjoin chunks).
Proof.
  induction chunks as [|c chunks IH]; [done|]. change (mjoin (c :: chunks)) with (c ++ mjoin chunks).
  rewrite text_output_app, <- IH. by destruct c.
Qed.

(** a request of the single-stage server is acknowledged at once, and then gets one frame per
    non-empty chunk and one final response that closes its heartbeat.  The final response
    either carries an error or exactly the bytes of the chunk frames, in order.  Only a panic
    in the model withholds it, and then the mutex is poisoned and the heartbeat goes on. *)
Theorem single_stage_streams_final (m : option GgufModel) (req : InferenceRequest) (elapsed : Z) :
  let '(m', frames, stopped) := request_frames m req elapsed in
  exists chunks,
    (forall c, c ∈ chunks -> rsp_id c = req_id req /\ error c = [] /\ raw_output c <> []) /\
    if stopped : bool
    then exists final, frames = build_streaming_ack (req_id req) :: chunks ++ [final] /\
           rsp_id final = req_id req /\ latency_us final = elapsed /\
           (error final <> [] \/ raw_output final = mjoin (raw_output <$> chunks))
    else m' = None /\ frames = build_streaming_ack (req_id req) :: chunks.
Proof.
  unfold request_frames. destruct (process_gguf_inference_streaming m req) as [[m' chunks] o] eqn:E.
  assert (forall c, c ∈ omap (chunk_frame (req_id req)) chunks -> rsp_id c = req_id req /\ error c = [] /\ raw_output c <> []) as Hc.
  { intros c (t & _ & Ht)%list_elem_of_omap. destruct t as [|x t]; [done|]. injection Ht as <-. split_and!; [done|done|].
    cbn. unfold text_output, utf8.bytes. cbn. unfold utf8.bytes_of. by repeat case_match. }
  unfold process_gguf_inference_streaming in E. destruct (utf8.from_utf8 _) as [prompt|].
  2: { injection E as <- <- <-. exists []. split; [done|]. eexists. split_and!; [reflexivity..|by left]. }
  destruct m as [g|].
  2: { injection E as <- <- <-. exists []. split; [done|]. eexists. split_and!; [reflexivity..|by left]. }
  destruct (generate_streaming g prompt _) as [[g' cs] r]. destruct r as [[text|e]|]; injection E as <- <- <-.
  all: exists (omap (chunk_frame (req_id req)) cs); split; [exact Hc|].
  - eexists. split_and!; [reflexivity..|]. right. cbn. by rewrite chunk_frames_text.
  - eexists. split_and!; [reflexivity..|]. by left.
  - by split.
Qed.
End single_stage.

(** ** publish_with_retry *)
Module publish.
Definition OFFER_SPIN_RETRIES : nat := 64.

(** [offers] are the outcomes of the offers, in order; the count of retries left. *)
Fixpoint publish_loop (retries_left : nat) (offers : list bool) : bool :=
  match offers with
  | [] => false
  | true :: _ => true
  | false :: offers => match retries_left with O => false | S n => publish_loop n offers end
  end.
Definition publish_with_retry (offers : list bool) : bool := publish_loop OFFER_SPIN_RETRIES offers.

(** *** idle_backoff *)
Definition IDLE_SPIN_THRESHOLD : Z := 5000.
Definition IDLE_YIELD_THRESHOLD : Z := 50000.

Inductive Wait := Spin | Yield | Sleep50us.

(** The new count and what the thread does; a poll that found something waits not at all. *)
Definition idle_backoff (idle_count : Z) (is_idle : bool) : Z * option Wait :=
  if is_idle then
    let idle_count := idle_count + 1 in
    (idle_count,
     Some (if IDLE_YIELD_THRESHOLD <? idle_count then Sleep50us
           else if IDLE_SPIN_THRESHOLD <? idle_count then Yield
           else Spin))
  else (0, None).

(** *** run_with_channel: the choice of the handler; [None] is a panic. *)
Inductive Handler := SingleStage | Stage (n : nat).
Definition handler_for (distributed : option config.DistributedConfig) : option Handler :=
  match distributed with
  | Some d =>
      if config.enabled d
      then match config.node_stage d with
           | 1%nat => Some (Stage 1) | 2%nat => Some (Stage 2) | 3%nat => Some (Stage 3)
           | _ => None
           end
      else Some SingleStage
  | None => Some SingleStage
  end.

(** A message is published exactly if one of its first 65 offers is accepted. *)
Lemma publish_retries_spec offers : publish_with_retry offers = true <-> true ∈ take 65 offers.
Proof.
  unfold publish_with_retry, OFFER_SPIN_RETRIES. change 65%nat with (S 64). generalize 64%nat. intros n. revert offers.
  induction n as [|n IH]; intros [|[] offers]; cbn; try (split; [done|intros H; by inversion H]); try (split; [by left|done]).
  - split; [done|]. destruct offers; intros [?|H]%elem_of_cons; done || by inversion H.
  - rewrite IH. cbn. rewrite elem_of_cons. split; [by right|]. by intros [|].
Qed.
End publish.

(** ** The model behind a stage *)

(** What a stage asks of its model: stage 1 runs a prompt or a token through its layers, the
    others continue an activation.  A model is mutated by every call, failed ones too. *)
Class StageModel `{F : F32} (M : Type) := {
  sm_prefill : M -> list Z -> M * Outcome gguf.ActivationState;
  sm_decode : M -> Z -> nat -> M * Outcome gguf.ActivationState;
  sm_continue : M -> gguf.ActivationState -> M * Outcome (gguf.ActivationState + gguf.SampledToken);
}.

(** A GGUF model with the layers its configuration assigns to the stage. *)
Definition gguf_stage `{F : F32, QF : !QuantF32, CL : !Candle, TK : !Tokenizer, SP : !Sampler}
    (layer_start layer_end : nat) : StageModel gguf.GgufModel := {|
  sm_prefill g prompt := gguf.generate_from_tokens_layer_range g prompt layer_start layer_end;
  sm_decode g token position := gguf.decode_single_token g token position layer_start layer_end;
  sm_continue g a := gguf.generate_from_activation g a layer_start layer_end;
|}.

(** ** run_stage1_pipeline *)
Module stage1.
Import wire gguf.
Section stage1.
Context `{F : F32, QF : !QuantF32} {M : Type} `{SM : !StageModel M}.
Context `{RQ : !protocol.Rmp InferenceRequest, RS : !protocol.Rmp InferenceResponse, RA : !protocol.Rmp ActivationTransfer,
  RT : !protocol.Rmp TokenResponse}.

(** [start_time] only serves the latency, which is an input of the step that computes it. *)
Record DecodeState : Type := MkDecodeState {
  request_id : list Z;
  tokens : list Z;
  generated_text : list Z;
  current_position : nat;
  prompt_length : nat;
  max_tokens : nat;
}.

Definition initial_state (id : list Z) : DecodeState := MkDecodeState id [] [] 0 0 32.

(** A spawned thread, by what it does next. *)
Inductive Thread :=
  | Prefill (id prompt : list Z)
  | Prefilled (id : list Z) (a : ActivationState)
  | Decode (id : list Z)
  | DecodeToken (id : list Z) (last_token : Z) (position : nat)
  | Forward (a : ActivationTransfer)
  | Cleanup (id : list Z).

(** Where the main loop is: between two messages, or about to remove a completed request. *)
Inductive Main := Polling | Completing (id : list Z).

(** [model] is [None] once a thread panicked with the mutex locked. *)
Record State : Type := MkState {
  main : Main;
  model : option M;
  decode_states : gmap (list Z) DecodeState;
  threads : list Thread;
  activation_tx : list (list Z);
  response_tx : list (list Z);
}.

Definition set_states (f : gmap (list Z) DecodeState -> gmap (list Z) DecodeState) (s : State) : State :=
  MkState (main s) (model s) (f (decode_states s)) (threads s) (activation_tx s) (response_tx s).
Definition set_model (m : option M) (s : State) : State :=
  MkState (main s) m (decode_states s) (threads s) (activation_tx s) (response_tx s).
Definition spawn (t : Thread) (s : State) : State :=
  MkState (main s) (model s) (decode_states s) (threads s ++ [t]) (activation_tx s) (response_tx s).
Definition set_main (m : Main) (s : State) : State :=
  MkState m (model s) (decode_states s) (threads s) (activation_tx s) (response_tx s).
Definition send_activation (b : list Z) (s : State) : State :=
  MkState (main s) (model s) (decode_states s) (threads s) (activation_tx s ++ [b]) (response_tx s).
Definition send_response (b : list Z) (s : State) : State :=
  MkState (main s) (model s) (decode_states s) (threads s) (activation_tx s) (response_tx s ++ [b]).
Definition set_threads (ts : list Thread) (s : State) : State :=
  MkState (main s) (model s) (decode_states s) ts (activation_tx s) (response_tx s).

Definition init (m : M) : State := MkState Polling (Some m) ∅ [] [] [].

Definition transfer (id : list Z) (a : ActivationState) : ActivationTransfer :=
  MkTransfer id (shape a) (data a) (position a) (gguf.tokens a).

(** A client fragment: the state of the request is created and its prefill spawned. *)
Definition on_request (buffer : list Z) (s : State) : State :=
  match deserialize_request buffer with
  | Err _ => s
  | Ok req =>
      match utf8.from_utf8 (input_data req) with
      | None => s
      | Some prompt => spawn (Prefill (req_id req) prompt) (set_states <[req_id req := initial_state (req_id req)]> s)
      end
  end.

(** One step of a thread: a critical section, or a send.  The result is the thread after it,
    if it goes on. *)
Definition run_thread (t : Thread) (s : State) : State * option Thread :=
  let with_model {A} (f : M -> M * Outcome A) (id : list Z) (k : A -> Thread) :=
    match model s with
    | None => (s, None)
    | Some m =>
        match f m with
        | (m, Some (Ok a)) => (set_model (Some m) s, Some (k a))
        | (m, Some (Err _)) => (set_model (Some m) s, Some (Cleanup id))
        | (_, None) => (set_model None s, None)
        end
    end in
  match t with
  | Prefill id prompt => with_model (fun m => sm_prefill m prompt) id (Prefilled id)
  | Prefilled id a =>
      (set_states (alter (fun st => MkDecodeState (request_id st) (gguf.tokens a) (generated_text st) (position a)
                                      (length (gguf.tokens a)) (max_tokens st)) id) s,
       Some (Forward (transfer id a)))
  | Decode id =>
      match decode_states s !! id with
      | None => (s, None)
      | Some st => (s, Some (DecodeToken id (default 0 (last (tokens st))) (current_position st)))
      end
  | DecodeToken id token position =>
      with_model (fun m => sm_decode m token position) id (fun a => Forward (transfer id a))
  | Forward a =>
      match serialize_activation a with
      | Ok b => (send_activation b s, None)
      | Err _ => (s, None)
      end
  | Cleanup id => (set_states (delete id) s, None)
  end.

(** The token appended to the state. *)
Definition push_token (t : TokenResponse) (st : DecodeState) : DecodeState :=
  MkDecodeState (request_id st) (tokens st ++ [tok_id t]) (generated_text st ++ tok_text t)
    (length (tokens st ++ [tok_id t])) (prompt_length st) (max_tokens st).

Definition tokens_generated (st : DecodeState) : nat := (length (tokens st) - prompt_length st)%nat.

Definition should_terminate (t : TokenResponse) (st : DecodeState) : bool :=
  tok_is_eos t || (max_tokens st <=? tokens_generated st)%nat.

(** A token of the feedback stream, up to the removal of a completed request.  For a request
    that is not known a thread is spawned all the same. *)
Definition on_token (latency : Z) (buffer : list Z) (s : State) : State :=
  match deserialize_token_response buffer with
  | Err _ => s
  | Ok t =>
      let id := tok_request_id t in
      match decode_states s !! id with
      | None => spawn (Decode id) s
      | Some st =>
          let st := push_token t st in
          let s := set_states <[id := st]> s in
          if should_terminate t st
          then
            let s := match serialize_response (MkResponse id None [] (single.text_output (generated_text st)) (f_of_Z 1) latency [])
                     with Ok b => send_response b s | Err _ => s end in
            set_main (Completing id) s
          else spawn (Decode id) s
      end
  end.

Definition complete (id : list Z) (s : State) : State := set_main Polling (set_states (delete id) s).
End stage1.
End stage1.

(** ** run_stage2_pipeline and run_stage3_pipeline *)
Module stage.
Import wire gguf.
Section stage.
Context `{F : F32} {M : Type} `{SM : !StageModel M}.
Context `{RA : !protocol.Rmp ActivationTransfer, RT : !protocol.Rmp TokenResponse}.

Record State : Type := MkState {
  model : option M;
  pending_activation : list Z;
  threads : list ActivationTransfer;
  out_tx : list (list Z);
}.

Definition init (m : M) : State := MkState (Some m) [] [] [].

(** A poll that returned fragments: they are appended, and when the bytes decode as an
    activation a thread takes it and everything pending is dropped. *)
Definition on_poll (fragments : list (list Z)) (s : State) : State :=
  match fragments with
  | [] => s
  | _ =>
      let pending := pending_activation s ++ mjoin fragments in
      match deserialize_activation pending with
      | Err _ => MkState (model s) pending (threads s) (out_tx s)
      | Ok act_in => MkState (model s) [] (threads s ++ [act_in]) (out_tx s)
      end
  end.

(** What stage 2 makes of its layers' output: the activation for stage 3; a token is an
    error that is logged. *)
Definition forward_message (id : list Z) (r : ActivationState + SampledToken) : Result (list Z) string :=
  match r with
  | inl a => serialize_activation (stage1.transfer id a)
  | inr _ => Err "Unexpected final output"
  end.

(** What stage 3 makes of it: the sampled token for stage 1. *)
Definition token_message (id : list Z) (r : ActivationState + SampledToken) : Result (list Z) string :=
  match r with
  | inr t => serialize_token_response (MkTokenResponse id (token_id t) (token_text t) (is_eos t) (token_position t))
  | inl _ => Err "Unexpected intermediate output"
  end.

(** The thread of an activation; [middle] is stage 2, which forwards activations, stage 3
    sends tokens back.  The mutex is poisoned by a panic. *)
Definition run_thread (middle : bool) (act_in : ActivationTransfer) (s : State) : State :=
  match model s with
  | None => s
  | Some m =>
      match sm_continue m (MkActivation (act_shape act_in) (act_data act_in) (act_position act_in) (act_tokens act_in)) with
      | (_, None) => MkState None (pending_activation s) (threads s) (out_tx s)
      | (m, Some (Err _)) => MkState (Some m) (pending_activation s) (threads s) (out_tx s)
      | (m, Some (Ok r)) =>
          let message := (if middle then forward_message else token_message) (act_id act_in) r in
          MkState (Some m) (pending_activation s) (threads s)
            (match message with Ok b => out_tx s ++ [b] | Err _ => out_tx s end)
      end
  end.

Definition set_threads (ts : list ActivationTransfer) (s : State) : State :=
  MkState (model s) (pending_activation s) ts (out_tx s).
Definition set_out (o : list (list Z)) (s : State) : State :=
  MkState (model s) (pending_activation s) (threads s) o.
End stage.
End stage.

(** ** The three processes and the streams *)
Module pipeline.
Import wire.
Section pipeline.
Context `{F : F32, QF : !QuantF32} {M : Type}.
Context (SM1 SM2 SM3 : StageModel M).
Context `{RQ : !protocol.Rmp InferenceRequest, RS : !protocol.Rmp InferenceResponse, RA : !protocol.Rmp ActivationTransfer,
  RT : !protocol.Rmp TokenResponse}.

(** The streams hold fragments.  [received] are the client's messages that stage 1
    took from its stream, [answers] the messages published to the client. *)
Record State : Type := MkState {
  s1 : stage1.State (M := M);
  s2 : stage.State (M := M);
  s3 : stage.State (M := M);
  client_to_stage1 : list (list Z);
  stage1_to_stage2 : list (list Z);
  stage2_to_stage3 : list (list Z);
  stage3_to_stage1 : list (list Z);
  received : list (list Z);
  answers : list (list Z);
}.

Definition init (m1 m2 m3 : M) : State :=
  MkState (stage1.init m1) (stage.init m2) (stage.init m3) [] [] [] [] [] [].

Definition set_s1 (x : stage1.State) (s : State) : State :=
  MkState x (s2 s) (s3 s) (client_to_stage1 s) (stage1_to_stage2 s) (stage2_to_stage3 s) (stage3_to_stage1 s)
    (received s) (answers s).

(** What a publication leaves on a stream: the message in one or more fragments, or nothing
    when every offer was refused. *)
Inductive published (message : list Z) : list (list Z) -> Prop :=
  | Published (offers : list bool) (fragments : list (list Z)) :
      publish.publish_with_retry offers = true -> fragments <> [] -> mjoin fragments = message ->
      published message fragments
  | Dropped (offers : list bool) :
      publish.publish_with_retry offers = false -> published message [].

(** One message of a main loop, one critical section of a thread, or one publication. *)
Inductive step : State -> State -> Prop :=
  | Submit message s :
      step s (MkState (s1 s) (s2 s) (s3 s) (client_to_stage1 s ++ [message]) (stage1_to_stage2 s) (stage2_to_stage3 s)
                (stage3_to_stage1 s) (received s) (answers s))
  | Admit b bs x y z l12 l23 l31 n o :
      stage1.main x = stage1.Polling ->
      step (MkState x y z (b :: bs) l12 l23 l31 n o) (MkState (stage1.on_request b x) y z bs l12 l23 l31 (n ++ [b]) o)
  | Feedback latency b bs x y z lc l12 l23 n o :
      stage1.main x = stage1.Polling ->
      step (MkState x y z lc l12 l23 (b :: bs) n o) (MkState (stage1.on_token latency b x) y z lc l12 l23 bs n o)
  | Complete id s :
      stage1.main (s1 s) = stage1.Completing id -> step s (set_s1 (stage1.complete id (s1 s)) s)
  | Thread1 t ts1 ts2 s :
      stage1.threads (s1 s) = ts1 ++ t :: ts2 ->
      step s (set_s1 (let '(x, t') := stage1.run_thread (SM := SM1) t (stage1.set_threads (ts1 ++ ts2) (s1 s)) in
                      match t' with Some t' => stage1.spawn t' x | None => x end) s)
  | Send12 b bs fs mn m ds ts rt y z lc l12 l23 l31 n o :
      published b fs ->
      step (MkState (stage1.MkState mn m ds ts (b :: bs) rt) y z lc l12 l23 l31 n o)
           (MkState (stage1.MkState mn m ds ts bs rt) y z lc (l12 ++ fs) l23 l31 n o)
  | Answer b bs fs mn m ds ts at_ y z lc l12 l23 l31 n o :
      published b fs ->
      step (MkState (stage1.MkState mn m ds ts at_ (b :: bs)) y z lc l12 l23 l31 n o)
           (MkState (stage1.MkState mn m ds ts at_ bs) y z lc l12 l23 l31 n
              (o ++ match fs with [] => [] | _ => [mjoin fs] end))
  | Poll2 fs x y z lc l12 l23 l31 n o :
      step (MkState x y z lc (fs ++ l12) l23 l31 n o) (MkState x (stage.on_poll fs y) z lc l12 l23 l31 n o)
  | Thread2 t ts1 ts2 x y z lc l12 l23 l31 n o :
      stage.threads y = ts1 ++ t :: ts2 ->
      step (MkState x y z lc l12 l23 l31 n o)
           (MkState x (stage.run_thread (SM := SM2) true t (stage.set_threads (ts1 ++ ts2) y)) z lc l12 l23 l31 n o)
  | Send23 b bs fs x y z lc l12 l23 l31 n o :
      stage.out_tx y = b :: bs -> published b fs ->
      step (MkState x y z lc l12 l23 l31 n o) (MkState x (stage.set_out bs y) z lc l12 (l23 ++ fs) l31 n o)
  | Poll3 fs x y z lc l12 l23 l31 n o :
      step (MkState x y z lc l12 (fs ++ l23) l31 n o) (MkState x y (stage.on_poll fs z) lc l12 l23 l31 n o)
  | Thread3 t ts1 ts2 x y z lc l12 l23 l31 n o :
      stage.threads z = ts1 ++ t :: ts2 ->
      step (MkState x y z lc l12 l23 l31 n o)
           (MkState x y (stage.run_thread (SM := SM3) false t (stage.set_threads (ts1 ++ ts2) z)) lc l12 l23 l31 n o)
  | Send31 b bs fs x y z lc l12 l23 l31 n o :
      stage.out_tx z = b :: bs -> published b fs ->
      step (MkState x y z lc l12 l23 l31 n o) (MkState x y (stage.set_out bs z) lc l12 l23 (l31 ++ fs) n o).
End pipeline.
End pipeline.

(** ** Every request is answered at most once and decodes at most 32 tokens *)
Section bounds.
Import wire.
Context `{F : F32, QF : !QuantF32} {M : Type} (SM1 SM2 SM3 : StageModel M).
Context `{RQ : !protocol.Rmp InferenceRequest, RS : !protocol.Rmp InferenceResponse, RA : !protocol.Rmp ActivationTransfer,
  RT : !protocol.Rmp TokenResponse}.
Context `{LS : !protocol.RmpLaws InferenceResponse}.
Implicit Types (x : stage1.State (M := M)) (s : pipeline.State (M := M)).

(** The requests being decoded: a completed one no longer counts, though it is removed later. *)
Definition live x : gmap (list Z) stage1.DecodeState :=
  match stage1.main x with
  | stage1.Polling => stage1.decode_states x
  | stage1.Completing id => delete id (stage1.decode_states x)
  end.

Definition decoding_ok (strict : Prop) (st : stage1.DecodeState) : Prop :=
  stage1.max_tokens st = 32%nat /\ (stage1.prompt_length st <= length (stage1.tokens st))%nat /\
  (stage1.tokens_generated st <= 32)%nat /\ (strict -> (stage1.tokens_generated st < 32)%nat).

(** The request of a client's message, and the request a response names. *)
Definition request_of (b : list Z) : option (list Z) :=
  match deserialize_request b with Ok req => Some (req_id req) | Err _ => None end.
Definition response_of (b : list Z) : option (list Z) :=
  match protocol.from_slice (A := InferenceResponse) b with Ok rsp => Some (rsp_id rsp) | Err _ => None end.

(** How many of the messages are about the request [id]. *)
Definition about (f : list Z -> option (list Z)) (id : list Z) (l : list (list Z)) : nat :=
  length (filter (fun b => f b = Some id) l).

#[local] Arguments about : simpl never.

Lemma about_app f id l k : about f id (l ++ k) = (about f id l + about f id k)%nat.
Proof. unfold about. by rewrite filter_app, length_app. Qed.

Lemma about_one f id b : about f id [b] = if bool_decide (f b = Some id) then 1%nat else 0%nat.
Proof. unfold about. rewrite filter_cons. by case_bool_decide; case_decide. Qed.

(** The request whose responses are counted. *)
Context (j : list Z).

Definition alive x : nat := if bool_decide (j ∈ dom (live x)) then 1 else 0.

Record stage1_inv (budget : nat) x : Prop := {
  inv_answers : (about response_of j (stage1.response_tx x) + alive x <= budget)%nat;
  inv_responses : Forall (fun b => is_Some (response_of b)) (stage1.response_tx x);
  inv_decoding : forall id st, stage1.decode_states x !! id = Some st ->
    decoding_ok (stage1.main x <> stage1.Completing id) st;
}.

Lemma alive_le x x' : dom (live x') ⊆ dom (live x) -> (alive x' <= alive x)%nat.
Proof. intros H. unfold alive. repeat case_bool_decide; try lia. exfalso. set_solver. Qed.

Lemma live_mono x x' :
  stage1.main x' = stage1.main x -> dom (stage1.decode_states x') ⊆ dom (stage1.decode_states x) ->
  (alive x' <= alive x)%nat.
Proof. intros Hm Hd. apply alive_le. unfold live. rewrite Hm. destruct (stage1.main x); [done|]. set_solver. Qed.

(** The states of a stage that change nothing the invariant is about. *)
Lemma stage1_inv_same budget x x' :
  stage1.main x' = stage1.main x -> stage1.decode_states x' = stage1.decode_states x ->
  stage1.response_tx x' = stage1.response_tx x -> stage1_inv budget x -> stage1_inv budget x'.
Proof.
  intros Hm Hd Hr [Ha Hw Hi]. split; [|by rewrite Hr|intros id st; rewrite Hd, Hm; apply Hi]. rewrite Hr.
  pose proof (live_mono x x' Hm ltac:(by rewrite Hd)). lia.
Qed.

Lemma spawn_inv budget t x : stage1_inv budget x -> stage1_inv budget (stage1.spawn t x).
Proof. by apply stage1_inv_same. Qed.

Lemma set_threads_inv budget ts x : stage1_inv budget x -> stage1_inv budget (stage1.set_threads ts x).
Proof. by apply stage1_inv_same. Qed.

Lemma on_request_inv budget b x :
  stage1.main x = stage1.Polling -> stage1_inv budget x -> stage1_inv (budget + about request_of j [b]) (stage1.on_request b x).
Proof.
  intros Hm H. assert (stage1_inv (budget + about request_of j [b]) x) as Hs by (destruct H; split; [lia|done..]).
  rewrite about_one in *. unfold stage1.on_request, request_of in *. destruct (deserialize_request b) as [req|]; [|done].
  destruct (utf8.from_utf8 _) as [prompt|]; [|done]. apply spawn_inv. destruct H as [Ha Hw Hi]. split; [|exact Hw|].
  - unfold alive, live in *. cbn [stage1.main stage1.spawn stage1.set_states stage1.decode_states stage1.response_tx]. rewrite Hm in *.
    cbn match in *. rewrite dom_insert_L. repeat case_bool_decide; simplify_eq; try lia.
    exfalso. assert (j <> req_id req) by congruence. set_solver.
  - intros id st. cbn. rewrite lookup_insert_Some. intros [[<- <-]|[_ Hl]]; [|by apply Hi].
    unfold decoding_ok, stage1.tokens_generated. cbn. split_and!; lia.
Qed.

Lemma cleanup_inv budget id x : stage1_inv budget x -> stage1_inv budget (stage1.set_states (delete id) x).
Proof.
  intros [Ha Hw Hi]. split; [|exact Hw|].
  - pose proof (live_mono x (stage1.set_states (delete id) x) eq_refl ltac:(cbn; set_solver)).
    cbn [stage1.response_tx stage1.set_states]. lia.
  - intros i st. cbn. rewrite lookup_delete_Some. intros [_ Hl]. by apply Hi.
Qed.

Lemma prefilled_inv budget id f x :
  (forall st, stage1.max_tokens (f st) = stage1.max_tokens st /\
     stage1.prompt_length (f st) = length (stage1.tokens (f st))) ->
  stage1_inv budget x -> stage1_inv budget (stage1.set_states (alter f id) x).
Proof.
  intros Hf [Ha Hw Hi]. split; [|exact Hw|].
  - pose proof (live_mono x (stage1.set_states (alter f id) x) eq_refl ltac:(cbn; by rewrite dom_alter)).
    cbn [stage1.response_tx stage1.set_states]. lia.
  - intros i st. cbn. rewrite lookup_alter_Some. intros [(-> & st' & Hl & ->)|[_ Hl]]; [|by apply Hi].
    destruct (Hf st') as [H1 H2]. destruct (Hi _ _ Hl) as (H3 & _). unfold decoding_ok, stage1.tokens_generated.
    rewrite H1, H2. split_and!; lia.
Qed.

Lemma run_thread_inv budget t x :
  stage1_inv budget x -> stage1_inv budget (stage1.run_thread (SM := SM1) t x).1.
Proof.
  intros H. destruct t as [id prompt|id a|id|id tk p|a|id]; cbn [stage1.run_thread].
  - destruct (stage1.model x) as [m|]; [|done]. destruct (sm_prefill m prompt) as [m' [[a|]|]]; by apply (stage1_inv_same _ x).
  - cbn. by apply prefilled_inv.
  - by destruct (_ !! id).
  - destruct (stage1.model x) as [m|]; [|done]. destruct (sm_decode m tk p) as [m' [[a|]|]]; by apply (stage1_inv_same _ x).
  - destruct (serialize_activation a); by apply (stage1_inv_same _ x).
  - by apply cleanup_inv.
Qed.

Lemma push_token_ok t st :
  decoding_ok True st -> decoding_ok (stage1.should_terminate t (stage1.push_token t st) = false) (stage1.push_token t st).
Proof.
  intros (H1 & H2 & H3 & H4). specialize (H4 I). unfold decoding_ok, stage1.should_terminate, stage1.tokens_generated in *.
  cbn. rewrite length_app. cbn. rewrite H1. split_and!; try lia. rewrite orb_false_iff, Nat.leb_gt. intros [_ H]. lia.
Qed.

Lemma on_token_inv budget latency b x :
  stage1.main x = stage1.Polling -> stage1_inv budget x -> stage1_inv budget (stage1.on_token latency b x).
Proof using LS.
  intros Hm H. unfold stage1.on_token. destruct (deserialize_token_response b) as [t|]; [|done].
  destruct (_ !! _) as [st|] eqn:El; [|by apply spawn_inv]. destruct H as [Ha Hw Hi].
  set (id := tok_request_id t) in *.
  assert (decoding_ok True st) as Hst by (destruct (Hi _ _ El) as (? & ? & ? & H4); split_and!; try done; intros _; apply H4; by rewrite Hm).
  apply (push_token_ok t) in Hst. set (st' := stage1.push_token t st) in *.
  assert (id ∈ dom (stage1.decode_states x)) as Hid by (apply elem_of_dom; by exists st).
  unfold alive, live in Ha. rewrite Hm in Ha.
  destruct (stage1.should_terminate t st').
  - set (y := stage1.set_states _ x). set (rsp := MkResponse id _ _ _ _ _ _).
    set (z := match serialize_response rsp with Ok _ => _ | Err _ => _ end).
    assert (stage1.decode_states z = <[id := st']> (stage1.decode_states x)) as Hd by (subst z y; by destruct (serialize_response _)).
    split.
    + assert (about response_of j (stage1.response_tx z) <= about response_of j (stage1.response_tx x) + if bool_decide (id = j) then 1 else 0)%nat as Hr.
      { subst z y. unfold serialize_response. destruct (protocol.to_vec rsp) as [bs|] eqn:E;
          cbn [stage1.response_tx stage1.send_response stage1.set_states]; [|lia].
        assert (response_of bs = Some id) as Hrs by (unfold response_of; by rewrite (protocol.from_to_vec _ _ E)).
        rewrite about_app, about_one, Hrs. repeat case_bool_decide; simplify_eq; lia. }
      replace (stage1.response_tx (stage1.set_main _ z)) with (stage1.response_tx z) by done.
      assert (alive (stage1.set_main (stage1.Completing id) z) = if bool_decide (j ∈ dom (stage1.decode_states x) ∖ {[id]}) then 1%nat else 0%nat) as ->.
      { unfold alive, live. cbn. by rewrite Hd, delete_insert_eq, dom_delete_L. }
      revert Hr Ha. repeat case_bool_decide; intros; subst; try lia; exfalso; set_solver.
    + cbn. subst z y. unfold serialize_response. destruct (protocol.to_vec rsp) as [bs|] eqn:E; [|exact Hw]. cbn. apply Forall_app. split; [exact Hw|].
      apply Forall_singleton. unfold response_of. rewrite (protocol.from_to_vec _ _ E). by eexists.
    + intros i s'. cbn. rewrite Hd, lookup_insert_Some. intros [[<- <-]|[Hne Hl]].
      * destruct Hst as (? & ? & ? & _). split_and!; try done.
      * destruct (Hi _ _ Hl) as (? & ? & ? & H4). split_and!; try done. intros _. apply H4. by rewrite Hm.
  - apply spawn_inv. split; [|exact Hw|].
    + unfold alive, live. cbn. rewrite Hm. by replace (dom (<[id := st']> (stage1.decode_states x))) with (dom (stage1.decode_states x)) by (rewrite dom_insert_L; set_solver).
    + intros i s'. cbn. rewrite lookup_insert_Some. intros [[<- <-]|[_ Hl]]; [|by apply Hi].
      destruct Hst as (? & ? & ? & H4). split_and!; try done. intros _. by apply H4.
Qed.

Lemma complete_inv budget id x :
  stage1.main x = stage1.Completing id -> stage1_inv budget x -> stage1_inv budget (stage1.complete id x).
Proof.
  intros Hm [Ha Hw Hi]. unfold alive, live in Ha. rewrite Hm in Ha. split; [exact Ha|exact Hw|].
  intros i st. cbn. rewrite lookup_delete_Some. intros [Hne Hl]. destruct (Hi _ _ Hl) as (? & ? & ? & H4).
  split_and!; try done. intros _. apply H4. rewrite Hm. congruence.
Qed.

Definition system_inv s : Prop :=
  exists budget,
    (budget + about response_of j (pipeline.answers s) <= about request_of j (pipeline.received s))%nat /\
    Forall (fun b => is_Some (response_of b)) (pipeline.answers s) /\ stage1_inv budget (pipeline.s1 s).

Lemma pipeline_step_inv s s' : pipeline.step SM1 SM2 SM3 s s' -> system_inv s -> system_inv s'.
Proof using LS.
  intros Hs (k & Hk & Hf & H). unfold system_inv. destruct Hs; cbn [pipeline.s1 pipeline.answers pipeline.received pipeline.set_s1] in *;
    try (by exists k).
  - exists (k + about request_of j [b])%nat. rewrite about_app. split; [lia|]. split; [done|by apply on_request_inv].
  - exists k. split; [done|]. split; [done|by apply on_token_inv].
  - exists k. split; [done|]. split; [done|by apply complete_inv].
  - exists k. split; [done|]. split; [done|]. pose proof (run_thread_inv k t _ (set_threads_inv _ (ts1 ++ ts2) _ H)) as Hr.
    destruct (stage1.run_thread _ _) as [y [t'|]]; [by apply spawn_inv|done].
  - exists k. split; [done|]. split; [done|]. by eapply stage1_inv_same; [..|exact H].
  - destruct H as [Ha Hw Hi]. unfold alive, live in *. cbn in Ha, Hw, Hi. apply Forall_cons in Hw as [Hb Hw].
    change (b :: bs) with ([b] ++ bs) in Ha. rewrite about_app in Ha. destruct H0 as [offers fragments _ Hne Hm|].
    + exists (k - about response_of j [b])%nat. destruct fragments as [|f fs]; [done|]. rewrite Hm, about_app. split; [lia|].
      split; [by apply Forall_app; split; [|apply Forall_singleton]|]. split; [unfold alive, live; cbn in *; lia|done|exact Hi].
    + exists k. rewrite app_nil_r. split; [done|]. split; [done|]. split; [unfold alive, live; cbn in *; lia|done|exact Hi].
Qed.

Lemma pipeline_reachable (m1 m2 m3 : M) s : rtc (pipeline.step SM1 SM2 SM3) (pipeline.init m1 m2 m3) s -> system_inv s.
Proof using LS.
  revert s. apply rtc_ind_r; [|intros s s' _ Hst; by apply pipeline_step_inv].
  exists 0%nat. split; [done|]. split; [by constructor|]. split; [done|by constructor|done].
Qed.
End bounds.

Section answers.
Import wire.
Context `{F : F32, QF : !QuantF32} {M : Type} (SM1 SM2 SM3 : StageModel M).
Context `{RQ : !protocol.Rmp InferenceRequest, RS : !protocol.Rmp InferenceResponse, RA : !protocol.Rmp ActivationTransfer,
  RT : !protocol.Rmp TokenResponse}.
Context `{LS : !protocol.RmpLaws InferenceResponse}.

(** C17: whatever the interleaving of the three processes, their threads and the streams -
    also when messages are lost, requests reuse an id, or stages fail - every message the
    client gets is a response, and for every id it gets at most as many responses with the
    id as stage 1 took requests with the id: at most one when the id was used once, none when
    it was not used.  A request being decoded never counts more than the 32 generated tokens
    of its limit, nor less than zero. *)
Theorem pipeline_answers_bounded (m1 m2 m3 : M) s :
  rtc (pipeline.step SM1 SM2 SM3) (pipeline.init m1 m2 m3) s ->
  Forall (fun b => is_Some (response_of b)) (pipeline.answers s) /\
  (forall id, about response_of id (pipeline.answers s) <= about request_of id (pipeline.received s))%nat /\
  forall id st, stage1.decode_states (pipeline.s1 s) !! id = Some st ->
    (stage1.prompt_length st <= length (stage1.tokens st))%nat /\ (stage1.tokens_generated st <= 32)%nat.
Proof using LS.
  intros Hr. pose proof (fun j => pipeline_reachable SM1 SM2 SM3 j m1 m2 m3 s Hr) as H. split_and!.
  - by destruct (H []) as (k & _ & Hf & _).
  - intros id. destruct (H id) as (k & Hk & _). lia.
  - intros id st Hl. destruct (H id) as (k & _ & _ & [_ _ Hi]). by destruct (Hi _ _ Hl) as (_ & ? & ? & _).
Qed.
End answers.

(** ** One request through the pipeline *)
Section alone.
Import wire stage1.
Context `{F : F32, QF : !QuantF32} {M : Type} (SM1 SM2 SM3 : StageModel M).
Context `{RQ : !protocol.Rmp InferenceRequest, RS : !protocol.Rmp InferenceResponse, RA : !protocol.Rmp ActivationTransfer,
  RT : !protocol.Rmp TokenResponse}.
Context `{LQ : !protocol.RmpLaws InferenceRequest, LA : !protocol.RmpLaws ActivationTransfer, LT : !protocol.RmpLaws TokenResponse}.
(** Serialization does not fail. *)
Context (Hact : forall a : ActivationTransfer, is_ok (protocol.to_vec a) = true)
  (Htok : forall t : TokenResponse, is_ok (protocol.to_vec t) = true)
  (Hrsp : forall r : InferenceResponse, is_ok (protocol.to_vec r) = true).

Definition token_response (id : list Z) (t : gguf.SampledToken) : TokenResponse :=
  MkTokenResponse id (gguf.token_id t) (gguf.token_text t) (gguf.is_eos t) (gguf.token_position t).

(** An activation through stages 2 and 3. *)
Definition finish_pass (m2 m3 : M) (a : gguf.ActivationState) : option (M * M * gguf.SampledToken) :=
  match sm_continue (StageModel := SM2) m2 a with
  | (m2, Some (Ok (inl a))) =>
      match sm_continue (StageModel := SM3) m3 a with
      | (m3, Some (Ok (inr t))) => Some (m2, m3, t)
      | _ => None
      end
  | _ => None
  end.

(** The decode loop of a request that has the pipeline for itself, from an activation of
    stage 1; [None] when a stage fails.  A request ends after 32 tokens, which is the fuel. *)
Fixpoint decode_run (fuel : nat) (m1 m2 m3 : M) (a : gguf.ActivationState) (st : DecodeState) : option (list Z) :=
  match finish_pass m2 m3 a with
  | None => None
  | Some (m2, m3, t) =>
      let t := token_response (request_id st) t in
      let st := push_token t st in
      if should_terminate t st then Some (generated_text st)
      else
        match fuel with
        | O => None
        | S fuel =>
            match sm_decode (StageModel := SM1) m1 (tok_id t) (current_position st) with
            | (m1, Some (Ok a)) => decode_run fuel m1 m2 m3 a st
            | _ => None
            end
        end
  end.

Definition run_alone (m1 m2 m3 : M) (id prompt : list Z) : option (list Z) :=
  match sm_prefill (StageModel := SM1) m1 prompt with
  | (m1, Some (Ok a)) =>
      decode_run 32 m1 m2 m3 a (MkDecodeState id (gguf.tokens a) [] (gguf.position a) (length (gguf.tokens a)) 32)
  | _ => None
  end.

(** More fuel than the tokens left changes nothing. *)
Lemma decode_run_fuel fuel m1 m2 m3 a st :
  (max_tokens st <= tokens_generated st + S fuel)%nat -> (prompt_length st <= length (tokens st))%nat ->
  decode_run (S fuel) m1 m2 m3 a st = decode_run fuel m1 m2 m3 a st.
Proof.
  revert m1 m2 m3 a st. induction fuel as [|fuel IH]; intros m1 m2 m3 a st Hb Hp; cbn [decode_run];
    destruct (finish_pass m2 m3 a) as [[[m2' m3'] t]|]; [| done | |done].
  - set (tr := token_response _ t). destruct (should_terminate tr (push_token tr st)) eqn:Et; [done|].
    exfalso. unfold should_terminate in Et. apply orb_false_iff in Et as [_ Et]. apply Nat.leb_gt in Et.
    unfold tokens_generated in *. cbn in Et. rewrite length_app in Et. cbn in Et. lia.
  - set (tr := token_response _ t). destruct (should_terminate tr (push_token tr st)) eqn:Et; [done|].
    destruct (sm_decode (StageModel := SM1) m1 _ _) as [m1' [[a'|]|]]; [|done..]. apply IH; unfold tokens_generated in *; cbn; rewrite length_app; cbn; lia.
Qed.


Notation step := (pipeline.step SM1 SM2 SM3) (only parsing).

(** The message the client sent. *)
Context (message : list Z).

(** The system when a single request is in it: [ts] is its thread in stage 1, [at_] and [rt]
    what stage 1 is about to send, [l31] the feedback. *)
Definition alone_state (mn : Main) (m1 m2 m3 : M) (st : option DecodeState) (id : list Z) (ts : list Thread)
    (rt l31 out : list (list Z)) : pipeline.State (M := M) :=
  pipeline.MkState (MkState mn (Some m1) (match st with Some st => {[id := st]} | None => ∅ end) ts [] rt)
    (stage.MkState (Some m2) [] [] []) (stage.MkState (Some m3) [] [] []) [] [] [] l31 [message] out.

Definition accepted_offer : list bool := [true].

Lemma publish_whole b : pipeline.published b [b].
Proof. apply (pipeline.Published b accepted_offer [b]); [done|done|]. apply join_single. Qed.

Ltac advance rule := eapply rtc_l; [rule|cbn -[stage.on_poll stage.run_thread serialize_activation]].

Lemma poll_whole b a (y : stage.State (M := M)) :
  protocol.to_vec a = Ok b -> stage.pending_activation y = [] ->
  stage.on_poll [b] y = stage.MkState (stage.model y) [] (stage.threads y ++ [a]) (stage.out_tx y).
Proof.
  intros Hb Hp. unfold stage.on_poll, deserialize_activation. rewrite Hp. cbn [app]. rewrite join_single.
  by rewrite (protocol.from_to_vec _ _ Hb).
Qed.

Lemma middle_thread id a m m' a' b p ts o :
  sm_continue (StageModel := SM2) m a = (m', Some (Ok (inl a'))) -> protocol.to_vec (transfer id a') = Ok b ->
  stage.run_thread (SM := SM2) true (transfer id a) (stage.MkState (Some m) p ts o) = stage.MkState (Some m') p ts (o ++ [b]).
Proof. intros E Hb. destruct a. unfold stage.run_thread. cbn -[serialize_activation stage.forward_message]. rewrite E. unfold stage.forward_message, serialize_activation. by rewrite Hb. Qed.

Lemma last_thread id a m m' t b p ts o :
  sm_continue (StageModel := SM3) m a = (m', Some (Ok (inr t))) -> protocol.to_vec (token_response id t) = Ok b ->
  stage.run_thread (SM := SM3) false (transfer id a) (stage.MkState (Some m) p ts o) = stage.MkState (Some m') p ts (o ++ [b]).
Proof.
  intros E Hb. destruct a. unfold stage.run_thread. cbn -[serialize_token_response stage.token_message]. rewrite E.
  unfold stage.token_message, serialize_token_response, token_response in *. by rewrite Hb.
Qed.

Lemma serialized {A} `{!protocol.Rmp A} (a : A) : is_ok (protocol.to_vec a) = true -> exists b, protocol.to_vec a = Ok b.
Proof. destruct (protocol.to_vec a) as [b|]; [by exists b|done]. Qed.

(** An activation leaves stage 1 and comes back as a token. *)
Lemma pass_reaches m1 m2 m3 st id a m2' m3' t out :
  finish_pass m2 m3 a = Some (m2', m3', t) ->
  exists bt, deserialize_token_response bt = Ok (token_response id t) /\
    rtc step (alone_state Polling m1 m2 m3 st id [Forward (transfer id a)] [] [] out)
      (alone_state Polling m1 m2' m3' st id [] [] [bt] out).
Proof.
  unfold finish_pass. destruct (sm_continue (StageModel := SM2) m2 a) as [n2 [[[a2|]|]|]] eqn:E2; try done.
  destruct (sm_continue (StageModel := SM3) m3 a2) as [n3 [[[|u]|]|]] eqn:E3; try done. intros [= -> -> ->].
  destruct (serialized _ (Hact (transfer id a))) as [b1 B1]. destruct (serialized _ (Hact (transfer id a2))) as [b2 B2].
  destruct (serialized _ (Htok (token_response id t))) as [b3 B3].
  exists b3. split; [exact (protocol.from_to_vec _ _ B3)|].
  advance ltac:(eapply (pipeline.Thread1 _ _ _ (Forward (transfer id a)) [] []); reflexivity).
  unfold serialize_activation. rewrite B1. cbn -[stage.on_poll].
  advance ltac:(apply (pipeline.Send12 _ _ _ b1 [] [b1]), publish_whole).
  advance ltac:(apply (pipeline.Poll2 _ _ _ [b1])). rewrite (poll_whole _ _ _ B1) by done.
  advance ltac:(apply (pipeline.Thread2 _ _ _ (transfer id a) [] []); reflexivity). unfold stage.set_threads at 1.
  cbn [stage.model stage.pending_activation stage.out_tx]. rewrite (middle_thread _ _ _ _ _ _ _ _ _ E2 B2).
  advance ltac:(eapply (pipeline.Send23 _ _ _ b2 [] [b2]); [reflexivity|apply publish_whole]).
  advance ltac:(apply (pipeline.Poll3 _ _ _ [b2])). rewrite (poll_whole _ _ _ B2) by done.
  advance ltac:(apply (pipeline.Thread3 _ _ _ (transfer id a2) [] []); reflexivity). unfold stage.set_threads at 1.
  cbn [stage.model stage.pending_activation stage.out_tx]. rewrite (last_thread _ _ _ _ _ _ _ _ _ E3 B3).
  advance ltac:(eapply (pipeline.Send31 _ _ _ b3 [] [b3]); [reflexivity|apply publish_whole]).
  apply rtc_refl.
Qed.

(** What stage 1 does with a token. *)
Lemma on_token_known bt tr st m1 id :
  deserialize_token_response bt = Ok tr -> tok_request_id tr = id ->
  on_token 0 bt (MkState Polling (Some m1) {[id := st]} [] [] []) =
    let st := push_token tr st in
    let x : State (M := M) := MkState Polling (Some m1) {[id := st]} [] [] [] in
    if should_terminate tr st
    then set_main (Completing id)
           (match serialize_response (MkResponse id None [] (single.text_output (generated_text st)) (f_of_Z 1) 0 [])
            with Ok b => send_response b x | Err _ => x end)
    else spawn (Decode id) x.
Proof.
  intros Hb <-. unfold on_token. rewrite Hb. cbn -[should_terminate push_token serialize_response].
  rewrite lookup_singleton_eq. unfold set_states. cbn -[should_terminate push_token serialize_response].
  by rewrite insert_singleton_eq.
Qed.

(** A completed request: its state goes and its answer is published. *)
Lemma completion_reaches m1 m2 m3 st id b :
  rtc step (pipeline.MkState (MkState (Completing id) (Some m1) {[id := st]} [] [] [b])
              (stage.MkState (Some m2) [] [] []) (stage.MkState (Some m3) [] [] []) [] [] [] [] [message] [])
    (alone_state Polling m1 m2 m3 None id [] [] [] [b]).
Proof.
  advance ltac:(apply (pipeline.Complete _ _ _ id); reflexivity). unfold complete, set_states, set_main, pipeline.set_s1.
  cbn. rewrite delete_singleton_eq.
  advance ltac:(apply (pipeline.Answer _ _ _ b [] [b]), publish_whole). rewrite app_nil_r. apply rtc_refl.
Qed.

(** The next token of a request: stage 1 decodes it at the number of tokens so far. *)
Lemma decode_step_reaches m1 m2 m3 st id tk m1' a' :
  last (tokens st) = Some tk -> sm_decode (StageModel := SM1) m1 tk (current_position st) = (m1', Some (Ok a')) ->
  rtc step (alone_state Polling m1 m2 m3 (Some st) id [Decode id] [] [] [])
    (alone_state Polling m1' m2 m3 (Some st) id [Forward (transfer id a')] [] [] []).
Proof.
  intros Hl Hd. advance ltac:(eapply (pipeline.Thread1 _ _ _ (Decode id) [] []); reflexivity).
  rewrite lookup_singleton_eq, Hl. cbn.
  advance ltac:(eapply (pipeline.Thread1 _ _ _ (DecodeToken id tk (current_position st)) [] []); reflexivity).
  rewrite Hd. apply rtc_refl.
Qed.

(** From the first activation to the answer. *)
Lemma decode_reaches fuel m1 m2 m3 id a st text :
  request_id st = id -> decode_run fuel m1 m2 m3 a st = Some text ->
  exists n1 n2 n3 b, protocol.to_vec (MkResponse id None [] (single.text_output text) (f_of_Z 1) 0 []) = Ok b /\
    rtc step (alone_state Polling m1 m2 m3 (Some st) id [Forward (transfer id a)] [] [] [])
      (alone_state Polling n1 n2 n3 None id [] [] [] [b]).
Proof.
  revert m1 m2 m3 a st. induction fuel as [|fuel IH]; intros m1 m2 m3 a st Hid Hrun; cbn [decode_run] in Hrun;
    destruct (finish_pass m2 m3 a) as [[[m2' m3'] t]|] eqn:Ep; try done;
    destruct (pass_reaches m1 m2 m3 (Some st) id a m2' m3' t [] Ep) as (bt & Hbt & Hpass);
    rewrite Hid in Hrun; set (tr := token_response id t) in *;
    pose proof (on_token_known bt tr st m1 id Hbt eq_refl) as Htoken; cbv zeta in Htoken;
    destruct (should_terminate tr (push_token tr st)) eqn:Et; try done.
  1, 2: injection Hrun as <-;
    destruct (serialized _ (Hrsp (MkResponse id None [] (single.text_output (generated_text (push_token tr st))) (f_of_Z 1) 0 [])))
      as [b Hb];
    exists m1, m2', m3', b; (split; [exact Hb|]); (etransitivity; [exact Hpass|]); unfold alone_state at 1; cbv iota;
    (eapply rtc_l; [apply (pipeline.Feedback _ _ _ 0 bt []); reflexivity|]);
    rewrite Htoken; unfold serialize_response; rewrite Hb; apply completion_reaches.
  destruct (sm_decode (StageModel := SM1) m1 (tok_id tr) _) as [m1' [[a'|]|]] eqn:Ed; try done.
  destruct (IH m1' m2' m3' a' (push_token tr st) Hid Hrun) as (n1 & n2 & n3 & b & Hb & Hrest).
  exists n1, n2, n3, b. split; [exact Hb|]. etransitivity; [exact Hpass|]. unfold alone_state at 1. cbv iota.
  eapply rtc_l; [apply (pipeline.Feedback _ _ _ 0 bt []); reflexivity|]. rewrite Htoken.
  etransitivity; [|exact Hrest]. apply (decode_step_reaches _ _ _ _ _ (tok_id tr)); [|exact Ed].
  cbn. by rewrite last_snoc.
Qed.

(** The prompt of an admitted request runs, and its tokens become those of the request. *)
Lemma prefill_reaches m1 m2 m3 id prompt m1' a :
  sm_prefill (StageModel := SM1) m1 prompt = (m1', Some (Ok a)) ->
  rtc step (alone_state Polling m1 m2 m3 (Some (initial_state id)) id [Prefill id prompt] [] [] [])
    (alone_state Polling m1' m2 m3
       (Some (MkDecodeState id (gguf.tokens a) [] (gguf.position a) (length (gguf.tokens a)) 32)) id
       [Forward (transfer id a)] [] [] []).
Proof.
  intros Hp. advance ltac:(eapply (pipeline.Thread1 _ _ _ (Prefill id prompt) [] []); reflexivity).
  rewrite Hp. unfold set_threads, set_model, spawn, pipeline.set_s1. cbn.
  advance ltac:(eapply (pipeline.Thread1 _ _ _ (Prefilled id a) [] []); reflexivity).
  unfold pipeline.set_s1, set_threads, set_states, spawn. cbn. rewrite alter_singleton_eq. apply rtc_refl.
Qed.

Lemma admitted (m1 : M) req prompt :
  deserialize_request message = Ok req -> utf8.from_utf8 (input_data req) = Some prompt ->
  on_request message (init m1) =
    MkState Polling (Some m1) {[req_id req := initial_state (req_id req)]} [Prefill (req_id req) prompt] [] [].
Proof. intros Hm Hp. unfold on_request. by rewrite Hm, Hp. Qed.

(** C16: a request that has the pipeline for itself can be served: if the stages can run its
    prompt and then each sampled token - the k-th at position [n + k] after a prompt of [n]
    tokens - until a token ends the text or 32 were generated, then the three processes reach
    a state in which the client has received exactly one response, with the texts of all these
    tokens, and nothing of the request is left in any thread, queue, stream or table. *)
Theorem alone_served (m1 m2 m3 : M) (req : InferenceRequest) (prompt text : list Z) :
  deserialize_request message = Ok req -> utf8.from_utf8 (input_data req) = Some prompt ->
  run_alone m1 m2 m3 (req_id req) prompt = Some text ->
  exists n1 n2 n3 b,
    protocol.to_vec (MkResponse (req_id req) None [] (single.text_output text) (f_of_Z 1) 0 []) = Ok b /\
    rtc step (pipeline.init m1 m2 m3) (alone_state Polling n1 n2 n3 None (req_id req) [] [] [] [b]).
Proof.
  intros Hm Hp Hrun. unfold run_alone in Hrun.
  destruct (sm_prefill (StageModel := SM1) m1 prompt) as [m1' [[a|]|]] eqn:Ef; try done.
  destruct (decode_reaches 32 m1' m2 m3 (req_id req) a (MkDecodeState (req_id req) (gguf.tokens a) [] (gguf.position a)
    (length (gguf.tokens a)) 32) text eq_refl Hrun) as (n1 & n2 & n3 & b & Hb & Hrest).
  exists n1, n2, n3, b. split; [exact Hb|]. etransitivity; [|exact Hrest].
  eapply rtc_l; [apply (pipeline.Submit _ _ _ message)|].
  eapply rtc_l; [apply (pipeline.Admit _ _ _ message []); reflexivity|].
  change (pipeline.s1 (pipeline.init m1 m2 m3)) with (init m1). rewrite (admitted _ _ _ Hm Hp).
  exact (prefill_reaches m1 m2 m3 _ _ _ _ Ef).
Qed.
End alone.

(** ** A concrete codec *)

(** Lists are preceded by their length; what follows a value is not looked at. *)
Module codec.
Import wire.
Definition put (l : list Z) : list Z := Z.of_nat (length l) :: l.
Definition get (l : list Z) : option (list Z * list Z) :=
  match l with
  | n :: t => if (Z.to_nat n <=? length t)%nat then Some (take (Z.to_nat n) t, drop (Z.to_nat n) t) else None
  | [] => None
  end.

Lemma get_put l r : get (put l ++ r) = Some (l, r).
Proof.
  unfold get, put. cbn [app]. rewrite Nat2Z.id, length_app, (proj2 (Nat.leb_le _ _)) by lia.
  by rewrite take_app_length, drop_app_length.
Qed.

Lemma get_put_end l : get (put l) = Some (l, []).
Proof. rewrite <- (app_nil_r (put l)). apply get_put. Qed.

#[global] Instance request_rmp : protocol.Rmp InferenceRequest := {|
  protocol.to_vec r := Ok (put (req_id r) ++ put (input_data r) ++ put (input_shape r) ++ put (model_version r));
  protocol.from_slice b :=
    ok_or ('(i, b) ← get b; '(d, b) ← get b; '(s, b) ← get b; '(v, _) ← get b; Some (MkRequest i d s v)) "short";
|}.
#[global] Instance transfer_rmp : protocol.Rmp (@ActivationTransfer exact_f32) := {|
  protocol.to_vec a := Ok (put (act_id a) ++ put (Z.of_nat <$> act_shape a) ++ put (act_data a : list Z) ++
                           put [Z.of_nat (act_position a)] ++ put (act_tokens a));
  protocol.from_slice b :=
    ok_or ('(i, b) ← get b; '(s, b) ← get b; '(d, b) ← get b; '(p, b) ← get b; '(t, _) ← get b;
           Some (MkTransfer i (Z.to_nat <$> s) (d : list (@f32 exact_f32)) (Z.to_nat (default 0 (head p))) t)) "short";
|}.
#[global] Instance token_rmp : protocol.Rmp TokenResponse := {|
  protocol.to_vec t := Ok (put (tok_request_id t) ++ put [tok_id t] ++ put (tok_text t) ++
                           put [Z.b2z (tok_is_eos t); Z.of_nat (tok_position t)]);
  protocol.from_slice b :=
    ok_or ('(i, b) ← get b; '(k, b) ← get b; '(x, b) ← get b; '(e, _) ← get b;
           match k, e with
           | [k], [e; p] => Some (MkTokenResponse i k x (e =? 1) (Z.to_nat p))
           | _, _ => None
           end) "short";
|}.
#[global] Instance response_rmp : protocol.Rmp (@InferenceResponse exact_f32) := {|
  protocol.to_vec r := Ok (put (rsp_id r) ++ put (option_list (class_id r)) ++ put (probabilities r : list Z) ++
                           put (raw_output r : list Z) ++ put [confidence r : Z; latency_us r] ++ put (error r));
  protocol.from_slice b :=
    ok_or ('(i, b) ← get b; '(c, b) ← get b; '(p, b) ← get b; '(o, b) ← get b; '(x, b) ← get b; '(e, _) ← get b;
           match x with
           | [f; l] => Some (MkResponse i (head c) (p : list (@f32 exact_f32)) (o : list (@f32 exact_f32)) (f : @f32 exact_f32) l e)
           | _ => None
           end) "short";
|}.

#[local] Opaque put get.
Ltac decode := cbn [protocol.to_vec protocol.from_slice request_rmp transfer_rmp token_rmp response_rmp]; intros [= <-];
  repeat (rewrite get_put; cbn [mbind option_bind]); rewrite get_put_end; cbn [mbind option_bind].

#[global] Instance request_laws : protocol.RmpLaws InferenceRequest.
Proof. split. intros [i d s v] bs. decode. done. Qed.
#[global] Instance transfer_laws : protocol.RmpLaws (@ActivationTransfer exact_f32).
Proof.
  split. intros [i s d p t] bs. decode. cbn. rewrite Nat2Z.id, <- list_fmap_compose.
  rewrite (list_fmap_ext _ id) by (intros ? n _; cbn; apply Nat2Z.id). by rewrite list_fmap_id.
Qed.
#[global] Instance token_laws : protocol.RmpLaws TokenResponse.
Proof. split. intros [i k x e p] bs. decode. cbn. rewrite Nat2Z.id. by destruct e. Qed.
#[global] Instance response_laws : protocol.RmpLaws (@InferenceResponse exact_f32).
Proof. split. intros [i c p o f l e] bs. decode. by destruct c. Qed.
End codec.

Module distributed_examples.
Import wire gguf gguf_examples exact_tensors codec.

Definition st1 : StageModel (@GgufModel _ lib exact_tokenizer) := gguf_stage 0 1.
Definition st2 : StageModel (@GgufModel _ lib exact_tokenizer) := gguf_stage 1 3.
Definition st3 : StageModel (@GgufModel _ lib exact_tokenizer) := gguf_stage 3 4.
Definition question : InferenceRequest := MkRequest (txt "r1") (txt "7?") [] (txt "v1").
Definition message : list Z := Eval vm_compute in match protocol.to_vec question with Ok b => b | Err _ => [] end.

(** The text of the pipeline. *)
Lemma question_alone : run_alone st1 st2 st3 g5 g5 g5 (txt "r1") (txt "7?") = Some (txt "XY").
Proof. vm_refl. Qed.

Lemma alone_served_witness :
  exists n1 n2 n3 b,
    protocol.to_vec (MkResponse (txt "r1") None [] (single.text_output (txt "XY")) (f_of_Z 1) 0 []) = Ok b /\
    rtc (pipeline.step st1 st2 st3) (pipeline.init g5 g5 g5) (alone_state message stage1.Polling n1 n2 n3 None (txt "r1") [] [] [] [b]).
Proof.
  refine (alone_served st1 st2 st3 _ _ _ message g5 g5 g5 question (txt "7?") (txt "XY") _ _ question_alone);
    [by intros|by intros|by intros|vm_refl..].
Defined.

(** Two requests with one id. *)
Lemma pipeline_answers_bounded_witness :
  let s := pipeline.MkState (stage1.on_request message (stage1.on_request message (stage1.init g4)))
             (stage.init g4) (stage.init g4) [] [] [] [] [message; message] [] in
  about request_of (txt "r1") (pipeline.received s) = 2%nat /\ about request_of (txt "r2") (pipeline.received s) = 0%nat /\
  Forall (fun b => is_Some (response_of b)) (pipeline.answers s) /\
  (forall id, about response_of id (pipeline.answers s) <= about request_of id (pipeline.received s))%nat /\
  forall id st, stage1.decode_states (pipeline.s1 s) !! id = Some st ->
    (stage1.prompt_length st <= length (stage1.tokens st))%nat /\ (stage1.tokens_generated st <= 32)%nat.
Proof.
  split; [vm_refl|]. split; [vm_refl|].
  apply (pipeline_answers_bounded st1 st2 st3 g4 g4 g4).
  eapply rtc_l; [apply (pipeline.Submit _ _ _ message)|].
  eapply rtc_l; [apply (pipeline.Admit _ _ _ message []); reflexivity|].
  eapply rtc_l; [apply (pipeline.Submit _ _ _ message)|].
  apply rtc_once, (pipeline.Admit _ _ _ message []). reflexivity.
Defined.

(** The prompt is 6 tokens and the first answer is token 23.  One process decodes it at position 6, the pipeline at position
    7: the texts agree in the first character only.  The last character of the pipeline's text
    is the token that ends it, which one process does not print. *)
Example positions_shifted :
  prompt_tokens g4 (txt "7?") = Ok [4; 4; 4; 17; 4; 4] /\
  stage1.current_position (stage1.push_token (MkTokenResponse (txt "r1") 23 [] false 1)
    (stage1.MkDecodeState (txt "r1") [4; 4; 4; 17; 4; 4] [] 0 6 32)) = 7%nat /\
  mjoin (generate_streaming g5 (txt "7?") 2).1.2 = txt "XV" /\
  run_alone st1 st2 st3 g5 g5 g5 (txt "r1") (txt "7?") = Some (txt "XY") /\
  is_eos_token g5 24 = true /\ token_str g5 24 = Some (txt "Y").
Proof. split_and!; [vm_refl|vm_refl|unfold txt; by rewrite answer_runs|exact question_alone|vm_refl|vm_refl]. Qed.

(** Two requests whose passes alternate: the second prompt replaces the keys and values of the
    first in every stage, so the tokens of the first are decoded against the second. *)
Definition id_of (o : Outcome SampledToken) : Z := match o with Some (Ok t) => token_id t | _ => -1 end.
Example interleaved_requests :
  id_of <$> pipeline_calls 1 3 4 (g4, g4, g4) [([4; 17], 0%nat); ([23], 3%nat)] = [23; 13] /\
  id_of <$> pipeline_calls 1 3 4 (g4, g4, g4) [([4; 17], 0%nat); ([8; 8], 0%nat); ([23], 3%nat)] = [23; 5; 15].
Proof. split; vm_refl. Qed.

(** Two activations in one poll: the first is taken, the second is dropped with the bytes
    pending, and its request waits for ever. *)
Definition act (id : string) : @ActivationTransfer exact_f32 := MkTransfer (txt id) [1; 1; 1]%nat [5 : @f32 exact_f32] 0 [5].
Definition act_bytes (id : string) : list Z := match protocol.to_vec (act id) with Ok b => b | Err _ => [] end.
Example second_activation_lost :
  stage.on_poll (M := @GgufModel _ lib exact_tokenizer) [act_bytes "a"; act_bytes "b"] (stage.init g4) =
    stage.MkState (Some g4) [] [act "a"] [].
Proof. vm_refl. Qed.

(** A stage that fails says nothing, and stage 1 keeps the request. *)
Example failed_stage_is_silent :
  stage.out_tx (stage.run_thread (SM := st2) true (MkTransfer (txt "a") [1; 1]%nat [5 : @f32 exact_f32] 0 [5]) (stage.init g4)) = [] /\
  (let s := stage1.on_request message (stage1.init g4) in
   is_Some (stage1.decode_states s !! txt "r1")).
Proof. split; [vm_refl|by eexists]. Qed.

(** The prompt is not text: the single-stage server answers with an error, stage 1 not at all. *)
Definition not_text : InferenceRequest := MkRequest (txt "r2") [0xFF; 0xFE] [] (txt "v1").
Example invalid_prompt_unanswered :
  (single.process_gguf_inference_streaming (Some g4) not_text).2 =
    Some (single.error_response (txt "r2") "Invalid UTF-8 prompt") /\
  stage1.on_request (match protocol.to_vec not_text with Ok b => b | Err _ => [] end) (stage1.init g4) = stage1.init g4.
Proof. split; vm_refl. Qed.
End distributed_examples.
