(* ===== verification/Media.v ===== *)
(** * services/media: codec, voice activity, language policy, provider failover

    [codec] is the G.711 mu-law codec, [vad] the voice-activity engine in binary64,
    [lang_policy] the answer-language state machine and [stt_failover] the supervisor that
    rotates over the speech providers.  Integers wrap as in a release build. *)

From stdpp Require Import base numbers list gmap strings.
From Stdlib Require Import ZArith Lia SpecFloat.
From S2P Require Import Prelude.

(** ** codec.rs *)
Module codec.
Definition SAMPLES_PER_FRAME : nat := 160.

(** One entry of the decode table. *)
Definition table_entry (i : Z) : Z :=
  let mulaw := as_unsigned 8 (255 - i) in
  let sign := negb (Z.land mulaw 0x80 =? 0) in
  let exponent := Z.shiftr (Z.land mulaw 0x70) 4 in
  let mantissa := Z.land mulaw 0x0f in
  let sample := Z.shiftl (Z.shiftl mantissa 3 + 132) exponent - 132 in
  as_signed 16 (if sign then - sample else sample).

Definition MULAW_TO_PCM : list Z := (fun i => table_entry (Z.of_nat i)) <$> seq 0 256.

Definition decode_mulaw_byte (mulaw : Z) : Z := nth (Z.to_nat mulaw) MULAW_TO_PCM 0.

(** The loop that lowers [exponent] and [mask] together. *)
Fixpoint find_exponent (pcm mask : Z) (exponent : nat) : nat :=
  match exponent with
  | O => O
  | S e => if Z.land pcm mask =? 0 then find_exponent pcm (Z.shiftr mask 1) e else exponent
  end.

Definition encode_mulaw_sample (pcm : Z) : Z :=
  let sign := if pcm <? 0 then 0x80 else 0 in
  let pcm := if pcm <? 0 then as_signed 16 (- pcm) else pcm in
  let pcm := if 32635 <? pcm then 32635 else pcm in
  let pcm := pcm + 132 in
  let exponent := Z.of_nat (find_exponent pcm 0x4000 7) in
  let mantissa := Z.land (Z.shiftr pcm (exponent + 3)) 0x0F in
  let mulaw := Z.lor (Z.lor sign (Z.shiftl exponent 4)) mantissa in
  255 - as_unsigned 8 mulaw.

Definition decode_frame (mulaw_bytes : list Z) : list Z := decode_mulaw_byte <$> mulaw_bytes.
Definition encode_frame (pcm_samples : list Z) : list Z := encode_mulaw_sample <$> pcm_samples.
End codec.

(** ** vad.rs *)
Module vad.
Definition f64 := spec_float.
Definition of_Z (n : Z) : f64 := binary_normalize 53 1024 n 0 false.
Definition mul : f64 -> f64 -> f64 := SFmul 53 1024.
Definition add : f64 -> f64 -> f64 := SFadd 53 1024.
Definition div : f64 -> f64 -> f64 := SFdiv 53 1024.
Definition sqrt : f64 -> f64 := SFsqrt 53 1024.
Definition gtb (a b : f64) : bool := SFltb b a.
Definition geb (a b : f64) : bool := SFleb b a.
(** [a.max(b)] *)
Definition max (a b : f64) : f64 :=
  match a with S754_nan => b | _ => if SFltb a b then b else a end.

(** The decimal literals, correctly rounded. *)
Definition SPEECH_MARGIN : f64 := div (of_Z 5) (of_Z 2).
Definition BARGE_MARGIN : f64 := div (of_Z 7) (of_Z 2).
Definition AUTOCORR_VOICED_MIN : f64 := div (of_Z 7) (of_Z 10).
Definition ZCR_VOICED_MIN : Z := 3.
Definition ZCR_VOICED_MAX : Z := 60.

Inductive VadState := Speech | Silence.

Record FrameFeatures : Type := MkFeatures {
  rms : f64;
  autocorr : f64;
  zcr : Z;
  is_speech : bool;
  is_barge_candidate : bool;
}.

Record VadEngine : Type := MkVad {
  consecutive_speech_ms : Z;
  consecutive_silence_ms : Z;
  consecutive_barge_ms : Z;
  energy_threshold : Z;
  noise_floor : f64;
}.

Definition new (aggressiveness : Z) : VadEngine :=
  let t := if aggressiveness =? 0 then 500 else if aggressiveness =? 1 then 1000
           else if aggressiveness =? 2 then 2000 else 4000 in
  MkVad 0 0 0 t (of_Z t).

Definition energy (samples : list Z) : Z := foldl (fun acc s => acc + s * s) 0 samples.

Fixpoint lag1 (prev : Z) (l : list Z) (acc : Z) : Z :=
  match l with [] => acc | s :: l => lag1 s l (acc + s * prev) end.

Definition compute_autocorr (samples : list Z) : f64 :=
  match samples with
  | [] | [_] => of_Z 0
  | s :: rest =>
      let r0 := energy samples in
      if r0 =? 0 then of_Z 0 else div (of_Z (lag1 s rest 0)) (of_Z r0)
  end.

Fixpoint crossings (prev : Z) (l : list Z) : Z :=
  match l with
  | [] => 0
  | s :: l => (if Bool.eqb (0 <=? prev) (0 <=? s) then 0 else 1) + crossings s l
  end.

Definition compute_zcr (samples : list Z) : Z :=
  match samples with [] | [_] => 0 | s :: rest => crossings s rest end.

Definition process_frame_detailed (pcm : list Z) (v : VadEngine) : VadState * FrameFeatures * VadEngine :=
  let r := match pcm with
           | [] => of_Z 0
           | _ => sqrt (div (of_Z (energy pcm)) (of_Z (Z.of_nat (length pcm))))
           end in
  let speech_threshold := max (mul (noise_floor v) SPEECH_MARGIN) (of_Z (energy_threshold v)) in
  let barge_threshold := max (mul (noise_floor v) BARGE_MARGIN) (of_Z (energy_threshold v * 2)) in
  let rms_passes_speech := gtb r speech_threshold in
  let rms_passes_barge := gtb r barge_threshold in
  let ac := if rms_passes_speech then compute_autocorr pcm else of_Z 0 in
  let autocorr_is_speech := geb ac AUTOCORR_VOICED_MIN in
  let z := if rms_passes_speech then compute_zcr pcm else 0 in
  let zcr_is_voiced := (ZCR_VOICED_MIN <=? z) && (z <=? ZCR_VOICED_MAX) in
  let speech := rms_passes_speech && autocorr_is_speech && zcr_is_voiced in
  let barge := rms_passes_barge && autocorr_is_speech && zcr_is_voiced in
  let features := MkFeatures r ac z speech barge in
  let barge_ms := if barge then consecutive_barge_ms v + 20 else 0 in
  if speech
  then (Speech, features, MkVad (consecutive_speech_ms v + 20) 0 barge_ms (energy_threshold v) (noise_floor v))
  else (Silence, features,
        MkVad 0 (consecutive_silence_ms v + 20) barge_ms (energy_threshold v)
          (add (mul (div (of_Z 19) (of_Z 20)) (noise_floor v)) (mul (div (of_Z 1) (of_Z 20)) r))).

Definition process_frame (pcm : list Z) (v : VadEngine) : VadState * VadEngine :=
  let '(s, _, v) := process_frame_detailed pcm v in (s, v).

Definition is_utterance_end (threshold_ms : Z) (v : VadEngine) : bool := threshold_ms <=? consecutive_silence_ms v.
Definition is_barge_in (threshold_ms : Z) (assistant_speaking : bool) (v : VadEngine) : bool :=
  assistant_speaking && (threshold_ms <=? consecutive_barge_ms v).
Definition reset_counters (v : VadEngine) : VadEngine := MkVad 0 0 0 (energy_threshold v) (noise_floor v).
End vad.

(** ** lang_policy.rs: texts are lists of code points *)
Module lang_policy.
Import unicode.
Definition SWITCH_STREAK : Z := 2.
Definition STRONG_MIN_WORDS : nat := 3.
Definition STRONG_MIN_CHARS : nat := 12.

(** [split_whitespace().count()]: the words that start. *)
Fixpoint words (in_word : bool) (l : list Z) : nat :=
  match l with
  | [] => 0
  | c :: t => if is_whitespace c then words false t
              else ((if in_word then 0 else 1) + words true t)%nat
  end.

Definition is_strong_evidence (text : list Z) : bool :=
  let trimmed := trim text in
  (STRONG_MIN_WORDS <=? words false trimmed)%nat || (STRONG_MIN_CHARS <=? length trimmed)%nat.

(** The part before the first [-] or [_]. *)
Fixpoint before_separator (l : list Z) : list Z :=
  match l with
  | [] => []
  | c :: t => if (c =? 45) || (c =? 95) then [] else c :: before_separator t
  end.

Record Decision : Type := MkDecision { answer_language : option (list Z); changed : bool }.

Record LanguagePolicy : Type := MkPolicy {
  default_language : option (list Z);
  follow_caller : bool;
  current : option (list Z);
  streak_language : option (list Z);
  streak : Z;
}.

Definition new (default_ : option (list Z)) (follow : bool) : LanguagePolicy :=
  MkPolicy default_ follow default_ None 0.
Definition greeting_language (p : LanguagePolicy) : option (list Z) := default_language p.

Section policy.
(** [str::to_lowercase] *)
Variable lower : list Z -> list Z.

Definition normalize (code : list Z) : list Z := lower (before_separator (trim code)).

Definition unchanged (p : LanguagePolicy) : Decision := MkDecision (current p) false.

Definition set_streak (l : option (list Z)) (n : Z) (p : LanguagePolicy) : LanguagePolicy :=
  MkPolicy (default_language p) (follow_caller p) (current p) l n.

(** [normalize] of the detected code, unless it is empty. *)
Definition heard (detected : option (list Z)) : option (list Z) :=
  match normalize <$> detected with Some [] | None => None | Some l => Some l end.

Definition observe (detected : option (list Z)) (text : list Z) (p : LanguagePolicy) : Decision * LanguagePolicy :=
  let strong := is_strong_evidence text in
  match heard detected with
  | None => (unchanged p, p)
  | Some lang =>
      if negb (follow_caller p) then (unchanged p, p)
      else if bool_decide (current p = Some lang)
      then (unchanged p, if strong then set_streak None 0 p else p)
      else
        let p := if bool_decide (streak_language p = Some lang)
                 then set_streak (Some lang) (as_unsigned 8 (streak p + 1)) p
                 else set_streak (Some lang) 1 p in
        let needed := if strong then 1 else SWITCH_STREAK in
        if needed <=? streak p
        then (MkDecision (Some lang) true,
              MkPolicy (default_language p) (follow_caller p) (Some lang) None 0)
        else (unchanged p, p)
  end.
End policy.
End lang_policy.

(** ** stt_failover.rs *)
Module stt_failover.
Definition HEALTHY_RUN_MS : Z := 10000.
Definition MAX_CONSECUTIVE_FAILURES : Z := 6.

Inductive SttProvider := ElevenLabs | Deepgram.
#[global] Instance SttProvider_eq_dec : EqDecision SttProvider.
Proof. solve_decision. Defined.

(** What the supervisor reads of the configuration; [primary] and [fallback] are the parsed
    provider names. *)
Record Config : Type := MkConfig {
  primary : option SttProvider;
  failover : bool;
  fallback : option SttProvider;
  elevenlabs_key : bool;
  deepgram_key : bool;
}.

Definition is_available (cfg : Config) (p : SttProvider) : bool :=
  match p with ElevenLabs => elevenlabs_key cfg | Deepgram => deepgram_key cfg end.

Definition provider_order (cfg : Config) : list SttProvider :=
  let primary := default ElevenLabs (primary cfg) in
  let order := primary ::
    (if failover cfg
     then match fallback cfg with
          | Some fb => if bool_decide (fb = primary) then [] else [fb]
          | None => []
          end
     else []) in
  List.filter (is_available cfg) order.

(** How an attempt ends: the caller's audio ends, or the provider returns after some
    milliseconds with or without an error. *)
Inductive AttemptEnd :=
  | UpstreamClosed
  | Ended (result : Result unit string) (ran_ms : Z).

(** What the supervisor did: the providers opened and the back-off delays, and its result
    if it returned. *)
Record Trace : Type := MkTrace {
  opened : list SttProvider;
  delays : list Z;
  outcome : option (Result unit string);
}.

Section core.
Variable providers : list SttProvider.

Definition provider_at (attempt : nat) : option SttProvider := providers !! (attempt mod length providers)%nat.

Fixpoint supervise (attempt : nat) (failures : Z) (last_err : string) (ends : list AttemptEnd) : Trace :=
  match ends with
  | [] => MkTrace [] [] None
  | e :: ends =>
      let here := match provider_at attempt with Some p => [p] | None => [] end in
      match e with
      | UpstreamClosed => MkTrace here [] (Some (Ok tt))
      | Ended result ran =>
          let last_err := match result with Ok _ => last_err | Err m => m end in
          if HEALTHY_RUN_MS <=? ran
          then let t := supervise (S attempt) 0 last_err ends in
               MkTrace (here ++ opened t) (delays t) (outcome t)
          else
            let failures := failures + 1 in
            if MAX_CONSECUTIVE_FAILURES <=? failures
            then MkTrace here [] (Some (Err last_err))
            else let t := supervise (S attempt) failures last_err ends in
                 MkTrace (here ++ opened t) (100 * Z.min failures 5 :: delays t) (outcome t)
      end
  end.

Definition run_failover_core (ends : list AttemptEnd) : Trace :=
  match providers with
  | [] => MkTrace [] [] (Some (Err "no STT provider available"%string))
  | _ => supervise 0 0 "no STT provider available" ends
  end.
End core.

Definition run_stt_with_failover (cfg : Config) (ends : list AttemptEnd) : Trace :=
  match provider_order cfg with
  | [] => MkTrace [] [] (Some (Err "no STT provider configured (missing credentials)"%string))
  | order => run_failover_core order ends
  end.
End stt_failover.

(** ** The mu-law codec *)
Section mulaw.
Import codec.

Lemma find_exponent_spec e m :
  2 ^ 7 <= m < 2 ^ (Z.of_nat e + 8) ->
  let r := Z.of_nat (find_exponent m (2 ^ (Z.of_nat e + 7)) e) in
  0 <= r <= Z.of_nat e /\ 2 ^ (r + 7) <= m < 2 ^ (r + 8).
Proof.
  induction e as [|e IH]; intros Hm; [by cbn in *|]. cbn [find_exponent].
  replace (Z.of_nat (S e) + 8) with (Z.of_nat (S e) + 7 + 1) in Hm by lia.
  rewrite land_top_bit by lia. destruct (Z.ltb_spec m (2 ^ (Z.of_nat (S e) + 7))) as [Hlt|Hge].
  - rewrite Z.shiftr_div_pow2, <- Z.pow_sub_r by lia.
    replace (Z.of_nat (S e) + 7 - 1) with (Z.of_nat e + 7) by lia.
    replace (Z.of_nat (S e) + 7) with (Z.of_nat e + 8) in Hlt by lia.
    destruct (IH ltac:(lia)) as [Hr Hm']. lia.
  - split; [lia|]. split; [done|]. replace (Z.of_nat (S e) + 8) with (Z.of_nat (S e) + 7 + 1) by lia. lia.
Qed.

(** Decoding the code word with a sign, an exponent and a mantissa. *)
Definition code_word (neg : bool) (e m : Z) : Z :=
  255 - as_unsigned 8 (Z.lor (Z.lor (if neg then 0x80 else 0) (Z.shiftl e 4)) m).

Definition code_word_ok (neg : bool) (e m : nat) : bool :=
  let mag := (8 * Z.of_nat m + 132) * 2 ^ Z.of_nat e - 132 in
  decode_mulaw_byte (code_word neg (Z.of_nat e) (Z.of_nat m)) =? (if neg then - mag else mag).

Lemma code_words_ok :
  forallb (fun e => forallb (fun m => code_word_ok false e m && code_word_ok true e m) (seq 0 16)) (seq 0 8) = true.
Proof. vm_refl. Qed.

Lemma decode_code_word neg e m : 0 <= e <= 7 -> 0 <= m < 16 ->
  decode_mulaw_byte (code_word neg e m) =
    (if neg then - ((8 * m + 132) * 2 ^ e - 132) else (8 * m + 132) * 2 ^ e - 132).
Proof.
  intros He Hm. pose proof code_words_ok as H. rewrite forallb_forall in H.
  specialize (H (Z.to_nat e) ltac:(apply in_seq; lia)). rewrite forallb_forall in H.
  specialize (H (Z.to_nat m) ltac:(apply in_seq; lia)). apply andb_true_iff in H as [H0 H1].
  unfold code_word_ok in H0, H1. rewrite !Z2Nat.id in H0, H1 by lia.
  apply Z.eqb_eq in H0, H1. by destruct neg.
Qed.

(** The magnitude after clipping. *)
Definition clip (x : Z) : Z := Z.max (-32635) (Z.min 32635 x).

Lemma encode_code_word x : -32767 <= x <= 32767 ->
  exists e m, 0 <= e <= 7 /\ 0 <= m < 16 /\ encode_mulaw_sample x = code_word (x <? 0) e m /\
    (16 + m) * 2 ^ (e + 3) <= Z.abs (clip x) + 132 < (17 + m) * 2 ^ (e + 3).
Proof.
  intros Hx. set (a := Z.abs (clip x) + 132).
  assert (132 <= a <= 32767) as Ha by (unfold a, clip; lia).
  destruct (find_exponent_spec 7 a) as [He Hr]; [cbn; lia|]. change (Z.of_nat 7) with 7 in He, Hr.
  set (e := Z.of_nat (find_exponent a (2 ^ (7 + 7)) 7)) in *.
  assert (2 ^ (e + 7) = 16 * 2 ^ (e + 3)) as E7.
  { replace (e + 7) with (4 + (e + 3)) by lia. rewrite Z.pow_add_r by lia. done. }
  assert (2 ^ (e + 8) = 32 * 2 ^ (e + 3)) as E8.
  { replace (e + 8) with (5 + (e + 3)) by lia. rewrite Z.pow_add_r by lia. done. }
  pose proof (Z.pow_pos_nonneg 2 (e + 3) ltac:(lia) ltac:(lia)) as Hp.
  set (q := a / 2 ^ (e + 3)). pose proof (Z.div_mod a (2 ^ (e + 3)) ltac:(lia)) as Hdm.
  pose proof (Z.mod_pos_bound a (2 ^ (e + 3)) Hp) as Hmb. fold q in Hdm.
  assert (16 <= q < 32) as Hq.
  { unfold q. split; [apply Z.div_le_lower_bound|apply Z.div_lt_upper_bound]; lia. }
  exists e, (q - 16). split_and!; try lia.
  unfold encode_mulaw_sample, code_word.
  assert ((if 32635 <? (if x <? 0 then as_signed 16 (- x) else x) then 32635
           else if x <? 0 then as_signed 16 (- x) else x) + 132 = a) as ->.
  { unfold a, clip. destruct (Z.ltb_spec x 0).
    - rewrite as_signed_id by lia. destruct (Z.ltb_spec 32635 (- x)); lia.
    - destruct (Z.ltb_spec 32635 x); lia. }
  change 0x4000 with (2 ^ (7 + 7)). fold e.
  replace (Z.land (Z.shiftr a (e + 3)) 0x0F) with (q - 16); [done|].
  rewrite Z.shiftr_div_pow2 by lia. fold q. change 0x0F with (2 ^ 4 - 1). rewrite land_mask_mod by lia.
  apply (Z.mod_unique q (2 ^ 4) 1 (q - 16)); lia.
Qed.

(** the mu-law codec keeps every sample to about three per cent: for every 16-bit sample
    except the most negative one, decoding the encoded byte differs from the sample (clipped
    to the codec's maximum) by at most [(|x| + 132) / 32]; and every byte but the second
    zero is the encoding of its own decoding. *)
Theorem mulaw_accuracy :
  (forall x, -32767 <= x <= 32767 ->
     32 * Z.abs (decode_mulaw_byte (encode_mulaw_sample x) - clip x) <= Z.abs (clip x) + 132) /\
  (forall b, 0 <= b < 256 ->
     encode_mulaw_sample (decode_mulaw_byte b) = if b =? 127 then 255 else b).
Proof.
  split.
  - intros x Hx. destruct (encode_code_word x Hx) as (e & m & He & Hm & -> & Hr).
    rewrite decode_code_word by done.
    assert (2 ^ (e + 3) = 8 * 2 ^ e) as E3.
    { replace (e + 3) with (3 + e) by lia. rewrite Z.pow_add_r by lia. done. }
    pose proof (Z.pow_pos_nonneg 2 e ltac:(lia) ltac:(lia)) as Hp. rewrite E3 in Hr.
    assert (0 <= m * 2 ^ e) as Hmp by nia. set (p := 2 ^ e) in *. set (mp := m * p) in *.
    replace ((8 * m + 132) * p) with (8 * mp + 132 * p) by (unfold mp; lia).
    replace ((16 + m) * (8 * p)) with (128 * p + 8 * mp) in Hr by (unfold mp; lia).
    replace ((17 + m) * (8 * p)) with (136 * p + 8 * mp) in Hr by (unfold mp; lia).
    unfold clip in *. destruct (Z.ltb_spec x 0); lia.
  - assert (forallb (fun b => encode_mulaw_sample (decode_mulaw_byte (Z.of_nat b)) =?
      (if Z.of_nat b =? 127 then 255 else Z.of_nat b)) (seq 0 256) = true) as H by vm_refl.
    intros b Hb. rewrite forallb_forall in H. specialize (H (Z.to_nat b) ltac:(apply in_seq; lia)).
    rewrite Z2Nat.id in H by lia. by apply Z.eqb_eq in H.
Qed.

(** The most negative sample has no magnitude in 16 bits: its encoding decodes to silence. *)
Lemma most_negative_sample_silenced :
  encode_mulaw_sample (-32768) = 127 /\ decode_mulaw_byte 127 = 0 /\
  decode_mulaw_byte (encode_mulaw_sample (-32767)) = -32124.
Proof. split_and!; vm_refl. Qed.
End mulaw.

(** ** Voice activity *)
Section voice_activity.
Import vad.

Fixpoint run_frames (v : VadEngine) (frames : list (list Z)) : list FrameFeatures * VadEngine :=
  match frames with
  | [] => ([], v)
  | f :: frames => let '(_, ft, v) := process_frame_detailed f v in
                   let '(fts, v) := run_frames v frames in
                   (ft :: fts, v)
  end.

(** The length of the run of [true] at the end, continuing [n]. *)
Definition run_length (n : Z) (l : list bool) : Z := foldl (fun (n : Z) (b : bool) => if b then n + 1 else 0) n l.

Lemma run_length_app n l k : run_length n (l ++ k) = run_length (run_length n l) k.
Proof. unfold run_length. by rewrite foldl_app. Qed.

Lemma process_counters f v :
  let '(s, ft, v') := process_frame_detailed f v in
  consecutive_barge_ms v' = (if is_barge_candidate ft then consecutive_barge_ms v + 20 else 0) /\
  consecutive_speech_ms v' = (if is_speech ft then consecutive_speech_ms v + 20 else 0) /\
  consecutive_silence_ms v' = (if negb (is_speech ft) then consecutive_silence_ms v + 20 else 0) /\
  (s = Speech <-> is_speech ft = true) /\ (is_speech ft = true -> noise_floor v' = noise_floor v) /\
  energy_threshold v' = energy_threshold v.
Proof.
  unfold process_frame_detailed. cbv zeta.
  destruct (gtb _ (max (mul _ SPEECH_MARGIN) _) && _ && _); cbn [is_speech is_barge_candidate negb]; by split_and!.
Qed.

Lemma run_frames_counters frames v a b c :
  consecutive_barge_ms v = 20 * a -> consecutive_speech_ms v = 20 * b -> consecutive_silence_ms v = 20 * c ->
  let '(fts, v') := run_frames v frames in
  length fts = length frames /\
  consecutive_barge_ms v' = 20 * run_length a (is_barge_candidate <$> fts) /\
  consecutive_speech_ms v' = 20 * run_length b (is_speech <$> fts) /\
  consecutive_silence_ms v' = 20 * run_length c ((fun ft => negb (is_speech ft)) <$> fts).
Proof.
  revert v a b c. induction frames as [|f frames IH]; intros v a b c Ha Hb Hc; [by split_and!|]. cbn [run_frames].
  pose proof (process_counters f v) as H. destruct (process_frame_detailed f v) as [[s ft] v1].
  destruct H as (H1 & H2 & H3 & _).
  specialize (IH v1 (if is_barge_candidate ft then a + 1 else 0) (if is_speech ft then b + 1 else 0)
    (if negb (is_speech ft) then c + 1 else 0)).
  destruct (run_frames v1 frames) as [fts v']. destruct IH as (Hl & Ha' & Hb' & Hc').
  - rewrite H1, Ha. destruct (is_barge_candidate ft); lia.
  - rewrite H2, Hb. destruct (is_speech ft); lia.
  - rewrite H3, Hc. destruct (is_speech ft); cbn; lia.
  - split_and!; [cbn; lia|done..].
Qed.

(** the assistant is interrupted only by sustained speech: after any frames, a barge-in of
    [t] milliseconds is reported exactly when the assistant is speaking and the last frames,
    at least [t] of them counted at 20 ms each, were all barge-in candidates; the end of
    an utterance is reported exactly after [t] milliseconds of uninterrupted silence. *)
Theorem barge_in_needs_run (aggressiveness : Z) (frames : list (list Z)) (t : Z) (speaking : bool) :
  let '(fts, v) := run_frames (new aggressiveness) frames in
  length fts = length frames /\
  is_barge_in t speaking v = speaking && (t <=? 20 * run_length 0 (is_barge_candidate <$> fts)) /\
  is_utterance_end t v = (t <=? 20 * run_length 0 ((fun ft => negb (is_speech ft)) <$> fts)).
Proof.
  pose proof (run_frames_counters frames (new aggressiveness) 0 0 0 eq_refl eq_refl eq_refl) as H.
  destruct (run_frames (new aggressiveness) frames) as [fts v]. destruct H as (Hl & Hb & _ & Hs).
  unfold is_barge_in, is_utterance_end. by rewrite Hb, Hs.
Qed.
End voice_activity.

(** ** The answer language *)
Section answer_language.
Import lang_policy.
Variable lower : list Z -> list Z.

(** A pending switch is at most one short utterance. *)
Definition policy_inv (p : LanguagePolicy) : Prop :=
  match streak_language p with None => streak p = 0 | Some _ => streak p = 1 end.

Lemma policy_inv_new d f : policy_inv (new d f).
Proof. done. Qed.

(** what makes the agent change its answer language, in any reachable state: it follows
    the caller, a language other than the current one was recognised, and either the
    utterance is a full sentence or the previous evidence was already for that language.
    Otherwise nothing changes; the pending streak is never longer than one utterance, and
    an agent that does not follow the caller never leaves its language. *)
Theorem switch_needs_evidence (d : option (list Z)) (text : list Z) (p : LanguagePolicy) :
  policy_inv p ->
  let '(dec, p') := observe lower d text p in
  policy_inv p' /\ answer_language dec = current p' /\
  (changed dec = true <->
     exists l, heard lower d = Some l /\ follow_caller p = true /\ current p <> Some l /\
       (is_strong_evidence text = true \/ streak_language p = Some l) /\ current p' = Some l) /\
  (changed dec = false -> current p' = current p) /\
  default_language p' = default_language p /\ follow_caller p' = follow_caller p.
Proof.
  unfold policy_inv. intros Hi. unfold observe. destruct (heard lower d) as [l|] eqn:Eh; [|naive_solver].
  destruct (follow_caller p) eqn:Ef; cbn [negb]; [|naive_solver].
  case_bool_decide as Hc.
  { destruct (is_strong_evidence text); cbn; rewrite ?Ef; naive_solver. }
  case_bool_decide as Hs.
  - rewrite Hs in Hi. rewrite Hi. change (as_unsigned 8 (1 + 1)) with 2. cbn [set_streak streak].
    assert ((if is_strong_evidence text then 1 else SWITCH_STREAK) <=? 2 = true) as ->
      by (by destruct (is_strong_evidence text)).
    cbn. split_and!; try done. split; [|done]. intros _. exists l. by split_and!; [..|right|].
  - cbn [set_streak streak]. destruct (is_strong_evidence text) eqn:Es; cbn.
    + split_and!; try done. split; [|done]. intros _. exists l. by split_and!; [..|left|].
    + split_and!; try done. split; [done|]. intros (l' & [= <-] & _ & _ & [?|?] & _); congruence.
Qed.
End answer_language.

(** ** The supervisor *)
Section failover.
Import stt_failover.
Variable providers : list SttProvider.

(** Providers are opened in rotation. *)
Lemma opened_in_rotation attempt failures err ends i p :
  providers <> [] ->
  opened (supervise providers attempt failures err ends) !! i = Some p ->
  providers !! ((attempt + i) mod length providers)%nat = Some p.
Proof.
  intros Hne. assert (0 < length providers)%nat as Hlen by (destruct providers; [done|cbn; lia]).
  assert (forall k, is_Some (provider_at providers k)) as Hp.
  { intros k. apply lookup_lt_is_Some_2. apply Nat.mod_upper_bound. lia. }
  revert attempt failures err i. induction ends as [|e ends IH]; intros attempt failures err i; [done|]. cbn [supervise].
  destruct (Hp attempt) as [q Hq]. rewrite Hq. unfold provider_at in Hq.
  assert (forall f er d o, opened (MkTrace ([q] ++ opened (supervise providers (S attempt) f er ends)) d o) !! i = Some p ->
    providers !! ((attempt + i) mod length providers)%nat = Some p) as Hnext.
  { intros f er d o H. cbn in H. destruct i as [|i]; cbn in H; [by rewrite Nat.add_0_r, Hq|].
    replace (attempt + S i)%nat with (S attempt + i)%nat by lia. by eapply IH. }
  assert (forall d o, opened (MkTrace [q] d o) !! i = Some p ->
    providers !! ((attempt + i) mod length providers)%nat = Some p) as Hlast.
  { intros d o H. destruct i as [|i]; cbn in H; [by rewrite Nat.add_0_r, Hq|done]. }
  destruct e as [|result ran]; [apply Hlast|]. destruct (HEALTHY_RUN_MS <=? ran); [apply Hnext|].
  cbn zeta. destruct (MAX_CONSECUTIVE_FAILURES <=? failures + 1); [apply Hlast|apply Hnext].
Qed.

Definition quick (e : AttemptEnd) : bool :=
  match e with Ended _ ran => ran <? HEALTHY_RUN_MS | UpstreamClosed => false end.

Lemma giving_up_run attempt failures err ends m :
  providers <> [] -> 0 <= failures < MAX_CONSECUTIVE_FAILURES ->
  outcome (supervise providers attempt failures err ends) = Some (Err m) ->
  exists before run after, ends = before ++ run ++ after /\ forallb quick run = true /\
    length (opened (supervise providers attempt failures err ends)) = length (before ++ run) /\
    (length run = 6%nat \/ (before = [] /\ failures + Z.of_nat (length run) = 6)).
Proof.
  intros Hne. assert (forall k, is_Some (provider_at providers k)) as Hp.
  { intros k. apply lookup_lt_is_Some_2, Nat.mod_upper_bound. destruct providers; [done|cbn; lia]. }
  unfold MAX_CONSECUTIVE_FAILURES. revert attempt failures err.
  induction ends as [|e ends IH]; intros attempt failures err Hf; [done|]. cbn.
  destruct (Hp attempt) as [q ->]. destruct e as [|result ran]; [done|].
  destruct (Z.leb_spec HEALTHY_RUN_MS ran) as [Hh|Hq]; cbn.
  { intros Ho. apply IH in Ho as (before & run & after & -> & Hr & Hl & Hn); [|lia].
    exists (Ended result ran :: before), run, after. split_and!; [done|done|cbn; by rewrite Hl|].
    left. destruct Hn as [|[_ ?]]; lia. }
  unfold MAX_CONSECUTIVE_FAILURES. destruct (Z.leb_spec 6 (failures + 1)); cbn.
  { intros _. exists [], [Ended result ran], ends. split_and!; [done| |done|].
    - cbn. by rewrite (proj2 (Z.ltb_lt _ _)).
    - right. cbn. split; [done|lia]. }
  intros Ho. apply IH in Ho as (before & run & after & -> & Hr & Hl & Hn); [|lia].
  destruct Hn as [Hn|[-> Hn]].
  - exists (Ended result ran :: before), run, after. split_and!; [done|done|cbn; by rewrite Hl|by left].
  - exists [], (Ended result ran :: run), after. split_and!; [done| |cbn in *; by rewrite Hl|].
    + cbn. by rewrite (proj2 (Z.ltb_lt _ _)).
    + right. split; [done|]. cbn [length]. lia.
Qed.

(** the call is given up only when nothing works: the supervisor returns an error only
    after six attempts in a row that each ended within ten seconds, it opens the providers
    in rotation, and with at most six providers every one of them has been tried by then. *)
Theorem failover_tries_everyone (ends : list AttemptEnd) (m : string) :
  providers <> [] -> outcome (run_failover_core providers ends) = Some (Err m) ->
  (exists before run after, ends = before ++ run ++ after /\ length run = 6%nat /\ forallb quick run = true) /\
  (forall i p, opened (run_failover_core providers ends) !! i = Some p ->
               providers !! (i mod length providers)%nat = Some p) /\
  ((length providers <= 6)%nat -> forall p, p ∈ providers -> p ∈ opened (run_failover_core providers ends)).
Proof.
  intros Hne Ho. assert (run_failover_core providers ends = supervise providers 0 0 "no STT provider available" ends) as E
    by (unfold run_failover_core; by destruct providers).
  rewrite E in *. destruct (giving_up_run 0 0 _ ends m Hne ltac:(done) Ho) as (before & run & after & Ee & Hq & Hl & Hn).
  assert (length run = 6%nat) as H6 by (destruct Hn as [|[_ ?]]; lia). split_and!.
  - by exists before, run, after.
  - intros i p Hi. by apply (opened_in_rotation 0 0 "no STT provider available" ends i p Hne Hi).
  - intros H p Hp. apply list_elem_of_lookup in Hp as [j Hj]. pose proof (lookup_lt_Some _ _ _ Hj) as Hj'.
    destruct (lookup_lt_is_Some_2 (opened (supervise providers 0 0 "no STT provider available" ends)) j) as [q Hq'].
    { rewrite Hl, length_app. lia. }
    pose proof (opened_in_rotation 0 0 _ ends j q Hne Hq') as Hrot. cbn [Nat.add] in Hrot.
    rewrite Nat.mod_small, Hj in Hrot by done. simplify_eq. by eapply list_elem_of_lookup_2.
Qed.
End failover.

Module media_examples.
Import vad lang_policy stt_failover.

Example mulaw_samples :
  codec.decode_frame (codec.encode_frame [0; 1000; -1000; 32767]) = [0; 988; -988; 32124].
Proof. vm_refl. Qed.

Lemma mulaw_accuracy_witness :
  32 * Z.abs (codec.decode_mulaw_byte (codec.encode_mulaw_sample 1000) - 1000) <= 1132 /\
  codec.encode_mulaw_sample (codec.decode_mulaw_byte 42) = 42.
Proof. destruct mulaw_accuracy as [H1 H2]. split; [apply (H1 1000); lia|apply (H2 42); lia]. Defined.

(** A 200 Hz square-like frame of 160 samples, twice: loud enough for a barge-in. *)
Definition loud : list Z := mjoin (replicate 4 (replicate 20 9000 ++ replicate 20 (-9000))).

Example barge_in_after_two_frames :
  (fun v => (is_barge_in 40 true v, is_barge_in 60 true v, is_barge_in 40 false v, is_utterance_end 20 v))
    (run_frames (vad.new 2) [replicate 160 0; loud; loud]).2 = (true, false, false, false).
Proof. vm_refl. Qed.

Definition vi : list Z := [118; 105].
Definition en : list Z := [101; 110].
Definition ascii_lower (l : list Z) : list Z := (fun c => if (65 <=? c) && (c <=? 90) then c + 32 else c) <$> l.
Definition ok : list Z := [111; 107].
Definition sentence : list Z := [97; 32; 98; 32; 99].

(** One short utterance does not switch the language, the second does, a sentence at once. *)
Example language_switches :
  let p := lang_policy.new (Some en) true in
  let p1 := observe ascii_lower (Some vi) ok p in
  let p2 := observe ascii_lower (Some vi) ok p1.2 in
  let p3 := observe ascii_lower (Some vi) sentence p in
  (current p1.2, current p2.2, changed p2.1, current p3.2) = (Some en, Some vi, true, Some vi).
Proof. cbv zeta. vm_refl. Qed.

Lemma switch_needs_evidence_witness :
  current (observe ascii_lower (Some vi) ok (lang_policy.new (Some en) true)).2 = Some en.
Proof.
  pose proof (switch_needs_evidence ascii_lower (Some vi) ok (lang_policy.new (Some en) true) eq_refl) as H.
  destruct (observe ascii_lower (Some vi) ok (lang_policy.new (Some en) true)) as [dec p'] eqn:E.
  destruct H as (_ & _ & _ & H & _). apply H.
  assert (changed (observe ascii_lower (Some vi) ok (lang_policy.new (Some en) true)).1 = false) as Hc by vm_refl.
  by rewrite E in Hc.
Defined.

Definition down : AttemptEnd := Ended (Err "down"%string) 100.

Lemma failover_tries_everyone_witness :
  outcome (run_failover_core [ElevenLabs; Deepgram] (replicate 6 down)) = Some (Err "down"%string) /\
  Deepgram ∈ opened (run_failover_core [ElevenLabs; Deepgram] (replicate 6 down)).
Proof.
  split; [vm_refl|].
  destruct (failover_tries_everyone [ElevenLabs; Deepgram] (replicate 6 down) "down") as (_ & _ & H);
    [done|vm_refl|].
  apply H; [cbn; lia|]. right. by left.
Defined.

(** A primary that served the call for an hour and is closed by its vendor is not opened
    again next: the rotation goes on to the fallback. *)
Example healthy_close_rotates :
  opened (run_failover_core [ElevenLabs; Deepgram] [Ended (Ok tt) 3600000; UpstreamClosed]) = [ElevenLabs; Deepgram].
Proof. vm_refl. Qed.
End media_examples.
