(* ===== verification/SpeechText.v ===== *)
(** * services/media/session.rs: the text an agent speaks

    The deterministic clean-up of model output before it is spoken ([normalize_numbers_for_tts],
    [sanitize_for_tts]), the cutting of a streamed answer into sentences ([flush_sentences])
    and the feeder task of [run_response] around it, the voice map of a call and the wording
    of keypad turns.  Texts are lists of code points. *)

From stdpp Require Import base numbers list gmap strings.
From Stdlib Require Import ZArith Lia.
From S2P Require Import Prelude.

Module tts_text.
Import unicode.
Notation text := (list Z) (only parsing).

Definition is_ascii_digit (c : Z) : bool := (48 <=? c) && (c <=? 57).
Definition is_ascii_alphabetic (c : Z) : bool := ((65 <=? c) && (c <=? 90)) || ((97 <=? c) && (c <=? 122)).
Definition ascii_lower (l : text) : text := (fun c => if (65 <=? c) && (c <=? 90) then c + 32 else c) <$> l.

(** The code points at the head that satisfy [p], and the rest. *)
Fixpoint span (p : Z -> bool) (l : text) : text * text :=
  match l with
  | [] => ([], [])
  | c :: t => if p c then let '(a, b) := span p t in (c :: a, b) else ([], l)
  end.

Definition spoken_period (word : text) : option text :=
  let any := existsb (fun w => bool_decide (word = of_string w)) in
  if any ["mo"; "month"; "months"]%string then Some (of_string "per month")
  else if any ["yr"; "yrs"; "year"; "years"]%string then Some (of_string "per year")
  else if any ["wk"; "week"; "weeks"]%string then Some (of_string "per week")
  else if any ["hr"; "hrs"; "hour"; "hours"]%string then Some (of_string "per hour")
  else if any ["day"; "days"]%string then Some (of_string "per day")
  else if any ["min"; "minute"; "minutes"]%string then Some (of_string "per minute")
  else None.

(** The number after a dollar sign: spaces skipped, commas dropped, a fraction only if a
    digit follows the point. *)
Definition dollar_amount (l : text) : text * text :=
  let '(_, l) := span (fun c => c =? 32) l in
  let '(whole, l) := span (fun c => is_ascii_digit c || (c =? 44)) l in
  let num := List.filter is_ascii_digit whole in
  match l with
  | 46 :: ((d :: _) as t) =>
      if is_ascii_digit d then let '(frac, l) := span is_ascii_digit t in (num ++ 46 :: frac, l) else (num, l)
  | _ => (num, l)
  end.

Definition is_digit_opt (o : option Z) : bool := match o with Some c => is_ascii_digit c | None => false end.

(** The loop: [before] is [chars[i - 1]], [l] is [chars[i..]]. *)
Fixpoint normalize_from (fuel : nat) (before : option Z) (l out : text) : text :=
  match fuel, l with
  | S fuel, c :: t =>
      if c =? 36
      then match dollar_amount t with
           | ([], _) => normalize_from fuel (Some c) t out
           | (num, rest) =>
               normalize_from fuel (last (take (length (c :: t) - length rest) (c :: t))) rest (out ++ num ++ of_string " dollars")
           end
      else if (c =? 44) && is_digit_opt before && is_digit_opt (head t)
      then normalize_from fuel (Some c) t out
      else
        let '(word, rest) := span is_ascii_alphabetic t in
        match (if (c =? 47) && negb (bool_decide (word = [])) then spoken_period (ascii_lower word) else None) with
        | Some rep =>
            let out := if bool_decide (last out = Some 32) then out else out ++ [32] in
            normalize_from fuel (last word) rest (out ++ rep)
        | None => normalize_from fuel (Some c) t (out ++ [c])
        end
  | _, _ => out
  end.

Definition normalize_numbers_for_tts (s : text) : text := normalize_from (length s) None s [].

(** [matches!(c, '.' | '?' | ',' | ';' | ':' | '…')] *)
Definition is_punct (c : Z) : bool := existsb (Z.eqb c) [46; 63; 44; 59; 58; 0x2026].

Definition calm (ch : Z) : Z :=
  if ch =? 33 then 46 else if existsb (Z.eqb ch) [42; 35; 95; 96] then 32 else ch.

Fixpoint collapse (prev_punct : bool) (l : text) : text :=
  match l with
  | [] => []
  | ch :: t =>
      let c := calm ch in
      if is_punct c && prev_punct then collapse prev_punct t else c :: collapse (is_punct c) t
  end.

Definition sanitize_for_tts (s : text) : text := trim (collapse false (normalize_numbers_for_tts s)).

(** *** Sentences *)

(** [matches!(c, '.' | '!' | '?' | '\n' | '…' | ';')] *)
Definition is_terminator (c : Z) : bool := existsb (Z.eqb c) [46; 33; 63; 10; 0x2026; 59].

(** [String::len], in bytes. *)
Definition byte_len (l : text) : Z := Zsum_with len_utf8 l.

(** The position after the first terminator. *)
Fixpoint sentence_end (i : nat) (l : text) : option nat :=
  match l with
  | [] => None
  | c :: t => if is_terminator c then Some (S i) else sentence_end (S i) t
  end.

(** The position of the white space after the first [early_words] words. *)
Fixpoint early_end (early_words words : nat) (in_word : bool) (i : nat) (l : text) : option nat :=
  match l with
  | [] => None
  | c :: t =>
      if is_whitespace c
      then if in_word
           then if (early_words <=? S words)%nat then Some i else early_end early_words (S words) false (S i) t
           else early_end early_words words false (S i) t
      else early_end early_words words true (S i) t
  end.

(** The channel to the engine: what was sent, and after how many texts it closes. *)
Record Sink : Type := MkSink { spoken : list text; closes_after : option nat }.

Definition send (t : text) (tx : Sink) : option Sink :=
  if match closes_after tx with Some n => (n <=? length (spoken tx))%nat | None => false end then None
  else Some (MkSink (spoken tx ++ [t]) (closes_after tx)).

(** The next piece of the buffer, if one is due. *)
Definition next_cut (early_words : nat) (first_done : bool) (buf : text) : option nat :=
  match sentence_end 0 buf with
  | Some n => Some n
  | None => match (if negb first_done && (0 <? early_words)%nat then early_end early_words 0 false 0 buf else None) with
            | Some n => Some n
            | None => if 160 <? byte_len buf then Some (length buf) else None
            end
  end.

(** [flush_sentences]: the remaining buffer, [first_done], the sink, and whether it is open. *)
Fixpoint flush_sentences (fuel early_words : nat) (first_done : bool) (buf : text) (tx : Sink)
    : option (text * bool * Sink * bool) :=
  match fuel with
  | O => None
  | S fuel =>
      match next_cut early_words first_done buf with
      | None => Some (buf, first_done, tx, true)
      | Some n =>
          match sanitize_for_tts (trim (take n buf)) with
          | [] => flush_sentences fuel early_words first_done (drop n buf) tx
          | trimmed => match send trimmed tx with
                       | None => Some (drop n buf, true, tx, false)
                       | Some tx => flush_sentences fuel early_words true (drop n buf) tx
                       end
          end
      end
  end.

(** *** The feeder task of [run_response] *)

Inductive TurnEvent :=
  | VoiceId (v : text)
  | Delta (d : text)
  | Done (full_answer : text)
  | Error (e : text).

Record Feeder : Type := MkFeeder {
  buf : text;
  full : text;
  first_done : bool;
  tts_open : bool;
  text_tx : Sink;
}.

Definition flush (early_words : nat) (f : Feeder) : option Feeder :=
  match flush_sentences (S (length (buf f))) early_words (first_done f) (buf f) (text_tx f) with
  | None => None
  | Some (b, d, tx, ok) => Some (MkFeeder b (full f) d ok tx)
  end.

Definition feed (early_words : nat) (d : text) (f : Feeder) : option Feeder :=
  let f := MkFeeder (buf f) (full f ++ d) (first_done f) (tts_open f) (text_tx f) in
  if tts_open f
  then flush early_words (MkFeeder (buf f ++ d) (full f) (first_done f) (tts_open f) (text_tx f))
  else Some f.

Fixpoint feed_events (early_words : nat) (rx : list TurnEvent) (f : Feeder) : option Feeder :=
  match rx with
  | [] => Some f
  | Delta d :: rx => match feed early_words d f with Some f => feed_events early_words rx f | None => None end
  | (Done _ | Error _) :: _ => Some f
  | VoiceId _ :: rx => feed_events early_words rx f
  end.

(** The texts handed to the engine and the complete answer. *)
Definition feeder (early_words : nat) (pending : option TurnEvent) (rx : list TurnEvent) (tx : Sink) : option (Sink * text) :=
  let first := match pending with Some (Delta d) => d | _ => [] end in
  match flush early_words (MkFeeder first first false true tx) with
  | None => None
  | Some f =>
      match feed_events early_words rx f with
      | None => None
      | Some f =>
          let tx := if tts_open f
                    then match trim (buf f) with [] => text_tx f | rest => default (text_tx f) (send rest (text_tx f)) end
                    else text_tx f in
          Some (tx, trim (full f))
      end
  end.

(** *** The voices of a call, keypad turns *)
Section voices.
(** [str::to_lowercase] *)
Variable lower : text -> text.

Definition voice_entry (entry : text) : option (text * text) :=
  match split_once 58 entry with
  | None => None
  | Some (lang, voice) =>
      let lang := lower (trim lang) in
      let voice := trim voice in
      if negb (bool_decide (lang = [])) && negb (bool_decide (voice = [])) then Some (lang, voice) else None
  end.

Definition parse_voice_map (raw : option text) : gmap text text :=
  match raw with
  | None => ∅
  | Some raw =>
      foldl (fun map entry => match voice_entry entry with Some (l, v) => <[l := v]> map | None => map end)
        ∅ (split_by (fun c => c =? 44) raw)
  end.
End voices.

(** [join(" ")] *)
Definition join_spaces (l : list text) : text :=
  match l with [] => [] | w :: ws => w ++ mjoin ((fun x => 32 :: x) <$> ws) end.

Definition format_dtmf_turn (digits : text) : text :=
  of_string "[The caller pressed these keys on their phone keypad: " ++
  join_spaces ((fun c => [c]) <$> digits) ++ of_string "]".
End tts_text.

(** ** Numbers and symbols *)
Section text_theorems.
Import unicode tts_text.

Abbreviation digits_of l := (List.filter is_ascii_digit l).

Lemma span_spec p l a b : span p l = (a, b) -> l = a ++ b /\ Forall (fun c => p c = true) a.
Proof.
  revert a b. induction l as [|c l IH]; intros a b; cbn; [by intros [= <- <-]|].
  destruct (p c) eqn:Hc; [|by intros [= <- <-]].
  destruct (span p l) as [a' b']. destruct (IH a' b' eq_refl) as [-> H]. intros [= <- <-]. split; [done|by constructor].
Qed.

Lemma digits_app a b : digits_of (a ++ b) = digits_of a ++ digits_of b.
Proof. apply List.filter_app. Qed.

Lemma digits_none a : Forall (fun c => is_ascii_digit c = false) a -> digits_of a = [].
Proof. induction 1 as [|c l Hc _ IH]; [done|]. cbn. by rewrite Hc. Qed.

Lemma digits_filter a : digits_of (digits_of a) = digits_of a.
Proof. induction a as [|c l IH]; [done|]. cbn. destruct (is_ascii_digit c) eqn:E; cbn; [by rewrite E, IH|done]. Qed.

(** A text without dollar sign. *)
Definition no_dollar (l : list Z) : Prop := Forall (fun c => (c =? 36) = false) l.

Lemma no_dollar_digits p l : (forall c, p c = true -> (c =? 36) = false) -> Forall (fun c => p c = true) l -> no_dollar l.
Proof. intros H Hl. eapply Forall_impl; [exact Hl|done]. Qed.

Lemma digit_not_dollar c : is_ascii_digit c = true -> (c =? 36) = false.
Proof. unfold is_ascii_digit. lia. Qed.

Lemma filtered (p : Z -> bool) l : Forall (fun c => p c = true) (List.filter p l).
Proof. induction l as [|c l IH]; cbn; [done|]. destruct (p c) eqn:E; [by constructor|done]. Qed.

(** The amount has the digits of what it replaces. *)
Lemma dollar_amount_spec l num rest :
  dollar_amount l = (num, rest) ->
  exists pre, l = pre ++ rest /\ digits_of num = digits_of pre /\ no_dollar num /\ (num <> [] -> pre <> []).
Proof.
  unfold dollar_amount. destruct (span _ l) as [sp l1] eqn:E1. apply span_spec in E1 as [-> H1].
  destruct (span _ l1) as [whole l2] eqn:E2. apply span_spec in E2 as [-> H2].
  assert (digits_of sp = []) as Hsp.
  { apply digits_none. eapply Forall_impl; [exact H1|]. cbn. unfold is_ascii_digit. intros c. lia. }
  assert (no_dollar (digits_of whole)) as Hw by apply (no_dollar_digits _ _ digit_not_dollar), filtered.
  assert ((digits_of whole, l2) = (num, rest) -> exists pre, sp ++ whole ++ l2 = pre ++ rest /\
    digits_of num = digits_of pre /\ no_dollar num /\ (num <> [] -> pre <> [])) as Hplain.
  { intros [= <- <-]. exists (sp ++ whole). rewrite <- app_assoc, digits_app, Hsp, digits_filter. split_and!; try done.
    intros Hne [-> ->]%app_nil. done. }
  destruct l2 as [|c l2]; [done|]. destruct (decide (c = 46)) as [->|Hc]; [|by repeat (case_match; try done)].
  destruct l2 as [|d t]; [done|]. destruct (is_ascii_digit d) eqn:Hd; [|done].
  destruct (span is_ascii_digit (d :: t)) as [frac l3] eqn:E3. apply span_spec in E3 as [E3 H3]. rewrite E3.
  intros [= <- <-]. exists (sp ++ whole ++ 46 :: frac). split_and!.
  - by rewrite <- !app_assoc.
  - rewrite !digits_app, Hsp, digits_filter. done.
  - apply Forall_app; split; [done|]. constructor; [done|]. eapply Forall_impl; [exact H3|]. apply digit_not_dollar.
  - intros _. destruct sp; [|done]. by destruct whole.
Qed.

Lemma spoken_period_spec w rep : spoken_period w = Some rep -> digits_of rep = [] /\ no_dollar rep.
Proof.
  unfold spoken_period.
  repeat (match goal with |- (if ?b then _ else _) = _ -> _ => destruct b end;
    [intros [= <-]; split; [done|by repeat constructor]|]). done.
Qed.

Lemma normalize_from_spec fuel before l out :
  (length l <= fuel)%nat ->
  digits_of (normalize_from fuel before l out) = digits_of out ++ digits_of l /\
  (no_dollar out -> no_dollar (normalize_from fuel before l out)).
Proof.
  revert before l out. induction fuel as [|fuel IH]; intros before l out Hl.
  { destruct l; [|cbn in Hl; lia]. cbn. by rewrite app_nil_r. }
  destruct l as [|c t]; [cbn; by rewrite app_nil_r|]. cbn [normalize_from]. cbn [length] in Hl.
  assert (forall b (out' : list Z), digits_of out' ++ digits_of t = digits_of out ++ digits_of (c :: t) ->
    (no_dollar out -> no_dollar out') ->
    digits_of (normalize_from fuel b t out') = digits_of out ++ digits_of (c :: t) /\
    (no_dollar out -> no_dollar (normalize_from fuel b t out'))) as Hone.
  { intros b out' Hd Hn. destruct (IH b t out' ltac:(lia)) as [-> H]. auto. }
  destruct (Z.eqb_spec c 36) as [->|Hc].
  { destruct (dollar_amount t) as [num rest] eqn:E. apply dollar_amount_spec in E as (pre & -> & Hd & Hn & Hp).
    destruct num as [|n num]; [by apply Hone|].
    destruct (IH (last (take (length (36 :: pre ++ rest) - length rest) (36 :: pre ++ rest))) rest
      (out ++ (n :: num) ++ of_string " dollars")) as [E1 E2].
    { rewrite length_app in Hl. lia. }
    rewrite E1. split.
    - rewrite !digits_app, Hd. cbn [List.filter is_ascii_digit]. rewrite digits_app. cbn. by rewrite app_nil_r, <- app_assoc.
    - intros Ho. apply E2. apply Forall_app; split; [done|]. apply Forall_app; split; [done|]. by repeat constructor. }
  destruct ((c =? 44) && is_digit_opt before && is_digit_opt (head t)) eqn:Hcomma.
  { apply Hone; [|done]. destruct (Z.eqb_spec c 44) as [->|]; done. }
  destruct (span is_ascii_alphabetic t) as [word rest] eqn:Es. apply span_spec in Es as [-> Hw].
  assert (forall w : list Z, Forall (fun c => is_ascii_alphabetic c = true) w -> digits_of w = []) as Halpha.
  { intros w H. apply digits_none. eapply Forall_impl; [exact H|]. cbn. unfold is_ascii_alphabetic, is_ascii_digit. intros x. lia. }
  assert (no_dollar (out ++ [c]) <-> no_dollar out) as Hplain.
  { unfold no_dollar. rewrite Forall_app, Forall_singleton. intuition. by apply Z.eqb_neq. }
  match goal with |- context [match ?x with Some _ => _ | None => _ end] => destruct x as [rep|] eqn:Er end.
  - destruct (Z.eqb_spec c 47) as [->|]; [|done]. destruct (negb _); [|done]. cbn in Er.
    apply spoken_period_spec in Er as [Hd Hn].
    destruct (IH (last word) rest ((if bool_decide (last out = Some 32) then out else out ++ [32]) ++ rep)) as [E1 E2].
    { rewrite length_app in Hl. lia. }
    rewrite E1. split.
    + rewrite digits_app, Hd, app_nil_r. cbn. rewrite digits_app, (Halpha word) by done.
      case_bool_decide; [done|]. rewrite digits_app. cbn. by rewrite app_nil_r.
    + intros Ho. apply E2. apply Forall_app; split; [|done]. case_bool_decide; [done|]. apply Forall_app; split; [done|]. by repeat constructor.
  - apply Hone; [|by rewrite Hplain]. rewrite digits_app. cbn. destruct (is_ascii_digit c); cbn; by rewrite <- ?app_assoc, ?app_nil_r.
Qed.

(** Two neighbours are not both marks. *)
Definition no_double_mark (l : list Z) : Prop :=
  forall i a b, l !! i = Some a -> l !! S i = Some b -> is_punct a && is_punct b = false.

(** What [sanitize_for_tts] removes or replaces: dollar, exclamation mark, asterisk, hash,
    underscore and backquote. *)
Definition speakable (c : Z) : bool := negb (existsb (Z.eqb c) [36; 33; 42; 35; 95; 96]).

Lemma calm_digit c : is_ascii_digit (calm c) = is_ascii_digit c.
Proof.
  unfold calm, is_ascii_digit. cbn [existsb].
  destruct (Z.eqb_spec c 33) as [->|]; [done|].
  destruct (Z.eqb_spec c 42) as [->|]; [done|]. destruct (Z.eqb_spec c 35) as [->|]; [done|].
  destruct (Z.eqb_spec c 95) as [->|]; [done|]. destruct (Z.eqb_spec c 96) as [->|]; done.
Qed.

Lemma calm_digit_id c : is_ascii_digit c = true -> calm c = c.
Proof.
  unfold is_ascii_digit, calm. cbn [existsb]. intros H.
  by repeat (rewrite (proj2 (Z.eqb_neq c _)) by lia).
Qed.

Lemma calm_speakable c : (c =? 36) = false -> speakable (calm c) = true.
Proof.
  unfold calm, speakable. cbn [existsb]. intros H.
  destruct (Z.eqb_spec c 33) as [->|]; [done|].
  destruct (Z.eqb_spec c 42) as [->|]; [done|]. destruct (Z.eqb_spec c 35) as [->|]; [done|].
  destruct (Z.eqb_spec c 95) as [->|]; [done|]. destruct (Z.eqb_spec c 96) as [->|]; [done|]. cbn.
  rewrite H. repeat (rewrite (proj2 (Z.eqb_neq _ _)) by done). done.
Qed.

Lemma punct_not_digit c : is_punct c = true -> is_ascii_digit c = false.
Proof.
  unfold is_punct. cbn [existsb]. rewrite !orb_true_iff, !Z.eqb_eq. unfold is_ascii_digit. intros H. lia.
Qed.

Lemma collapse_spec prev l :
  digits_of (collapse prev l) = digits_of l /\ (no_dollar l -> Forall (fun c => speakable c = true) (collapse prev l)) /\
  no_double_mark (collapse prev l) /\
  (prev = true -> forall c, head (collapse prev l) = Some c -> is_punct c = false).
Proof.
  revert prev. induction l as [|c l IH]; intros prev; [by split_and!; try constructor|].
  cbn [collapse]. destruct (IH prev) as (H1 & H2 & H3 & H4).
  destruct (is_punct (calm c) && prev) eqn:Hp.
  - apply andb_true_iff in Hp as [Hp ->]. split_and!; try done.
    + cbn. rewrite <- calm_digit, punct_not_digit by done. done.
    + intros H. apply Forall_cons in H as [_ H]. auto.
  - destruct (IH (is_punct (calm c))) as (K1 & K2 & K3 & K4). split_and!.
    + cbn [List.filter]. rewrite calm_digit, K1. destruct (is_ascii_digit c) eqn:E; [|done]. by rewrite calm_digit_id.
    + intros H. apply Forall_cons in H as [Hc H]. constructor; [by apply calm_speakable|auto].
    + intros [|i] a b Ha Hb; [|by apply (K3 i)]. injection Ha as <-. destruct (is_punct (calm c)) eqn:E; [|done].
      cbn [andb]. apply (K4 eq_refl). change (collapse true l !! 0%nat = Some b) in Hb. by destruct (collapse true l).
    + intros -> d [= <-]. by rewrite andb_true_r in Hp.
Qed.

Lemma space_not_digit c : is_whitespace c = true -> is_ascii_digit c = false.
Proof. unfold is_whitespace, is_ascii_digit. lia. Qed.

Lemma digits_trim l : digits_of (trim l) = digits_of l.
Proof.
  unfold trim. destruct (trim_by_spec is_whitespace l) as (a & b & E & Ha & Hb & _).
  rewrite E at 2. rewrite !digits_app, (digits_none a), (digits_none b), app_nil_r; [done| |];
    (eapply Forall_impl; [eassumption|apply space_not_digit]).
Qed.

Lemma digits_sanitized s : digits_of (sanitize_for_tts s) = digits_of s.
Proof.
  unfold sanitize_for_tts. rewrite digits_trim. destruct (collapse_spec false (normalize_numbers_for_tts s)) as [-> _].
  by destruct (normalize_from_spec (length s) None s [] ltac:(done)).
Qed.

(** whatever the model writes, the text handed to the engine has exactly its digits in
    their order, none of the symbols that break pronunciation, never two marks in a row and
    no white space at its ends. *)
Theorem sanitized_text_speakable (s : list Z) :
  digits_of (sanitize_for_tts s) = digits_of s /\
  Forall (fun c => speakable c = true) (sanitize_for_tts s) /\
  no_double_mark (sanitize_for_tts s) /\
  (forall c, head (sanitize_for_tts s) = Some c \/ last (sanitize_for_tts s) = Some c -> is_whitespace c = false).
Proof.
  destruct (normalize_from_spec (length s) None s [] ltac:(done)) as [_ Hn].
  fold (normalize_numbers_for_tts s) in Hn. specialize (Hn ltac:(constructor)).
  destruct (collapse_spec false (normalize_numbers_for_tts s)) as (_ & H2 & H3 & _).
  split; [apply digits_sanitized|]. unfold sanitize_for_tts. set (m := collapse false _) in *. split_and!.
  - destruct (trim_by_spec is_whitespace m) as (a & b & E & _). specialize (H2 Hn). rewrite E in H2.
    by apply Forall_app in H2 as [_ [H2 _]%Forall_app].
  - destruct (trim_by_spec is_whitespace m) as (a & b & E & _). intros i x y Hx Hy. apply (H3 (length a + i)%nat).
    + rewrite E, lookup_app_r by lia. replace (length a + i - length a)%nat with i by lia. by apply lookup_app_l_Some.
    + rewrite E, lookup_app_r by lia. replace (S (length a + i) - length a)%nat with (S i) by lia. by apply lookup_app_l_Some.
  - intros c Hc. destruct (trim_by_spec is_whitespace m) as (_ & _ & _ & _ & _ & Hh & Hl). destruct Hc; auto.
Qed.

(** ** Sentences *)

Lemma sentence_end_spec i l n :
  sentence_end i l = Some n ->
  (i < n <= i + length l)%nat /\
  exists c, take (n - i) l = take (n - i - 1) l ++ [c] /\ is_terminator c = true /\
    Forall (fun c => is_terminator c = false) (take (n - i - 1) l).
Proof.
  revert i. induction l as [|c l IH]; intros i; [done|]. cbn [sentence_end length]. destruct (is_terminator c) eqn:E.
  - intros [= <-]. split; [lia|]. exists c. replace (S i - i)%nat with 1%nat by lia. cbn [take Nat.sub app].
    rewrite take_0. split_and!; try done.
  - intros H. destruct (IH (S i) H) as (Hr & d & Ht & Hd & Hf). split; [lia|]. exists d.
    replace (n - i - 1)%nat with (S (n - S i - 1)) by lia. replace (n - i)%nat with (S (n - S i)) by lia. cbn [take app].
    rewrite Ht. split_and!; [done..|by constructor].
Qed.

Lemma sentence_end_none i l : sentence_end i l = None -> Forall (fun c => is_terminator c = false) l.
Proof. revert i. induction l as [|c l IH]; intros i; [done|]. cbn [sentence_end]. destruct (is_terminator c) eqn:E; [done|]. constructor; eauto. Qed.

(** The number of words of a text, [in_word] when one has begun before it. *)
Fixpoint words (in_word : bool) (l : list Z) : nat :=
  match l with
  | [] => if in_word then 1 else 0
  | c :: l => if is_whitespace c then ((if in_word then 1 else 0) + words false l)%nat else words true l
  end.

Lemma early_end_spec ew w (in_word : bool) i l n :
  (w < ew)%nat -> early_end ew w in_word i l = Some n ->
  (i + (if in_word then 0 else 1) <= n <= i + length l)%nat /\ (w + words in_word (take (n - i) l) = ew)%nat.
Proof.
  revert w in_word i. induction l as [|c l IH]; intros w in_word i Hw; [done|]. cbn [early_end length].
  destruct (is_whitespace c) eqn:Ec.
  - destruct in_word; [destruct (Nat.leb_spec ew (S w))|].
    + intros [= <-]. rewrite Nat.sub_diag. cbn. lia.
    + intros H'. destruct (IH (S w) false (S i) ltac:(lia) H') as [Hn Hs]. split; [lia|].
      replace (n - i)%nat with (S (n - S i)) by lia. cbn [take words]. rewrite Ec. lia.
    + intros H'. destruct (IH _ _ _ Hw H') as [Hn Hs]. split; [lia|].
      replace (n - i)%nat with (S (n - S i)) by lia. cbn [take words]. rewrite Ec. lia.
  - intros H'. destruct (IH _ _ _ Hw H') as [Hn Hs]. split; [destruct in_word; lia|].
    replace (n - i)%nat with (S (n - S i)) by lia. cbn [take words]. rewrite Ec. lia.
Qed.

Lemma early_end_none ew w (in_word : bool) i l :
  (w < ew)%nat -> early_end ew w in_word i l = None -> (w + words in_word l <= ew)%nat.
Proof.
  revert w in_word i. induction l as [|c l IH]; intros w in_word i Hw; cbn [early_end words]; [destruct in_word; lia|].
  destruct (is_whitespace c).
  - destruct in_word; [destruct (Nat.leb_spec ew (S w)); [done|]|]; intros H'%IH; lia.
  - intros H'%IH; lia.
Qed.

(** What a piece is: a sentence up to its first terminator; before anything was spoken, the
    first [ew] words of a sentence that goes on; or more than 160 bytes without a terminator
    (before anything was spoken, of at most [ew] words). *)
Inductive piece_ok (ew : nat) (first_done : bool) (p : list Z) : Prop :=
  | Sentence q c : p = q ++ [c] -> is_terminator c = true -> Forall (fun c => is_terminator c = false) q -> piece_ok ew first_done p
  | Opening : first_done = false -> (0 < ew)%nat -> words false p = ew -> Forall (fun c => is_terminator c = false) p ->
      piece_ok ew first_done p
  | Long : 160 < byte_len p -> Forall (fun c => is_terminator c = false) p ->
      (first_done = false -> (0 < ew)%nat -> (words false p <= ew)%nat) -> piece_ok ew first_done p.

Lemma next_cut_spec ew fd b n : next_cut ew fd b = Some n -> (0 < n <= length b)%nat /\ piece_ok ew fd (take n b).
Proof.
  unfold next_cut. destruct (sentence_end 0 b) as [k|] eqn:E.
  { intros [= <-]. apply sentence_end_spec in E as (Hr & c & Ht & Hc & Hf). rewrite Nat.sub_0_r in *. split; [lia|]. by eapply Sentence. }
  apply sentence_end_none in E.
  assert (match (if 160 <? byte_len b then Some (length b) else None) with
          | Some m => m = length b /\ 160 < byte_len b | None => True end) as Hlong by (by destruct (Z.ltb_spec 160 (byte_len b))).
  assert ((fd = false -> (0 < ew)%nat -> (words false b <= ew)%nat) ->
          (if 160 <? byte_len b then Some (length b) else None) = Some n -> (0 < n <= length b)%nat /\ piece_ok ew fd (take n b)) as Hl.
  { intros Hw Hn. rewrite Hn in Hlong. destruct Hlong as [-> Hb]. split; [destruct b; [done|cbn; lia]|].
    rewrite firstn_all. by apply Long. }
  destruct fd, (Nat.ltb_spec 0 ew) as [Hew|]; cbn [negb andb]; try (apply Hl; intros; (done || lia)).
  destruct (early_end ew 0 false 0 b) as [m|] eqn:Ee.
  - intros [= <-]. apply early_end_spec in Ee as [Hm Hs]; [|done]. rewrite Nat.sub_0_r in Hs. split; [lia|].
    apply Opening; try done. by apply Forall_take.
  - apply early_end_none in Ee; [|done]. apply Hl. intros; lia.
Qed.

Lemma next_cut_none ew fd b : next_cut ew fd b = None ->
  Forall (fun c => is_terminator c = false) b /\ byte_len b <= 160 /\
  (fd = false -> (0 < ew)%nat -> (words false b <= ew)%nat).
Proof.
  unfold next_cut. destruct (sentence_end 0 b) eqn:E; [done|]. intros H. split; [by eapply sentence_end_none|].
  destruct fd, (Nat.ltb_spec 0 ew); cbn [negb andb] in H; [..|destruct (early_end ew 0 false 0 b) eqn:Ee; [done|apply early_end_none in Ee; [|done]]|];
    (destruct (Z.ltb_spec 160 (byte_len b)); [done|]); (split; [lia|intros; (done || lia)]).
Qed.

(** What is said of some pieces. *)
Definition said (pieces : list (list Z)) : list (list Z) :=
  List.filter (fun t => negb (bool_decide (t = []))) ((fun p => sanitize_for_tts (trim p)) <$> pieces).

Lemma said_cons p l : said (p :: l) = said [p] ++ said l.
Proof. unfold said. cbn. by destruct (bool_decide _). Qed.
Lemma said_one p : said [p] = match sanitize_for_tts (trim p) with [] => [] | t => [t] end.
Proof. unfold said. cbn [fmap list_fmap List.filter]. by destruct (sanitize_for_tts (trim p)). Qed.
Lemma said_app l k : said (l ++ k) = said l ++ said k.
Proof. unfold said. by rewrite fmap_app, List.filter_app. Qed.

(** Whether something was spoken, and the pieces in their order. *)
Definition spoke (fd : bool) (pieces : list (list Z)) : bool := fd || negb (bool_decide (said pieces = [])).
Fixpoint pieces_ok (ew : nat) (fd : bool) (pieces : list (list Z)) : Prop :=
  match pieces with
  | [] => True
  | p :: ps => piece_ok ew fd p /\ pieces_ok ew (spoke fd [p]) ps
  end.

Lemma spoke_app fd l k : spoke fd (l ++ k) = spoke (spoke fd l) k.
Proof. unfold spoke. rewrite said_app. destruct fd, (said l); [done..| |done]. by destruct (said k). Qed.

Lemma pieces_ok_app ew fd l k : pieces_ok ew fd l -> pieces_ok ew (spoke fd l) k -> pieces_ok ew fd (l ++ k).
Proof.
  revert fd. induction l as [|p l IH]; intros fd; cbn [pieces_ok app].
  - by replace (spoke fd []) with fd by (unfold spoke; cbn; by destruct fd).
  - intros [Hp Hl] Hk. split; [done|]. apply IH; [done|]. change (p :: l) with ([p] ++ l) in Hk. by rewrite spoke_app in Hk.
Qed.

Lemma flush_spec fuel ew fd b tx :
  (length b < fuel)%nat -> closes_after tx = None ->
  exists pieces b' fd', flush_sentences fuel ew fd b tx = Some (b', fd', MkSink (spoken tx ++ said pieces) None, true) /\
    b = mjoin pieces ++ b' /\ pieces_ok ew fd pieces /\ fd' = spoke fd pieces /\ next_cut ew fd' b' = None.
Proof.
  revert fd b tx. induction fuel as [|fuel IH]; intros fd b tx Hl Ho; [lia|]. cbn [flush_sentences].
  destruct (next_cut ew fd b) as [n|] eqn:Hc.
  - apply next_cut_spec in Hc as [Hn Hp].
    assert (forall fd' tx', spoken tx' = spoken tx ++ said [take n b] -> closes_after tx' = None ->
      fd' = fd || negb (bool_decide (said [take n b] = [])) ->
      exists pieces b' fd'', flush_sentences fuel ew fd' (drop n b) tx' =
          Some (b', fd'', MkSink (spoken tx ++ said pieces) None, true) /\
        b = mjoin pieces ++ b' /\ pieces_ok ew fd pieces /\ fd'' = spoke fd pieces /\ next_cut ew fd'' b' = None) as Hgo.
    { intros fd' tx' Hs Hc' Hfd. destruct (IH fd' (drop n b) tx') as (ps & b' & fd'' & E & Eb & Hps & Hfd' & Hcut); [rewrite length_drop; lia|done|].
      exists (take n b :: ps), b', fd''. rewrite E, Hs. split_and!; [| |by cbn; unfold spoke at 1; rewrite <- Hfd| |done].
      - by rewrite (said_cons (take n b) ps), app_assoc.
      - change (mjoin (take n b :: ps)) with (take n b ++ mjoin ps). by rewrite <- app_assoc, <- Eb, take_drop.
      - rewrite Hfd', Hfd. symmetry. apply (spoke_app fd [take n b] ps). }
    rewrite said_one in Hgo.
    destruct (sanitize_for_tts (trim (take n b))) as [|c t] eqn:Es.
    + apply Hgo; [cbn; by rewrite app_nil_r|done|]. by destruct fd.
    + unfold send. rewrite Ho. apply Hgo; [done|done|]. by destruct fd.
  - exists [], b, fd. destruct tx as [l o]. cbn in *. subst o. rewrite app_nil_r. split_and!; [done..| |done]. by destruct fd.
Qed.

(** ** The feeder *)

(** The text of an answer: the deltas up to its end. *)
Fixpoint answer_text (rx : list TurnEvent) : list Z :=
  match rx with
  | [] | (Done _ | Error _) :: _ => []
  | Delta d :: rx => d ++ answer_text rx
  | VoiceId _ :: rx => answer_text rx
  end.

Lemma flush_open ew b fl fd l :
  exists pieces b' fd', flush ew (MkFeeder b fl fd true (MkSink l None)) =
      Some (MkFeeder b' fl fd' true (MkSink (l ++ said pieces) None)) /\
    b = mjoin pieces ++ b' /\ pieces_ok ew fd pieces /\ fd' = spoke fd pieces /\ next_cut ew fd' b' = None.
Proof.
  destruct (flush_spec (S (length b)) ew fd b (MkSink l None) ltac:(lia) eq_refl) as (ps & b' & fd' & E & H).
  exists ps, b', fd'. unfold flush. cbn [buf full first_done text_tx]. by rewrite E.
Qed.

Lemma feed_events_open ew rx b fl fd l :
  next_cut ew fd b = None ->
  exists pieces b' fd', feed_events ew rx (MkFeeder b fl fd true (MkSink l None)) =
      Some (MkFeeder b' (fl ++ answer_text rx) fd' true (MkSink (l ++ said pieces) None)) /\
    b ++ answer_text rx = mjoin pieces ++ b' /\ pieces_ok ew fd pieces /\ fd' = spoke fd pieces /\ next_cut ew fd' b' = None.
Proof.
  revert b fl fd l. induction rx as [|e rx IH]; intros b fl fd l Hc.
  all: assert (fd = spoke fd []) as Hn by (by destruct fd).
  { exists [], b, fd. cbn. rewrite !app_nil_r. split_and!; done. }
  destruct e as [v|d|a|x]; cbn [feed_events answer_text].
  - by apply IH.
  - unfold feed. cbn [buf full first_done tts_open text_tx].
    destruct (flush_open ew (b ++ d) (fl ++ d) fd l) as (p1 & b1 & fd1 & -> & E1 & Hp1 & Hf1 & Hc1).
    destruct (IH b1 (fl ++ d) fd1 (l ++ said p1) Hc1) as (p2 & b2 & fd2 & -> & E2 & Hp2 & Hf2 & Hc2). subst fd1.
    exists (p1 ++ p2), b2, fd2. rewrite said_app, <- !app_assoc. split_and!; [done| |by apply pieces_ok_app|by rewrite spoke_app|done].
    by rewrite join_app, <- app_assoc, <- E2, app_assoc, E1, app_assoc.
  - exists [], b, fd. cbn. rewrite !app_nil_r. split_and!; done.
  - exists [], b, fd. cbn. rewrite !app_nil_r. split_and!; done.
Qed.

Lemma digits_join l : digits_of (mjoin (said l)) = digits_of (mjoin l).
Proof.
  induction l as [|p l IH]; [done|]. rewrite said_cons, join_app, digits_app, IH.
  change (mjoin (p :: l)) with (p ++ mjoin l). rewrite digits_app. f_equal.
  unfold said. cbn [fmap list_fmap List.filter]. rewrite <- (digits_trim p), <- (digits_sanitized (trim p)).
  case_bool_decide as E; cbn [negb]; [by rewrite E|]. by rewrite join_single.
Qed.

(** C21: the answer is spoken completely and in order as long as the channel to the engine
    stays open: the streamed text is cut into pieces and a rest; a piece is a sentence up to
    its first terminator, or the first [ew] words of it when nothing was spoken before, or
    more than 160 bytes without a terminator; the rest has no terminator and at most 160
    bytes.  Each piece is spoken after the clean-up unless nothing is left of it, and the rest
    follows, trimmed only; no digit is lost; and the complete text is handed back for the
    fallback voice. *)
Theorem answer_spoken_completely (ew : nat) (pending : option TurnEvent) (rx : list TurnEvent) :
  let whole := (match pending with Some (Delta d) => d | _ => [] end) ++ answer_text rx in
  exists pieces rest,
    whole = mjoin pieces ++ rest /\ pieces_ok ew false pieces /\
    Forall (fun c => is_terminator c = false) rest /\ byte_len rest <= 160 /\
    (said pieces = [] -> (0 < ew)%nat -> (words false rest <= ew)%nat) /\
    feeder ew pending rx (MkSink [] None) =
      Some (MkSink (said pieces ++ (if bool_decide (trim rest = []) then [] else [trim rest])) None, trim whole) /\
    digits_of (mjoin (said pieces ++ (if bool_decide (trim rest = []) then [] else [trim rest]))) = digits_of whole.
Proof.
  cbv zeta. set (first := match pending with Some (Delta d) => d | _ => [] end). unfold feeder. fold first.
  destruct (flush_open ew first first false []) as (p1 & b1 & fd1 & -> & E1 & Hp1 & Hf1 & Hc1).
  destruct (feed_events_open ew rx b1 first fd1 ([] ++ said p1) Hc1) as (p2 & b2 & fd2 & -> & E2 & Hp2 & Hf2 & Hc2).
  subst fd1. rewrite <- spoke_app in Hf2.
  assert (first ++ answer_text rx = mjoin (p1 ++ p2) ++ b2) as E.
  { by rewrite join_app, <- app_assoc, <- E2, app_assoc, <- E1. }
  destruct (next_cut_none ew fd2 b2 Hc2) as (Ht & Hb & Hw).
  exists (p1 ++ p2), b2. split_and!; [done|by apply pieces_ok_app|done|done| | |].
  - intros Hs. apply Hw. rewrite Hf2. unfold spoke. by rewrite Hs.
  - cbn [tts_open buf full text_tx]. rewrite said_app. do 2 f_equal.
    destruct (trim b2) as [|c t]; [by rewrite app_nil_r|]. done.
  - rewrite join_app, digits_app, digits_join, E, digits_app. f_equal. rewrite <- (digits_trim b2).
    case_bool_decide as Hr; [by rewrite Hr|by rewrite join_single].
Qed.

(** Whatever happens to the channel, the feeder ends and hands back the complete answer. *)
Lemma flush_total fuel ew fd b tx : (length b < fuel)%nat -> is_Some (flush_sentences fuel ew fd b tx).
Proof.
  revert fd b tx. induction fuel as [|fuel IH]; intros fd b tx Hl; [lia|]. cbn [flush_sentences].
  destruct (next_cut ew fd b) as [n|] eqn:Hc; [|by eexists]. apply next_cut_spec in Hc as [Hn _].
  assert (length (drop n b) < fuel)%nat by (rewrite length_drop; lia).
  destruct (sanitize_for_tts _); [by apply IH|]. destruct (send _ tx); [by apply IH|by eexists].
Qed.

Lemma flush_full ew f : exists f', flush ew f = Some f' /\ full f' = full f.
Proof.
  unfold flush. destruct (flush_total (S (length (buf f))) ew (first_done f) (buf f) (text_tx f) ltac:(lia)) as [[[[b d] tx] ok] ->].
  by eexists.
Qed.

Lemma feed_events_full ew rx f : exists f', feed_events ew rx f = Some f' /\ full f' = full f ++ answer_text rx.
Proof.
  revert f. induction rx as [|e rx IH]; intros f; [exists f; by rewrite app_nil_r|].
  destruct e as [v|d|a|x]; cbn [feed_events answer_text]; [apply IH| | |]; try (exists f; by rewrite app_nil_r).
  unfold feed. cbn [buf full first_done tts_open text_tx]. destruct (tts_open f) eqn:Ho.
  - destruct (flush_full ew (MkFeeder (buf f ++ d) (full f ++ d) (first_done f) true (text_tx f))) as (f1 & -> & E).
    destruct (IH f1) as (f2 & -> & E2). exists f2. by rewrite E2, E, app_assoc.
  - destruct (IH (MkFeeder (buf f) (full f ++ d) (first_done f) false (text_tx f))) as (f2 & -> & E2). exists f2. by rewrite E2, app_assoc.
Qed.

Theorem complete_answer_handed_back (ew : nat) (pending : option TurnEvent) (rx : list TurnEvent) (tx : Sink) :
  exists tx', feeder ew pending rx tx =
    Some (tx', trim ((match pending with Some (Delta d) => d | _ => [] end) ++ answer_text rx)).
Proof.
  unfold feeder. set (first := match pending with Some (Delta d) => d | _ => [] end).
  destruct (flush_full ew (MkFeeder first first false true tx)) as (f1 & -> & E1).
  destruct (feed_events_full ew rx f1) as (f2 & -> & E2). rewrite E2, E1. by eexists.
Qed.

(** ** The voice map *)

(** A language or voice as a tenant would write it. *)
Definition plain_name (l : list Z) : Prop :=
  l <> [] /\ trim l = l /\ Forall (fun c => (c =? 44) = false) l /\ Forall (fun c => (c =? 58) = false) l.

Definition render_voices (m : list (list Z * list Z)) : list Z :=
  mjoin ((fun '(l, v) => l ++ 58 :: v ++ [44]) <$> m).

Lemma split_by_app (p : Z -> bool) a c r :
  Forall (fun x => p x = false) a -> p c = true -> split_by p (a ++ c :: r) = a :: split_by p r.
Proof. intros Ha Hc. induction Ha as [|x a Hx _ IH]; cbn; [by rewrite Hc|]. by rewrite Hx, IH. Qed.

Lemma split_once_app a c r : Forall (fun x => (x =? c) = false) a -> split_once c (a ++ c :: r) = Some (a, r).
Proof. induction 1 as [|x a Hx _ IH]; cbn; [by rewrite Z.eqb_refl|]. by rewrite Hx, IH. Qed.

(** the list of voices a tenant configures is read back exactly: every language has the
    voice written last for it, and a language that was not written has none. *)
Theorem voice_map_roundtrip (lower : list Z -> list Z) (m : list (list Z * list Z)) :
  Forall (fun e => plain_name e.1 /\ plain_name e.2 /\ lower e.1 = e.1) m ->
  parse_voice_map lower (Some (render_voices m)) = list_to_map (reverse m).
Proof.
  intros Hm. unfold parse_voice_map.
  enough (forall acc : gmap (list Z) (list Z),
    foldl (fun map entry => match voice_entry lower entry with Some (l, v) => <[l := v]> map | None => map end)
      acc (split_by (fun c => c =? 44) (render_voices m)) = list_to_map (reverse m) ∪ acc) as ->
    by apply map_union_empty.
  induction Hm as [|[l v] m [(Hl & Htl & Hcl & Hsl) [(Hv & Htv & Hcv & Hsv) Hlow]] _ IH]; intros acc.
  { cbn. by rewrite map_empty_union. }
  cbn [fst snd] in *.
  assert (render_voices ((l, v) :: m) = (l ++ 58 :: v) ++ 44 :: render_voices m) as ->.
  { unfold render_voices. rewrite fmap_cons.
    match goal with |- mjoin (?x :: ?y) = _ => change (x ++ mjoin y = (l ++ 58 :: v) ++ 44 :: mjoin y) end.
    rewrite <- !app_assoc. cbn. by rewrite <- app_assoc. }
  rewrite split_by_app; [|apply Forall_app; split; [done|]; by constructor|done]. cbn [foldl].
  assert (voice_entry lower (l ++ 58 :: v) = Some (l, v)) as ->.
  { unfold voice_entry. rewrite split_once_app by done. rewrite Htl, Htv, Hlow. by rewrite !bool_decide_false. }
  rewrite IH, reverse_cons, list_to_map_app. cbn. rewrite <- map_union_assoc. f_equal.
  by rewrite <- insert_union_l, map_empty_union.
Qed.
End text_theorems.

Module speech_examples.
Import unicode tts_text.

Definition t : string -> list Z := of_string.

(** An answer with a price, streamed in three deltas: the sentence cutter breaks the price at
    its decimal point before the number normaliser sees it. *)
Lemma decimal_price_broken :
  normalize_numbers_for_tts (t "It is $1,234.50.") = t "It is 1234.50 dollars." /\
  feeder 0 None [Delta (t "It is $1,2"); Delta (t "34.5"); Delta (t "0.")] (MkSink [] None) =
    Some (MkSink [t "It is 1234 dollars."; t "50."] None, t "It is $1,234.50.").
Proof. split; vm_refl. Qed.

(** The rest of an answer that does not end with a mark is spoken without the clean-up. *)
Lemma unterminated_rest_raw :
  feeder 0 None [Delta (t "Sure. It is **$1,999/mo**")] (MkSink [] None) =
    Some (MkSink [t "Sure."; t "It is **$1,999/mo**"] None, t "Sure. It is **$1,999/mo**").
Proof. vm_refl. Qed.

(** A price after a comma leaves a comma between digits. *)
Lemma comma_before_price : normalize_numbers_for_tts (t "1,$2") = t "1,2 dollars".
Proof. vm_refl. Qed.

Definition ascii (l : list Z) : list Z := ascii_lower l.

Lemma voice_map_roundtrip_witness :
  parse_voice_map ascii (Some (t "vi:hoa,en:amy,vi:lan,")) !! t "vi" = Some (t "lan").
Proof.
  assert (forall l, bool_decide (l <> [] /\ trim l = l) = true -> forallb (fun c => negb (c =? 44) && negb (c =? 58)) l = true -> plain_name l) as Hp.
  { intros l [H1 H2]%bool_decide_eq_true H3. split_and!; [done|done| |]; apply Forall_forall; intros c Hc;
      rewrite forallb_forall in H3; specialize (H3 c ltac:(by apply list_elem_of_In)); destruct (c =? 44), (c =? 58); done. }
  change (t "vi:hoa,en:amy,vi:lan,") with (render_voices [(t "vi", t "hoa"); (t "en", t "amy"); (t "vi", t "lan")]).
  rewrite (voice_map_roundtrip ascii [(t "vi", t "hoa"); (t "en", t "amy"); (t "vi", t "lan")]); [vm_refl|].
  repeat apply Forall_cons_2; [..|by apply Forall_nil_2]; (split_and!; [apply Hp; vm_refl|apply Hp; vm_refl|vm_refl]).
Defined.

(** A locale in the map is never found: the policy answers in languages. *)
Lemma locale_key_unreachable :
  parse_voice_map ascii (Some (t "vi-VN:hoa")) !! t "vi" = None /\
  parse_voice_map ascii (Some (t "VI:hoa, en:amy, bad, :x, fr:")) =
    list_to_map [(t "vi", t "hoa"); (t "en", t "amy")].
Proof. split; vm_refl. Qed.
End speech_examples.
