(* ===== verification/CallSession.v ===== *)
(** * services/media/session.rs: the call session

    [session] is the media loop of one call: reassembly of frames, voice activity, barge-in,
    the forwarding channels and the parameters of the start event; [endpoint] the predictive
    endpointing loop, [dtmf] the keypad collector; [voice] the choice of voice and engine of
    [run_response] with config.rs and tts.rs; [relay] its playback and silence guard; [turns]
    the tasks that start and stop responses, as a step relation over the shared flags. *)

From stdpp Require Import base numbers list gmap strings relations.
From Stdlib Require Import ZArith Lia.
From S2P Require Import Prelude Media SpeechText.

Notation text := (list Z) (only parsing).

(** ** The predictive endpointing loop *)
Module endpoint.
Definition MAX_BUF : nat := 8000 * 12.
Definition KEEPALIVE_FRAMES : Z := 750.

Record State : Type := MkState {
  buf : list Z;
  in_utt : bool;
  checked : bool;
  keepalive_frames : Z;
}.
Definition start : State := MkState [] false false 0.

(** One frame of the channel: samples, speech, silence so far. *)
Record Frame : Type := MkFrame { pcm : list Z; is_speech : bool; silence_ms : Z }.

Inductive Action := Nothing | Asked (complete : bool) | MaxSilence | Keepalive.

Section endpoint.
(** [SmartTurn::is_complete] *)
Variable is_complete : list Z -> bool.
Variables short_ms max_ms : Z.

Definition commits (a : Action) : bool :=
  match a with Asked c => c | MaxSilence | Keepalive => true | Nothing => false end.

Definition on_frame (f : Frame) (s : State) : Action * State :=
  if is_speech f
  then let b := buf s ++ pcm f in (Nothing, MkState (drop (length b - MAX_BUF) b) true false 0)
  else if in_utt s
  then
    if negb (checked s) && (short_ms <=? silence_ms f)
    then if is_complete (buf s) then (Asked true, MkState [] false false 0)
         else (Asked false, MkState (buf s) true true 0)
    else if max_ms <=? silence_ms f then (MaxSilence, MkState [] false false 0)
    else (Nothing, MkState (buf s) true (checked s) 0)
  else
    if KEEPALIVE_FRAMES <=? keepalive_frames s + 1
    then (Keepalive, MkState (buf s) false (checked s) 0)
    else (Nothing, MkState (buf s) false (checked s) (keepalive_frames s + 1)).

Fixpoint endpoint_loop (rx : list Frame) (s : State) : list Action * State :=
  match rx with
  | [] => ([], s)
  | f :: rx => let '(a, s) := on_frame f s in let '(l, s) := endpoint_loop rx s in (a :: l, s)
  end.
End endpoint.
End endpoint.

(** ** The keypad collector *)
Module dtmf.
Definition MAX_DIGITS : Z := 32.

(** A key, a pause longer than the window, the end of the call. *)
Inductive Event := Key (d : Z) | Pause | HangUp.

(** The entries committed as turns ([format_dtmf_turn] of each), and what is still buffered;
    without digits there is no time-out to wait for. *)
Definition dtmf_flush (buf : text) : list text := match buf with [] => [] | digits => [digits] end.

Fixpoint dtmf_loop (rx : list Event) (buf : text) : list text * text :=
  match rx with
  | [] => ([], buf)
  | HangUp :: _ => (dtmf_flush buf, [])
  | Pause :: rx => let '(l, b) := dtmf_loop rx [] in (dtmf_flush buf ++ l, b)
  | Key d :: rx =>
      if d =? 35 then let '(l, b) := dtmf_loop rx [] in (dtmf_flush buf ++ l, b)
      else if d =? 42 then dtmf_loop rx []
      else if MAX_DIGITS <=? tts_text.byte_len (buf ++ [d])
      then let '(l, b) := dtmf_loop rx [] in (dtmf_flush (buf ++ [d]) ++ l, b)
      else dtmf_loop rx (buf ++ [d])
  end.
End dtmf.

(** ** The choice of voice and engine *)
Module voice.
Section voice.
(** [str::to_lowercase] *)
Variable lower : text -> text.

Record Config : Type := MkConfig {
  tts_provider : text;
  default_voice_id : text;
  elevenlabs_fallback_voice_id : text;
  cartesia_languages : gset text;
}.

(** [split(['-', '_']).next()] *)
Definition base_code (l : text) : text :=
  lower (lang_policy.before_separator (unicode.trim l)).

Definition cartesia_speaks (cfg : Config) (language : option text) : bool :=
  match language with
  | None => true
  | Some lang => bool_decide (base_code lang = []) || bool_decide (base_code lang ∈ cartesia_languages cfg)
  end.

Inductive Engine := Cartesia | ElevenLabs.

(** [UnifiedTts::speak] *)
Definition engine_for (cfg : Config) (language : option text) : Engine :=
  if cartesia_speaks cfg language && bool_decide (tts_provider cfg = unicode.of_string "cartesia") then Cartesia else ElevenLabs.

(** The voice of the first event of the turn, if it names one. *)
Definition turn_voice (first : option tts_text.TurnEvent) : option text :=
  match first with
  | Some (tts_text.VoiceId v) =>
      if negb (bool_decide (v = [])) && negb (bool_decide (v = unicode.of_string "eleven_labs_default")) then Some v else None
  | _ => None
  end.

Definition resolve_voice (cfg : Config) (voice_by_language : gmap text text) (answer_language : option text)
    (first : option tts_text.TurnEvent) : text :=
  let voice_id := default (default_voice_id cfg) (turn_voice first) in
  match answer_language with
  | None => voice_id
  | Some lang =>
      let voice_id :=
        match turn_voice first, voice_by_language !! lang with
        | None, Some v => if bool_decide (v = []) then voice_id else v
        | _, _ => voice_id
        end in
      if negb (cartesia_speaks cfg answer_language)
      then let fallback := unicode.trim (elevenlabs_fallback_voice_id cfg) in
           if bool_decide (fallback = []) then voice_id else fallback
      else voice_id
  end.

(** The voice of the second attempt, in the ElevenLabs engine. *)
Definition recovery_voice (cfg : Config) : text :=
  if bool_decide (unicode.trim (elevenlabs_fallback_voice_id cfg) = []) then default_voice_id cfg
  else elevenlabs_fallback_voice_id cfg.

(** *** The parameters of the start event *)
Record StartParams : Type := MkStart {
  language : option text;
  follow_caller : bool;
  detect_language : bool;
  stt_language : option text;
}.

Definition non_empty (o : option text) : option text := match o with Some [] | None => None | Some l => Some l end.

Definition parse_follow (o : option text) : bool :=
  match o with
  | None => true
  | Some v =>
      let v := unicode.trim v in
      negb (bool_decide (v = []) || bool_decide (v = unicode.of_string "0") ||
            bool_decide (tts_text.ascii_lower v = unicode.of_string "false"))
  end.

(** [stt_language_code] is the setting of the process, used by [start_stt]. *)
Definition start_params (stt_language_code : option text) (params : gmap string text) : StartParams :=
  let language := non_empty (params !! "language"%string) in
  let follow := parse_follow (params !! "follow_caller_language"%string) in
  let stt := if follow then None else language in
  MkStart language follow (follow || match language with None => true | Some _ => false end)
    (match stt with Some l => Some l | None => stt_language_code end).
End voice.
End voice.

(** ** The media loop *)
Module session.

(** A bounded channel: [try_send] drops what does not fit. *)
Record Chan (A : Type) : Type := MkChan { queue : list A; room : nat }.
Arguments MkChan {A}.
Arguments queue {A}.
Arguments room {A}.
Definition try_send {A} (x : A) (c : Chan A) : Chan A :=
  if (length (queue c) <? room c)%nat then MkChan (queue c ++ [x]) (room c) else c.

Inductive Outbound := MediaOut (payload : list Z) | Clear | MarkOut (name : string) | CloseOut.

(** The flags and the socket a call shares with its tasks. *)
Record Shared : Type := MkShared {
  speaking : bool;
  play_cancel : bool;
  tts_task : option nat;
  aborted : list nat;
  ended : bool;
  out : list Outbound;
}.

(** [stop_playback], run by the only task that runs. *)
Definition stop_playback (send_clear : bool) (s : Shared) : Shared :=
  MkShared false true None (match tts_task s with Some h => aborted s ++ [h] | None => aborted s end) (ended s)
    (out s ++ (if send_clear then [Clear] else [])).

Section session.
Variable barge_in_ms : Z.
(** [Denoiser::process_8k] *)
Variable D : Type.
Variable process_8k : list Z -> D -> list Z * D.
(** [BASE64.decode] *)
Variable decode_base64 : text -> option (list Z).

Record Session : Type := MkSession {
  vad_engine : vad.VadEngine;
  audio_buffer : list Z;
  stt_tx : option (Chan (list Z));
  endpoint_tx : option (Chan endpoint.Frame);
  dtmf_tx : option (Chan Z);
  denoiser : option D;
  shared : option Shared;
}.

Definition set_buffer (b : list Z) (s : Session) : Session :=
  MkSession (vad_engine s) b (stt_tx s) (endpoint_tx s) (dtmf_tx s) (denoiser s) (shared s).
Definition set_shared (sh : option Shared) (s : Session) : Session :=
  MkSession (vad_engine s) (audio_buffer s) (stt_tx s) (endpoint_tx s) (dtmf_tx s) (denoiser s) sh.

Definition process_frame (frame : list Z) (s : Session) : Session :=
  let pcm := codec.decode_frame frame in
  match shared s with
  | None =>
      MkSession (vad.process_frame pcm (vad_engine s)).2 (audio_buffer s) (try_send frame <$> stt_tx s) (endpoint_tx s)
        (dtmf_tx s) (denoiser s) None
  | Some sh =>
      let '(state, v) := vad.process_frame pcm (vad_engine s) in
      let is_speech := match state with vad.Speech => true | vad.Silence => false end in
      let '(stt, dn) :=
        match stt_tx s with
        | None => (None, denoiser s)
        | Some tx =>
            match denoiser s with
            | Some d => let '(clean, d) := process_8k pcm d in (Some (try_send (codec.encode_frame clean) tx), Some d)
            | None => (Some (try_send frame tx), None)
            end
        end in
      let '(v, sh) := if speaking sh && vad.is_barge_in barge_in_ms true v
                      then (vad.reset_counters v, stop_playback true sh) else (v, sh) in
      MkSession v (audio_buffer s) stt
        (try_send (endpoint.MkFrame pcm is_speech (vad.consecutive_silence_ms v)) <$> endpoint_tx s)
        (dtmf_tx s) dn (Some sh)
  end.

(** [while audio_buffer.len() >= SAMPLES_PER_FRAME] *)
Fixpoint drain_frames (fuel : nat) (s : Session) : Session :=
  match fuel with
  | O => s
  | S fuel =>
      if (codec.SAMPLES_PER_FRAME <=? length (audio_buffer s))%nat
      then drain_frames fuel (process_frame (take codec.SAMPLES_PER_FRAME (audio_buffer s))
                                (set_buffer (drop codec.SAMPLES_PER_FRAME (audio_buffer s)) s))
      else s
  end.

Inductive Inbound :=
  | Connected
  | Media (payload : text)
  | Stop
  | Mark (name : string)
  | Dtmf (digit : text).

Definition handle_inbound (msg : Inbound) (s : Session) : Session :=
  match msg with
  | Connected => s
  | Media payload =>
      match decode_base64 payload with
      | None => s
      | Some bytes =>
          let s := set_buffer (audio_buffer s ++ bytes) s in drain_frames (length (audio_buffer s)) s
      end
  | Stop => set_shared (stop_playback false <$> shared s) s
  | Mark name =>
      if String.eqb name "tts_end"
      then set_shared ((fun sh => MkShared false (play_cancel sh) (tts_task sh) (aborted sh) (ended sh) (out sh)) <$> shared s) s
      else s
  | Dtmf digit =>
      match dtmf_tx s, digit with
      | Some tx, d :: _ =>
          MkSession (vad_engine s) (audio_buffer s) (stt_tx s) (endpoint_tx s) (Some (try_send d tx)) (denoiser s) (shared s)
      | _, _ => s
      end
  end.
End session.
End session.

(** ** Playback and the silence guard of [run_response] *)
Module relay.
Import session.

(** One turn of the relay loop: the flag it reads and whether the socket takes the frame. *)
Record Chunk : Type := MkChunk { audio : list Z; cancelled : bool; delivered : bool }.

(** Chunks counted, and what was sent. *)
Fixpoint relay (chunks : list Chunk) : Z * list Outbound :=
  match chunks with
  | [] => (0, [])
  | c :: l =>
      if cancelled c then (0, [])
      else if delivered c then let '(n, o) := relay l in (n + 1, MediaOut (audio c) :: o)
      else (1, [])
  end.

(** [speak_once_with]: every chunk of one engine. *)
Definition speak_once_with (chunks : list Chunk) : list Outbound := (relay chunks).2.

(** [bytes.chunks(FRAME)], at most [fuel] of them. *)
Fixpoint chunks_of (fuel : nat) (l : list Z) : list (list Z) :=
  match fuel, l with S fuel, _ :: _ => take 160 l :: chunks_of fuel (drop 160 l) | _, _ => [] end.
Definition frames_of (clip : list Z) : list Outbound := MediaOut <$> chunks_of (length clip) clip.

(** [fail_quota]: the clip and the end of the call, unless the call has ended already. *)
Definition fail_quota (clip : list Z) (ended : bool) : list Outbound :=
  if ended then [] else frames_of clip ++ [CloseOut].

(** What a turn depends on after the voice is chosen: the chunks of the primary engine, whether
    it failed for quota, the answer of the feeder, the chunks of the fallback engine, and the
    values of the flag read at the two tests after the loop. *)
Record Turn : Type := MkTurn {
  primary : list Chunk;
  quota : bool;
  answer : option text;
  secondary : list Chunk;
  cancelled_after : bool;
  cancelled_at_end : bool;
  call_ended : bool;
  fallback_clip : list Z;
}.

(** The outbound messages of the turn. *)
Definition playback (t : Turn) : list Outbound :=
  let '(n, sent) := relay (primary t) in
  let recovered :=
    if (n =? 0) && negb (cancelled_after t)
    then if quota t then fail_quota (fallback_clip t) (call_ended t)
         else match unicode.trim <$> answer t with
              | Some [] | None => []
              | Some _ => speak_once_with (secondary t)
              end
    else [] in
  sent ++ recovered ++ (if cancelled_at_end t then [] else [MarkOut "tts_end"]).
End relay.

(** ** The tasks that start and stop responses *)
Module turns.

(** [stop_playback] and [do_turn], one shared access or suspension at a time. *)
Inductive Pc := Idle | Cancelled | Silenced | Taken | Cleared | Resumed | Spawned (id : nat).

(** A task: the transcript loop, the keypad collector and the greeting run turns, the media
    loop only stops playback. *)
Record Driver : Type := MkDriver { runs_turns : bool; at_pc : Pc }.

Inductive Resp := Running | Checked | Finished | Aborted.

(** [sent]: [Some id] is audio of response [id], [None] a clear; [told] are the responses that
    have been told to abort.  [JoinHandle::abort] returns at once: the task goes on until it
    next gives up its worker thread, and takes no further step after that. *)
Record State : Type := MkState {
  speaking : bool;
  play_cancel : bool;
  tts_task : option nat;
  told : list nat;
  responses : list Resp;
  drivers : list Driver;
  sent : list (option nat);
}.

Definition set_pc (i : nat) (d : Driver) (c : Pc) (s : State) : State :=
  MkState (speaking s) (play_cancel s) (tts_task s) (told s) (responses s) (<[i := MkDriver (runs_turns d) c]> (drivers s)) (sent s).

Definition abort (o : option nat) (l : list nat) : list nat :=
  match o with Some id => id :: l | None => l end.

Definition driver_step (i : nat) (s : State) : option State :=
  match drivers s !! i with
  | None => None
  | Some d =>
      match at_pc d with
      | Idle => Some (set_pc i d Cancelled (MkState (speaking s) true (tts_task s) (told s) (responses s) (drivers s) (sent s)))
      | Cancelled => Some (set_pc i d Silenced (MkState false (play_cancel s) (tts_task s) (told s) (responses s) (drivers s) (sent s)))
      | Silenced =>
          Some (set_pc i d Taken
                  (MkState (speaking s) (play_cancel s) None (abort (tts_task s) (told s)) (responses s) (drivers s) (sent s)))
      | Taken =>
          Some (set_pc i d (if runs_turns d then Cleared else Idle)
                  (MkState (speaking s) (play_cancel s) (tts_task s) (told s) (responses s) (drivers s) (sent s ++ [None])))
      | Cleared => Some (set_pc i d Resumed (MkState (speaking s) false (tts_task s) (told s) (responses s) (drivers s) (sent s)))
      | Resumed =>
          Some (set_pc i d (Spawned (length (responses s)))
                  (MkState (speaking s) (play_cancel s) (tts_task s) (told s) (responses s ++ [Running]) (drivers s) (sent s)))
      | Spawned id =>
          Some (set_pc i d Idle (MkState (speaking s) (play_cancel s) (Some id) (told s) (responses s) (drivers s) (sent s)))
      end
  end.

(** A response with audio in hand reads the flag, then sends; it can end at any time. *)
Definition response_step (id : nat) (ends : bool) (s : State) : option State :=
  match responses s !! id with
  | Some Running =>
      if ends || play_cancel s
      then Some (MkState false (play_cancel s) (tts_task s) (told s) (<[id := Finished]> (responses s)) (drivers s) (sent s))
      else Some (MkState true (play_cancel s) (tts_task s) (told s) (<[id := Checked]> (responses s)) (drivers s) (sent s))
  | Some Checked =>
      Some (MkState (speaking s) (play_cancel s) (tts_task s) (told s) (<[id := Running]> (responses s)) (drivers s) (sent s ++ [Some id]))
  | _ => None
  end.

(** The runtime drops a response that was told to abort. *)
Definition drop_step (id : nat) (s : State) : option State :=
  match responses s !! id with
  | Some (Running | Checked) =>
      if bool_decide (id ∈ told s)
      then Some (MkState (speaking s) (play_cancel s) (tts_task s) (told s) (<[id := Aborted]> (responses s)) (drivers s) (sent s))
      else None
  | _ => None
  end.

Inductive step : State -> State -> Prop :=
  | step_driver i s s' : driver_step i s = Some s' -> step s s'
  | step_response id ends s s' : response_step id ends s = Some s' -> step s s'
  | step_drop id s s' : drop_step id s = Some s' -> step s s'.

Definition init (ds : list bool) : State := MkState false false None [] [] ((fun b => MkDriver b Idle) <$> ds) [].
End turns.

(** ** Endpointing *)
Section endpoint_theorems.
Import endpoint.
Variable is_complete : list Z -> bool.
Variables short_ms max_ms : Z.

Abbreviation loop := (endpoint_loop is_complete short_ms max_ms).

(** The last [n] elements. *)
Definition last_n {A} (n : nat) (l : list A) : list A := drop (length l - n) l.

Lemma last_n_app {A} n (l k : list A) : last_n n (last_n n l ++ k) = last_n n (l ++ k).
Proof.
  unfold last_n. rewrite !length_app, length_drop.
  destruct (decide (length k <= n)%nat).
  - rewrite !skipn_app, !length_drop, drop_drop. f_equal; f_equal; lia.
  - rewrite !drop_app_ge by (rewrite ?length_drop; lia). rewrite length_drop. f_equal. lia.
Qed.

(** The speech since the utterance in progress began, along a run. *)
Definition heard (h : list Z) (run : list (Action * Frame)) : list Z :=
  foldl (fun h x => match x.1 with
                    | Asked true | MaxSilence => []
                    | _ => if is_speech x.2 then h ++ pcm x.2 else h
                    end) h run.

Lemma endpoint_buffer rx s h :
  buf s = last_n MAX_BUF h -> buf (loop rx s).2 = last_n MAX_BUF (heard h (zip (loop rx s).1 rx)).
Proof.
  revert s h. induction rx as [|f rx IH]; intros s h Hs; [done|]. cbn [endpoint_loop].
  destruct (on_frame is_complete short_ms max_ms f s) as [a s1] eqn:E.
  enough (buf s1 = last_n MAX_BUF (heard h [(a, f)])) as H.
  { specialize (IH s1 _ H). destruct (loop rx s1) as [l s2]. exact IH. }
  unfold on_frame in E. unfold heard. cbn [foldl fst snd].
  destruct (is_speech f).
  { injection E as <- <-. cbn [buf]. rewrite <- last_n_app, <- Hs. done. }
  destruct (in_utt s); [destruct (negb _ && _); [destruct (is_complete _)|destruct (max_ms <=? _)]|destruct (_ <=? _)];
    injection E as <- <-; done.
Qed.

(** the recogniser is asked about exactly the last twelve seconds of the caller's speech
    since the previous commit, whatever frames arrive. *)
Theorem endpoint_asks_about_recent_speech (rx : list Frame) :
  buf (loop rx start).2 = last_n MAX_BUF (heard [] (zip (loop rx start).1 rx)) /\
  (length (buf (loop rx start).2) <= MAX_BUF)%nat.
Proof.
  pose proof (endpoint_buffer rx start [] eq_refl) as ->. split; [done|]. unfold last_n. rewrite length_drop. lia.
Qed.

(** A hesitant caller never hangs the turn: from any state, two frames of silence as long as
    the maximum end the utterance, with a commit if there was one. *)
Lemma endpoint_never_hangs (s : State) (f g : Frame) :
  is_speech f = false -> is_speech g = false -> max_ms <= silence_ms f -> max_ms <= silence_ms g ->
  in_utt (loop [f; g] s).2 = false /\ (in_utt s = true -> existsb commits (loop [f; g] s).1 = true).
Proof.
  intros Hf Hg Mf Mg. apply Z.leb_le in Mf, Mg. cbn [endpoint_loop]. unfold on_frame. rewrite Hf, Hg.
  destruct (in_utt s) eqn:Hu.
  - destruct (negb (checked s) && (short_ms <=? silence_ms f)).
    + destruct (is_complete (buf s)); cbn [in_utt checked negb andb].
      * destruct (_ <=? _); done.
      * rewrite Mg. done.
    + rewrite Mf. cbn [in_utt]. destruct (_ <=? _); done.
  - destruct (KEEPALIVE_FRAMES <=? keepalive_frames s + 1); cbn [in_utt keepalive_frames];
      destruct (KEEPALIVE_FRAMES <=? _); done.
Qed.

(** One question per pause: after an incomplete answer the next action in silence is the
    commit for maximal silence. *)
Lemma endpoint_asks_once (rx : list Frame) (s : State) :
  Forall (fun f => is_speech f = false) rx -> in_utt s = true -> checked s = true ->
  exists n, (loop rx s).1 = replicate n Nothing \/ exists l, (loop rx s).1 = replicate n Nothing ++ MaxSilence :: l.
Proof.
  revert s. induction rx as [|f rx IH]; intros s Hf Hu Hc; [exists 0%nat; by left|].
  apply Forall_cons in Hf as [Hf Hr]. cbn [endpoint_loop]. unfold on_frame. rewrite Hf, Hu, Hc. cbn [negb andb].
  destruct (max_ms <=? silence_ms f).
  - destruct (loop rx _) as [l s2]. exists 0%nat. right. by exists l.
  - destruct (IH (MkState (buf s) true true 0) Hr eq_refl eq_refl) as (n & H). destruct (loop rx _) as [l s2]. cbn [fst] in *.
    exists (S n). destruct H as [->|[k ->]]; [by left|right; by exists k].
Qed.

(** Outside an utterance the channel is flushed once in every 750 frames, no earlier and no
    later. *)
Lemma endpoint_keepalive (rx : list Frame) (s : State) :
  Forall (fun f => is_speech f = false) rx -> in_utt s = false -> 0 <= keepalive_frames s < KEEPALIVE_FRAMES ->
  Z.of_nat (length (List.filter commits (loop rx s).1)) = (keepalive_frames s + Z.of_nat (length rx)) / KEEPALIVE_FRAMES.
Proof.
  revert s. induction rx as [|f rx IH]; intros s Hf Hu Hk.
  { cbn. rewrite Z.add_0_r, Z.div_small; lia. }
  apply Forall_cons in Hf as [Hf Hr]. cbn [endpoint_loop]. unfold on_frame. rewrite Hf, Hu.
  destruct (Z.leb_spec KEEPALIVE_FRAMES (keepalive_frames s + 1)).
  - specialize (IH (MkState (buf s) false (checked s) 0) Hr eq_refl ltac:(cbn; unfold KEEPALIVE_FRAMES; lia)). cbn [keepalive_frames] in IH.
    destruct (loop rx _) as [l s2]. cbn [fst List.filter commits length] in *.
    replace (keepalive_frames s + Z.of_nat (S (length rx))) with (0 + Z.of_nat (length rx) + 1 * KEEPALIVE_FRAMES) by lia.
    rewrite Z.div_add by (unfold KEEPALIVE_FRAMES; lia). rewrite <- IH. lia.
  - specialize (IH (MkState (buf s) false (checked s) (keepalive_frames s + 1)) Hr eq_refl ltac:(cbn; lia)). cbn [keepalive_frames] in IH.
    destruct (loop rx _) as [l s2]. cbn [fst List.filter commits length] in *.
    rewrite IH. f_equal. lia.
Qed.
End endpoint_theorems.

(** ** Keypad *)
Section keypad.
Import dtmf.

(** The keys of a run that are digits of an entry. *)
Definition digits_typed (rx : list Event) : list Z :=
  omap (fun e => match e with Key d => if d =? 35 then None else Some d | _ => None end) rx.

Definition entry_ok (e : list Z) : Prop := e <> [] /\ tts_text.byte_len e < MAX_DIGITS + 4.

Lemma byte_len_snoc b d : tts_text.byte_len (b ++ [d]) = tts_text.byte_len b + unicode.len_utf8 d.
Proof. unfold tts_text.byte_len. rewrite Zsum_with_app. cbn. lia. Qed.

Lemma len_utf8_range c : 1 <= unicode.len_utf8 c <= 4.
Proof. unfold unicode.len_utf8. repeat case_match; lia. Qed.

Lemma flush_ok b : tts_text.byte_len b < MAX_DIGITS + 4 -> Forall entry_ok (dtmf_flush b).
Proof. destruct b; [constructor|]. intros H. by repeat constructor. Qed.

Lemma flush_join b : mjoin (dtmf_flush b) = b.
Proof. destruct b; [done|apply app_nil_r]. Qed.

Lemma dtmf_entries rx b :
  tts_text.byte_len b < MAX_DIGITS -> Forall entry_ok (dtmf_loop rx b).1 /\ tts_text.byte_len (dtmf_loop rx b).2 < MAX_DIGITS.
Proof.
  revert b. induction rx as [|e rx IH]; intros b Hb; [by split; [constructor|]|].
  assert (tts_text.byte_len [] < MAX_DIGITS) as H0 by done.
  assert (forall b', tts_text.byte_len b' < MAX_DIGITS + 4 ->
    Forall entry_ok (let '(l, c) := dtmf_loop rx [] in (dtmf_flush b' ++ l, c)).1 /\
    tts_text.byte_len (let '(l, c) := dtmf_loop rx [] in (dtmf_flush b' ++ l, c)).2 < MAX_DIGITS) as Hflush.
  { intros b' Hb'. destruct (IH [] H0) as [H1 H2]. destruct (dtmf_loop rx []) as [l c]. split; [|done].
    apply Forall_app; split; [by apply flush_ok|done]. }
  destruct e as [d| |]; cbn [dtmf_loop].
  - destruct (d =? 35); [apply Hflush; lia|]. destruct (d =? 42); [by apply IH|].
    pose proof (len_utf8_range d). destruct (Z.leb_spec MAX_DIGITS (tts_text.byte_len (b ++ [d]))) as [Hm|Hm].
    + apply Hflush. rewrite byte_len_snoc in *. lia.
    + by apply IH.
  - apply Hflush. lia.
  - split; [apply flush_ok; lia|done].
Qed.

Lemma dtmf_join rx b :
  Key 42 ∉ rx -> HangUp ∉ rx -> mjoin (dtmf_loop rx b).1 ++ (dtmf_loop rx b).2 = b ++ digits_typed rx.
Proof.
  revert b. induction rx as [|e rx IH]; intros b Hs Hh; [by rewrite app_nil_r|].
  apply not_elem_of_cons in Hs as [Hs Hs'], Hh as [Hh Hh'].
  assert (forall b', mjoin (let '(l, c) := dtmf_loop rx [] in (dtmf_flush b' ++ l, c)).1 ++
    (let '(l, c) := dtmf_loop rx [] in (dtmf_flush b' ++ l, c)).2 = b' ++ digits_typed rx) as Hflush.
  { intros b'. specialize (IH [] Hs' Hh'). destruct (dtmf_loop rx []) as [l c]. cbn [fst snd] in *.
    by rewrite join_app, flush_join, <- app_assoc, IH. }
  destruct e as [d| |]; cbn [dtmf_loop]; [|apply Hflush|done].
  unfold digits_typed. cbn [omap list_omap]. fold (digits_typed rx). destruct (d =? 35); [apply Hflush|].
  destruct (Z.eqb_spec d 42) as [->|]; [done|].
  assert ((b ++ [d]) ++ digits_typed rx = b ++ d :: digits_typed rx) as E by by rewrite <- app_assoc.
  destruct (MAX_DIGITS <=? _); rewrite <- E; [apply Hflush|by apply IH].
Qed.

Lemma dtmf_app pre post b :
  HangUp ∉ pre -> dtmf_loop (pre ++ post) b =
    ((dtmf_loop pre b).1 ++ (dtmf_loop post (dtmf_loop pre b).2).1, (dtmf_loop post (dtmf_loop pre b).2).2).
Proof.
  revert b. induction pre as [|e pre IH]; intros b Hh; [cbn; by destruct (dtmf_loop post b)|].
  apply not_elem_of_cons in Hh as [Hh Hh'].
  assert (forall b', (let '(l, c) := dtmf_loop (pre ++ post) [] in (dtmf_flush b' ++ l, c)) =
    ((let '(l, c) := dtmf_loop pre [] in (dtmf_flush b' ++ l, c)).1 ++
       (dtmf_loop post (let '(l, c) := dtmf_loop pre [] in (dtmf_flush b' ++ l, c)).2).1,
     (dtmf_loop post (let '(l, c) := dtmf_loop pre [] in (dtmf_flush b' ++ l, c)).2).2)) as Hflush.
  { intros b'. rewrite (IH [] Hh'). destruct (dtmf_loop pre []) as [l c]. cbn [fst snd]. by rewrite app_assoc. }
  destruct e as [d| |]; cbn [app dtmf_loop]; [|apply Hflush|done].
  destruct (d =? 35); [apply Hflush|]. destruct (d =? 42); [by apply IH|].
  destruct (MAX_DIGITS <=? _); [apply Hflush|by apply IH].
Qed.

(** keypad input is committed faithfully: without the star every digit is in exactly one
    entry, in order, or still buffered; a star forgets exactly the entry in progress; after a
    hang-up nothing is left; and an entry is never empty and never longer than the limit
    allows. *)
Theorem keypad_entries_faithful (pre post : list Event) :
  HangUp ∉ pre ->
  (Key 42 ∉ pre -> mjoin (dtmf_loop pre []).1 ++ (dtmf_loop pre []).2 = digits_typed pre) /\
  (dtmf_loop (pre ++ Key 42 :: post) []).1 = (dtmf_loop pre []).1 ++ (dtmf_loop post []).1 /\
  (Key 42 ∉ pre -> mjoin (dtmf_loop (pre ++ [HangUp]) []).1 = digits_typed pre) /\
  Forall entry_ok (dtmf_loop (pre ++ post) []).1.
Proof.
  intros Hh. split_and!.
  - intros Hs. by apply (dtmf_join pre []).
  - by rewrite dtmf_app.
  - intros Hs. rewrite dtmf_app by done. cbn [fst dtmf_loop]. rewrite join_app, flush_join. by apply (dtmf_join pre []).
  - by apply dtmf_entries.
Qed.

(** An entry closed with the hash key is one turn. *)
Lemma code_is_one_turn (digits : list Z) (post : list Event) :
  digits <> [] -> 35 ∉ digits -> 42 ∉ digits -> tts_text.byte_len digits < MAX_DIGITS ->
  (dtmf_loop ((Key <$> digits) ++ Key 35 :: post) []).1 = digits :: (dtmf_loop post []).1.
Proof.
  intros Hd H35 H42 Hl.
  assert (forall b ds, 35 ∉ ds -> 42 ∉ ds -> tts_text.byte_len (b ++ ds) < MAX_DIGITS ->
    dtmf_loop (Key <$> ds) b = ([], b ++ ds)) as H.
  { clear. intros b ds. revert b. induction ds as [|d ds IH]; intros b H1 H2 Hl; [by rewrite app_nil_r|].
    apply not_elem_of_cons in H1 as [H1 H1'], H2 as [H2 H2']. cbn [fmap list_fmap dtmf_loop].
    rewrite (proj2 (Z.eqb_neq d 35)), (proj2 (Z.eqb_neq d 42)) by congruence.
    replace (b ++ d :: ds) with ((b ++ [d]) ++ ds) in * by by rewrite <- app_assoc.
    assert (0 <= tts_text.byte_len ds).
    { unfold tts_text.byte_len. apply Zsum_with_nonneg. intros x _. pose proof (len_utf8_range x). lia. }
    unfold tts_text.byte_len in Hl. rewrite Zsum_with_app in Hl. fold (tts_text.byte_len (b ++ [d])) in Hl. fold (tts_text.byte_len ds) in Hl.
    rewrite (proj2 (Z.leb_gt _ _)) by lia. apply IH; [done|done|].
    unfold tts_text.byte_len. rewrite Zsum_with_app. done. }
  rewrite dtmf_app.
  - rewrite H by done. cbn [fst snd app dtmf_loop]. rewrite Z.eqb_refl. destruct (dtmf_loop post []) as [l c].
    by destruct digits.
  - rewrite list_elem_of_fmap. by intros (? & ? & ?).
Qed.
End keypad.

(** ** The media loop *)
Section media_theorems.
Import session.
Variable barge_in_ms : Z.
Context {D : Type}.
Variable process_8k : list Z -> D -> list Z * D.
Variable decode_base64 : list Z -> option (list Z).

Abbreviation process_frame := (process_frame barge_in_ms D process_8k).
Abbreviation drain_frames := (drain_frames barge_in_ms D process_8k).
Abbreviation handle := (handle_inbound barge_in_ms D process_8k decode_base64).
Abbreviation Session := (Session D).
Implicit Types (s : Session).

Lemma drained s n :
  (length (audio_buffer D s) <= n)%nat -> (length (audio_buffer D (drain_frames n s)) < codec.SAMPLES_PER_FRAME)%nat.
Proof.
  revert s. induction n as [|n IH]; intros s Hn; [cbn; unfold codec.SAMPLES_PER_FRAME; lia|]. cbn [session.drain_frames].
  destruct (Nat.leb_spec codec.SAMPLES_PER_FRAME (length (audio_buffer D s))); [|done]. apply IH.
  assert (forall f x, audio_buffer D (process_frame f x) = audio_buffer D x) as E.
  { intros f x. unfold process_frame. destruct (shared D x); [|done]. by repeat (case_match; simplify_eq/=). }
  rewrite E. cbn [set_buffer audio_buffer]. rewrite length_drop. unfold codec.SAMPLES_PER_FRAME in *. lia.
Qed.

(** What reaches the recogniser and what waits for a full frame. *)
Definition heard_bytes s : list Z :=
  match stt_tx D s with Some tx => mjoin (queue tx) | None => [] end ++ audio_buffer D s.

Definition forwarding (cap : nat) s : Prop :=
  denoiser D s = None /\ exists tx, stt_tx D s = Some tx /\ room tx = cap /\
    Forall (fun f => length f = codec.SAMPLES_PER_FRAME) (queue tx).

Lemma process_frame_forwards cap f s :
  forwarding cap s -> length f = codec.SAMPLES_PER_FRAME ->
  (match stt_tx D s with Some tx => length (queue tx) | None => 0 end < cap)%nat ->
  forwarding cap (process_frame f s) /\ audio_buffer D (process_frame f s) = audio_buffer D s /\
  exists tx, stt_tx D s = Some tx /\ stt_tx D (process_frame f s) = Some (MkChan (queue tx ++ [f]) cap).
Proof.
  intros (Hd & tx & Htx & Hr & Hq) Hf Hroom. rewrite Htx in Hroom.
  assert (try_send f tx = MkChan (queue tx ++ [f]) cap) as Hs.
  { unfold try_send. rewrite Hr. by rewrite (proj2 (Nat.ltb_lt _ _)). }
  enough (denoiser D (process_frame f s) = None /\ stt_tx D (process_frame f s) = Some (MkChan (queue tx ++ [f]) cap) /\
    audio_buffer D (process_frame f s) = audio_buffer D s) as (E1 & E2 & E3).
  { split_and!; [|done|by exists tx]. split; [done|]. eexists. split_and!; [exact E2|done|]. cbn [queue].
    apply Forall_app; split; [done|by apply Forall_singleton]. }
  unfold process_frame. rewrite Htx, Hd. destruct (shared D s) as [sh|]; [|cbn; by rewrite Hs].
  destruct (vad.process_frame _ _) as [st v]. rewrite Hs. by destruct (speaking sh && _).
Qed.

Lemma drain_forwards cap n s :
  forwarding cap s ->
  (match stt_tx D s with Some tx => length (queue tx) | None => 0 end + length (audio_buffer D s) / 160 <= cap)%nat ->
  forwarding cap (drain_frames n s) /\ heard_bytes (drain_frames n s) = heard_bytes s.
Proof.
  revert s. induction n as [|n IH]; intros s Hw Hc; [done|]. cbn [session.drain_frames].
  destruct (Nat.leb_spec codec.SAMPLES_PER_FRAME (length (audio_buffer D s))) as [Hl|]; [|done].
  set (s0 := set_buffer D (drop codec.SAMPLES_PER_FRAME (audio_buffer D s)) s).
  set (f := take codec.SAMPLES_PER_FRAME (audio_buffer D s)).
  assert (length f = codec.SAMPLES_PER_FRAME) as Hf by (unfold f; rewrite length_take; lia).
  assert (forwarding cap s0) as Hw0 by done.
  pose proof Hw as (_ & tx & Htx & _). rewrite Htx in Hc.
  assert (length (audio_buffer D s) / 160 = S ((length (audio_buffer D s) - 160) / 160))%nat as Ediv.
  { unfold codec.SAMPLES_PER_FRAME in Hl. replace (length (audio_buffer D s)) with (1 * 160 + (length (audio_buffer D s) - 160))%nat at 1 by lia.
    rewrite Nat.div_add_l by lia. lia. }
  destruct (process_frame_forwards cap f s0 Hw0 Hf) as (H1 & H2 & tx' & E1 & E2).
  { unfold s0. cbn [stt_tx set_buffer]. rewrite Htx. lia. }
  unfold s0 in E1. cbn [stt_tx set_buffer] in E1. rewrite Htx in E1. injection E1 as <-.
  destruct (IH (process_frame f s0) H1) as [H3 H4].
  { rewrite E2, H2. cbn [queue]. unfold s0. cbn [audio_buffer set_buffer]. rewrite length_app, length_drop.
    unfold codec.SAMPLES_PER_FRAME. cbn [length]. lia. }
  split; [done|]. rewrite H4. unfold heard_bytes. rewrite E2, H2, Htx. cbn [queue]. rewrite join_app, join_single, <- app_assoc.
  f_equal. unfold s0, f. cbn [audio_buffer set_buffer]. apply take_drop.
Qed.

(** the caller's audio reaches the recogniser byte by byte: as long as its channel has
    room, after any media message the frames queued and the bytes kept back are the frames
    and bytes before it followed by the payload, every frame is 160 bytes and fewer than 160
    bytes are kept back. *)
Theorem media_reassembled (cap : nat) (payload bytes : list Z) s :
  forwarding cap s -> decode_base64 payload = Some bytes ->
  (match stt_tx D s with Some tx => length (queue tx) | None => 0 end + (length (audio_buffer D s) + length bytes) / 160 <= cap)%nat ->
  forwarding cap (handle (Media payload) s) /\ heard_bytes (handle (Media payload) s) = heard_bytes s ++ bytes /\
  (length (audio_buffer D (handle (Media payload) s)) < codec.SAMPLES_PER_FRAME)%nat.
Proof.
  intros Hw Hb Hc. cbn [handle_inbound]. rewrite Hb. cbv zeta.
  set (s0 := set_buffer D (audio_buffer D s ++ bytes) s).
  destruct (drain_forwards cap (length (audio_buffer D s0)) s0) as [H1 H2]; [done| |].
  - unfold s0. cbn [stt_tx audio_buffer set_buffer]. by rewrite length_app.
  - split_and!; [done| |by apply drained]. rewrite H2. unfold heard_bytes, s0. cbn [stt_tx audio_buffer set_buffer].
    by rewrite app_assoc.
Qed.

(** A frame interrupts playback exactly when the assistant speaks and the barge-in counter has
    reached the threshold; then the response is aborted, the buffer of the caller's phone is
    cleared, nobody speaks, and the counter starts again. *)
Lemma barge_in_exact (f : list Z) s (sh : Shared) :
  shared D s = Some sh ->
  let v := (vad.process_frame (codec.decode_frame f) (vad_engine D s)).2 in
  let interrupts := speaking sh && (barge_in_ms <=? vad.consecutive_barge_ms v) in
  shared D (process_frame f s) = Some (if interrupts then stop_playback true sh else sh) /\
  (interrupts = true -> vad.consecutive_barge_ms (vad_engine D (process_frame f s)) = 0).
Proof.
  intros Hs. unfold process_frame. rewrite Hs. destruct (vad.process_frame _ _) as [st v]. cbn [snd].
  unfold vad.is_barge_in. cbn [andb].
  destruct (stt_tx D s) as [tx|], (denoiser D s) as [d|]; [destruct (process_8k _ _)| | |];
    destruct (speaking sh && (barge_in_ms <=? vad.consecutive_barge_ms v)); done.
Qed.
End media_theorems.

(** ** Playback *)
Section playback_theorems.
Import session relay.

Definition audible (m : Outbound) : bool := match m with MediaOut _ | CloseOut => true | _ => false end.

Definition smooth (c : Chunk) : bool := negb (cancelled c) && delivered c.

Lemma relay_smooth l : forallb smooth l = true -> relay l = (Z.of_nat (length l), MediaOut ∘ audio <$> l).
Proof.
  induction l as [|c l IH]; [done|]. cbn [forallb relay]. intros [Hc Hl]%andb_true_iff. unfold smooth in Hc.
  destruct (cancelled c), (delivered c); try done. rewrite IH by done. rewrite fmap_cons. apply (f_equal2 pair); [cbn; lia|done].
Qed.

(** the silence guard, exactly: when nobody interrupts and the socket takes what is sent, a
    turn leaves the caller without sound on an open line if and only if the primary engine
    produced nothing and either the failure is for quota and the call had already been ended
    by another task, or it is not and there is no answer to repeat or the fallback engine
    produced nothing as well. *)
Theorem silence_guard_exact (t : Turn) :
  forallb smooth (primary t) = true -> forallb smooth (secondary t) = true -> cancelled_after t = false ->
  existsb audible (playback t) = false <->
  primary t = [] /\
  (if quota t then call_ended t = true
   else match answer t with None => True | Some a => unicode.trim a = [] \/ secondary t = [] end).
Proof.
  intros Hp Hs Hc. unfold playback, speak_once_with. rewrite (relay_smooth _ Hp), (relay_smooth _ Hs), Hc. cbn [snd].
  assert (forall l : list Chunk, existsb audible (MediaOut ∘ audio <$> l) = negb (bool_decide (l = []))) as Hm by by intros [].
  rewrite !existsb_app, Hm.
  assert (existsb audible (if cancelled_at_end t then [] else [MarkOut "tts_end"]) = false) as -> by by destruct (cancelled_at_end t).
  destruct (primary t) as [|c l]; cbn [length]; [|by split; [|intros [? _]]].
  change (Z.of_nat 0 =? 0) with true. cbn [andb negb]. rewrite orb_false_r, bool_decide_true by done. cbn [negb orb].
  destruct (quota t).
  - unfold fail_quota. destruct (call_ended t); [done|]. rewrite existsb_app. cbn. rewrite orb_true_r. by split; [|intros [_ ?]].
  - destruct (answer t) as [a|]; [|done]. change (unicode.trim <$> Some a) with (Some (unicode.trim a)).
    destruct (unicode.trim a) as [|x y]; [cbn; tauto|]. rewrite Hm. destruct (secondary t); cbn; [tauto|].
    split; [done|]. by intros [_ [?|?]].
Qed.
End playback_theorems.

(** ** One voice at a time *)
Section turn_theorems.
Import turns.

Definition alive (id : nat) (s : State) : Prop := responses s !! id = Some Running \/ responses s !! id = Some Checked.

(** Alive, and not told to abort. *)
Definition loud (id : nat) (s : State) : Prop := alive id s /\ id ∉ told s.

(** What the pc of the only task that runs turns says about the responses. *)
Definition phase_ok (c : Pc) (s : State) : Prop :=
  match c with
  | Idle | Cancelled | Silenced => forall id, loud id s -> tts_task s = Some id
  | Taken | Cleared | Resumed => tts_task s = None /\ forall id, ~ loud id s
  | Spawned k => tts_task s = None /\ forall id, loud id s -> id = k
  end.

Definition stopping (c : Pc) : Prop := match c with Idle | Cancelled | Silenced | Taken => True | _ => False end.

Definition turns_inv (t : nat) (s : State) : Prop :=
  (forall i d, drivers s !! i = Some d -> if runs_turns d then i = t else stopping (at_pc d)) /\
  match drivers s !! t with
  | Some d => if runs_turns d then phase_ok (at_pc d) s else forall id, ~ loud id s
  | None => forall id, ~ loud id s
  end.

Lemma loud_abort id s s' :
  responses s' = responses s -> told s' = abort (tts_task s) (told s) -> loud id s' -> loud id s /\ tts_task s <> Some id.
Proof.
  unfold loud, alive. intros -> ->. destruct (tts_task s) as [k|]; cbn; [|by intuition].
  rewrite elem_of_cons. intros [H1 H2]. split; [split; [done|tauto]|]. intros [= ->]. tauto.
Qed.

(** Fewer responses alive, same handle. *)
Lemma phase_weaken c s s' :
  tts_task s' = tts_task s -> (forall id, loud id s' -> loud id s) -> phase_ok c s -> phase_ok c s'.
Proof. intros E H. destruct c; cbn; rewrite E; naive_solver. Qed.

(** A task stops what plays: every phase survives. *)
Lemma phase_stop c s s' :
  tts_task s' = None -> (forall id, loud id s' -> loud id s /\ tts_task s <> Some id) -> phase_ok c s -> phase_ok c s'.
Proof.
  intros E H. destruct c; cbn; rewrite E.
  1-3: intros Hp id Hid; destruct (H id Hid) as [H1 H2]; by destruct H2; apply Hp.
  1-3: intros [_ Hn]; split; [done|]; intros id Hid; apply (Hn id), H, Hid.
  intros [_ Hn]. split; [done|]. intros k Hk. apply Hn, H, Hk.
Qed.

(** The pc of one task moves; the flags may change. *)
Lemma set_drivers t s s' i d c :
  turns_inv t s -> drivers s !! i = Some d -> drivers s' = <[i := MkDriver (runs_turns d) c]> (drivers s) ->
  (if runs_turns d then phase_ok (at_pc d) s -> phase_ok c s'
   else stopping c /\ (forall c', phase_ok c' s -> phase_ok c' s') /\ (forall id, loud id s' -> loud id s)) ->
  turns_inv t s'.
Proof.
  intros [H1 H2] Hd E Hc. pose proof (H1 i d Hd) as Hi. split.
  - intros j dj. rewrite E. destruct (decide (i = j)) as [<-|Hne].
    + rewrite list_lookup_insert_eq by by eapply lookup_lt_Some. intros [= <-]. cbn. destruct (runs_turns d); tauto.
    + rewrite list_lookup_insert_ne by done. apply H1.
  - rewrite E. destruct (decide (i = t)) as [->|Hne].
    + rewrite list_lookup_insert_eq by by eapply lookup_lt_Some. rewrite Hd in H2. cbn [runs_turns at_pc].
      destruct (runs_turns d); [by apply Hc|]. destruct Hc as (_ & _ & Ha). intros id Hid. by eapply H2, Ha.
    + rewrite list_lookup_insert_ne by done. destruct (runs_turns d); [done|]. destruct Hc as (_ & Hp & Ha).
      destruct (drivers s !! t) as [dt|]; [destruct (runs_turns dt); [by apply Hp|]|]; intros id Hid; by eapply H2, Ha.
Qed.

Lemma driver_step_inv t i s s' : turns_inv t s -> driver_step i s = Some s' -> turns_inv t s'.
Proof.
  intros Hi. unfold driver_step. destruct (drivers s !! i) as [d|] eqn:Hd; [|done].
  assert (forall c s1, tts_task s1 = tts_task s -> told s1 = told s -> responses s1 = responses s -> drivers s1 = drivers s ->
    (if runs_turns d then phase_ok (at_pc d) s -> phase_ok c s1 else stopping c) -> turns_inv t (set_pc i d c s1)) as Hsame.
  { intros c s1 E1 E0 E2 E3 Hc. eapply set_drivers; [done|exact Hd|unfold set_pc; cbn; by rewrite E3|].
    assert (forall id, loud id (set_pc i d c s1) -> loud id s) as Ha by (unfold loud, alive, set_pc; cbn; by rewrite E0, E2).
    destruct (runs_turns d).
    - intros H. apply Hc in H. revert H. apply phase_weaken; [done|]. done.
    - split_and!; [done| |done]. intros c'. apply phase_weaken; [by cbn|done]. }
  destruct (at_pc d) as [| | | | | |k] eqn:Hp; intros [= <-].
  - apply Hsame; try done. destruct (runs_turns d); [|done]. intros H. exact (phase_weaken Idle s _ eq_refl (fun _ x => x) H).
  - apply Hsame; try done. destruct (runs_turns d); [|done]. intros H. exact (phase_weaken Idle s _ eq_refl (fun _ x => x) H).
  - eapply set_drivers; [done|exact Hd|done|].
    assert (forall id, loud id (set_pc i d Taken (MkState (speaking s) (play_cancel s) None (abort (tts_task s) (told s)) (responses s) (drivers s) (sent s))) ->
      loud id s /\ tts_task s <> Some id) as Ha by (intros id; by apply loud_abort).
    destruct (runs_turns d).
    + rewrite Hp. cbn. intros H. split; [done|]. intros id [H1 H2]%Ha. by apply H2, H.
    + split_and!; [done| |by intros id [? _]%Ha]. intros c'. by apply phase_stop.
  - apply Hsame; try done. destruct (runs_turns d); [|done]. intros H. exact (phase_weaken Taken s _ eq_refl (fun _ x => x) H).
  - pose proof (proj1 Hi i d Hd) as Hk. rewrite Hp in Hk. apply Hsame; try done.
    destruct (runs_turns d); [|done]. intros H. exact (phase_weaken Cleared s _ eq_refl (fun _ x => x) H).
  - pose proof (proj1 Hi i d Hd) as Hk. rewrite Hp in Hk. destruct (runs_turns d) eqn:Hr; [|done].
    eapply set_drivers; [done|exact Hd|done|]. rewrite Hr, Hp. cbn. intros [H1 H2]. split; [done|].
    intros id. unfold loud, alive. cbn. destruct (decide (id < length (responses s))%nat).
    + rewrite lookup_app_l by done. intros H. by destruct (H2 id).
    + rewrite lookup_app_r by lia. intros [H _]. destruct (id - length (responses s))%nat eqn:E; [lia|]. by destruct H.
  - pose proof (proj1 Hi i d Hd) as Hk. rewrite Hp in Hk. destruct (runs_turns d) eqn:Hr; [|done].
    eapply set_drivers; [done|exact Hd|done|]. rewrite Hr, Hp. cbn. intros [H1 H2] id Hid. f_equal. symmetry. by apply H2.
Qed.

(** A response moves, or ends. *)
Lemma resp_inv t k r r' s s' :
  turns_inv t s -> responses s !! k = Some r -> r = Running \/ r = Checked -> responses s' = <[k := r']> (responses s) ->
  tts_task s' = tts_task s -> told s' = told s -> drivers s' = drivers s -> turns_inv t s'.
Proof.
  intros [H1 H2] Hr Hk E E1 E0 E2.
  assert (forall id, loud id s' -> loud id s) as Ha.
  { intros id. unfold loud, alive. rewrite E, E0. intros [H Ht]. split; [|done]. destruct (decide (k = id)) as [<-|Hne].
    - rewrite Hr. by destruct Hk as [->| ->]; [left|right].
    - by rewrite list_lookup_insert_ne in H by done. }
  split; rewrite E2; [done|]. destruct (drivers s !! t) as [d|]; [destruct (runs_turns d)|].
  - revert H2. by apply phase_weaken.
  - intros id Hid. by eapply H2, Ha.
  - intros id Hid. by eapply H2, Ha.
Qed.

Lemma response_step_inv t k e s s' : turns_inv t s -> response_step k e s = Some s' -> turns_inv t s'.
Proof.
  intros Hi. unfold response_step. destruct (responses s !! k) as [r|] eqn:Hr; [|done].
  destruct r; try done; [destruct (e || play_cancel s)|]; intros [= <-]; (eapply resp_inv; [exact Hi|exact Hr|tauto|done..]).
Qed.

Lemma drop_step_inv t k s s' : turns_inv t s -> drop_step k s = Some s' -> turns_inv t s'.
Proof.
  intros Hi. unfold drop_step. destruct (responses s !! k) as [r|] eqn:Hr; [|done].
  destruct r; try done; case_bool_decide; try done; intros [= <-]; (eapply resp_inv; [exact Hi|exact Hr|tauto|done..]).
Qed.

Lemma init_inv before after :
  Forall (fun x => x = false) before -> Forall (fun x => x = false) after ->
  turns_inv (length before) (init (before ++ true :: after)).
Proof.
  intros Hb Ha. split.
  - intros i d. unfold init. cbn [drivers]. rewrite list_lookup_fmap. intros (x & Hx & ->)%fmap_Some. cbn. destruct x; [|done].
    destruct (decide (i < length before)%nat).
    + rewrite lookup_app_l in Hx by done. by eapply Forall_lookup_1 in Hb; [|exact Hx].
    + rewrite lookup_app_r in Hx by lia. destruct (i - length before)%nat eqn:E; [lia|]. cbn in Hx.
      by eapply Forall_lookup_1 in Ha; [|exact Hx].
  - unfold init. cbn [drivers]. rewrite list_lookup_fmap, lookup_app_r, Nat.sub_diag by done. cbn.
    intros id [[H|H] _]; done.
Qed.

Lemma turns_reachable before after s :
  Forall (fun x => x = false) before -> Forall (fun x => x = false) after ->
  rtc step (init (before ++ true :: after)) s -> turns_inv (length before) s.
Proof.
  intros Hb Ha Hr. revert s Hr. apply (rtc_ind_r (R := step) (turns_inv (length before))); [by apply init_inv|].
  intros x y _ [i s1 s2 Hd|id e s1 s2 Hd|id s1 s2 Hd] H; [by eapply driver_step_inv|by eapply response_step_inv|by eapply drop_step_inv].
Qed.

(** The response the task that runs turns has just spawned and not yet recorded. *)
Definition spawned (id : nat) (s : State) : Prop :=
  exists i d, drivers s !! i = Some d /\ runs_turns d = true /\ at_pc d = Spawned id.

(** C20: with a single task that runs turns, and any number of tasks that interrupt playback, in
    every interleaving no response escapes: a response that is alive and has not been told to
    abort is the one whose handle the next interruption takes, or the one the task has just
    spawned and is about to record; so there is at most one such response, and before a new one
    is spawned every other has been told to abort.  An aborted response may still be on its way
    out ([aborted_response_still_sends]). *)
Theorem one_voice_with_one_turn_task (before after : list bool) (s : State) :
  Forall (fun x => x = false) before -> Forall (fun x => x = false) after ->
  rtc step (init (before ++ true :: after)) s ->
  (forall id, alive id s -> id ∈ told s \/ tts_task s = Some id \/ tts_task s = None /\ spawned id s) /\
  (forall a b, alive a s -> alive b s -> a = b \/ a ∈ told s \/ b ∈ told s).
Proof.
  intros Hb Ha Hr. destruct (turns_reachable before after s Hb Ha Hr) as [_ H].
  assert (forall id, loud id s -> tts_task s = Some id \/ tts_task s = None /\ spawned id s) as Hl.
  { intros id Hid. destruct (drivers s !! length before) as [d|] eqn:Ed; [|by destruct (H id)].
    destruct (runs_turns d) eqn:Er; [|by destruct (H id)]. destruct (at_pc d) eqn:Ep; cbn in H.
    1-3: left; by apply H.
    1-3: by destruct (proj2 H id).
    destruct H as [Ht H]. right. split; [done|]. rewrite (H id Hid). by exists (length before), d. }
  assert (forall a b, loud a s -> loud b s -> a = b) as Hu.
  { intros a b Hx Hy. destruct (drivers s !! length before) as [d|]; [|by destruct (H a)].
    destruct (runs_turns d); [|by destruct (H a)]. destruct (at_pc d); cbn in H.
    1-3: pose proof (H a Hx); pose proof (H b Hy); congruence.
    1-3: by destruct (proj2 H a).
    destruct H as [_ H]. by rewrite (H a), (H b). }
  split.
  - intros id Hid. destruct (decide (id ∈ told s)); [by left|right]. by apply Hl.
  - intros a b Hx Hy. destruct (decide (a ∈ told s)); [tauto|]. destruct (decide (b ∈ told s)); [tauto|]. left. by apply Hu.
Qed.

(** A schedule: the steps of tasks and of responses, and the ends of aborted ones. *)
Inductive Move := Drive (i : nat) | Respond (id : nat) (ends : bool) | Cut (id : nat).
Definition move (m : Move) (s : State) : option State :=
  match m with Drive i => driver_step i s | Respond id e => response_step id e s | Cut id => drop_step id s end.
Fixpoint moves (l : list Move) (s : State) : option State :=
  match l with [] => Some s | m :: l => s ← move m s; moves l s end.

Lemma moves_reachable l s s' : moves l s = Some s' -> rtc step s s'.
Proof.
  revert s. induction l as [|m l IH]; intros s; [intros [= <-]; constructor|]. cbn [moves].
  destruct (move m s) as [s1|] eqn:E; [|done]. intros H. eapply rtc_l; [|by apply IH].
  destruct m as [i|id e|id]; [by eapply step_driver|by eapply step_response|by eapply step_drop].
Qed.
End turn_theorems.

Module session_examples.
Import unicode.
Definition t : string -> list Z := of_string.

(** The transcript loop and the keypad collector each start a turn at the same time; the media
    loop then interrupts: one of the two responses is aborted, the other goes on speaking
    after the clear, and nothing holds its handle any more. *)
Definition turn (i : nat) : list Move := replicate 7 (Drive i).
Definition speaks (id : nat) : list Move := [Respond id false; Respond id false].
Definition both : list Move :=
  mjoin (replicate 7 [Drive 0; Drive 1]) ++ speaks 0 ++ speaks 1 ++ replicate 4 (Drive 2) ++ [Cut 1] ++ turn 1 ++ speaks 0.

Example concurrent_turns_talk_over :
  (fun s => (turns.sent s, turns.responses s, turns.told s, turns.tts_task s)) <$> moves both (turns.init [true; true; false]) =
    Some ([None; None; Some 0; Some 1; None; None; Some 0]%nat, [turns.Running; turns.Aborted; turns.Running], [1]%nat, Some 2%nat).
Proof. vm_refl. Qed.

(** A new turn clears the flag without waiting for the response it has aborted: that one can
    still be on a worker thread, finds the flag clear, and speaks into the new answer. *)
Definition overlap : list Move := turn 0 ++ speaks 0 ++ turn 0 ++ speaks 1 ++ speaks 0 ++ [Cut 0].
Example aborted_response_still_sends :
  (fun s => (turns.sent s, turns.responses s, turns.told s)) <$> moves overlap (turns.init [true]) =
    Some ([None; Some 0; None; Some 1; Some 0]%nat, [turns.Aborted; turns.Running], [0]%nat).
Proof. vm_refl. Qed.

(** The second turn is running while the first, aborted, is still alive. *)
Lemma one_voice_with_one_turn_task_witness :
  exists s, rtc turns.step (turns.init ([] ++ true :: [false])) s /\ alive 0 s /\ alive 1 s /\ (0%nat = 1%nat \/ 0%nat ∈ turns.told s \/ 1%nat ∈ turns.told s).
Proof.
  destruct (moves (turn 0 ++ speaks 0 ++ turn 0) (turns.init [true; false])) as [s|] eqn:E; [|by vm_compute in E].
  exists s. pose proof (moves_reachable _ _ _ E) as Hr.
  assert (alive 0 s /\ alive 1 s) as [H0 H1] by (vm_compute in E; injection E as <-; split; by left).
  split; [exact Hr|]. split; [exact H0|]. split; [exact H1|].
  exact (proj2 (one_voice_with_one_turn_task [] [false] s ltac:(by apply Forall_nil_2)
    ltac:(by repeat apply Forall_cons_2; [|apply Forall_nil_2]) Hr) 0%nat 1%nat H0 H1).
Defined.

(** *** Endpointing *)
Definition speech (n : nat) : endpoint.Frame := endpoint.MkFrame (replicate 160 (Z.of_nat n)) true 0.
Definition quiet (ms : Z) : endpoint.Frame := endpoint.MkFrame (replicate 160 0) false ms.

Lemma endpoint_never_hangs_witness :
  endpoint.in_utt (endpoint.endpoint_loop (fun _ => false) 250 1500 [quiet 1500; quiet 1520]
    (endpoint.MkState [1] true false 0)).2 = false.
Proof. by apply endpoint_never_hangs. Defined.

Lemma incomplete_then_fallback :
  (endpoint.endpoint_loop (fun _ => false) 250 1500 [speech 1; quiet 240; quiet 260; quiet 280; quiet 1500; quiet 1520] endpoint.start).1 =
    [endpoint.Nothing; endpoint.Nothing; endpoint.Asked false; endpoint.Nothing; endpoint.MaxSilence; endpoint.Nothing].
Proof. vm_refl. Qed.

(** *** Keypad *)
Definition typed (s : string) : list dtmf.Event := dtmf.Key <$> t s.

Lemma keypad_entries_faithful_witness :
  (dtmf.dtmf_loop ((typed "12" ++ [dtmf.Pause] ++ typed "34#5") ++ dtmf.Key 42 :: typed "6#") []).1 =
    [t "12"; t "34"; t "6"].
Proof.
  destruct (keypad_entries_faithful (typed "12" ++ [dtmf.Pause] ++ typed "34#5") (typed "6#")) as (_ & H & _).
  { intros Hin. apply list_elem_of_In in Hin. cbn in Hin. naive_solver. }
  rewrite H. vm_refl.
Defined.

(** *** Voices *)
Definition cfg : voice.Config := voice.MkConfig (t "cartesia") (t "amy") (t "rachel") {[ t "en"; t "vi" ]}.
Definition low (l : list Z) : list Z := tts_text.ascii_lower l.

(** The voice a tenant configures for a language Cartesia does not serve is never used. *)
Lemma tenant_voice_discarded :
  voice.resolve_voice low cfg {[ t "ja" := t "yuki" ]} (Some (t "ja")) None = t "rachel" /\
  voice.engine_for low cfg (Some (t "ja")) = voice.ElevenLabs.
Proof. split; vm_refl. Qed.

(** An agent that follows the caller still constrains the recogniser when the process has a
    language set. *)
Lemma follower_constrained :
  let p := voice.start_params (Some (t "en")) {[ "language"%string := t "vi" ]} in
  voice.follow_caller p = true /\ voice.stt_language p = Some (t "en").
Proof. split; vm_refl. Qed.

(** *** Audio *)
Definition call0 : session.Session unit :=
  session.MkSession unit (vad.new 2) [9] (Some (session.MkChan [] 4)) None None None None.

Lemma media_reassembled_witness :
  heard_bytes (session.handle_inbound 120 unit (fun l d => (l, d)) Some (session.Media (replicate 200 7)) call0) =
    9 :: replicate 200 7.
Proof.
  pose proof (media_reassembled 120 (fun l d => (l, d)) Some 4 (replicate 200 7) (replicate 200 7) call0) as H.
  destruct H as (_ & H & _); [|done| |exact H].
  - split; [done|]. exists (session.MkChan [] 4). split_and!; [done|done|by apply Forall_nil_2].
  - cbn. lia.
Defined.

Lemma silence_guard_exact_witness :
  existsb audible (relay.playback (relay.MkTurn [] false (Some (t "hello")) [] false false false [])) = false.
Proof. apply silence_guard_exact; [done|done|done|]. split; [done|]. by right. Defined.
End session_examples.
