(* ===== verification/Dataloader.v ===== *)
(** Dataset readers and transforms: core/dataloader/src/config.rs (module [config]),
    datasets/text.rs ([text]), datasets/timeseries.rs ([timeseries]), datasets/synthetic.rs
    ([synthetic]) and transform/ ([transform]).  The modules work on the content of the files,
    as lists of code points; reading files and directories is left out.  Floats are opaque
    values, or the four bytes they are stored in.  The random generator is the interface
    [Shuffle]: a permutation of the indices for every seed. *)

From stdpp Require Import base numbers list gmap strings sorting.
From S2P Require Import Prelude.

(** ** error.rs and the sample types of lib.rs *)
Module error.
Inductive Error :=
  | Io
  | DatasetNotFound (path : list Z)
  | InvalidFormat (reason : list Z)
  | IndexOutOfBounds (index len : nat)
  | CorruptedSample (index : nat) (reason : list Z)
  | Config (msg : string)
  | Internal (msg : string).
End error.

Module types.
(** What a dataset puts in the JSON of a sample; a float is given by its bytes. *)
Inductive Metadata :=
  | TextMeta (text_preview : list Z) (length : Z)
  | WindowMeta (target : list Z) (window_size num_features : nat)
  | FeatureMeta (num_features : nat) (normalization : string)
  | FileMeta (filename : list Z)
  | BoxesMeta (filename : option (list Z)) (num_bboxes : nat) (bboxes : list (Z * list (list Z)))
  | AudioMeta (filename : option (list Z)) (sample_rate : Z) (duration : list Z) (num_samples : Z)
  | NoMeta.

Record Sample : Type := MkSample { data : list Z; label : Z; metadata : Metadata }.
End types.

(** Trait [Dataset]. *)
Class Dataset (D : Type) : Type := {
  ds_len : D -> nat;
  ds_get : D -> nat -> Result types.Sample error.Error;
}.

(** [ChaCha8Rng::seed_from_u64] and [shuffle] of the indices below [n]. *)
Class Shuffle : Type := { shuffled : Z -> nat -> list nat }.
Class ShuffleLaws `{Shuffle} : Prop := { shuffled_perm seed n : shuffled seed n ≡ₚ seq 0 n }.

(** ** config.rs *)
Module config.
Import error.
Record DatasetConfig : Type := MkConfig {
  batch_size : nat;
  shuffle : bool;
  seed : Z;
  num_workers : nat;
  ring_capacity : nat;
  prefetch : bool;
  shard_id : option nat;
  num_shards : nat;
}.

Definition default_ : DatasetConfig := MkConfig 256 false 0 4 (Z.to_nat 8192) true None 1.

Definition with_batch_size (n : nat) (c : DatasetConfig) : DatasetConfig :=
  MkConfig n (shuffle c) (seed c) (num_workers c) (ring_capacity c) (prefetch c) (shard_id c) (num_shards c).
Definition with_shuffle (enable : bool) (c : DatasetConfig) : DatasetConfig :=
  MkConfig (batch_size c) enable (seed c) (num_workers c) (ring_capacity c) (prefetch c) (shard_id c) (num_shards c).
Definition with_seed (s : Z) (c : DatasetConfig) : DatasetConfig :=
  MkConfig (batch_size c) (shuffle c) s (num_workers c) (ring_capacity c) (prefetch c) (shard_id c) (num_shards c).
Definition with_workers (n : nat) (c : DatasetConfig) : DatasetConfig :=
  MkConfig (batch_size c) (shuffle c) (seed c) n (ring_capacity c) (prefetch c) (shard_id c) (num_shards c).
Definition with_ring_capacity (n : nat) (c : DatasetConfig) : DatasetConfig :=
  MkConfig (batch_size c) (shuffle c) (seed c) (num_workers c) n (prefetch c) (shard_id c) (num_shards c).
Definition with_shard (id shards : nat) (c : DatasetConfig) : DatasetConfig :=
  MkConfig (batch_size c) (shuffle c) (seed c) (num_workers c) (ring_capacity c) (prefetch c) (Some id) shards.

Definition validate (c : DatasetConfig) : Result unit Error :=
  if (batch_size c =? 0)%nat then Err (Config "batch_size must be > 0")
  else if (num_workers c =? 0)%nat then Err (Config "num_workers must be > 0")
  else if (ring_capacity c <? batch_size c)%nat then Err (Config "ring_capacity must be >= batch_size")
  else if (num_shards c =? 0)%nat then Err (Config "num_shards must be > 0")
  else match shard_id c with
       | Some id =>
           if (num_shards c <=? id)%nat
           then Err (Config ("shard_id (" +:+ string_of_Z (Z.of_nat id) +:+ ") must be < num_shards (" +:+
                             string_of_Z (Z.of_nat (num_shards c)) +:+ ")"))
           else Ok tt
       | None => Ok tt
       end.

(** The sharding of the readers: entry [i] belongs to shard [i mod n]. *)
Definition shard {A} (c : DatasetConfig) (all_entries : list A) : list A :=
  match shard_id c with
  | Some id =>
      snd <$> List.filter (fun '(i, _) => (i mod num_shards c =? id)%nat) (imap pair all_entries)
  | None => all_entries
  end.
End config.

(** ** datasets/text.rs *)
Module text.
Import error types config unicode.

Definition MAX_SEQ_LEN : nat := 512.
Definition PAD_TOKEN_ID : Z := 0.
Definition UNK_TOKEN_ID : Z := 1.
Definition CLS_TOKEN_ID : Z := 2.
Definition SEP_TOKEN_ID : Z := 3.

Definition PAD : list Z := of_string "[PAD]".
Definition UNK : list Z := of_string "[UNK]".
Definition CLS : list Z := of_string "[CLS]".
Definition SEP : list Z := of_string "[SEP]".

Record Vocabulary : Type := MkVocab {
  word_to_id : gmap (list Z) Z;
  id_to_word : gmap Z (list Z);
  next_id : Z;
}.

Definition add_special_tokens (v : Vocabulary) : Vocabulary :=
  MkVocab
    (<[SEP := SEP_TOKEN_ID]> (<[CLS := CLS_TOKEN_ID]> (<[UNK := UNK_TOKEN_ID]>
      (<[PAD := PAD_TOKEN_ID]> (word_to_id v)))))
    (<[SEP_TOKEN_ID := SEP]> (<[CLS_TOKEN_ID := CLS]> (<[UNK_TOKEN_ID := UNK]>
      (<[PAD_TOKEN_ID := PAD]> (id_to_word v)))))
    (next_id v).

Definition new : Vocabulary := add_special_tokens (MkVocab ∅ ∅ 4).

Definition add_word (word : list Z) (v : Vocabulary) : Z * Vocabulary :=
  match word_to_id v !! word with
  | Some id => (id, v)
  | None =>
      let id := next_id v in
      (id, MkVocab (<[word := id]> (word_to_id v)) (<[id := word]> (id_to_word v)) (as_unsigned 32 (next_id v + 1)))
  end.

Definition get_id (word : list Z) (v : Vocabulary) : Z := default UNK_TOKEN_ID (word_to_id v !! word).
Definition len (v : Vocabulary) : nat := size (word_to_id v).

Record TextDataset : Type := MkDataset {
  d_config : DatasetConfig;
  entries : list (list Z * Z);
  vocab : Vocabulary;
  max_seq_len : nat;
  add_special : bool;
}.

Section reader.
(** [str::to_lowercase] *)
Variable to_lowercase : list Z -> list Z.

Definition simple_tokenize (text : list Z) : list (list Z) :=
  List.filter (fun w => match w with [] => false | _ => true end)
    (split_by (fun c => is_whitespace c || is_ascii_punctuation c) (to_lowercase text)).

Definition add_words (text : list Z) (v : Vocabulary) : Vocabulary :=
  foldl (fun v word => snd (add_word word v)) v (simple_tokenize text).

Definition from_entries (all_entries : list (list Z * Z)) (v : Vocabulary) (c : DatasetConfig) : TextDataset :=
  MkDataset c (shard c all_entries) v MAX_SEQ_LEN true.

(** The loop of [from_csv] over the lines after the header. *)
Fixpoint csv_entries (line_idx : nat) (l : list (list Z)) (all_entries : list (list Z * Z)) (v : Vocabulary)
    : Result (list (list Z * Z) * Vocabulary) Error :=
  match l with
  | [] => Ok (all_entries, v)
  | line :: l =>
      match split_once 44 line with
      | None => csv_entries (S line_idx) l all_entries v
      | Some (part0, part1) =>
          let text := trim_by (fun c => c =? 34) part0 in
          match parse_unsigned u32_max (trim part1) with
          | None => Err (InvalidFormat (of_string ("invalid label on line " +:+
                           string_of_Z (Z.of_nat (line_idx + 2)) +:+ ": ") ++ part1))
          | Some label => csv_entries (S line_idx) l (all_entries ++ [(text, label)]) (add_words text v)
          end
      end
  end.

(** [from_csv] on the content of the file at [path]. *)
Definition from_csv (path content : list Z) (c : DatasetConfig) : Result TextDataset Error :=
  let? _ := validate c in
  let? r := csv_entries 0 (drop 1 (lines [] content)) [] new in
  match r.1 with
  | [] => Err (InvalidFormat (of_string "no valid entries in CSV: " ++ path))
  | all_entries => Ok (from_entries all_entries r.2 c)
  end.

Definition tokenize_and_encode (d : TextDataset) (text : list Z) : list Z :=
  let words := simple_tokenize text in
  let token_ids := if add_special d then [CLS_TOKEN_ID] else [] in
  let token_ids := token_ids ++ ((fun w => get_id w (vocab d)) <$> take (max_seq_len d - 2) words) in
  let token_ids := if add_special d then token_ids ++ [SEP_TOKEN_ID] else token_ids in
  token_ids ++ replicate (max_seq_len d - length token_ids) PAD_TOKEN_ID.

(** [to_le_bytes] of every token. *)
Definition tokens_to_bytes (tokens : list Z) : list Z := tokens ≫= (fun id => rev (to_be_bytes 4 id)).

Definition get (d : TextDataset) (idx : nat) : Result Sample Error :=
  match entries d !! idx with
  | None => Err (IndexOutOfBounds idx (length (entries d)))
  | Some (text, label) =>
      Ok (MkSample (tokens_to_bytes (tokenize_and_encode d text)) label
           (TextMeta (take 100 text) (Zsum_with len_utf8 text)))
  end.

Definition iter_shuffled `{Shuffle} (d : TextDataset) (seed : Z) : list (Result Sample Error) :=
  if (seed =? 0) || negb (shuffle (d_config d))
  then get d <$> seq 0 (length (entries d))
  else get d <$> shuffled seed (length (entries d)).
End reader.
End text.

(** ** datasets/timeseries.rs: the windows *)
Module timeseries.
Import error config unicode.

Section windows.
Context {F : Type}.
Variables (window_size stride target_idx : nat).

(** The [while] loop; a round consumes at least one row, so the number of rows is enough
    fuel. *)
Fixpoint make_windows (fuel idx : nat) (all_data : list (list F)) : Result (list (list F * F)) Error :=
  match fuel with
  | O => Ok []
  | S fuel =>
      match all_data !! (idx + window_size)%nat with
      | None => Ok []
      | Some target_row =>
          let window_features := concat (take window_size (drop idx all_data)) in
          match target_row !! target_idx with
          | None => Err (InvalidFormat (of_string ("target_col " +:+ string_of_Z (Z.of_nat target_idx) +:+ " out of bounds")))
          | Some target =>
              let? rest := make_windows fuel (idx + stride) all_data in
              Ok ((window_features, target) :: rest)
          end
      end
  end.

(** [from_csv_with_options] after the rows are parsed. *)
Definition from_rows (all_data : list (list F)) (c : DatasetConfig) : Result (list (list F * F)) Error :=
  if (window_size =? 0)%nat then Err (InvalidFormat (of_string "window_size must be > 0"))
  else if (stride =? 0)%nat then Err (InvalidFormat (of_string "stride must be > 0"))
  else if (length all_data <? window_size + 1)%nat
  then Err (InvalidFormat (of_string ("not enough data for windowing: " +:+ string_of_Z (Z.of_nat (length all_data)) +:+
              " rows, need at least " +:+ string_of_Z (Z.of_nat (window_size + 1)))))
  else
    let? all_windows := make_windows (length all_data) 0 all_data in
    match all_windows with
    | [] => Err (InvalidFormat (of_string "no windows created (data too short?)"))
    | _ => Ok (shard c all_windows)
    end.
End windows.
End timeseries.

(** ** datasets/synthetic.rs *)
Module synthetic.
Import error types.
Record SyntheticDataset : Type := MkSynthetic {
  class_images : list (list Z);
  num_samples : nat;
  num_classes : nat;
  height : nat;
  width : nat;
  channels : nat;
}.

Definition wmul (a b : Z) : Z := as_unsigned 64 (a * b).
Definition wadd (a b : Z) : Z := as_unsigned 64 (a + b).

(** The next state of the generator at pixel [i], and the pixel. *)
Definition next_state (state i : Z) : Z :=
  wadd (wadd state (wmul i 0x517cc1b727220a95)) 0x9e3779b97f4a7c15.
Definition mix (state : Z) : Z :=
  let z := state in
  let z := wmul (Z.lxor z (Z.shiftr z 30)) 0xbf58476d1ce4e5b9 in
  let z := wmul (Z.lxor z (Z.shiftr z 27)) 0x94d049bb133111eb in
  let z := Z.lxor z (Z.shiftr z 31) in
  Z.land z 0xff.

Fixpoint pixels (state : Z) (i n : nat) : list Z :=
  match n with
  | O => []
  | S n => let state := next_state state (Z.of_nat i) in mix state :: pixels state (S i) n
  end.

Definition class_image (seed : Z) (pixel_len c : nat) : list Z :=
  pixels (wadd (wmul seed 0x9e3779b97f4a7c15) (wmul (Z.of_nat c) 0x6c62272e07bb0142)) 0 pixel_len.

(** [None]: an assertion fails. *)
Definition new (num_samples num_classes height width channels : nat) (seed : Z) : option SyntheticDataset :=
  if (num_classes =? 0)%nat then None
  else if (height * width * channels =? 0)%nat then None
  else Some (MkSynthetic (class_image seed (height * width * channels) <$> seq 0 num_classes)
               num_samples num_classes height width channels).

Definition get (d : SyntheticDataset) (idx : nat) : Result Sample Error :=
  if (num_samples d <=? idx)%nat then Err (IndexOutOfBounds idx (num_samples d))
  else
    let class_id := (idx mod num_classes d)%nat in
    match class_images d !! class_id with
    | Some image => Ok (MkSample image (as_unsigned 32 (Z.of_nat class_id)) NoMeta)
    | None => Err (Internal "index out of bounds")
    end.
End synthetic.

(** ** transform/mod.rs and normalize.rs *)
Module transform.
Import error types unicode.

Definition Transform : Type := Sample -> Result Sample Error.
Definition TransformChain : Type := list Transform.

Fixpoint apply_chain (l : TransformChain) (s : Sample) : Result Sample Error :=
  match l with [] => Ok s | t :: l => let? s := t s in apply_chain l s end.

Definition identity : Transform := Ok.

Definition validate_size (expected_bytes : nat) : Transform := fun s =>
  if negb (length (data s) =? expected_bytes)%nat
  then Err (InvalidFormat (of_string ("Expected " +:+ string_of_Z (Z.of_nat expected_bytes) +:+ " bytes, got " +:+
              string_of_Z (Z.of_nat (length (data s))))))
  else Ok s.

Record ToChannelFirst : Type := MkToChannelFirst { height : nat; width : nat; channels : nat }.

Definition set_data (d : list Z) (s : Sample) : Sample := MkSample d (label s) (metadata s).

(** The floats of a sample, each as its four bytes. *)
Definition read_floats (num_floats : nat) (bytes : list Z) : list (list Z) :=
  (fun i => take 4 (drop (i * 4) bytes)) <$> seq 0 num_floats.

(** The three nested loops, in their order. *)
Definition positions (h w c : nat) : list (nat * nat * nat) :=
  seq 0 h ≫= fun row => seq 0 w ≫= fun col => (fun chan => (row, col, chan)) <$> seq 0 c.

Definition src_of (h w c : nat) (p : nat * nat * nat) : nat :=
  let '(row, col, chan) := p in (row * w * c + col * c + chan)%nat.
Definition dst_of (h w c : nat) (p : nat * nat * nat) : nat :=
  let '(row, col, chan) := p in (chan * h * w + row * w + col)%nat.

Definition transpose (h w c : nat) (floats : list (list Z)) : list (list Z) :=
  foldl (fun out p => <[dst_of h w c p := nth (src_of h w c p) floats []]> out)
    (replicate (h * w * c) [0; 0; 0; 0]) (positions h w c).

Definition to_channel_first (t : ToChannelFirst) : Transform := fun s =>
  let h := height t in
  let w := width t in
  let c := channels t in
  let expected := (h * w * c * 4)%nat in
  if negb (length (data s) =? expected)%nat
  then Err (InvalidFormat (
         of_string ("ToChannelFirst: expected " +:+ string_of_Z (Z.of_nat expected) +:+ " bytes (") ++
         of_string (string_of_Z (Z.of_nat h)) ++ [0xD7] ++ of_string (string_of_Z (Z.of_nat w)) ++ [0xD7] ++
         of_string (string_of_Z (Z.of_nat c)) ++ [0xD7] ++
         of_string ("4), got " +:+ string_of_Z (Z.of_nat (length (data s))))))
  else Ok (set_data (concat (transpose h w c (read_floats (h * w * c) (data s)))) s).
End transform.

(** ** Sharding *)
Section sharding.
Import config.

Lemma bind_single_perm {B} (x : B) (a : nat) (g : nat -> list B) (l : list nat) :
  NoDup l -> a ∈ l -> (l ≫= fun b => if (a =? b)%nat then x :: g b else g b) ≡ₚ x :: (l ≫= g).
Proof.
  induction l as [|b l IH]; intros Hnd Ha; [by apply not_elem_of_nil in Ha|].
  apply NoDup_cons in Hnd as [Hb Hnd]. cbn. destruct (Nat.eqb_spec a b) as [->|Hne].
  - cbn. do 2 f_equiv. clear IH Hnd Ha. induction l as [|y l IH]; [done|]. cbn.
    apply not_elem_of_cons in Hb as [Hy Hb]. destruct (Nat.eqb_spec b y); [done|]. by rewrite IH.
  - apply elem_of_cons in Ha as [?|Ha]; [done|]. rewrite IH by done. by rewrite (Permutation_middle (g b)).
Qed.

Lemma filters_partition {B} (key : B -> nat) (n : nat) (ps : list B) :
  (forall p, p ∈ ps -> (key p < n)%nat) ->
  (seq 0 n ≫= fun id => List.filter (fun p => (key p =? id)%nat) ps) ≡ₚ ps.
Proof.
  induction ps as [|p ps IH]; intros Hk.
  - cbn. by induction (seq 0 n).
  - cbn [List.filter]. rewrite (bind_single_perm p (key p)).
    + f_equiv. apply IH. intros q Hq. apply Hk. by right.
    + apply NoDup_seq.
    + apply elem_of_seq. specialize (Hk p ltac:(left)). lia.
Qed.

Lemma bind_fmap_snd {A B C} (f : B -> C) (g : A -> list B) (l : list A) : (l ≫= fun a => f <$> g a) = f <$> (l ≫= g).
Proof. induction l as [|a l IH]; [done|]. cbn. by rewrite IH, fmap_app. Qed.

(** sharding loses and duplicates nothing: with any positive number of shards, the shards
    of all identifiers together are the dataset, and an entry is in the shard of its position
    modulo the number of shards. *)
Theorem shards_partition {A} (c : DatasetConfig) (n : nat) (l : list A) :
  (0 < n)%nat ->
  (seq 0 n ≫= fun id => shard (with_shard id n c) l) ≡ₚ l /\
  (forall id x, x ∈ shard (with_shard id n c) l <-> exists i, l !! i = Some x /\ (i mod n = id)%nat).
Proof.
  intros Hn. unfold shard, with_shard. cbn [shard_id num_shards].
  assert (forall id, List.filter (fun '(i, _) => (i mod n =? id)%nat) (imap pair l) =
                     List.filter (fun p => (p.1 mod n =? id)%nat) (imap pair l)) as E.
  { intros id. apply List.filter_ext. by intros []. }
  split.
  - rewrite bind_fmap_snd. etransitivity.
    + apply fmap_Permutation. erewrite list_bind_ext; [|intros id; apply E|done].
      apply (filters_partition (fun p => p.1 mod n)%nat). intros p _. by apply Nat.mod_upper_bound; lia.
    + rewrite fmap_imap. apply reflexive_eq, list_eq. intros i. rewrite list_lookup_imap. by destruct (l !! i).
  - intros id x. rewrite E, list_elem_of_fmap. split.
    + intros ([i y] & -> & Hf). apply list_elem_of_In, filter_In in Hf as [Hi Hid].
      apply list_elem_of_In, elem_of_lookup_imap in Hi as (j & z & [= -> ->] & Hj). exists j.
      split; [done|]. by apply Nat.eqb_eq in Hid.
    + intros (i & Hi & Hid). exists (i, x). split; [done|]. apply list_elem_of_In, filter_In. split.
      * apply list_elem_of_In, elem_of_lookup_imap. by exists i, x.
      * by apply Nat.eqb_eq.
Qed.
End sharding.

(** ** The vocabulary *)
Section vocabulary.
Import error types config unicode text.

(** As long as its size fits the identifiers: the two maps are inverse, the identifiers are
    the numbers below [next_id], and the special tokens have theirs. *)
Record consistent (v : Vocabulary) : Prop := {
  voc_next : next_id v = Z.of_nat (len v);
  voc_inverse : forall w i, word_to_id v !! w = Some i <-> id_to_word v !! i = Some w;
  voc_below : forall w i, word_to_id v !! w = Some i -> 0 <= i < next_id v;
  voc_special : word_to_id v !! PAD = Some PAD_TOKEN_ID /\ word_to_id v !! UNK = Some UNK_TOKEN_ID /\
                word_to_id v !! CLS = Some CLS_TOKEN_ID /\ word_to_id v !! SEP = Some SEP_TOKEN_ID;
}.

Definition vocab_wf (v : Vocabulary) : Prop := Z.of_nat (len v) < 2 ^ 32 -> consistent v.

Lemma new_wf : vocab_wf new.
Proof.
  intros _. constructor; [vm_refl| | |by vm_compute].
  - intros w i. split; intros H; unfold new, add_special_tokens in H; cbn [word_to_id id_to_word] in H;
      rewrite !lookup_insert_Some, !lookup_empty in H;
      repeat (destruct H as [[<- <-]|[_ H]]; [by vm_compute|]); done.
  - intros w i H. unfold new, add_special_tokens in H. cbn [word_to_id] in H.
    rewrite !lookup_insert_Some, !lookup_empty in H.
    repeat (destruct H as [[_ <-]|[_ H]]; [by vm_compute|]). done.
Qed.

Lemma add_word_grows w v w' i :
  word_to_id v !! w' = Some i -> word_to_id (add_word w v).2 !! w' = Some i.
Proof.
  intros H. unfold add_word. destruct (word_to_id v !! w) eqn:E; [done|]. cbn.
  rewrite lookup_insert_ne; [done|]. congruence.
Qed.

Lemma add_word_has w v : is_Some (word_to_id (add_word w v).2 !! w).
Proof. unfold add_word. destruct (word_to_id v !! w) eqn:E; cbn; [by rewrite E|]. by rewrite lookup_insert_eq. Qed.

Lemma add_word_wf w v : vocab_wf v -> vocab_wf (add_word w v).2.
Proof.
  intros Hwf. unfold add_word. destruct (word_to_id v !! w) as [j|] eqn:E; [done|]. unfold vocab_wf, len.
  cbn [snd word_to_id]. rewrite map_size_insert_None by done. intros Hlt.
  destruct Hwf as [Hn Hi Hb Hs]; [unfold len; lia|]. unfold len in Hn.
  assert (as_unsigned 32 (next_id v + 1) = next_id v + 1) as En by (apply as_unsigned_id; lia).
  assert (id_to_word v !! next_id v = None) as Ef.
  { destruct (id_to_word v !! next_id v) as [u|] eqn:Eu; [|done]. apply Hi, Hb in Eu. lia. }
  constructor; unfold len; cbn [word_to_id id_to_word next_id]; rewrite ?En.
  - rewrite map_size_insert_None by done. lia.
  - intros u i. rewrite !lookup_insert_Some, <- Hi. split.
    + intros [[<- <-]|[Hne Hu]]; [by left|]. right. split; [|done]. intros <-. apply Hi in Hu. congruence.
    + intros [[<- <-]|[Hne Hu]]; [by left|]. right. split; [|done]. intros <-. congruence.
  - intros u i. rewrite lookup_insert_Some. intros [[<- <-]|[_ Hu]]; [lia|]. apply Hb in Hu. lia.
  - by rewrite !lookup_insert_ne by (intros ->; destruct Hs as (? & ? & ? & ?); congruence).
Qed.

Variable to_lowercase : list Z -> list Z.
Notation tokenize := (simple_tokenize to_lowercase).
Notation add_words := (add_words to_lowercase).

Lemma add_words_spec text v :
  (vocab_wf v -> vocab_wf (add_words text v)) /\
  (forall w i, word_to_id v !! w = Some i -> word_to_id (add_words text v) !! w = Some i) /\
  (forall w, w ∈ tokenize text -> is_Some (word_to_id (add_words text v) !! w)).
Proof.
  unfold add_words. revert v. induction (tokenize text) as [|w l IH]; intros v; cbn.
  - split_and!; [done|done|]. by intros w ?%not_elem_of_nil.
  - destruct (IH (add_word w v).2) as (H1 & H2 & H3). split_and!.
    + intros H. by apply H1, add_word_wf.
    + intros u i Hu. by apply H2, add_word_grows.
    + intros u [->|Hu]%elem_of_cons; [|by apply H3]. destruct (add_word_has w v) as [i Hi].
      exists i. by apply H2.
Qed.

(** What a vocabulary built for some entries provides. *)
Definition built_for (all_entries : list (list Z * Z)) (v : Vocabulary) : Prop :=
  vocab_wf v /\ forall text label w, (text, label) ∈ all_entries -> w ∈ tokenize text -> is_Some (word_to_id v !! w).

Lemma csv_entries_built k l acc v es v' :
  built_for acc v -> csv_entries to_lowercase k l acc v = Ok (es, v') -> built_for es v'.
Proof.
  revert k acc v. induction l as [|line l IH]; intros k acc v Hv; cbn [csv_entries].
  - by intros [= <- <-].
  - destruct (split_once 44 line) as [[p0 p1]|]; [|by apply IH].
    destruct (parse_unsigned u32_max (trim p1)) as [lb|]; [|done]. apply IH. destruct Hv as [Hwf Hw].
    destruct (add_words_spec (trim_by (fun c => c =? 34) p0) v) as (H1 & H2 & H3). split; [by apply H1|].
    intros t y w [Ht|Ht]%elem_of_app Hin.
    + destruct (Hw _ _ _ Ht Hin) as [i Hi]. exists i. by apply H2.
    + apply list_elem_of_singleton in Ht. simplify_eq. by apply H3.
Qed.

Lemma shard_subset {A} (c : DatasetConfig) (l : list A) x : x ∈ shard c l -> x ∈ l.
Proof.
  unfold shard. destruct (shard_id c) as [k|]; [|done]. intros ([i y] & -> & Hf)%list_elem_of_fmap.
  apply list_elem_of_In, filter_In in Hf as [Hi _].
  apply list_elem_of_In, elem_of_lookup_imap in Hi as (j & z & [= -> ->] & Hj). by eapply list_elem_of_lookup_2.
Qed.

Lemma decode_word v w i : consistent v -> word_to_id v !! w = Some i -> id_to_word v !! get_id w v = Some w.
Proof. intros Hc Hw. unfold get_id. rewrite Hw. by apply Hc. Qed.

(** what the model is fed can be read back: for every entry of a dataset loaded from CSV
    (with fewer than [2 ^ 32] distinct words), the encoding of its text has exactly 512 tokens,
    and the vocabulary maps them to [CLS], the first 510 words of the text, [SEP] and padding:
    no word of the file is ever encoded as unknown. *)
Theorem text_encoding_roundtrip (path content : list Z) (c : DatasetConfig) (d : TextDataset) (text : list Z) (label : Z) :
  from_csv to_lowercase path content c = Ok d -> Z.of_nat (len (vocab d)) < 2 ^ 32 -> (text, label) ∈ entries d ->
  let tokens := tokenize_and_encode to_lowercase d text in
  let words := take 510 (tokenize text) in
  length tokens = 512%nat /\
  (fun i => id_to_word (vocab d) !! i) <$> tokens =
    Some <$> ([CLS] ++ words ++ [SEP] ++ replicate (510 - length words) PAD).
Proof.
  unfold from_csv. intros Hl Hlen Hin. apply rbind_ok in Hl as (_ & _ & Hl). apply rbind_ok in Hl as ([es v] & Hr & Hl).
  assert (d = from_entries es v c) as -> by (cbn in Hl; destruct es; by simplify_eq).
  apply csv_entries_built in Hr as [Hwf Hw]; [|split; [apply new_wf|by intros ? ? ? ?%not_elem_of_nil]].
  cbn [from_entries vocab entries] in *. specialize (Hwf Hlen). apply shard_subset in Hin.
  cbv zeta. unfold tokenize_and_encode. cbn [from_entries vocab add_special max_seq_len].
  change (MAX_SEQ_LEN - 2)%nat with 510%nat. set (ws := take 510 (tokenize text)).
  assert (length ws <= 510)%nat as Hws by (unfold ws; rewrite length_take; lia).
  assert (forall w, w ∈ ws -> id_to_word v !! get_id w v = Some w) as Hdec.
  { intros w Hiw. apply elem_of_take in Hiw as (j & Hj & _). apply list_elem_of_lookup_2 in Hj.
    destruct (Hw _ _ _ Hin Hj) as [i Hi]. by eapply decode_word. }
  split.
  - rewrite !length_app, length_replicate, length_fmap. cbn [length]. unfold MAX_SEQ_LEN. lia.
  - rewrite !length_app, length_fmap. cbn [length].
    replace (MAX_SEQ_LEN - (1 + length ws + 1))%nat with (510 - length ws)%nat by (unfold MAX_SEQ_LEN; lia).
    destruct (voc_special v Hwf) as (HP & _ & HC & HS). apply Hwf in HP, HC, HS.
    rewrite !fmap_app, <- list_fmap_compose, !fmap_replicate. cbn [fmap list_fmap]. rewrite HP, HC, HS.
    rewrite <- !app_assoc. f_equal. f_equal. apply list_fmap_ext. intros i w Hi.
    apply Hdec. by eapply list_elem_of_lookup_2.
Qed.
End vocabulary.

(** ** Windows of a time series *)
Section windows.
Import timeseries.

Lemma make_windows_spec {F} ws stride tgt fuel idx (rows : list (list F)) r :
  (0 < stride)%nat -> (length rows <= idx + fuel)%nat -> make_windows ws stride tgt fuel idx rows = Ok r ->
  forall k f t, r !! k = Some (f, t) <->
    exists row, rows !! (idx + k * stride + ws)%nat = Some row /\ row !! tgt = Some t /\
                f = concat (take ws (drop (idx + k * stride) rows)).
Proof.
  intros Hs. revert idx r. induction fuel as [|fuel IH]; intros idx r Hf Hr k f t.
  - cbn in Hr. injection Hr as <-. rewrite lookup_nil. split; [done|].
    intros (row & Hrow & _). apply lookup_lt_Some in Hrow. lia.
  - cbn [make_windows] in Hr. destruct (rows !! (idx + ws)%nat) as [row|] eqn:Erow.
    + destruct (row !! tgt) as [t0|] eqn:Et; [|done]. apply rbind_ok in Hr as (rest & Hrest & [= <-]).
      destruct k as [|k].
      * cbn [lookup list_lookup]. rewrite Nat.mul_0_l, Nat.add_0_r. split.
        -- intros [= <- <-]. by exists row.
        -- intros (row' & Hrow & Ht & ->). rewrite Erow in Hrow. simplify_eq. congruence.
      * cbn [lookup list_lookup]. etransitivity; [exact (IH (idx + stride)%nat rest ltac:(lia) Hrest k f t)|].
        by replace (idx + stride + k * stride)%nat with (idx + S k * stride)%nat by lia.
    + injection Hr as <-. rewrite lookup_nil. split; [done|].
      intros (row & Hrow & _). apply lookup_ge_None in Erow. apply lookup_lt_Some in Hrow. lia.
Qed.

(** window [k] holds the [window_size] rows from [k * stride] on and its target is in the
    row right after them, so no window sees its target; there is such a window exactly for
    every [k] whose target row exists. *)
Theorem windows_predict_next_row {F} (ws stride tgt : nat) (rows : list (list F)) (c : config.DatasetConfig) (r : list (list F * F)) :
  config.shard_id c = None -> from_rows ws stride tgt rows c = Ok r ->
  forall k f t, r !! k = Some (f, t) <->
    exists row, rows !! (k * stride + ws)%nat = Some row /\ row !! tgt = Some t /\
                f = concat (take ws (drop (k * stride) rows)).
Proof.
  intros Hc. unfold from_rows. destruct (ws =? 0)%nat; [done|]. destruct (Nat.eqb_spec stride 0); [done|].
  destruct (length rows <? ws + 1)%nat; [done|]. intros Hr. apply rbind_ok in Hr as (all & Hall & Hr).
  assert (r = all) as -> by (unfold config.shard in Hr; rewrite Hc in Hr; destruct all; by simplify_eq).
  by apply (make_windows_spec ws stride tgt (length rows) 0 rows all ltac:(lia) ltac:(lia) Hall).
Qed.
End windows.

(** ** Channel-first layout *)
Section channel_first.
Import error types transform.

Lemma radix_inj (w a b a' b' : nat) :
  (b < w)%nat -> (b' < w)%nat -> (a * w + b = a' * w + b')%nat -> a = a' /\ b = b'.
Proof. intros. destruct (Nat.lt_trichotomy a a') as [|[|]]; nia. Qed.

Lemma elem_of_positions h w c row col chan :
  (row, col, chan) ∈ positions h w c <-> (row < h /\ col < w /\ chan < c)%nat.
Proof.
  unfold positions. rewrite list_elem_of_bind. split.
  - intros (r & (cl & (ch & [= -> -> ->] & H3)%list_elem_of_fmap & H2)%list_elem_of_bind & H1).
    apply elem_of_seq in H1, H2, H3. lia.
  - intros (H1 & H2 & H3). exists row. rewrite list_elem_of_bind, elem_of_seq. split; [|lia].
    exists col. rewrite list_elem_of_fmap, elem_of_seq. split; [|lia]. exists chan. rewrite elem_of_seq. split; [done|lia].
Qed.

Lemma dst_of_inj h w c p q : p ∈ positions h w c -> q ∈ positions h w c -> dst_of h w c p = dst_of h w c q -> p = q.
Proof.
  destruct p as [[r1 c1] k1], q as [[r2 c2] k2]. rewrite !elem_of_positions. intros H1 H2 E. cbn [dst_of] in E.
  assert ((k1 * h + r1) * w + c1 = (k2 * h + r2) * w + c2)%nat as E1 by lia.
  apply radix_inj in E1 as [E2 ->]; [|lia|lia]. apply radix_inj in E2 as [-> ->]; [done|lia|lia].
Qed.

Lemma index_bound h w c row col chan :
  (row < h /\ col < w /\ chan < c)%nat ->
  (src_of h w c (row, col, chan) < h * w * c /\ dst_of h w c (row, col, chan) < h * w * c)%nat.
Proof.
  intros (H1 & H2 & H3). cbn [src_of dst_of]. split.
  - assert ((row * w + col) * c + chan < (h * w) * c)%nat; [|lia].
    assert (row * w + col + 1 <= h * w)%nat by nia. nia.
  - assert ((chan * h + row) * w + col < (c * h) * w)%nat; [|lia].
    assert (chan * h + row + 1 <= c * h)%nat by nia. nia.
Qed.

(** Writes to places that determine the value: every place holds its value in the end. *)
Lemma foldl_insert_lookup {P A} (place : P -> nat) (value : P -> A) (ps : list P) (out : list A) :
  (forall p q, p ∈ ps -> q ∈ ps -> place p = place q -> value p = value q) ->
  let r := foldl (fun out p => <[place p := value p]> out) out ps in
  length r = length out /\ forall p, p ∈ ps -> (place p < length out)%nat -> r !! place p = Some (value p).
Proof.
  induction ps as [|q ps IH] using rev_ind; intros Hv; cbv zeta; [split; [done|by intros p ?%not_elem_of_nil]|].
  destruct IH as [Hl IH]; [intros; apply Hv; rewrite ?elem_of_app; tauto|].
  rewrite foldl_app. cbn [foldl]. rewrite length_insert. split; [done|]. intros p Hp Hlt.
  destruct (decide (place p = place q)) as [E|Hne].
  - rewrite E, list_lookup_insert_eq by (rewrite Hl; lia). f_equal. symmetry.
    apply Hv; [done| |done]. apply elem_of_app. right. by apply list_elem_of_singleton.
  - rewrite list_lookup_insert_ne by done. apply elem_of_app in Hp as [Hp|Hp%list_elem_of_singleton]; [by apply IH|].
    by subst.
Qed.

Lemma foldl_insert_Forall {P A} (Q : A -> Prop) (place : P -> nat) (value : P -> A) (ps : list P) (out : list A) :
  Forall Q out -> (forall p, p ∈ ps -> Q (value p)) -> Forall Q (foldl (fun out p => <[place p := value p]> out) out ps).
Proof.
  revert out. induction ps as [|p ps IH]; intros out Ho Hv; cbn; [done|].
  apply IH; [apply Forall_insert; [done|apply Hv; left]|]. intros q Hq. apply Hv. by right.
Qed.

Lemma concat_chunk (l : list (list Z)) (i : nat) (x : list Z) :
  Forall (fun y => length y = 4%nat) l -> l !! i = Some x -> take 4 (drop (i * 4) (concat l)) = x.
Proof.
  revert i. induction l as [|y l IH]; intros [|i] Hl Hi; apply Forall_cons in Hl || done; destruct Hl as [Hy Hl]; cbn in Hi.
  - simplify_eq. cbn [Nat.mul concat]. rewrite drop_0. by apply take_app_length'.
  - cbn [concat]. replace (S i * 4)%nat with (length y + i * 4)%nat by lia. rewrite <- drop_drop, drop_app_length.
    by apply IH.
Qed.

Lemma length_concat_chunks (l : list (list Z)) :
  Forall (fun y => length y = 4%nat) l -> length (concat l) = (length l * 4)%nat.
Proof. induction 1 as [|y l Hy _ IH]; cbn; [done|]. rewrite length_app, IH. lia. Qed.

(** the layout change moves every float and alters none: on a sample of the expected size
    the four bytes of channel [chan] at row [row] and column [col] go from the interleaved to
    the planar position, the size and the label stay, and any other size is refused. *)
Theorem channel_first_moves_floats (t : ToChannelFirst) (s : Sample) :
  (length (data s) <> height t * width t * channels t * 4 -> is_err (to_channel_first t s) = true)%nat /\
  (length (data s) = height t * width t * channels t * 4 ->
   exists s', to_channel_first t s = Ok s' /\ length (data s') = length (data s) /\ label s' = label s /\
     forall row col chan, row < height t -> col < width t -> chan < channels t ->
       take 4 (drop ((chan * height t * width t + row * width t + col) * 4) (data s')) =
       take 4 (drop ((row * width t * channels t + col * channels t + chan) * 4) (data s)))%nat.
Proof.
  destruct t as [h w c]. unfold to_channel_first. cbn [height width channels]. split.
  { intros Hne. by rewrite (proj2 (Nat.eqb_neq _ _) Hne). }
  intros Hlen. rewrite (proj2 (Nat.eqb_eq _ _) Hlen). cbn [negb]. eexists. split; [done|]. cbn [set_data data label].
  set (floats := read_floats (h * w * c) (data s)).
  assert (forall i, (i < h * w * c)%nat -> nth i floats [] = take 4 (drop (i * 4) (data s))) as Hfl.
  { intros i Hi. unfold floats, read_floats. apply nth_lookup_Some. rewrite list_lookup_fmap, lookup_seq_lt by done. done. }
  assert (forall p, p ∈ positions h w c -> (src_of h w c p < h * w * c /\ dst_of h w c p < h * w * c)%nat) as Hb.
  { intros [[r cl] k] Hp. apply elem_of_positions in Hp. by apply index_bound. }
  unfold transpose.
  destruct (foldl_insert_lookup (dst_of h w c) (fun p => nth (src_of h w c p) floats []) (positions h w c)
              (replicate (h * w * c) [0; 0; 0; 0])) as [Hl Hlook].
  { intros p q Hp Hq E. by rewrite (dst_of_inj h w c p q). }
  assert (Forall (fun y => length y = 4%nat) (foldl (fun out p => <[dst_of h w c p := nth (src_of h w c p) floats []]> out)
            (replicate (h * w * c) [0; 0; 0; 0]) (positions h w c))) as H4.
  { apply foldl_insert_Forall; [by apply Forall_replicate|]. intros p Hp. apply Hb in Hp as [Hp _].
    rewrite Hfl, length_take, length_drop by done. lia. }
  rewrite length_replicate in Hl, Hlook. split_and!.
  - rewrite length_concat_chunks, Hl by done. lia.
  - done.
  - intros row col chan H1 H2 H3. assert ((row, col, chan) ∈ positions h w c) as Hp by by apply elem_of_positions.
    destruct (Hb _ Hp) as [Hs Hd]. transitivity (nth (src_of h w c (row, col, chan)) floats []).
    + apply (concat_chunk _ (dst_of h w c (row, col, chan))); [done|]. by apply Hlook.
    + by apply (Hfl (src_of h w c (row, col, chan))).
Qed.
End channel_first.

(** ** The synthetic images *)
Section synthetic_images.
Import error types synthetic.

Lemma pixels_spec state i n : length (pixels state i n) = n /\ Forall is_byte (pixels state i n).
Proof.
  revert state i. induction n as [|n IH]; intros state i; [done|]. cbn. destruct (IH (next_state state (Z.of_nat i)) (S i)) as [Hl Hb].
  split; [by rewrite Hl|]. constructor; [|done]. unfold mix, is_byte. change 0xff with (2 ^ 8 - 1).
  rewrite land_mask_mod by lia. apply Z.mod_pos_bound. lia.
Qed.

(** every sample of a synthetic dataset below its length is an image of exactly
    [height * width * channels] bytes, shared by all samples of its class, and labelled with
    its class. *)
Theorem synthetic_samples (n classes h w c : nat) (seed : Z) (d : SyntheticDataset) (idx : nat) :
  new n classes h w c seed = Some d -> (idx < n)%nat -> Z.of_nat classes < 2 ^ 32 ->
  exists image, get d idx = Ok (MkSample image (Z.of_nat (idx mod classes)) NoMeta) /\
    length image = (h * w * c)%nat /\ Forall is_byte image /\ get d (idx mod classes) = get d idx.
Proof.
  unfold new. destruct (Nat.eqb_spec classes 0) as [|Hc]; [done|]. destruct (h * w * c =? 0)%nat; [done|].
  intros [= <-] Hi Hcl. unfold get. cbn [num_samples num_classes class_images].
  pose proof (Nat.mod_upper_bound idx classes Hc) as Hm. pose proof (Nat.Div0.mod_le idx classes) as Hle.
  rewrite (proj2 (Nat.leb_gt _ _) Hi), (proj2 (Nat.leb_gt _ _) (Nat.le_lt_trans _ _ _ Hle Hi)).
  rewrite Nat.Div0.mod_mod, list_lookup_fmap, lookup_seq_lt by done. cbn [fmap option_fmap option_map Nat.add].
  eexists. split; [by rewrite as_unsigned_id by lia|]. destruct (pixels_spec
    (wadd (wmul seed 0x9e3779b97f4a7c15) (wmul (Z.of_nat (idx mod classes)) 0x6c62272e07bb0142)) 0 (h * w * c)) as [Hl Hb].
  by split_and!.
Qed.
End synthetic_images.

Module dataloader_examples.
Import config unicode types.

Definition ascii_lower (l : list Z) : list Z := (fun c => if (65 <=? c) && (c <=? 90) then c + 32 else c) <$> l.

Lemma shards_partition_witness :
  shard (with_shard 1 3 default_) (seq 0 8) = [1; 4; 7]%nat /\
  (seq 0 3 ≫= fun id => shard (with_shard id 3 default_) (seq 0 8)) ≡ₚ seq 0 8.
Proof. split; [vm_refl|]. apply shards_partition. lia. Defined.

Definition lf : list Z := [10].
Definition quote : list Z := [34].
Definition reviews : list Z :=
  of_string "text,label" ++ lf ++ quote ++ of_string "Great film!" ++ quote ++ of_string ",1" ++ lf ++
  of_string "great plot,0" ++ lf.

Definition loaded : text.TextDataset :=
  text.from_entries [(of_string "Great film!", 1); (of_string "great plot", 0)]
    (text.add_words ascii_lower (of_string "great plot") (text.add_words ascii_lower (of_string "Great film!") text.new))
    default_.

Lemma reviews_loaded : text.from_csv ascii_lower [] reviews default_ = Ok loaded.
Proof. vm_refl. Qed.

Lemma text_encoding_roundtrip_witness :
  take 5 (text.tokenize_and_encode ascii_lower loaded (of_string "great plot")) = [2; 4; 6; 3; 0] /\
  length (text.tokenize_and_encode ascii_lower loaded (of_string "great plot")) = 512%nat.
Proof.
  split; [vm_refl|].
  apply (text_encoding_roundtrip ascii_lower [] reviews default_ loaded (of_string "great plot") 0).
  - apply reviews_loaded.
  - vm_compute. done.
  - vm_compute. right. left.
Defined.

(** The documented CSV format quotes texts; a comma inside the quotes ends the text anyway,
    the rest is not a label, and the whole file is refused. *)
Example quoted_comma_refused :
  is_err (text.from_csv ascii_lower [] (of_string "text,label" ++ lf ++ quote ++ of_string "Great, really" ++ quote ++
            of_string ",1" ++ lf) default_) = true.
Proof. vm_refl. Qed.

Lemma windows_predict_next_row_witness :
  exists r, timeseries.from_rows 2 1 0 [[1]; [2]; [3]; [4]] default_ = Ok r /\ r !! 1%nat = Some ([2; 3], 4).
Proof.
  exists [([1; 2], 3); ([2; 3], 4)]. split; [vm_refl|].
  apply (windows_predict_next_row 2 1 0 [[1]; [2]; [3]; [4]] default_ _ eq_refl ltac:(vm_refl) 1%nat [2; 3] 4).
  by exists [4].
Defined.

Definition pixels_2x1x2 : Sample := MkSample [0; 0; 0; 1; 0; 0; 0; 2; 0; 0; 0; 3; 0; 0; 0; 4] 9 NoMeta.

Example planar :
  transform.to_channel_first (transform.MkToChannelFirst 2 1 2) pixels_2x1x2 =
  Ok (MkSample [0; 0; 0; 1; 0; 0; 0; 3; 0; 0; 0; 2; 0; 0; 0; 4] 9 NoMeta).
Proof. vm_refl. Qed.

Lemma channel_first_moves_floats_witness :
  is_err (transform.to_channel_first (transform.MkToChannelFirst 2 2 2) pixels_2x1x2) = true.
Proof. apply channel_first_moves_floats. by vm_compute. Defined.

Lemma synthetic_samples_witness :
  exists d image, synthetic.new 10 3 2 2 1 42 = Some d /\ synthetic.get d 7 = Ok (MkSample image 1 NoMeta) /\
    length image = 4%nat.
Proof.
  destruct (synthetic.new 10 3 2 2 1 42) as [d|] eqn:E; [|by vm_compute in E].
  destruct (synthetic_samples 10 3 2 2 1 42 d 7 E) as (image & H & Hl & _); [lia|lia|].
  by exists d, image.
Defined.
End dataloader_examples.
