(* ===== verification/Readers.v ===== *)
(** * core/dataloader/readers: the io_uring file reader

    [IoUringReader] reads a file, or a batch of files, through one submission queue that
    outlives the calls.  The kernel is the class [Kernel]: what [submit_and_wait] does with the
    queued reads.  Buffers belong to one call, so a read that a failed call left in the
    queue, or under way, would later be made into freed memory: a call on such a queue has no defined result,
    [None].  [MmapReader] is the content of the file. *)

From stdpp Require Import base numbers list gmap strings.
From Stdlib Require Import ZArith Lia.
From S2P Require Import Prelude Dataloader.

Module readers.
Import error.
Definition QUEUE_DEPTH : nat := 64.
Definition MAX_FILE_BYTES : Z := 64 * 1024 * 1024.

(** A queued read of the whole of [source], and its completion: an error number or the bytes
    read. *)
Record Sqe : Type := MkSqe { user_data : nat; source : list Z }.
Record Cqe : Type := MkCqe { c_user_data : nat; c_result : Z + list Z }.

(** [submit_and_wait] on the queued reads: their completions, or an error with the completions
    that are there when it is returned. *)
Class Kernel (K : Type) : Type := { submit_and_wait : list Sqe -> K -> Result (list Cqe) (list Cqe) * K }.

(** The completion of a read: an error, or a beginning of the file. *)
Definition completes (s : Sqe) (c : Cqe) : Prop :=
  c_user_data c = user_data s /\ match c_result c with inl _ => True | inr bytes => bytes `prefix_of` source s end.
Class KernelLaws (K : Type) `{Kernel K} : Prop := {
  submit_completes l k cs k' : submit_and_wait l k = (Ok cs, k') -> exists l', cs ≡ₚ l' /\ Forall2 completes l l';
}.

Section readers.
Context `{HK : Kernel K}.
(** The files that can be opened, with their contents. *)
Variable files : list Z -> option (list Z).

Definition too_large (path : list Z) (len : Z) : Error :=
  InvalidFormat (unicode.of_string "'" ++ path ++ unicode.of_string ("' is " +:+ string_of_Z len +:+
                   " bytes, exceeds MAX_FILE_BYTES=" +:+ string_of_Z MAX_FILE_BYTES)).

(** [read]: the result, and what is left in the queue. *)
Definition read (path : list Z) (sq : list Sqe) (k : K) : option (Result (list Z) Error * list Sqe * K) :=
  match files path with
  | None => Some (Err Io, sq, k)
  | Some content =>
      let len := Z.of_nat (length content) in
      if len =? 0 then Some (Ok [], sq, k)
      else if MAX_FILE_BYTES <? len then Some (Err (too_large path len), sq, k)
      else match sq with
      | _ :: _ => None
      | [] =>
          let sq := [MkSqe 0 content] in
          match submit_and_wait sq k with
          | (Err _, k) => Some (Err (Internal "io_uring submit failed"), sq, k)
          | (Ok [], k) => Some (Err (Internal "io_uring: no CQE received"), [], k)
          | (Ok (cqe :: _), k) =>
              Some (match c_result cqe with inl _ => Err Io | inr bytes => Ok bytes end, [], k)
          end
      end
  end.

(** The first loop of [read_batch]: the result so far of a path, and the file to read. *)
Definition open_one (path : list Z) : Result (list Z) Error * option (list Z) :=
  match files path with
  | None => (Err Io, None)
  | Some content =>
      if MAX_FILE_BYTES <? Z.of_nat (length content)
      then (Err (InvalidFormat (unicode.of_string "'" ++ path ++ unicode.of_string ("' exceeds " +:+ string_of_Z MAX_FILE_BYTES +:+ "B"))), None)
      else (Ok [], Some content)
  end.

(** Filling the queue: the paths looked at, the reads queued in this round, the queue. *)
Fixpoint fill (l : list (option (list Z))) (submitted chunk_count : nat) (sq : list Sqe) : nat * nat * list Sqe :=
  match l with
  | [] => (submitted, chunk_count, sq)
  | f :: l =>
      if (QUEUE_DEPTH <=? chunk_count)%nat then (submitted, chunk_count, sq)
      else match f with
      | Some ((_ :: _) as content) =>
          if (QUEUE_DEPTH <=? length sq)%nat then (submitted, chunk_count, sq)
          else fill l (S submitted) (S chunk_count) (sq ++ [MkSqe submitted content])
      | _ => fill l (S submitted) chunk_count sq
      end
  end.

Definition place (results : list (Result (list Z) Error)) (cqe : Cqe) : list (Result (list Z) Error) :=
  <[c_user_data cqe := match c_result cqe with inl _ => Err Io | inr bytes => Ok bytes end]> results.

(** After an error, its message is the result of the reads that have completed. *)
Definition place_error (results : list (Result (list Z) Error)) (cqe : Cqe) : list (Result (list Z) Error) :=
  <[c_user_data cqe := Err (Internal "submit_and_wait")]> results.

(** The main loop; a round that goes on has looked at a path, so their number is enough
    fuel. *)
Fixpoint batch_loop (fuel : nat) (opened : list (option (list Z))) (submitted : nat) (results : list (Result (list Z) Error))
    (sq : list Sqe) (k : K) : list (Result (list Z) Error) * list Sqe * K :=
  match fuel with
  | O => (results, sq, k)
  | S fuel =>
      let '(submitted, chunk_count, sq) := fill (drop submitted opened) submitted 0 sq in
      if (chunk_count =? 0)%nat then (results, sq, k)
      else match submit_and_wait sq k with
      | (Err cqes, k) => (foldl place_error results cqes, filter (fun s => user_data s ∉ c_user_data <$> cqes) sq, k)
      | (Ok cqes, k) =>
          let results := foldl place results cqes in
          if (length opened <=? submitted)%nat then (results, [], k)
          else batch_loop fuel opened submitted results [] k
      end
  end.

Definition read_batch (paths : list (list Z)) (sq : list Sqe) (k : K) : option (list (Result (list Z) Error) * list Sqe * K) :=
  match paths with
  | [] => Some ([], sq, k)
  | _ =>
      let opened := open_one <$> paths in
      match sq with
      | [] => Some (batch_loop (length paths) opened.*2 0 opened.*1 [] k)
      | _ => if existsb (fun f => match f with Some (_ :: _) => true | _ => false end) opened.*2 then None
             else Some (opened.*1, sq, k)
      end
  end.

(** mmap.rs, with what [Mmap::map] makes of the file. *)
Definition mmap_read (map : list Z -> option (list Z)) (path : list Z) : Result (list Z) Error :=
  match files path with
  | None => Err Io
  | Some content => match map content with Some mmap => Ok mmap | None => Err Io end
  end.
End readers.
End readers.

(** ** A batch is answered path by path *)
Section reader_theorems.
Import error readers.
Context `{HK : Kernel K, HL : !KernelLaws K}.
Variable files : list Z -> option (list Z).

(** The reads of the paths from [start] on. *)
Definition reads (start : nat) (l : list (option (list Z))) : list Sqe :=
  mjoin (imap (fun i f => match f with Some ((_ :: _) as content) => [MkSqe (start + i) content] | _ => [] end) l).

Lemma reads_cons start f l :
  reads start (f :: l) = match f with Some ((_ :: _) as content) => [MkSqe start content] | _ => [] end ++ reads (S start) l.
Proof.
  unfold reads. cbn. rewrite Nat.add_0_r. f_equal. f_equal. apply imap_ext. intros i x _. cbn.
  by rewrite Nat.add_succ_r.
Qed.

Lemma elem_of_reads start l s :
  s ∈ reads start l <-> exists i, user_data s = (start + i)%nat /\ l !! i = Some (Some (source s)) /\ source s <> [].
Proof.
  unfold reads. rewrite list_elem_of_join. split.
  - intros (ss & Hs & (i & f & -> & Hi)%elem_of_lookup_imap). destruct f as [[|b content]|]; try by apply not_elem_of_nil in Hs.
    rewrite list_elem_of_singleton in Hs. subst s. exists i. cbn. split_and!; [done|exact Hi|done].
  - intros (i & Hu & Hi & Hne). exists [s]. split; [by left|]. apply elem_of_lookup_imap. exists i, (Some (source s)).
    split; [|done]. destruct s as [u [|b c]]; [done|]. cbn in *. by subst u.
Qed.

Lemma reads_user_data start l : NoDup (user_data <$> reads start l) /\ Forall (fun s => start <= user_data s)%nat (reads start l).
Proof.
  revert start. induction l as [|f l IH]; intros start; [by split; constructor|]. rewrite reads_cons.
  destruct (IH (S start)) as [Hnd Hge]. destruct f as [[|b content]|]; cbn [app fmap list_fmap].
  1, 3: split; [done|]; eapply Forall_impl; [exact Hge|]; cbn; lia.
  split.
  - apply NoDup_cons. split; [|done]. intros (s & E & Hs)%list_elem_of_fmap. rewrite Forall_forall in Hge. apply Hge in Hs. cbn in E. lia.
  - constructor; [done|]. eapply Forall_impl; [exact Hge|]. cbn. lia.
Qed.

(** A round looks at some more paths and queues their reads; it stops early only when the
    queue is full. *)
Lemma fill_spec l submitted sq :
  exists m, (m <= length l)%nat /\
    fill l submitted (length sq) sq = ((submitted + m)%nat, (length sq + length (reads submitted (take m l)))%nat, sq ++ reads submitted (take m l)) /\
    (m = length l \/ (QUEUE_DEPTH <= length sq + length (reads submitted (take m l)))%nat).
Proof.
  revert submitted sq. induction l as [|f l IH]; intros submitted sq; cbn [fill].
  { exists 0%nat. cbn. rewrite !Nat.add_0_r, app_nil_r. by auto. }
  destruct (Nat.leb_spec QUEUE_DEPTH (length sq)).
  { exists 0%nat. cbn [take]. change (reads submitted []) with (@nil Sqe). cbn [length]. rewrite !Nat.add_0_r, app_nil_r. split_and!; [lia|done|by right]. }
  destruct f as [[|b content]|].
  2: { destruct (IH (S submitted) (sq ++ [MkSqe submitted (b :: content)])) as (m & Hm & Hf & Hd).
    rewrite length_app, Nat.add_1_r in Hf, Hd. exists (S m). rewrite Hf. cbn [take]. rewrite reads_cons, <- app_assoc, length_app.
    cbn [length]. split; [lia|]. split; [f_equal; f_equal; lia|]. destruct Hd as [->|Hd]; [by left|right; lia]. }
  all: destruct (IH (S submitted) sq) as (m & Hm & Hf & Hd); exists (S m); rewrite Hf; cbn [take]; rewrite reads_cons;
    cbn [app length]; (split; [lia|]); (split; [f_equal; f_equal; lia|]); destruct Hd as [->|Hd]; [by left|by right].
Qed.

(** What the completions of distinct reads leave in the results. *)
Lemma foldl_place cs results :
  NoDup (c_user_data <$> cs) ->
  length (foldl place results cs) = length results /\
  (forall i, i ∉ c_user_data <$> cs -> foldl place results cs !! i = results !! i) /\
  (forall c, c ∈ cs -> (c_user_data c < length results)%nat ->
     foldl place results cs !! c_user_data c = Some (match c_result c with inl _ => Err Io | inr bytes => Ok bytes end)).
Proof.
  revert results. induction cs as [|c cs IH]; intros results Hnd; [split_and!; try done; intros c Hc; by apply not_elem_of_nil in Hc|].
  cbn [fmap list_fmap] in Hnd. apply NoDup_cons in Hnd as [Hc Hnd]. cbn [foldl]. destruct (IH (place results c) Hnd) as (Hl & Hout & Hin).
  assert (length (place results c) = length results) as Hp by apply length_insert. rewrite Hp in *. split; [done|]. split.
  - intros i [Hne Hi]%not_elem_of_cons. rewrite Hout by done. unfold place. by rewrite list_lookup_insert_ne.
  - intros c' [->|Hc']%elem_of_cons Hlt.
    + rewrite Hout by done. unfold place. by apply list_lookup_insert_eq.
    + by apply Hin.
Qed.

(** What a path may be answered with, [f] being the file opened for it and [r0] the result of
    the first loop. *)
Definition answered (f : option (list Z)) (r0 r : Result (list Z) Error) : Prop :=
  match f with
  | Some ((_ :: _) as content) => r = Err Io \/ exists bytes, bytes `prefix_of` content /\ r = Ok bytes
  | _ => r = r0
  end.

Definition batch_inv (opened : list (option (list Z))) (results0 results : list (Result (list Z) Error)) (submitted : nat) : Prop :=
  length results = length opened /\
  forall i f r0 r, opened !! i = Some f -> results0 !! i = Some r0 -> results !! i = Some r ->
    (i < submitted -> answered f r0 r)%nat /\ (submitted <= i -> r = r0)%nat.

(** The completions of one round. *)
Lemma round_inv opened results0 results submitted m k cs k' :
  batch_inv opened results0 results submitted ->
  submit_and_wait (reads submitted (take m (drop submitted opened))) k = (Ok cs, k') ->
  batch_inv opened results0 (foldl place results cs) (submitted + m).
Proof.
  intros [Hl Hi] Hs. apply submit_completes in Hs as (l & Hp & Hc).
  set (rd := reads submitted (take m (drop submitted opened))) in *.
  assert (c_user_data <$> l = user_data <$> rd) as Hud by (clear -Hc; induction Hc as [|?? ?? [??]]; csimpl; congruence).
  destruct (reads_user_data submitted (take m (drop submitted opened))) as [Hnd _]. fold rd in Hnd.
  destruct (foldl_place cs results) as (Hl' & Hout & Hin); [by rewrite Hp, Hud|].
  split; [by rewrite Hl'|]. intros i f r0 r Hf Hr0 Hr.
  assert (i < length results)%nat as Hlt by (rewrite Hl; by eapply lookup_lt_Some).
  assert (forall c, c ∈ cs -> c_user_data c = i -> (submitted <= i < submitted + m)%nat /\
            exists b content, f = Some (b :: content) /\ match c_result c with inl _ => True | inr bytes => bytes `prefix_of` b :: content end) as Hcs.
  { intros c Hcin Hci. rewrite Hp in Hcin. apply list_elem_of_lookup in Hcin as [j Hj].
    destruct (Forall2_lookup_r _ _ _ _ _ Hc Hj) as (s & Hsj & Hsu & Hres). apply list_elem_of_lookup_2, elem_of_reads in Hsj as (j' & Hu & Hj' & Hne).
    apply lookup_take_Some in Hj' as [Hj' ?]. rewrite lookup_drop in Hj'. rewrite <- Hu, <- Hsu, Hci, Hf in Hj'. split; [lia|].
    simplify_eq. destruct (source s) as [|b content] eqn:E; [done|]. by exists b, content. }
  destruct (decide (i ∈ c_user_data <$> cs)) as [(c & -> & Hcin)%list_elem_of_fmap|Hni].
  - destruct (Hcs c Hcin eq_refl) as (Hrange & b & content & -> & Hres). rewrite (Hin c Hcin Hlt) in Hr. split; [|lia]. intros _.
    cbn. injection Hr as <-. destruct (c_result c); eauto.
  - rewrite (Hout i Hni) in Hr. destruct (Hi i f r0 r Hf Hr0 Hr) as [H1 H2]. split; [|intros ?; apply H2; lia].
    intros Hlt'. destruct (decide (i < submitted)%nat) as [|Hge]; [by apply H1|]. rewrite (H2 ltac:(lia)).
    destruct f as [[|b content]|]; try done. exfalso. apply Hni. rewrite Hp, Hud.
    apply list_elem_of_fmap. exists (MkSqe i (b :: content)). split; [done|]. apply elem_of_reads. exists (i - submitted)%nat. cbn.
    split_and!; [lia| |done]. apply lookup_take_Some. rewrite lookup_drop. split; [|lia]. rewrite <- Hf. f_equal. lia.
Qed.

(** When a round queues no read, nothing is left to read. *)
Lemma idle_inv opened results0 results submitted m :
  batch_inv opened results0 results submitted -> (length opened <= submitted + m)%nat ->
  reads submitted (take m (drop submitted opened)) = [] -> batch_inv opened results0 results (length opened).
Proof.
  intros [Hl Hi] Hm E. split; [done|]. intros i f r0 r Hf Hr0 Hr. pose proof (lookup_lt_Some _ _ _ Hf). split; [|lia]. intros _.
  destruct (Hi i f r0 r Hf Hr0 Hr) as [H1 H2]. destruct (decide (i < submitted)%nat) as [|Hge]; [by apply H1|]. rewrite (H2 ltac:(lia)).
  destruct f as [[|b content]|]; try done. exfalso. apply (not_elem_of_nil (MkSqe i (b :: content))). rewrite <- E.
  apply elem_of_reads. exists (i - submitted)%nat. cbn. split; [lia|]. split; [|done]. apply lookup_take_Some.
  rewrite lookup_drop. split; [|lia]. rewrite <- Hf. f_equal. lia.
Qed.

(** The loop, with a kernel that takes what it is given. *)
Lemma batch_loop_inv (opened : list (option (list Z))) results0 fuel :
  (forall l k cs, (submit_and_wait l k).1 <> Err cs) ->
  forall submitted results k, (submitted < length opened)%nat -> (length opened <= fuel + submitted)%nat ->
  batch_inv opened results0 results submitted ->
  exists results' k', batch_loop fuel opened submitted results [] k = (results', [], k') /\
    batch_inv opened results0 results' (length opened).
Proof.
  intros Hok. induction fuel as [|fuel IH]; intros submitted results k Hle Hfuel Hinv; [lia|].
  destruct (fill_spec (drop submitted opened) submitted []) as (m & Hm & Hf & Hd). rewrite length_drop in Hm, Hd. cbn [length app plus] in *.
  cbn [batch_loop]. rewrite Hf. clear Hf. destruct (Nat.eqb_spec (length (reads submitted (take m (drop submitted opened)))) 0) as [E|E].
  { apply length_zero_iff_nil in E. exists results, k. rewrite E. split; [done|]. eapply idle_inv; [exact Hinv| |exact E].
    rewrite E in Hd. unfold QUEUE_DEPTH in Hd. cbn in Hd. lia. }
  assert (m <> 0%nat) by (intros ->; by apply E). pose proof (Hok (reads submitted (take m (drop submitted opened))) k) as Hs'.
  destruct (submit_and_wait _ k) as [[cs|cs] k'] eqn:Hs; [|by destruct (Hs' cs)]. pose proof (round_inv _ _ _ _ _ _ _ _ Hinv Hs) as Hinv'.
  destruct (Nat.leb_spec (length opened) (submitted + m)).
  - exists (foldl place results cs), k'. split; [done|]. by replace (length opened) with (submitted + m)%nat by lia.
  - apply IH; [lia|lia|done].
Qed.

(** The result of one path. *)
Definition path_answered (path : list Z) (r : Result (list Z) Error) : Prop :=
  match files path with
  | None => r = Err Io
  | Some content =>
      if MAX_FILE_BYTES <? Z.of_nat (length content)
      then exists reason, r = Err (InvalidFormat reason)
      else (content <> [] /\ r = Err Io) \/ exists bytes, bytes `prefix_of` content /\ r = Ok bytes
  end.

(** On an empty queue and with a kernel that takes what it is given, a batch of any length
    is answered path by path, whatever the order the reads complete in, and leaves the queue
    empty. *)
Theorem read_batch_correct paths k :
  (forall l k cs, (submit_and_wait l k).1 <> Err cs) ->
  exists results k', read_batch files paths [] k = Some (results, [], k') /\ Forall2 path_answered paths results.
Proof.
  intros Hok. destruct paths as [|p paths]; [by exists [], k|]. unfold read_batch. set (ps := p :: paths).
  destruct (batch_loop_inv (open_one files <$> ps).*2 (open_one files <$> ps).*1 (length ps) Hok 0 (open_one files <$> ps).*1 k)
    as (results & k' & Hrun & Hl & Hi); [cbn; lia|rewrite !length_fmap; lia| |].
  { split; [by rewrite !length_fmap|]. intros i f r0 r _ -> [= ->]. split; [lia|done]. }
  exists results, k'. split; [by f_equal|]. rewrite !length_fmap in Hl. apply Forall2_same_length_lookup_2; [done|].
  intros i path r Hp Hr. pose proof (lookup_lt_Some _ _ _ Hp). rewrite !length_fmap in Hi.
  destruct (Hi i (open_one files path).2 (open_one files path).1 r) as [Ha _]; [by rewrite !list_lookup_fmap, Hp..|done|].
  specialize (Ha H). revert Ha. unfold path_answered, open_one. destruct (files path) as [content|]; [|done].
  destruct (MAX_FILE_BYTES <? Z.of_nat (length content))%Z; [intros ->; by eexists|]. destruct content as [|b content].
  - intros ->. right. by exists [].
  - intros [->|H']; [by left|by right].
Qed.

(** A single read on an empty queue has a result, and the queue is empty again unless the
    kernel refused it. *)
Lemma read_spec path k :
  exists r sq k', read files path [] k = Some (r, sq, k') /\
    (sq <> [] -> exists l cs, (submit_and_wait l k).1 = Err cs) /\
    (forall bytes, r = Ok bytes -> exists content, files path = Some content /\ bytes `prefix_of` content).
Proof.
  unfold read. destruct (files path) as [content|]; [|by exists (Err Io), [], k].
  destruct (Z.eqb_spec (Z.of_nat (length content)) 0) as [E|E].
  { eexists _, _, _. split_and!; [done|done|]. intros bytes [= <-]. exists content. split; [done|]. apply prefix_nil. }
  destruct (_ <? _)%Z; [by eexists _, _, _|].
  destruct (submit_and_wait [MkSqe 0 content] k) as [[[|c cs]|cs] k'] eqn:Hs.
  1: by eexists _, _, _.
  2: { eexists _, _, _. split; [done|]. split; [|done]. intros _. exists [MkSqe 0 content], cs. by rewrite Hs. }
  eexists _, _, _. split; [done|]. split; [done|]. apply submit_completes in Hs as (l & Hp & Hc). intros bytes Hb.
  exists content. split; [done|]. apply Forall2_cons_inv_l in Hc as (c' & l' & [_ Hres] & Hn & ->).
  apply Forall2_nil_inv_l in Hn as ->. symmetry in Hp. apply Permutation_length_1_inv in Hp as [= -> ->].
  destruct (c_result c'); simplify_eq. exact Hres.
Qed.
End reader_theorems.

(** ** Executions *)
Section reader_examples.
Import error readers.

(** A kernel that completes the reads last first, and in full, until its state is 0, when it
    refuses them. *)
#[local] Instance lifo_kernel : Kernel nat := {
  submit_and_wait l k := match k with O => (Err [], O) | S k => (Ok (reverse ((fun s => MkCqe (user_data s) (inr (source s))) <$> l)), k) end
}.
#[local] Instance lifo_laws : KernelLaws nat.
Proof.
  constructor. intros l [|k] cs k'; cbn; intros [= <- <-]. eexists. split; [apply reverse_Permutation|].
  apply Forall2_fmap_r, Forall_Forall2_diag, Forall_true. intros s. split; [done|]. exact (reflexivity (source s)).
Qed.

(** A kernel that never refuses, and reads at most two bytes of a file, as [read] of a file
    larger than the kernel's limit may. *)
#[local] Instance short_kernel : Kernel () := {
  submit_and_wait l k := (Ok ((fun s => MkCqe (user_data s) (inr (take 2 (source s)))) <$> l), k)
}.
#[local] Instance short_laws : KernelLaws ().
Proof.
  constructor. intros l k cs k'; cbn; intros [= <- <-]. eexists. split; [reflexivity|].
  apply Forall2_fmap_r, Forall_Forall2_diag, Forall_true. intros s. split; [done|]. apply prefix_take.
Qed.

Definition disk (path : list Z) : option (list Z) :=
  match path with [0] => Some [] | [n] => if n <? 0 then None else Some [n; n; n] | _ => None end.

Example lifo_batch : read_batch disk [[5]; [-1]; [0]; [7]] [] 1%nat = Some ([Ok [5; 5; 5]; Err Io; Ok []; Ok [7; 7; 7]], [], 0%nat).
Proof. vm_refl. Qed.

(** More paths than the queue holds take two rounds. *)
Example two_rounds : option_map (fun x => (length x.1.1, x.2)) (read_batch disk ((fun n => [Z.of_nat n]) <$> seq 1 74) [] 5%nat) = Some (74, 3)%nat.
Proof. vm_refl. Qed.

(** When the kernel refuses the reads, a batch answers every file that opened with an empty
    content, and the reader is left with a queue no later call can use. *)
Theorem refused_batch_is_empty_content :
  read_batch disk [[5]; [-1]] [] 0%nat = Some ([Ok []; Err Io], [MkSqe 0 [5; 5; 5]], 0%nat) /\
  read disk [7] [MkSqe 0 [5; 5; 5]] 0%nat = None.
Proof. split; vm_refl. Qed.

(** A short read is answered as the content. *)
Theorem short_read_is_content : read disk [7] [] () = Some (Ok [7; 7], [], ()) /\ disk [7] = Some [7; 7; 7].
Proof. split; vm_refl. Qed.

Theorem read_batch_correct_witness :
  exists results k', read_batch disk [[5]; [-1]; [0]] [] () = Some (results, [], k') /\ Forall2 (path_answered disk) [[5]; [-1]; [0]] results.
Proof. apply (read_batch_correct disk [[5]; [-1]; [0]] ()). intros l k cs. discriminate. Defined.
End reader_examples.
