(* ===== verification/Datasets.v ===== *)
(** The datasets over files: core/dataloader/src/datasets/features.rs (module [features]),
    timeseries.rs ([timeseries_csv], on top of [timeseries]), the directories of text.rs
    ([text_directory]), detection.rs ([detection]),
    imagenet.rs ([imagenet]) and audio.rs ([audio]), and the normalization of
    transform/normalize.rs ([normalize]).

    A file system is a tree (module [fs]) whose directories list their entries in an order of
    the system's own, as [read_dir] does.  Float arithmetic, the image decoder and the WAV
    reader are the interfaces [DataF32], [ImageLib] and [WavLib]; the random generator is
    [Shuffle] of Dataloader. *)

From stdpp Require Import base numbers list gmap strings sorting.
From Stdlib Require Import ZArith QArith Lia.
From S2P Require Import Prelude Inference Distributed Dataloader.

(** Operations on [f32]: [as u32] and [as usize] saturate, [f_lit] is a literal of the source. *)
Class DataF32 : Type := {
  f32 : Type;
  f_lit : Q -> f32;
  f_of_Z : Z -> f32;
  f_infinity : f32;
  f_neg_infinity : f32;
  f_add : f32 -> f32 -> f32;
  f_sub : f32 -> f32 -> f32;
  f_mul : f32 -> f32 -> f32;
  f_div : f32 -> f32 -> f32;
  f_sum : list f32 -> f32;
  f_sqrt : f32 -> f32;
  f_min : f32 -> f32 -> f32;
  f_max : f32 -> f32 -> f32;
  f_ltb : f32 -> f32 -> bool;
  f_as_u32 : f32 -> Z;
  f_as_usize : f32 -> nat;
  f_parse : list Z -> option f32;
  f_to_le_bytes : f32 -> list Z;
}.
Class DataF32Laws `{DataF32} : Prop := {
  f_as_u32_range x : (0 <= f_as_u32 x <= u32_max)%Z;
  f_to_le_bytes_spec x : length (f_to_le_bytes x) = 4%nat /\ Forall is_byte (f_to_le_bytes x);
}.
Open Scope Z_scope.

(** ** The file system *)
Module fs.
Notation name := (list Z) (only parsing).
Inductive node :=
  | File (content : list Z)
  | Dir (children : list (list Z * node)).

Definition children (n : node) : list (name * node) := match n with Dir l => l | File _ => [] end.
Definition is_dir (n : node) : bool := match n with Dir _ => true | File _ => false end.
Definition is_file (n : node) : bool := negb (is_dir n).

(** [path.join(nm)] under [n]. *)
Definition join (n : node) (nm : name) : option node := (list_to_map (children n) : gmap name node) !! nm.

(** [read_to_string] *)
Definition read_to_string (n : node) : option (list Z) :=
  match n with File content => utf8.from_utf8 content | Dir _ => None end.

(** [rsplit_file_at_dot]: what is before and after the last dot. *)
Definition rsplit_dot (nm : name) : option (name * name) :=
  match unicode.split_once 46 (rev nm) with
  | Some (after, before) => Some (rev before, rev after)
  | None => None
  end.
Definition extension (nm : name) : option name :=
  if bool_decide (nm = [46; 46]) then None
  else match rsplit_dot nm with Some ([], _) | None => None | Some (_, after) => Some after end.
Definition file_stem (nm : name) : name :=
  if bool_decide (nm = [46; 46]) then nm
  else match rsplit_dot nm with Some ([], _) | None => nm | Some (before, _) => before end.

(** The extension is one of [exts], whatever the case. *)
Definition has_extension (exts : list string) (nm : name) : bool :=
  match extension nm ≫= utf8.from_utf8 with
  | Some ext => existsb (fun v => bool_decide (unicode.ascii_lower (unicode.of_string v) = unicode.ascii_lower ext)) exts
  | None => false
  end.

(** The order of [OsStr]: lexicographic on the bytes. *)
Fixpoint name_leb (a b : name) : bool :=
  match a, b with
  | [], _ => true
  | _ :: _, [] => false
  | x :: a, y :: b => (x <? y) || ((x =? y) && name_leb a b)
  end.
Definition by_name {A} (a b : name * A) : Prop := name_leb a.1 b.1 = true.
#[global] Instance by_name_dec {A} : RelDecision (@by_name A).
Proof. intros a b. unfold by_name. apply _. Defined.
Definition sort {A} (l : list (name * A)) : list (name * A) := merge_sort by_name l.
End fs.

(** ** datasets/features.rs *)
Module features.
Import error types config unicode.
Section features.
Context `{DF : DataF32}.

Record FeatureStats : Type := MkStats { mean : list f32; std : list f32; min : list f32; max : list f32 }.

(** The inner loop: [acc[i] = op(acc[i], row[i])] for every column of the row; [None] is the
    panic of a row that is longer. *)
Definition acc_row (op : f32 -> f32 -> f32) (acc row : list f32) : option (list f32) :=
  if (length acc <? length row)%nat then None
  else Some (zip_with op acc row ++ drop (length row) acc).
Fixpoint acc_rows (op : f32 -> f32 -> f32) (acc : list f32) (data : list (list f32)) : option (list f32) :=
  match data with
  | [] => Some acc
  | row :: data => acc ← acc_row op acc row; acc_rows op acc data
  end.

(** The same loop for the squared differences. *)
Definition std_row (mean acc row : list f32) : option (list f32) :=
  if (length acc <? length row)%nat then None
  else Some (zip_with (fun '(s, m) val => let diff := f_sub val m in f_add s (f_mul diff diff)) (zip acc mean) row ++
             drop (length row) acc).
Fixpoint std_rows (mean acc : list f32) (data : list (list f32)) : option (list f32) :=
  match data with
  | [] => Some acc
  | row :: data => acc ← std_row mean acc row; std_rows mean acc data
  end.

Definition from_data (data : list (list f32)) : option (Result FeatureStats Error) :=
  match data with
  | [] => Some (Err (InvalidFormat (of_string "cannot compute stats from empty data")))
  | row0 :: _ =>
      let num_features := length row0 in
      let n := f_of_Z (Z.of_nat (length data)) in
      mean ← acc_rows f_add (replicate num_features (f_lit 0)) data;
      min ← acc_rows f_min (replicate num_features f_infinity) data;
      max ← acc_rows f_max (replicate num_features f_neg_infinity) data;
      let mean := (fun m => f_div m n) <$> mean in
      std ← std_rows mean (replicate num_features (f_lit 0)) data;
      let std := (fun s => let s := f_sqrt (f_div s n) in if f_ltb s (f_lit (1 # 100000000)) then f_lit 1 else s) <$> std in
      Some (Ok (MkStats mean std min max))
  end.

Definition normalize_zscore (st : FeatureStats) (features : list f32) : list f32 :=
  zip_with (fun '(x, m) s => f_div (f_sub x m) s) (zip features (mean st)) (std st).

Definition normalize_minmax (st : FeatureStats) (features : list f32) : list f32 :=
  zip_with (fun '(x, min_val) max_val =>
              let range := f_sub max_val min_val in
              if f_ltb range (f_lit (1 # 100000000)) then f_lit (1 # 2) else f_div (f_sub x min_val) range)
    (zip features (min st)) (max st).

Inductive NormalizationMethod := NormNone | ZScore | MinMax.

Record FeatureDataset : Type := MkDataset {
  d_config : DatasetConfig;
  entries : list (list f32 * Z);
  num_features : nat;
  stats : option FeatureStats;
  normalization : NormalizationMethod;
}.

Definition bad_value (what : string) (line_idx : nat) (value : list Z) : Error :=
  InvalidFormat (of_string ("invalid " +:+ what +:+ " on line " +:+ string_of_Z (Z.of_nat (line_idx + 2)) +:+ ": ") ++ value).

(** The loop over the columns of a row. *)
Fixpoint parse_row (label_idx line_idx col_idx : nat) (values : list (list Z)) (features : list f32) (label : Z)
    : Result (list f32 * Z) Error :=
  match values with
  | [] => Ok (features, label)
  | value :: values =>
      if (col_idx =? label_idx)%nat
      then match parse_unsigned u32_max (trim value) with
           | Some label => parse_row label_idx line_idx (S col_idx) values features label
           | None => Err (bad_value "label" line_idx value)
           end
      else match f_parse (trim value) with
           | Some feature => parse_row label_idx line_idx (S col_idx) values (features ++ [feature]) label
           | None => Err (bad_value "feature" line_idx value)
           end
  end.

Definition split_comma : list Z -> list (list Z) := split_by (fun c => c =? 44).

(** The loop over the lines after the header. *)
Fixpoint parse_rows (num_cols label_idx line_idx : nat) (l : list (list Z)) : Result (list (list f32 * Z)) Error :=
  match l with
  | [] => Ok []
  | line :: l =>
      let values := split_comma line in
      if (length values =? num_cols)%nat
      then let? entry := parse_row label_idx line_idx 0 values [] 0 in
           let? rest := parse_rows num_cols label_idx (S line_idx) l in
           Ok (entry :: rest)
      else parse_rows num_cols label_idx (S line_idx) l
  end.

Definition too_few_columns (num_cols : nat) : Error :=
  InvalidFormat (of_string ("CSV must have at least 2 columns, got " +:+ string_of_Z (Z.of_nat num_cols))).

(** The match on the normalization of one row. *)
Definition normalize (m : NormalizationMethod) (st : FeatureStats) (features : list f32) : list f32 :=
  match m with
  | ZScore => normalize_zscore st features
  | MinMax => normalize_minmax st features
  | NormNone => features
  end.

(** [from_csv_with_options] on the file at [path], if it exists. *)
Definition from_csv_with_options (path : list Z) (file : option fs.node) (label_col : option nat)
    (normalization : NormalizationMethod) (c : DatasetConfig) : option (Result FeatureDataset Error) :=
  match validate c with Err e => Some (Err e) | Ok _ =>
  match file ≫= fs.read_to_string with None => Some (Err (DatasetNotFound path)) | Some content =>
  match lines [] content with [] => Some (Err (InvalidFormat (of_string "empty CSV file"))) | header :: rest =>
  let num_cols := length (split_comma header) in
  if (num_cols <? 2)%nat then Some (Err (too_few_columns num_cols)) else
  let label_idx := default (num_cols - 1)%nat label_col in
  let num_features := (num_cols - 1)%nat in
  match parse_rows num_cols label_idx 0 rest with Err e => Some (Err e) | Ok [] =>
    Some (Err (InvalidFormat (of_string "no valid entries in CSV"))) | Ok all_entries =>
  stats ← match normalization with
          | NormNone => Some (Ok None)
          | _ => r ← from_data (all_entries.*1); Some (let? st := r in Ok (Some st))
          end;
  Some (let? stats := stats in
        let all_entries := match stats with
                           | Some st => (fun '(features, label) => (normalize normalization st features, label)) <$> all_entries
                           | None => all_entries
                           end in
        Ok (MkDataset c (shard c all_entries) num_features stats normalization))
  end end end end.

Definition from_csv (path : list Z) (file : option fs.node) (normalization : NormalizationMethod) (c : DatasetConfig) :=
  from_csv_with_options path file None normalization c.

Definition floats_to_bytes (floats : list f32) : list Z := floats ≫= f_to_le_bytes.

Definition show_normalization (m : NormalizationMethod) : string :=
  match m with NormNone => "None" | ZScore => "ZScore" | MinMax => "MinMax" end.

Definition len (d : FeatureDataset) : nat := length (entries d).

Definition get (d : FeatureDataset) (idx : nat) : Result Sample Error :=
  match entries d !! idx with
  | None => Err (IndexOutOfBounds idx (length (entries d)))
  | Some (features, label) =>
      Ok (MkSample (floats_to_bytes features) label
           (FeatureMeta (num_features d) (show_normalization (normalization d))))
  end.

Definition iter_shuffled `{Shuffle} (d : FeatureDataset) (seed : Z) : list (Result Sample Error) :=
  if (seed =? 0) || negb (shuffle (d_config d)) then get d <$> seq 0 (len d) else get d <$> shuffled seed (len d).
End features.
End features.

(** ** datasets/timeseries.rs: reading the rows, and the samples *)
Module timeseries_csv.
Import error types config unicode features.
Section timeseries_csv.
Context `{DF : DataF32}.

Record TimeSeriesDataset : Type := MkSeries {
  t_config : DatasetConfig;
  windows : list (list f32 * f32);
  t_num_features : nat;
  window_size : nat;
  is_classification : bool;
}.

(** The values of a line but the first; the first one that is no float is the error. *)
Fixpoint parse_values (line_idx : nat) (values : list (list Z)) : Result (list f32) Error :=
  match values with
  | [] => Ok []
  | v :: values =>
      match f_parse (trim v) with
      | Some x => let? xs := parse_values line_idx values in Ok (x :: xs)
      | None => Err (bad_value "float" line_idx v)
      end
  end.
Fixpoint parse_lines (line_idx : nat) (l : list (list Z)) : Result (list (list f32)) Error :=
  match l with
  | [] => Ok []
  | line :: l =>
      let? values := parse_values line_idx (drop 1 (split_comma line)) in
      let? rest := parse_lines (S line_idx) l in
      Ok (values :: rest)
  end.

Definition from_csv_with_options (path : list Z) (file : option fs.node) (window_size stride : nat)
    (target_col : option nat) (is_classification : bool) (c : DatasetConfig) : Result TimeSeriesDataset Error :=
  let? _ := validate c in
  match file with None => Err (DatasetNotFound path) | Some file =>
  if (window_size =? 0)%nat then Err (InvalidFormat (of_string "window_size must be > 0")) else
  if (stride =? 0)%nat then Err (InvalidFormat (of_string "stride must be > 0")) else
  match fs.read_to_string file with None => Err (DatasetNotFound path) | Some content =>
  match lines [] content with [] => Err (InvalidFormat (of_string "empty CSV file")) | header :: rest =>
  let num_cols := length (split_comma header) in
  if (num_cols <? 2)%nat then Err (too_few_columns num_cols) else
  let num_features := (num_cols - 1)%nat in
  let target_col_original := default (num_cols - 1)%nat target_col in
  if (target_col_original =? 0)%nat then Err (InvalidFormat (of_string "target_col cannot be timestamp column (col 0)")) else
  let target_idx := (target_col_original - 1)%nat in
  let? all_data := parse_lines 0 rest in
  let? windows := timeseries.from_rows window_size stride target_idx all_data c in
  Ok (MkSeries c windows num_features window_size is_classification)
  end end end.

Definition from_csv (path : list Z) (file : option fs.node) (window_size stride : nat) (c : DatasetConfig) :=
  from_csv_with_options path file window_size stride None false c.

Definition len (d : TimeSeriesDataset) : nat := length (windows d).

Definition get (d : TimeSeriesDataset) (idx : nat) : Result Sample Error :=
  match windows d !! idx with
  | None => Err (IndexOutOfBounds idx (length (windows d)))
  | Some (window_features, target) =>
      let label := if is_classification d then f_as_u32 target else 0 in
      Ok (MkSample (floats_to_bytes window_features) label
           (WindowMeta (f_to_le_bytes target) (window_size d) (t_num_features d)))
  end.

Definition iter_shuffled `{Shuffle} (d : TimeSeriesDataset) (seed : Z) : list (Result Sample Error) :=
  if (seed =? 0) || negb (shuffle (t_config d)) then get d <$> seq 0 (len d) else get d <$> shuffled seed (len d).
End timeseries_csv.
End timeseries_csv.

(** ** datasets/text.rs: the directory of class folders *)
Module text_directory.
Import error types config unicode text.
Section text_directory.
Variable to_lowercase : list Z -> list Z.
(** How a path is shown in a message. *)
Variable display : list (list Z) -> list Z.

(** The files of one class, in the order of the directory. *)
Fixpoint scan_class (class : list Z) (class_idx : nat) (files : list (list Z * fs.node)) (all_entries : list (list Z * Z)) (v : Vocabulary)
    : Result (list (list Z * Z) * Vocabulary) Error :=
  match files with
  | [] => Ok (all_entries, v)
  | (nm, file) :: files =>
      if negb (fs.is_file file) then scan_class class class_idx files all_entries v
      else match fs.read_to_string file with
           | None => Err (CorruptedSample (length all_entries) (of_string "read '" ++ display [class; nm] ++ of_string "'"))
           | Some text =>
               scan_class class class_idx files (all_entries ++ [(text, as_unsigned 32 (Z.of_nat class_idx))]) (add_words to_lowercase text v)
           end
  end.
Fixpoint scan_classes (class_idx : nat) (class_dirs : list (list Z * fs.node)) (all_entries : list (list Z * Z)) (v : Vocabulary)
    : Result (list (list Z * Z) * Vocabulary) Error :=
  match class_dirs with
  | [] => Ok (all_entries, v)
  | (nm, class_dir) :: class_dirs =>
      let? r := scan_class nm class_idx (fs.children class_dir) all_entries v in
      scan_classes (S class_idx) class_dirs r.1 r.2
  end.

Definition from_directory (root : option fs.node) (c : DatasetConfig) : Result TextDataset Error :=
  let? _ := validate c in
  match root with
  | None | Some (fs.File _) => Err (DatasetNotFound (display []))
  | Some (fs.Dir l) =>
      let class_dirs := fs.sort (List.filter (fun '(_, n) => fs.is_dir n) l) in
      let? r := scan_classes 0 class_dirs [] new in
      match r.1 with
      | [] => Err (InvalidFormat (of_string "no text files found under " ++ display []))
      | all_entries => Ok (from_entries all_entries r.2 c)
      end
  end.
End text_directory.
End text_directory.

(** [image::load_from_memory], [resize_exact] to a square and [into_rgb8]: the RGB bytes, or the
    message of the error. *)
Class ImageLib : Type := { load_rgb8 : nat -> list Z -> list Z + list Z }.
Class ImageLaws `{ImageLib} : Prop := {
  load_rgb8_spec size bytes data : load_rgb8 size bytes = inl data -> length data = (size * size * 3)%nat /\ Forall is_byte data;
}.

(** Trait [FileReader]: the bytes of the file at a path, or the message of the error. *)
Definition FileReader : Type := list (list Z) -> list Z + list Z.

(** How a path is shown in a message, from its components below the root. *)
Class Display : Type := { display : list (list Z) -> list Z }.

(** ** datasets/detection.rs *)
Module detection.
Import error types config unicode.
Section detection.
Context `{DF : DataF32, ImageLib, Display}.

Definition INPUT_SIZE : nat := 640.

Record BoundingBox : Type := MkBox {
  class_id : Z; x : f32; y : f32; width : f32; height : f32; confidence : option f32;
}.

Definition from_yolo_normalized (class_id : Z) (x_center_norm y_center_norm width_norm height_norm : f32)
    (img_width img_height : Z) : BoundingBox :=
  MkBox class_id (f_mul x_center_norm (f_of_Z img_width)) (f_mul y_center_norm (f_of_Z img_height))
    (f_mul width_norm (f_of_Z img_width)) (f_mul height_norm (f_of_Z img_height)) None.

Definition to_yolo_normalized (b : BoundingBox) (img_width img_height : Z) : f32 * f32 * f32 * f32 :=
  (f_div (x b) (f_of_Z img_width), f_div (y b) (f_of_Z img_height),
   f_div (width b) (f_of_Z img_width), f_div (height b) (f_of_Z img_height)).

Definition from_coco (class_id : Z) (x_min y_min width height : f32) : BoundingBox :=
  MkBox class_id (f_add x_min (f_div width (f_lit 2))) (f_add y_min (f_div height (f_lit 2))) width height None.

Record ImageAnnotation : Type := MkAnnotation { image_path : list (list Z); bboxes : list BoundingBox }.

Record DetectionDataset : Type := MkDetection {
  d_config : DatasetConfig;
  annotations : list ImageAnnotation;
  num_classes : Z;
  class_names : option (list (list Z));
}.

Definition split_whitespace (l : list Z) : list (list Z) :=
  List.filter (fun w => match w with [] => false | _ => true end) (split_by is_whitespace l).

Definition bad_part (what : string) (label_path : list (list Z)) (part : list Z) : Error :=
  InvalidFormat (of_string ("invalid " +:+ what +:+ " in ") ++ display label_path ++ of_string ": " ++ part).

Definition float_part (what : string) (label_path : list (list Z)) (part : list Z) : Result f32 Error :=
  match f_parse part with Some v => Ok v | None => Err (bad_part what label_path part) end.

(** The loop over the lines of a label file, with the greatest class so far. *)
Fixpoint parse_labels (label_path : list (list Z)) (l : list (list Z)) (max_class_id : Z)
    : Result (list BoundingBox * Z) Error :=
  match l with
  | [] => Ok ([], max_class_id)
  | line :: l =>
      match split_whitespace line with
      | [p0; p1; p2; p3; p4] =>
          match parse_unsigned u32_max p0 with
          | None => Err (bad_part "class_id" label_path p0)
          | Some class_id =>
              let? x := float_part "x" label_path p1 in
              let? y := float_part "y" label_path p2 in
              let? width := float_part "width" label_path p3 in
              let? height := float_part "height" label_path p4 in
              let? r := parse_labels label_path l (Z.max max_class_id class_id) in
              Ok (MkBox class_id x y width height None :: r.1, r.2)
          end
      | _ => parse_labels label_path l max_class_id
      end
  end.

Definition image_extensions : list string := ["jpg"; "jpeg"; "png"; "bmp"].

(** The loop over the images, in the order of the directory. *)
Fixpoint scan_images (labels_dir : fs.node) (images : list (list Z * fs.node)) (all_annotations : list ImageAnnotation)
    (max_class_id : Z) : Result (list ImageAnnotation * Z) Error :=
  match images with
  | [] => Ok (all_annotations, max_class_id)
  | (nm, entry) :: images =>
      if negb (fs.is_file entry && fs.has_extension image_extensions nm)
      then scan_images labels_dir images all_annotations max_class_id
      else match utf8.from_utf8 (fs.file_stem nm) with
      | None => scan_images labels_dir images all_annotations max_class_id
      | Some _ =>
          let label_name := fs.file_stem nm ++ of_string ".txt" in
          match fs.join labels_dir label_name with
          | None => scan_images labels_dir images all_annotations max_class_id
          | Some label_file =>
              let label_path := [of_string "labels"; label_name] in
              match fs.read_to_string label_file with
              | None => Err (CorruptedSample (length all_annotations) (of_string "read label '" ++ display label_path ++ of_string "'"))
              | Some content =>
                  let? r := parse_labels label_path (lines [] content) max_class_id in
                  scan_images labels_dir images
                    (match r.1 with
                     | [] => all_annotations
                     | bboxes => all_annotations ++ [MkAnnotation [of_string "images"; nm] bboxes]
                     end) r.2
              end
          end
      end
  end.

(** [from_yolo_directory] on the directory [root], if it exists; [u32_max + 1] wraps in
    release builds. *)
Definition from_yolo_directory (root : option fs.node) (c : DatasetConfig) : Result DetectionDataset Error :=
  let? _ := validate c in
  match root with None => Err (DatasetNotFound (display [])) | Some root =>
  match fs.join root (of_string "images"), fs.join root (of_string "labels") with
  | Some images_dir, Some labels_dir =>
      let class_names :=
        match fs.join root (of_string "classes.txt") with
        | Some classes_file => (fun content => trim <$> lines [] content) <$> fs.read_to_string classes_file
        | None => None
        end in
      if fs.is_file images_dir
      then Err (InvalidFormat (of_string "cannot read images dir: " ++ display [of_string "images"])) else
      let? r := scan_images labels_dir (fs.children images_dir) [] 0 in
      match r.1 with
      | [] => Err (InvalidFormat (of_string "no valid annotations found in " ++ display []))
      | all_annotations =>
          let num_classes := as_unsigned 32 (r.2 + 1) in
          Ok (MkDetection c (shard c all_annotations) num_classes class_names)
      end
  | _, _ => Err (InvalidFormat (of_string "YOLO format requires images/ and labels/ subdirectories in " ++ display []))
  end end.

Definition len (d : DetectionDataset) : nat := length (annotations d).

Definition file_name (p : list (list Z)) : option (list Z) := last p ≫= utf8.from_utf8.

(** A bounding box in the JSON of a sample. *)
Definition show_box (b : BoundingBox) : Z * list (list Z) :=
  (class_id b, f_to_le_bytes <$> [x b; y b; width b; height b] ++ match confidence b with Some v => [v] | None => [] end).

Definition get (reader : FileReader) (d : DetectionDataset) (idx : nat) : Result Sample Error :=
  match annotations d !! idx with
  | None => Err (IndexOutOfBounds idx (length (annotations d)))
  | Some annotation =>
      match reader (image_path annotation) with
      | inr e => Err (CorruptedSample idx (of_string "read '" ++ display (image_path annotation) ++ of_string "': " ++ e))
      | inl bytes =>
          match load_rgb8 INPUT_SIZE bytes with
          | inr e => Err (CorruptedSample idx (of_string "decode '" ++ display (image_path annotation) ++ of_string "': " ++ e))
          | inl data =>
              let label := default 0 (class_id <$> head (bboxes annotation)) in
              Ok (MkSample data label
                   (BoxesMeta (file_name (image_path annotation)) (length (bboxes annotation)) (show_box <$> bboxes annotation)))
          end
      end
  end.

Definition iter_shuffled `{Shuffle} (reader : FileReader) (d : DetectionDataset) (seed : Z) : list (Result Sample Error) :=
  if (seed =? 0) || negb (shuffle (d_config d)) then get reader d <$> seq 0 (len d) else get reader d <$> shuffled seed (len d).
End detection.
End detection.

(** ** datasets/imagenet.rs *)
Module imagenet.
Import error types config unicode.
Section imagenet.
Context `{ImageLib, Display}.

Definition IMAGE_EXTENSIONS : list string := ["jpeg"; "jpg"; "png"; "webp"].
Definition INPUT_SIZE : nat := 224.

Record ImageNetDataset : Type := MkImageNet {
  i_config : DatasetConfig;
  entries : list (list (list Z) * Z);
  num_classes : nat;
}.

Definition is_image : list Z -> bool := fs.has_extension IMAGE_EXTENSIONS.

(** The image files of a synset directory, sorted by name. *)
Definition images_of (synset_dir : fs.node) : list (list Z) :=
  (fs.sort (List.filter (fun '(nm, n) => fs.is_file n && is_image nm) (fs.children synset_dir))).*1.

(** [scan_split_dir] below the directory at [prefix]. *)
Definition scan_split_dir (prefix : list (list Z)) (split_dir : fs.node) : Result (list (list (list Z) * Z) * nat) Error :=
  if fs.is_file split_dir then Err Io else
  let synsets := List.filter (fun '(_, n) => fs.is_dir n) (fs.children split_dir) in
  match synsets with
  | [] => Err (InvalidFormat (of_string "No synset subdirectories in " ++ display prefix))
  | _ =>
      let synsets := fs.sort synsets in
      Ok (concat (imap (fun class_idx '(nm, synset_dir) =>
                          (fun img => (prefix ++ [nm; img], as_unsigned 32 (Z.of_nat class_idx))) <$> images_of synset_dir) synsets),
          length synsets)
  end.

(** [open] on the directory [root], if it exists. *)
Definition open (root : option fs.node) (c : DatasetConfig) : Result ImageNetDataset Error :=
  let? _ := validate c in
  match root with None => Err (DatasetNotFound (display [])) | Some root =>
  let split := match fs.join root (of_string "train") with
               | Some (fs.Dir l) => ([of_string "train"], fs.Dir l)
               | _ => ([], root)
               end in
  let? r := scan_split_dir split.1 split.2 in
  match r.1 with
  | [] => Err (InvalidFormat (of_string "No images found under " ++ display split.1 ++
                 of_string " " ++ [0x2014] ++ of_string " expected synset subfolders with JPEG/PNG files"))
  | all_entries => Ok (MkImageNet c (shard c all_entries) r.2)
  end end.

Definition len (d : ImageNetDataset) : nat := length (entries d).

(** [decode_at]; [None] is the panic of an index out of bounds. *)
Definition decode_at (reader : FileReader) (d : ImageNetDataset) (idx : nat) : option (Result Sample Error) :=
  '(path, label) ← entries d !! idx;
  Some match reader path with
  | inr e => Err (CorruptedSample idx (of_string "read '" ++ display path ++ of_string "' failed: " ++ e))
  | inl bytes =>
      match load_rgb8 INPUT_SIZE bytes with
      | inr e => Err (CorruptedSample idx (of_string "decode '" ++ display path ++ of_string "' failed: " ++ e))
      | inl data => Ok (MkSample data label (match last path ≫= utf8.from_utf8 with Some s => FileMeta s | None => NoMeta end))
      end
  end.

Definition get (reader : FileReader) (d : ImageNetDataset) (idx : nat) : option (Result Sample Error) :=
  if (len d <=? idx)%nat then Some (Err (IndexOutOfBounds idx (len d))) else decode_at reader d idx.

Definition shuffled_indices `{Shuffle} (d : ImageNetDataset) (seed : Z) : list nat := shuffled seed (length (entries d)).

(** Neither the flag of the configuration nor a seed of 0 turns the shuffling off. *)
Definition iter_shuffled `{Shuffle} (reader : FileReader) (d : ImageNetDataset) (seed : Z) : list (option (Result Sample Error)) :=
  decode_at reader d <$> shuffled_indices d seed.
Definition iter (reader : FileReader) (d : ImageNetDataset) : list (option (Result Sample Error)) :=
  decode_at reader d <$> seq 0 (len d).
End imagenet.
End imagenet.

(** A WAV file as [hound] reads it: its rate and channels, and every sample or [None] where
    reading it failed; or the message of the error. *)
Record WavFile {F : Type} : Type := MkWav {
  wav_sample_rate : Z;
  wav_channels : nat;
  wav_samples : list (option Z) + list (option F);
}.
Arguments WavFile : clear implicits.
Arguments MkWav {F}.
Class WavLib `{DataF32} : Type := { wav_open : list (list Z) -> WavFile f32 + list Z }.

(** ** datasets/audio.rs *)
Module audio.
Import error types config unicode.
Section audio.
Context `{DF : DataF32, HW : !WavLib, Display}.

Definition AUDIO_EXTENSIONS : list string := ["wav"; "wave"].
Definition DEFAULT_SAMPLE_RATE : Z := 16000.
Definition DEFAULT_DURATION_SECS : f32 := f_lit 10.

Record AudioDataset : Type := MkAudio {
  a_config : DatasetConfig;
  entries : list (list (list Z) * Z);
  target_sample_rate : Z;
  target_duration : f32;
  num_samples : nat;
}.

Definition is_audio_file : list Z -> bool := fs.has_extension AUDIO_EXTENSIONS.

Definition from_entries (all_entries : list (list (list Z) * Z)) (target_sample_rate : Z) (target_duration : f32)
    (c : DatasetConfig) : AudioDataset :=
  MkAudio c (shard c all_entries) target_sample_rate target_duration
    (f_as_usize (f_mul (f_of_Z target_sample_rate) target_duration)).

(** The entries of a class: the audio files in the order of the directory. *)
Definition class_entries (class_idx : nat) (class : list Z * fs.node) : list (list (list Z) * Z) :=
  (fun '(nm, _) => ([class.1; nm], as_unsigned 32 (Z.of_nat class_idx))) <$>
    List.filter (fun '(nm, n) => fs.is_file n && is_audio_file nm) (fs.children class.2).

Definition from_directory_with_options (root : option fs.node) (target_sample_rate : Z) (target_duration : f32)
    (c : DatasetConfig) : Result AudioDataset Error :=
  let? _ := validate c in
  match root with
  | None | Some (fs.File _) => Err (DatasetNotFound (display []))
  | Some (fs.Dir l) =>
      let class_dirs := fs.sort (List.filter (fun '(_, n) => fs.is_dir n) l) in
      match concat (imap class_entries class_dirs) with
      | [] => Err (InvalidFormat (of_string "no audio files found under " ++ display []))
      | all_entries => Ok (from_entries all_entries target_sample_rate target_duration c)
      end
  end.
Definition from_directory (root : option fs.node) (c : DatasetConfig) : Result AudioDataset Error :=
  from_directory_with_options root DEFAULT_SAMPLE_RATE DEFAULT_DURATION_SECS c.

(** [chunks_exact(n)]: the rest that fills no chunk is dropped. *)
Fixpoint chunks_exact (fuel n : nat) (l : list f32) : list (list f32) :=
  match fuel with
  | O => []
  | S fuel => if (length l <? n)%nat then [] else take n l :: chunks_exact fuel n (drop n l)
  end.

Definition samples_of (w : WavFile f32) : list f32 :=
  match wav_samples w with
  | inl ints => (fun s => f_div (f_of_Z (default 0 s)) (f_lit 32768)) <$> ints
  | inr floats => default (f_lit 0) <$> floats
  end.

(** [None]: chunks of no samples, a panic.  A chunk has at least one sample, so the number of
    samples is enough fuel. *)
Definition to_mono (channels : nat) (samples : list f32) : option (list f32) :=
  if (channels =? 1)%nat then Some samples
  else if (channels =? 0)%nat then None
  else Some ((fun chunk => f_div (f_sum chunk) (f_of_Z (Z.of_nat channels))) <$> chunks_exact (length samples) channels samples).

Definition resample (source target : Z) (mono : list f32) : list f32 :=
  if source =? target then mono
  else
    let ratio := f_div (f_of_Z target) (f_of_Z source) in
    let new_len := f_as_usize (f_mul (f_of_Z (Z.of_nat (length mono))) ratio) in
    (fun i => default (f_lit 0) (mono !! f_as_usize (f_div (f_of_Z (Z.of_nat i)) ratio))) <$> seq 0 new_len.

(** Copying the first samples into a zeroed buffer of [n]. *)
Definition pad_or_truncate (n : nat) (resampled : list f32) : list f32 :=
  let copy_len := (length resampled `min` n)%nat in
  take copy_len resampled ++ replicate (n - copy_len) (f_lit 0).

Definition load_and_preprocess (d : AudioDataset) (path : list (list Z)) : option (Result (list f32) Error) :=
  match wav_open path with
  | inr e => Some (Err (CorruptedSample 0 (of_string "hound read '" ++ display path ++ of_string "': " ++ e)))
  | inl w =>
      mono ← to_mono (wav_channels w) (samples_of w);
      Some (Ok (pad_or_truncate (num_samples d) (resample (wav_sample_rate w) (target_sample_rate d) mono)))
  end.

Definition floats_to_bytes (floats : list f32) : list Z := floats ≫= f_to_le_bytes.

Definition len (d : AudioDataset) : nat := length (entries d).

Definition get (d : AudioDataset) (idx : nat) : option (Result Sample Error) :=
  match entries d !! idx with
  | None => Some (Err (IndexOutOfBounds idx (length (entries d))))
  | Some (path, label) =>
      r ← load_and_preprocess d path;
      Some (let? audio_samples := r in
            Ok (MkSample (floats_to_bytes audio_samples) label
                 (AudioMeta (last path ≫= utf8.from_utf8) (target_sample_rate d) (f_to_le_bytes (target_duration d))
                    (Z.of_nat (num_samples d)))))
  end.

Definition iter_shuffled `{Shuffle} (d : AudioDataset) (seed : Z) : list (option (Result Sample Error)) :=
  if (seed =? 0) || negb (shuffle (a_config d)) then get d <$> seq 0 (len d) else get d <$> shuffled seed (len d).
End audio.
End audio.

(** ** transform/normalize.rs: the normalization *)
Module normalize.
Import error types config unicode transform.
Section normalize.
Context `{DF : DataF32}.

Definition IMAGENET_MEAN : list f32 := [f_lit (485 # 1000); f_lit (456 # 1000); f_lit (406 # 1000)].
Definition IMAGENET_STD : list f32 := [f_lit (229 # 1000); f_lit (224 # 1000); f_lit (225 # 1000)].

(** The value of [byte] in channel [c]. *)
Definition norm (c : nat) (byte : Z) : f32 :=
  f_div (f_sub (f_div (f_of_Z byte) (f_lit 255)) (nth c IMAGENET_MEAN (f_lit 0))) (nth c IMAGENET_STD (f_lit 0)).

Definition normalize_imagenet : Transform := fun s =>
  let n := length (data s) in
  if negb (n mod 3 =? 0)%nat
  then Err (InvalidFormat (of_string ("NormalizeImageNet: data length " +:+ string_of_Z (Z.of_nat n) +:+ " is not divisible by 3")))
  else Ok (set_data (concat (imap (fun i byte => f_to_le_bytes (norm (i mod 3) byte)) (data s))) s).
End normalize.
End normalize.

(** ** Names and directories *)
Section directories.
Import fs.

Lemma name_leb_total a b : name_leb a b = true \/ name_leb b a = true.
Proof.
  revert b. induction a as [|x a IH]; intros [|y b]; cbn; [by left..|by right|].
  rewrite !orb_true_iff, !andb_true_iff, !Z.ltb_lt, !Z.eqb_eq.
  destruct (Z.lt_trichotomy x y) as [|[->|]], (IH b); tauto.
Qed.

Lemma name_leb_trans a b c : name_leb a b = true -> name_leb b c = true -> name_leb a c = true.
Proof.
  revert b c. induction a as [|x a IH]; intros [|y b] [|z c]; cbn; try done.
  rewrite !orb_true_iff, !andb_true_iff, !Z.ltb_lt, !Z.eqb_eq.
  intros [|[-> ?]] [|[-> ?]]; [left; lia..|]. right. eauto.
Qed.

Lemma name_leb_antisym a b : name_leb a b = true -> name_leb b a = true -> a = b.
Proof.
  revert b. induction a as [|x a IH]; intros [|y b]; cbn; try done.
  rewrite !orb_true_iff, !andb_true_iff, !Z.ltb_lt, !Z.eqb_eq.
  intros [|[-> ?]] [|[? ?]]; try lia. f_equal. eauto.
Qed.

#[export] Instance by_name_total {A} : Total (@by_name A).
Proof. intros a b. apply name_leb_total. Qed.
#[export] Instance by_name_trans {A} : Transitive (@by_name A).
Proof. intros a b c. apply name_leb_trans. Qed.

Lemma keys_unique {K A} (l : list (K * A)) k x y : NoDup l.*1 -> (k, x) ∈ l -> (k, y) ∈ l -> x = y.
Proof.
  intros Hnd [i Hi]%list_elem_of_lookup [j Hj]%list_elem_of_lookup.
  assert (i = j) as ->; [|congruence].
  apply (NoDup_lookup l.*1 i j k Hnd); rewrite list_lookup_fmap; [by rewrite Hi|by rewrite Hj].
Qed.

(** Sorting forgets the order of the listing: two listings with the same entries, as far as a
    function [f] that keeps the names looks at them, are sorted alike. *)
Lemma sort_forgets_order {A B} (f : A -> B) (l1 l2 : list (name * A)) :
  NoDup l1.*1 -> prod_map id f <$> l1 ≡ₚ prod_map id f <$> l2 ->
  prod_map id f <$> sort l1 = prod_map id f <$> sort l2.
Proof.
  intros Hnd Hp.
  assert (prod_map id f <$> sort l1 ≡ₚ prod_map id f <$> l1) as H1 by apply fmap_Permutation, merge_sort_Permutation.
  assert (prod_map id f <$> sort l2 ≡ₚ prod_map id f <$> l2) as H2 by apply fmap_Permutation, merge_sort_Permutation.
  assert (forall l : list (name * A), StronglySorted by_name (prod_map id f <$> sort l)) as Hs.
  { intros l. apply (StronglySorted_fmap _ by_name by_name); [by intros [] []|]. apply StronglySorted_merge_sort; apply _. }
  apply (StronglySorted_unique_strong by_name); [|apply Hs..|by rewrite H1, H2].
  assert (NoDup (prod_map id f <$> l1).*1) as Hnd'.
  { rewrite <- list_fmap_compose. erewrite list_fmap_ext; [exact Hnd|]. by intros ? []. }
  intros [n1 x1] [n2 x2] Hi1 Hi2 L1 L2. pose proof (name_leb_antisym _ _ L1 L2) as E. cbn in E. subst n2.
  f_equal. rewrite H1 in Hi1. rewrite H2, <- Hp in Hi2. exact (keys_unique _ _ _ _ Hnd' Hi1 Hi2).
Qed.
End directories.

(** The same files and directories, each directory listed in some order. *)
Inductive same_tree : fs.node -> fs.node -> Prop :=
  | same_file content : same_tree (fs.File content) (fs.File content)
  | same_dir l1 l l2 :
      l1 ≡ₚ l -> Forall2 (fun a b => a.1 = b.1 /\ same_tree a.2 b.2) l l2 -> same_tree (fs.Dir l1) (fs.Dir l2).

(** No directory has two entries of the same name. *)
Inductive distinct_names : fs.node -> Prop :=
  | distinct_file content : distinct_names (fs.File content)
  | distinct_dir l : NoDup l.*1 -> Forall (fun p => distinct_names p.2) l -> distinct_names (fs.Dir l).

(** ** The index of imagenet.rs does not depend on the order of the listings *)
Section image_index.
Import fs config imagenet.
Context `{ImageLib, Display}.

Lemma same_is_file t1 t2 : same_tree t1 t2 -> is_file t1 = is_file t2.
Proof. by destruct 1. Qed.

Lemma filter_related {A B} (R : A -> A -> Prop) (P : A -> bool) (g : A -> B) (l1 l l2 : list A) :
  l1 ≡ₚ l -> Forall2 R l l2 -> (forall a b, a ∈ l1 -> R a b -> P a = P b /\ (P a = true -> g a = g b)) ->
  g <$> List.filter P l1 ≡ₚ g <$> List.filter P l2.
Proof.
  intros Hp Hf Hg. transitivity (g <$> List.filter P l).
  { apply fmap_Permutation. clear -Hp. induction Hp; cbn; repeat case_match; eauto using Permutation. }
  apply reflexive_eq.
  assert (forall a b, a ∈ l -> R a b -> P a = P b /\ (P a = true -> g a = g b)) as Hg'
    by (intros; apply Hg; [by rewrite Hp|done]).
  clear Hp Hg. induction Hf as [|a b l l2 Hab _ IH]; [done|]. cbn.
  destruct (Hg' a b (list_elem_of_here _ _) Hab) as [E1 E2].
  specialize (IH (fun x y Hx => Hg' x y (list_elem_of_further _ _ _ Hx))). rewrite <- E1.
  destruct (P a); [|exact IH]. cbn. by rewrite E2, IH.
Qed.

(** Sorting the entries that pass a test, when the test and what is read off an entry are the
    same in both trees. *)
Lemma sorted_view {B} (P : list Z * node -> bool) (f : node -> B) (t1 t2 : node) :
  distinct_names t1 -> same_tree t1 t2 ->
  (forall nm a b, distinct_names a -> same_tree a b -> P (nm, a) = P (nm, b)) ->
  (forall nm a b, P (nm, a) = true -> distinct_names a -> same_tree a b -> f a = f b) ->
  (prod_map id f <$> sort (List.filter P (children t1))) = (prod_map id f <$> sort (List.filter P (children t2))).
Proof.
  intros Hd Hs HP Hf. destruct Hs as [c|l1 l l2 Hp Hl]; [done|]. inversion_clear Hd as [|? Hnd Hch]. cbn [children].
  apply sort_forgets_order.
  - clear -Hnd. induction l1 as [|[k x] l1 IH]; [constructor|]. cbn in *. apply NoDup_cons in Hnd as [Hk Hnd].
    case_match; [|by apply IH]. cbn. constructor; [|by apply IH]. intros Hin. apply Hk.
    apply list_elem_of_fmap in Hin as (y & -> & Hy). apply list_elem_of_In, filter_In, proj1, list_elem_of_In in Hy.
    apply list_elem_of_fmap. by exists y.
  - apply (filter_related _ P _ _ _ _ Hp Hl). intros [k a] [k' b] Ha [E Hab]. cbn in E, Hab. subst k'.
    rewrite Forall_forall in Hch. pose proof (Hch _ Ha) as Hda. cbn in Hda. split; [by apply HP|].
    intros Hk. unfold prod_map. cbn. f_equal. by apply (Hf k).
Qed.

Lemma images_same t1 t2 : distinct_names t1 -> same_tree t1 t2 -> images_of t1 = images_of t2.
Proof.
  intros Hd Hs. unfold images_of.
  assert (forall l : list (list Z * node), l.*1 = (prod_map id (fun _ => tt) <$> l).*1) as E.
  { intros l. rewrite <- list_fmap_compose. by apply list_fmap_ext. }
  rewrite !E. f_equal. apply sorted_view; [done..| |done].
  intros nm a b _ Hab. by rewrite (same_is_file a b Hab).
Qed.

(** What the scan reads of a split directory: the synsets in order, with their images. *)
Definition classes (t : node) : list (list Z * list (list Z)) :=
  prod_map id images_of <$> sort (List.filter (fun '(_, n) => is_dir n) (children t)).
Definition class_entries (prefix : list (list Z)) (class_idx : nat) (c : list Z * list (list Z)) : list (list (list Z) * Z) :=
  (fun img => (prefix ++ [c.1; img], as_unsigned 32 (Z.of_nat class_idx))) <$> c.2.

Lemma scan_reads_classes prefix t :
  scan_split_dir prefix t =
    if is_file t then Err error.Io else
    match classes t with
    | [] => Err (error.InvalidFormat (unicode.of_string "No synset subdirectories in " ++ display prefix))
    | cs => Ok (concat (imap (class_entries prefix) cs), length cs)
    end.
Proof.
  unfold scan_split_dir, classes. destruct (is_file t); [done|].
  set (l := List.filter _ _). assert (length (sort l) = length l) as Hl by apply Permutation_length, merge_sort_Permutation.
  assert (imap (class_entries prefix) (prod_map id images_of <$> sort l) =
          imap (fun class_idx '(nm, d) => (fun img => (prefix ++ [nm; img], as_unsigned 32 (Z.of_nat class_idx))) <$> images_of d) (sort l)) as E.
  { rewrite imap_fmap. apply imap_ext. by intros ? []. }
  destruct l as [|p l]; [done|]. rewrite <- E. destruct (sort (p :: l)) eqn:Es; [done|]. cbn. by rewrite length_fmap.
Qed.

Lemma scan_same prefix t1 t2 : distinct_names t1 -> same_tree t1 t2 -> scan_split_dir prefix t1 = scan_split_dir prefix t2.
Proof.
  intros Hd Hs. rewrite !scan_reads_classes, (same_is_file _ _ Hs).
  assert (classes t1 = classes t2) as ->; [|done]. apply sorted_view; [done..| |].
  - intros nm a b _ Hab. destruct Hab; done.
  - intros nm a b _. apply images_same.
Qed.

Lemma join_same nm t1 t2 :
  distinct_names t1 -> same_tree t1 t2 ->
  option_Forall2 (fun a b => distinct_names a /\ same_tree a b) (join t1 nm) (join t2 nm).
Proof.
  intros Hd Hs. destruct Hs as [c|l1 l l2 Hp Hl]; [constructor|]. inversion_clear Hd as [|? Hnd Hch].
  unfold join. cbn [children].
  rewrite (list_to_map_proper l1 l Hnd Hp). rewrite Hp in Hch. clear -Hl Hch.
  induction Hl as [|[k a] [k' b] l l2 [E Hab] _ IH]; [constructor|]. cbn in E, Hab. subst k'.
  apply Forall_cons in Hch as [Ha Hch]. cbn. destruct (decide (k = nm)) as [->|Hne].
  - rewrite !lookup_insert_eq. by constructor.
  - rewrite !lookup_insert_ne by done. by apply IH.
Qed.

Lemma open_same root1 root2 c :
  distinct_names root1 -> same_tree root1 root2 -> open (Some root1) c = open (Some root2) c.
Proof.
  intros Hd Hs. unfold open. destruct (validate c); [cbn [rbind]|done].
  pose proof (join_same (unicode.of_string "train") _ _ Hd Hs) as Hj.
  destruct (join root1 _) as [s1|], (join root2 _) as [s2|]; inversion Hj as [? ? [Hda Hab]|]; subst;
    [destruct Hab as [content|l1 l l2 Hp Hl]|]; cbn [fst snd].
  - by rewrite (scan_same [] root1 root2).
  - by rewrite (scan_same _ (Dir l1) (Dir l2)) by (done || by econstructor).
  - by rewrite (scan_same [] root1 root2).
Qed.

Lemma open_shard root c d id n :
  shard_id c = None -> open (Some root) c = Ok d -> (id < n)%nat ->
  open (Some root) (with_shard id n c) =
    Ok (MkImageNet (with_shard id n c) (shard (with_shard id n c) (entries d)) (num_classes d)).
Proof.
  intros Hc Ho Hid. unfold open in *.
  assert (validate (with_shard id n c) = Ok tt) as ->.
  { revert Ho. unfold validate, with_shard. cbn. repeat case_match; try done.
    all: match goal with H : (_ =? 0)%nat = true |- _ => apply Nat.eqb_eq in H; lia
                       | H : (_ <=? _)%nat = true |- _ => apply Nat.leb_le in H; lia | _ => done end. }
  destruct (validate c); [cbn [rbind] in *|done].
  destruct (scan_split_dir _ _) as [[es k]|e]; [cbn [rbind fst snd] in *|done].
  destruct es as [|e es]; [done|]. injection Ho as <-. cbn [entries num_classes].
  assert (shard c (e :: es) = e :: es) as -> by (unfold shard; by rewrite Hc). done.
Qed.

(** C30: training processes on different hosts get disjoint shards of ImageNet that together are
    the whole data set, with the same class numbers, even if every host lists its copy of the
    directories in another order. *)
Theorem imagenet_shards_partition (n : nat) (c : DatasetConfig) (t : node) (hosts : nat -> node) (d : ImageNetDataset) :
  (0 < n)%nat -> shard_id c = None -> distinct_names t -> (forall id, (id < n)%nat -> same_tree t (hosts id)) ->
  open (Some t) c = Ok d ->
  exists ds, length ds = n /\ (ds ≫= entries) ≡ₚ entries d /\
    forall id, (id < n)%nat -> exists d', ds !! id = Some d' /\ open (Some (hosts id)) (with_shard id n c) = Ok d' /\
                              num_classes d' = num_classes d.
Proof.
  intros Hn Hc Hd Hh Ho.
  exists ((fun id => MkImageNet (with_shard id n c) (shard (with_shard id n c) (entries d)) (num_classes d)) <$> seq 0 n).
  split; [by rewrite length_fmap, length_seq|]. split.
  - rewrite list_fmap_bind. apply (shards_partition c n (entries d) Hn).
  - intros id Hid. eexists. rewrite list_lookup_fmap, lookup_seq_lt by done. split; [done|]. cbn [Nat.add]. split; [|done].
    rewrite <- (open_same t (hosts id) _ Hd (Hh id Hid)). by apply open_shard.
Qed.
End image_index.

(** ** CSV features *)
Section csv_features.
Import error config unicode features.
Context `{DF : DataF32}.

Lemma acc_rows_total op (n : nat) data acc :
  length acc = n -> Forall (fun row => length row = n) data ->
  exists r, acc_rows op acc data = Some r /\ length r = n.
Proof.
  revert acc. induction data as [|row data IH]; intros acc Ha Hd; [by exists acc|].
  apply Forall_cons in Hd as [Hr Hd]. cbn [acc_rows]. unfold acc_row.
  rewrite (proj2 (Nat.ltb_ge _ _)) by lia. cbn [mbind option_bind]. apply IH; [|done].
  rewrite length_app, length_zip_with, length_drop. lia.
Qed.

Lemma std_rows_total mean (n : nat) data acc :
  length mean = n -> length acc = n -> Forall (fun row => length row = n) data ->
  exists r, std_rows mean acc data = Some r /\ length r = n.
Proof.
  intros Hm. revert acc. induction data as [|row data IH]; intros acc Ha Hd; [by exists acc|].
  apply Forall_cons in Hd as [Hr Hd]. cbn [std_rows]. unfold std_row.
  rewrite (proj2 (Nat.ltb_ge _ _)) by lia. cbn [mbind option_bind]. apply IH; [|done].
  rewrite length_app, length_zip_with, length_zip_with, length_drop. lia.
Qed.

(** All statistics have one value per feature. *)
Definition stats_width (n : nat) (st : FeatureStats) : Prop :=
  length (mean st) = n /\ length (std st) = n /\ length (min st) = n /\ length (max st) = n.

Lemma from_data_total (n : nat) data :
  data <> [] -> Forall (fun row => length row = n) data ->
  exists st, from_data data = Some (Ok st) /\ stats_width n st.
Proof.
  intros Hne Hd. destruct data as [|row0 data]; [done|]. unfold from_data.
  assert (length row0 = n) as -> by (by apply Forall_cons in Hd as [? _]).
  set (rows := row0 :: data) in *.
  destruct (acc_rows_total f_add n rows (replicate n (f_lit 0))) as (m & -> & Hm); [by rewrite length_replicate|done|].
  destruct (acc_rows_total f_min n rows (replicate n f_infinity)) as (lo & -> & Hlo); [by rewrite length_replicate|done|].
  destruct (acc_rows_total f_max n rows (replicate n f_neg_infinity)) as (hi & -> & Hhi); [by rewrite length_replicate|done|].
  cbn [mbind option_bind].
  destruct (std_rows_total ((fun m => f_div m (f_of_Z (Z.of_nat (length rows)))) <$> m) n rows (replicate n (f_lit 0)))
    as (sd & -> & Hsd); [by rewrite length_fmap|by rewrite length_replicate|done|].
  cbn [mbind option_bind]. eexists. split; [done|]. unfold stats_width. cbn. by rewrite !length_fmap.
Qed.

Lemma length_normalize m (n : nat) st row : stats_width n st -> length row = n -> length (normalize m st row) = n.
Proof.
  intros (Hm & Hs & Hlo & Hhi) Hr.
  destruct m; cbn; [done|unfold normalize_zscore|unfold normalize_minmax]; rewrite !length_zip_with; lia.
Qed.

(** What a row of the file says: the parsed values but the label column, and the label; 0
    when the label column does not exist. *)
Definition row_says (label_idx : nat) (line : list Z) (e : list f32 * Z) : Prop :=
  mapM (fun v => f_parse (trim v)) (base.delete label_idx (split_comma line)) = Some e.1 /\
  match split_comma line !! label_idx with
  | Some v => parse_unsigned u32_max (trim v) = Some e.2
  | None => e.2 = 0
  end.

Lemma parse_row_after label_idx line_idx col values fs label r :
  (label_idx < col)%nat -> parse_row label_idx line_idx col values fs label = Ok r ->
  exists xs, mapM (fun v => f_parse (trim v)) values = Some xs /\ r = (fs ++ xs, label).
Proof.
  revert col fs. induction values as [|v values IH]; intros col fs Hc; cbn [parse_row].
  - intros [= <-]. exists []. by rewrite app_nil_r.
  - rewrite (proj2 (Nat.eqb_neq _ _)) by lia. destruct (f_parse (trim v)) as [x|] eqn:Ex; [|done].
    intros (xs & Hxs & ->)%(IH (S col)); [|lia]. exists (x :: xs). cbn. rewrite Ex, Hxs. by rewrite <- app_assoc.
Qed.

Lemma parse_row_spec label_idx line_idx col values fs label r :
  (col <= label_idx)%nat -> parse_row label_idx line_idx col values fs label = Ok r ->
  exists xs, mapM (fun v => f_parse (trim v)) (base.delete (label_idx - col)%nat values) = Some xs /\ r.1 = fs ++ xs /\
    match values !! (label_idx - col)%nat with
    | Some v => parse_unsigned u32_max (trim v) = Some r.2
    | None => r.2 = label
    end.
Proof.
  revert col fs label. induction values as [|v values IH]; intros col fs label Hc; cbn [parse_row].
  - intros [= <-]. exists []. rewrite app_nil_r. by destruct (label_idx - col)%nat.
  - destruct (Nat.eqb_spec col label_idx) as [->|Hne].
    + rewrite Nat.sub_diag. cbn. destruct (parse_unsigned u32_max (trim v)) as [lab|]; [|done].
      intros (xs & Hxs & ->)%parse_row_after; [|lia]. by exists xs.
    + destruct (f_parse (trim v)) as [x|] eqn:Ex; [|done].
      intros (xs & Hxs & Hr & Hl)%(IH (S col)); [|lia]. exists (x :: xs).
      replace (label_idx - col)%nat with (S (label_idx - S col)) by lia.
      change (base.delete (S (label_idx - S col)) (v :: values)) with (v :: base.delete (label_idx - S col)%nat values).
      cbn -[base.delete]. rewrite Ex. cbn [mbind option_bind]. rewrite Hxs, Hr, <- app_assoc. done.
Qed.

Lemma parse_rows_spec num_cols label_idx line_idx l es :
  parse_rows num_cols label_idx line_idx l = Ok es ->
  Forall2 (row_says label_idx) (List.filter (fun line => (length (split_comma line) =? num_cols)%nat) l) es.
Proof.
  revert line_idx es. induction l as [|line l IH]; intros line_idx es; cbn [parse_rows List.filter]; [intros [= <-]; constructor|].
  destruct (_ =? _)%nat; [|by apply IH]. intros (e & He & (rest & Hrest & [= <-])%rbind_ok)%rbind_ok.
  constructor; [|by eapply IH]. apply parse_row_spec in He as (xs & Hxs & He & Hl); [|lia].
  rewrite Nat.sub_0_r in *. cbn in He. subst xs. by split.
Qed.

(** Features a row of [num_cols] columns has. *)
Definition row_width (num_cols label_idx : nat) : nat := if (label_idx <? num_cols)%nat then (num_cols - 1)%nat else num_cols.

Lemma row_says_width num_cols label_idx line e :
  length (split_comma line) = num_cols -> row_says label_idx line e -> length e.1 = row_width num_cols label_idx.
Proof.
  intros Hl [Hm _]. apply length_mapM in Hm. rewrite <- Hm, delete_take_drop, length_app, length_take, length_drop.
  unfold row_width. destruct (Nat.ltb_spec label_idx num_cols); lia.
Qed.

Lemma parse_row_ok_after label_idx line_idx col values fs label xs :
  (label_idx < col)%nat -> mapM (fun v => f_parse (trim v)) values = Some xs ->
  parse_row label_idx line_idx col values fs label = Ok (fs ++ xs, label).
Proof.
  revert col fs xs. induction values as [|v values IH]; intros col fs xs Hc; cbn [parse_row].
  - intros [= <-]. by rewrite app_nil_r.
  - rewrite (proj2 (Nat.eqb_neq _ _)) by lia. cbn. destruct (f_parse (trim v)) as [x|]; [|done]. cbn.
    destruct (mapM _ values) as [ys|] eqn:E; [|done]. intros [= <-]. rewrite (IH (S col) _ ys); [|lia|done]. by rewrite <- app_assoc.
Qed.

Lemma parse_row_ok label_idx line_idx col values fs label xs lab :
  (col <= label_idx)%nat -> mapM (fun v => f_parse (trim v)) (base.delete (label_idx - col)%nat values) = Some xs ->
  (forall v, values !! (label_idx - col)%nat = Some v -> parse_unsigned u32_max (trim v) = Some lab) ->
  exists r, parse_row label_idx line_idx col values fs label = Ok r.
Proof.
  revert col fs xs. induction values as [|v values IH]; intros col fs xs Hc Hm Hl; cbn [parse_row]; [by eexists|].
  destruct (Nat.eqb_spec col label_idx) as [->|Hne].
  - rewrite Nat.sub_diag in *. rewrite (Hl v eq_refl). eexists. by apply parse_row_ok_after; [lia|].
  - replace (label_idx - col)%nat with (S (label_idx - S col)) in * by lia.
    change (base.delete (S (label_idx - S col)) (v :: values)) with (v :: base.delete (label_idx - S col)%nat values) in Hm.
    cbn -[base.delete] in Hm. destruct (f_parse (trim v)) as [x|]; [|done]. cbn [mbind option_bind] in Hm.
    destruct (mapM _ _) as [ys|] eqn:E; [|done]. by apply (IH (S col) _ ys); [lia|..].
Qed.

Lemma parse_rows_ok num_cols label_idx line_idx l :
  Forall (fun line => exists e, row_says label_idx line e) (List.filter (fun line => (length (split_comma line) =? num_cols)%nat) l) ->
  exists r, parse_rows num_cols label_idx line_idx l = Ok r.
Proof.
  revert line_idx. induction l as [|line l IH]; intros line_idx; cbn [parse_rows List.filter]; [by eexists|].
  destruct (_ =? _)%nat; [|apply IH]. intros [[e [Hm Hl]] [rest Hr]%(IH (S line_idx))]%Forall_cons.
  destruct (parse_row_ok label_idx line_idx 0 (split_comma line) [] 0 e.1 e.2) as [r Er]; [lia|by rewrite Nat.sub_0_r| |].
  - rewrite Nat.sub_0_r. intros v Hv. by rewrite Hv in Hl.
  - rewrite Er. cbn [rbind]. rewrite Hr. by eexists.
Qed.

(** The statistics a normalization needs, and the row it makes of a row. *)
Definition stats_for (m : NormalizationMethod) (rows : list (list f32)) (so : option FeatureStats) : Prop :=
  match m with
  | NormNone => so = None
  | _ => exists st, so = Some st /\ from_data rows = Some (Ok st)
  end.
Definition normalized (m : NormalizationMethod) (so : option FeatureStats) (e : list f32 * Z) : list f32 * Z :=
  (match so with Some st => normalize m st e.1 | None => e.1 end, e.2).

Lemma stats_total m rows (n : nat) :
  rows <> [] -> Forall (fun row => length row = n) rows ->
  exists so, (match m with
              | NormNone => Some (Ok None)
              | _ => r ← from_data rows; Some (let? st := r in Ok (Some st))
              end) = Some (Ok so) /\ stats_for m rows so /\
    forall e, length e.1 = n -> length (normalized m so e).1 = n.
Proof.
  intros Hne Hw. destruct (from_data_total n rows Hne Hw) as (st & E & Hst).
  destruct m; [by exists None|exists (Some st); rewrite E..].
  all: split; [done|split; [by exists st|]]; intros e He; by apply length_normalize.
Qed.

Lemma length_floats_to_bytes `{!DataF32Laws} l : length (floats_to_bytes l) = (4 * length l)%nat.
Proof.
  unfold floats_to_bytes. induction l as [|x l IH]; [done|]. cbn. rewrite length_app, IH.
  pose proof (f_to_le_bytes_spec x) as [-> _]. lia.
Qed.

(** The lines that have as many columns as the header, and the column of the label. *)
Definition kept_lines (header : list Z) (rest : list (list Z)) : list (list Z) :=
  List.filter (fun line => (length (split_comma line) =? length (split_comma header))%nat) rest.
Definition label_column (header : list Z) (label_col : option nat) : nat :=
  default (length (split_comma header) - 1)%nat label_col.

(** The configuration is valid, and the file exists, is text, has a header of two columns or
    more and at least one row with its columns, and every such row parses. *)
Definition loadable (c : DatasetConfig) (file : option fs.node) (label_col : option nat) (header : list Z) (rest : list (list Z)) : Prop :=
  validate c = Ok tt /\ (exists content, file ≫= fs.read_to_string = Some content /\ lines [] content = header :: rest) /\
  (2 <= length (split_comma header))%nat /\ kept_lines header rest <> [] /\
  Forall (fun line => exists e, row_says (label_column header label_col) line e) (kept_lines header rest).

(** The rest of the function after the header. *)
Lemma rows_loaded `{!DataF32Laws} (path content header : list Z) (rest : list (list Z)) (file : option fs.node) (label_col : option nat)
    (m : NormalizationMethod) (c : DatasetConfig) :
  validate c = Ok tt -> file ≫= fs.read_to_string = Some content -> lines [] content = header :: rest ->
  (2 <= length (split_comma header))%nat ->
  let num_cols := length (split_comma header) in
  let label_idx := label_column header label_col in
  match from_csv_with_options path file label_col m c with
  | None => False
  | Some (Err _) => kept_lines header rest = [] \/
      ~ Forall (fun line => exists e, row_says label_idx line e) (kept_lines header rest)
  | Some (Ok d) =>
      (exists rows, kept_lines header rest <> [] /\ Forall2 (row_says label_idx) (kept_lines header rest) rows /\
         stats_for m rows.*1 (stats d) /\ entries d = shard c (normalized m (stats d) <$> rows)) /\
      Forall (fun e => length e.1 = row_width num_cols label_idx) (entries d) /\
      forall idx s, get d idx = Ok s -> length (types.data s) = (4 * row_width num_cols label_idx)%nat
  end.
Proof.
  intros Hc Hb Hl Hn num_cols label_idx. set (kept := kept_lines header rest).
  unfold from_csv_with_options. rewrite Hc, Hb, Hl. fold num_cols.
  rewrite (proj2 (Nat.ltb_ge _ _)) by done. change (default (num_cols - 1)%nat label_col) with label_idx.
  destruct (parse_rows num_cols label_idx 0 rest) as [rows|e] eqn:Er.
  - pose proof (parse_rows_spec _ _ _ _ _ Er) as Hrows. 
    change (List.filter (fun line => (length (split_comma line) =? num_cols)%nat) rest) with kept in Hrows.
    destruct rows as [|row rows]; [left; by inversion Hrows|]. set (all := row :: rows) in *.
    assert (Forall (fun e => length e.1 = row_width num_cols label_idx) all) as Hw.
    { apply Forall_forall. intros e [i He]%list_elem_of_lookup.
      destruct (Forall2_lookup_r _ _ _ _ _ Hrows He) as (line & Hline & Hsays). apply (row_says_width _ _ line); [|done].
      apply list_elem_of_lookup_2, list_elem_of_In, filter_In, proj2 in Hline. by apply Nat.eqb_eq. }
    destruct (stats_total m all.*1 (row_width num_cols label_idx)) as (so & -> & Hso & Hlen); [done|by rewrite Forall_fmap|].
    cbn [mbind option_bind rbind stats entries].
    assert (match so with
            | Some st => (fun '(features, label) => (normalize m st features, label)) <$> all
            | None => all
            end = normalized m so <$> all) as ->.
    { destruct so; [by apply list_fmap_ext; intros ? []|]. rewrite <- (list_fmap_id all) at 1. by apply list_fmap_ext; intros ? []. }
    assert (Forall (fun e => length e.1 = row_width num_cols label_idx) (shard c (normalized m so <$> all))) as Hsh.
    { apply Forall_forall. intros e (e0 & -> & He0)%shard_subset%list_elem_of_fmap. apply Hlen. rewrite Forall_forall in Hw. by apply Hw. }
    split_and!; [|done|].
    + exists all. split_and!; try done. intros E. rewrite E in Hrows. inversion Hrows.
    + intros idx s. unfold get. cbn [entries]. destruct (shard _ _ !! idx) as [[fs label]|] eqn:E; [|done]. intros [= <-]. cbn.
      rewrite length_floats_to_bytes. rewrite Forall_forall in Hsh.
      pose proof (Hsh _ (list_elem_of_lookup_2 _ _ _ E)) as Hf. cbn in Hf. by rewrite Hf.
  - right. intros [r Hr]%(parse_rows_ok num_cols label_idx 0). congruence.
Qed.

(** C31: loading a CSV file of features never panics, and fails exactly when the configuration
    is not valid, the file is missing or not text, it has no header or one of fewer than two
    columns, no line has as many columns as the header, or a line that has them does not
    parse.  Otherwise the entries are the parsed rows of the shard, normalised or not, every
    entry has the same number of features, and every sample four bytes for each. *)
Theorem feature_csv_loaded `{!DataF32Laws} (path : list Z) (file : option fs.node) (label_col : option nat)
    (m : NormalizationMethod) (c : DatasetConfig) :
  match from_csv_with_options path file label_col m c with
  | None => False
  | Some (Err _) => forall header rest, ~ loadable c file label_col header rest
  | Some (Ok d) =>
      exists header rest, loadable c file label_col header rest /\
      let width := row_width (length (split_comma header)) (label_column header label_col) in
      (exists rows, Forall2 (row_says (label_column header label_col)) (kept_lines header rest) rows /\
         stats_for m rows.*1 (stats d) /\ entries d = shard c (normalized m (stats d) <$> rows)) /\
      Forall (fun e => length e.1 = width) (entries d) /\
      forall idx s, get d idx = Ok s -> length (types.data s) = (4 * width)%nat
  end.
Proof.
  destruct (validate c) as [[]|e] eqn:Hc.
  2: { unfold from_csv_with_options. rewrite Hc. intros header rest (Hv & _). congruence. }
  destruct (file ≫= fs.read_to_string) as [content|] eqn:Hb.
  2: { unfold from_csv_with_options. rewrite Hc, Hb. intros header rest (_ & (content & Hr & _) & _). congruence. }
  destruct (lines [] content) as [|header rest] eqn:Hl.
  { unfold from_csv_with_options. rewrite Hc, Hb, Hl. intros header rest (_ & (content' & Hr & Hl') & _). congruence. }
  destruct (Nat.ltb_spec (length (split_comma header)) 2) as [Hn|Hn].
  { unfold from_csv_with_options. rewrite Hc, Hb, Hl, (proj2 (Nat.ltb_lt _ _)) by done.
    intros header' rest' (_ & (content' & Hr & Hl') & Hn' & _). replace header' with header in * by congruence. lia. }
  pose proof (rows_loaded path content header rest file label_col m c Hc Hb Hl Hn) as Hrun. cbv zeta in Hrun.
  destruct (from_csv_with_options _ _ _ _ _) as [[d|e]|]; [|intros header' rest' (_ & (content' & Hr & Hl') & _ & Hk & Hf)|done].
  - destruct Hrun as ((rows & Hk & Hrows & Hst & He) & Hw & Hg). exists header, rest. split; [|cbv zeta; split; [by exists rows|done]].
    repeat split; try done; [by eauto|]. clear -Hrows. induction Hrows; constructor; [by eexists|done].
  - replace header' with header in * by congruence. replace rest' with rest in * by congruence. by destruct Hrun.
Qed.
End csv_features.

(** ** Detection and audio samples *)
Section samples.
Import error types config unicode.
Context `{DF : DataF32, HI : ImageLib, HP : Display}.

Lemma digits_nonneg acc l v : 0 <= acc -> digits acc l = Some v -> 0 <= v.
Proof.
  revert acc. induction l as [|a l IH]; intros acc Ha; cbn; [by intros [= <-]|].
  destruct (Z.leb_spec 48 a); [|done]. destruct (a <=? 57); [cbn|done]. apply IH. lia.
Qed.

Lemma parse_unsigned_range mx l v : parse_unsigned mx l = Some v -> 0 <= v <= mx.
Proof.
  unfold parse_unsigned. destruct (match l with 43 :: t => t | _ => l end) as [|a t]; [done|].
  destruct (digits 0 (a :: t)) as [w|] eqn:E; [|done]. destruct (Z.leb_spec w mx); [|done]. intros [= <-].
  split; [by apply (digits_nonneg 0 (a :: t))|done].
Qed.

(** Boxes whose class is at most [mx]. *)
Definition boxes_below (mx : Z) (bs : list detection.BoundingBox) : Prop :=
  Forall (fun b => 0 <= detection.class_id b <= mx) bs.

Lemma boxes_below_mono mx mx' bs : mx <= mx' -> boxes_below mx bs -> boxes_below mx' bs.
Proof. intros Hle Hb. eapply Forall_impl; [exact Hb|]. cbn. lia. Qed.

Lemma parse_labels_max label_path l mx r :
  0 <= mx <= u32_max -> detection.parse_labels label_path l mx = Ok r -> mx <= r.2 <= u32_max /\ boxes_below r.2 r.1.
Proof.
  revert mx r. induction l as [|line l IH]; intros mx r Hmx; cbn [detection.parse_labels].
  { intros [= <-]. split; [cbn; lia|constructor]. }
  destruct (detection.split_whitespace line) as [|p0 [|p1 [|p2 [|p3 [|p4 [|]]]]]]; try by apply IH.
  destruct (parse_unsigned u32_max p0) as [id|] eqn:Eid; [|done].
  apply parse_unsigned_range in Eid.
  intros (x & _ & (y & _ & (w & _ & (h & _ & (r' & Hr' & [= <-])%rbind_ok)%rbind_ok)%rbind_ok)%rbind_ok)%rbind_ok.
  apply IH in Hr' as [Hm Hb]; [|lia]. cbn. split; [lia|]. constructor; [cbn; lia|done].
Qed.

Definition annotations_below (mx : Z) (anns : list detection.ImageAnnotation) : Prop :=
  Forall (fun a => detection.bboxes a <> [] /\ boxes_below mx (detection.bboxes a)) anns.

Lemma scan_images_max labels_dir images acc mx r :
  0 <= mx <= u32_max -> annotations_below mx acc -> detection.scan_images labels_dir images acc mx = Ok r ->
  0 <= r.2 <= u32_max /\ annotations_below r.2 r.1.
Proof.
  revert acc mx. induction images as [|[nm entry] images IH]; intros acc mx Hmx Ha; cbn [detection.scan_images].
  { intros [= <-]. by split. }
  destruct (negb _); [by apply IH|]. destruct (utf8.from_utf8 _); [|by apply IH].
  destruct (fs.join _ _) as [label_file|]; [|by apply IH]. destruct (fs.read_to_string label_file); [|done].
  intros (rl & Hl & Hr)%rbind_ok. apply parse_labels_max in Hl as [Hm Hb]; [|done].
  apply IH in Hr; [done|lia|].
  assert (annotations_below rl.2 acc) as Ha'.
  { eapply Forall_impl; [exact Ha|]. intros a [? Hba]. split; [done|]. eapply boxes_below_mono; [|exact Hba]. lia. }
  destruct rl as [[|b bs] mx']; [done|]. apply Forall_app. split; [done|]. apply Forall_singleton. by split.
Qed.

(** a data set in YOLO format has only annotated images, and unless some class is the greatest
    32-bit number every box, and the label of every sample, is a class below the number of
    classes.  A sample is 640x640 RGB bytes. *)
Theorem yolo_dataset_wf `{!ImageLaws} (root : option fs.node) (c : DatasetConfig) (d : detection.DetectionDataset)
    (reader : FileReader) :
  detection.from_yolo_directory root c = Ok d -> detection.num_classes d <> 0 ->
  Forall (fun a => detection.bboxes a <> [] /\
                   Forall (fun b => 0 <= detection.class_id b < detection.num_classes d) (detection.bboxes a)) (detection.annotations d) /\
  forall idx s, detection.get reader d idx = Ok s ->
    0 <= label s < detection.num_classes d /\ Z.of_nat (length (data s)) = 640 * 640 * 3 /\ Forall is_byte (data s).
Proof.
  intros Hd Hn.
  assert (annotations_below (detection.num_classes d - 1) (detection.annotations d)) as Ha.
  { unfold detection.from_yolo_directory in Hd. apply rbind_ok in Hd as (_ & _ & Hd).
    destruct root as [root|]; [|done]. destruct (fs.join root _) as [images_dir|]; [|done]. destruct (fs.join root _) as [labels_dir|]; [|done].
    destruct (fs.is_file images_dir); [done|]. apply rbind_ok in Hd as ([anns mx] & Hr & Hd).
    apply scan_images_max in Hr as [Hm Hb]; [|by vm_compute|constructor]. cbn [fst snd] in *.
    assert (detection.annotations d = shard c anns /\ detection.num_classes d = as_unsigned 32 (mx + 1)) as [-> En]
      by (destruct anns; [done|]; by injection Hd as <-).
    rewrite En in *.
    apply Forall_forall. intros a Ha%shard_subset. unfold annotations_below in Hb. rewrite Forall_forall in Hb.
    destruct (Hb a Ha) as [Hne Hbs]. split; [done|]. revert Hn. unfold as_unsigned, u32_max in *. intros Hn.
    destruct (decide (mx = 2 ^ 32 - 1)) as [->|]; [done|]. rewrite Z.mod_small by lia.
    by replace (mx + 1 - 1) with mx by lia. }
  split.
  - eapply Forall_impl; [exact Ha|]. intros a [Hne Hb]. split; [done|]. eapply Forall_impl; [exact Hb|]. cbn. lia.
  - intros idx s. unfold detection.get. destruct (detection.annotations d !! idx) as [a|] eqn:Ea; [|done].
    destruct (reader _) as [bytes|]; [|done]. destruct (load_rgb8 _ _) as [pixels|] eqn:El; [|done].
    intros [= <-]. cbn [label data]. apply load_rgb8_spec in El as [Hlen Hby].
    unfold annotations_below in Ha. rewrite Forall_forall in Ha. destruct (Ha a (list_elem_of_lookup_2 _ _ _ Ea)) as [Hne Hb].
    destruct (detection.bboxes a) as [|b bs]; [done|]. inversion_clear Hb as [|? ? Hb0 _].
    assert (default 0 (detection.class_id <$> head (b :: bs)) = detection.class_id b) as -> by done.
    split_and!; [lia..| |done]. by rewrite Hlen, !Nat2Z.inj_mul.
Qed.

Lemma pad_spec n l :
  audio.pad_or_truncate n l = (fun i => default (f_lit 0) (l !! i)) <$> seq 0 n.
Proof.
  unfold audio.pad_or_truncate. apply list_eq. intros i. rewrite list_lookup_fmap.
  destruct (decide (i < n)%nat).
  - rewrite lookup_seq_lt by done. cbn. destruct (l !! i) as [v|] eqn:E; cbn.
    + pose proof (lookup_lt_Some _ _ _ E). rewrite lookup_app_l by (rewrite length_take; lia). by rewrite lookup_take_lt by lia.
    + apply lookup_ge_None in E. rewrite lookup_app_r by (rewrite length_take; lia).
      rewrite lookup_replicate_2; [done|]. rewrite length_take. lia.
  - rewrite lookup_seq_ge by lia. apply lookup_ge_None. rewrite length_app, length_take, length_replicate. lia.
Qed.

Lemma length_floats `{!DataF32Laws} l : length (audio.floats_to_bytes l) = (4 * length l)%nat.
Proof. apply length_floats_to_bytes. Qed.

(** the clip of an audio sample has exactly the configured number of samples, whatever the
    file: the resampled ones, cut off or followed by zeros; loading panics only for a file of
    no channels. *)
Theorem audio_sample_length `{HW : !WavLib, HL : !DataF32Laws} (d : audio.AudioDataset) (idx : nat) :
  match audio.get d idx with
  | None => exists path lab w, audio.entries d !! idx = Some (path, lab) /\ wav_open path = inl w /\ wav_channels w = 0%nat
  | Some (Err e) => audio.entries d !! idx = None \/ exists reason, e = CorruptedSample 0 reason
  | Some (Ok s) =>
      exists path w mono,
        audio.entries d !! idx = Some (path, label s) /\ wav_open path = inl w /\
        audio.to_mono (wav_channels w) (audio.samples_of w) = Some mono /\
        data s = ((fun i => default (f_lit 0) (audio.resample (wav_sample_rate w) (audio.target_sample_rate d) mono !! i)) <$>
                    seq 0 (audio.num_samples d)) ≫= f_to_le_bytes /\
        length (data s) = (4 * audio.num_samples d)%nat
  end.
Proof.
  unfold audio.get. destruct (audio.entries d !! idx) as [[path lab]|] eqn:Ee; [|by left].
  unfold audio.load_and_preprocess. destruct (wav_open path) as [w|e] eqn:Ew; [|right; by eexists].
  destruct (audio.to_mono _ _) as [mono|] eqn:Em; cbn [mbind option_bind rbind label data].
  - exists path, w, mono. rewrite <- pad_spec. split_and!; try done.
    rewrite length_floats. unfold audio.pad_or_truncate. rewrite length_app, length_take, length_replicate. lia.
  - exists path, lab, w. split_and!; [done..|]. revert Em. unfold audio.to_mono.
    destruct (_ =? 1)%nat; [done|]. by destruct (Nat.eqb_spec (wav_channels w) 0).
Qed.
End samples.

(** ** From an image to a tensor *)
Section tensor.
Import error types config unicode transform normalize.
Context `{DF : DataF32, HL : !DataF32Laws}.

(** the two transforms of an image of the right size, one after the other, succeed and put the
    normalised value of every channel of every pixel at its planar position; the label stays. *)
Theorem image_to_tensor (h w : nat) (s : Sample) :
  length (data s) = (h * w * 3)%nat ->
  exists s', apply_chain [normalize_imagenet; to_channel_first (MkToChannelFirst h w 3)] s = Ok s' /\
    label s' = label s /\ length (data s') = (4 * length (data s))%nat /\
    forall row col chan byte, (row < h -> col < w -> chan < 3 ->
      data s !! (row * w * 3 + col * 3 + chan) = Some byte ->
      take 4 (drop ((chan * h * w + row * w + col) * 4) (data s')) = f_to_le_bytes (norm chan byte))%nat.
Proof.
  intros Hlen. cbn [apply_chain]. unfold normalize_imagenet at 1. rewrite Hlen, Nat.Div0.mod_mul. cbn [Nat.eqb negb rbind].
  set (floats := imap _ (data s)). assert (Forall (fun y => length y = 4%nat) floats) as H4.
  { apply Forall_forall. intros y (i & b & -> & _)%elem_of_lookup_imap. apply f_to_le_bytes_spec. }
  assert (length floats = (h * w * 3)%nat) as Hl by (unfold floats; by rewrite length_imap).
  destruct (channel_first_moves_floats (MkToChannelFirst h w 3) (set_data (concat floats) s)) as [_ H].
  destruct H as (s' & -> & Hl' & Hlab & Hmv); [cbn; rewrite length_concat_chunks by done; lia|].
  cbn [rbind]. exists s'. split_and!; [done|exact Hlab| |].
  - rewrite Hl'. cbn [set_data data]. rewrite length_concat_chunks by done. lia.
  - intros row col chan byte Hr Hc Hch Hb. cbn [height width channels set_data data] in Hmv. rewrite (Hmv row col chan Hr Hc Hch).
    assert ((row * w * 3 + col * 3 + chan) mod 3 = chan)%nat as E.
    { replace (row * w * 3 + col * 3 + chan)%nat with (chan + (row * w + col) * 3)%nat by lia.
      rewrite Nat.Div0.mod_add. by apply Nat.mod_small. }
    apply concat_chunk; [done|]. unfold floats. rewrite list_lookup_imap, Hb. cbn [fmap option_fmap option_map]. by rewrite E.
Qed.
End tensor.

(** ** Concrete inputs *)
Module datasets_examples.
Import fs config unicode.

(** Whole numbers for floats. *)
#[global] Instance whole_f32 : DataF32 := {|
  f32 := Z; f_lit q := Qnum q / Zpos (Qden q); f_of_Z n := n; f_infinity := 1000; f_neg_infinity := -1000;
  f_add := Z.add; f_sub := Z.sub; f_mul := Z.mul; f_div := Z.div; f_sum := foldr Z.add 0; f_sqrt := Z.sqrt;
  f_min := Z.min; f_max := Z.max; f_ltb := Z.ltb; f_as_u32 x := Z.max 0 (Z.min x u32_max);
  f_as_usize := Z.to_nat; f_parse := parse_unsigned u32_max; f_to_le_bytes x := rev (to_be_bytes 4 x) |}.
#[global] Instance whole_f32_laws : DataF32Laws.
Proof.
  constructor; intros x; [cbn; unfold u32_max; lia|].
  change (length (rev (to_be_bytes 4 x)) = 4%nat /\ Forall is_byte (rev (to_be_bytes 4 x))). split.
  - by rewrite length_rev, length_to_be_bytes.
  - apply List.Forall_rev, to_be_bytes_range.
Qed.

(** A picture of one grey value. *)
#[global] Instance grey : ImageLib := {| load_rgb8 size bytes := match bytes with
  | [v] => inl (repeat (v mod 256) (size * size * 3)) | _ => inr (of_string "format") end |}.
#[global] Instance grey_laws : ImageLaws.
Proof.
  constructor. cbn. intros size [|v []] data [= <-]. split; [apply repeat_length|].
  apply Forall_forall. intros b Hb%list_elem_of_In%repeat_spec. subst b. unfold is_byte. pose proof (Z.mod_pos_bound v 256). lia.
Qed.
#[global] Instance slashes : Display := {| display p := concat ((fun nm => 47 :: nm) <$> p) |}.

Definition s (x : string) : list Z := of_string x.
Definition two_classes : node :=
  Dir [(s "README", File []); (s "n01", Dir [(s "a.png", File [1]); (s "b.JPEG", File [2])]); (s "n02", Dir [(s "c.jpg", File [3])])].
(** The same tree as another host may list it. *)
Definition other_order : node :=
  Dir [(s "n02", Dir [(s "c.jpg", File [3])]); (s "n01", Dir [(s "b.JPEG", File [2]); (s "a.png", File [1])]); (s "README", File [])].
Definition host (id : nat) : node := match id with O => two_classes | _ => other_order end.

Ltac distinct_tree :=
  repeat first
    [ apply distinct_file
    | apply distinct_dir; [apply (bool_decide_unpack _); vm_compute; exact I|]
    | apply Forall_nil; exact I
    | apply Forall_cons; split; cbn [fst snd] ].
Lemma two_classes_distinct : distinct_names two_classes.
Proof. unfold two_classes. distinct_tree. Qed.

Lemma hosts_same id : same_tree two_classes (host id).
Proof.
  assert (forall t, same_tree t t) as Hrefl.
  { fix IH 1. intros [content|l]; [constructor|]. apply (same_dir _ l); [done|].
    induction l as [|[k x] l IHl]; constructor; [split; [done|apply IH]|exact IHl]. }
  destruct id; [apply Hrefl|]. cbn [host]. unfold two_classes, other_order.
  eapply same_dir.
  - etransitivity; [apply (Permutation_app_comm [(s "README", File [])])|]. cbn [app]. apply perm_swap.
  - repeat (apply Forall2_cons; split); [split; [done|]..|apply Forall2_nil; done]; try apply Hrefl.
    eapply same_dir; [apply perm_swap|]. repeat (apply Forall2_cons; split); [split; [done|apply Hrefl]..|apply Forall2_nil; done].
Qed.

Definition whole : imagenet.ImageNetDataset :=
  imagenet.MkImageNet default_ [([s "n01"; s "a.png"], 0); ([s "n01"; s "b.JPEG"], 0); ([s "n02"; s "c.jpg"], 1)] 2.

Lemma imagenet_shards_partition_witness :
  exists ds, length ds = 2%nat /\ (ds ≫= imagenet.entries) ≡ₚ imagenet.entries whole /\
    forall id, (id < 2)%nat -> exists d', ds !! id = Some d' /\
      imagenet.open (Some (host id)) (with_shard id 2 default_) = Ok d' /\ imagenet.num_classes d' = imagenet.num_classes whole.
Proof.
  apply (imagenet_shards_partition 2 default_ two_classes host whole).
  - lia.
  - reflexivity.
  - exact two_classes_distinct.
  - intros id _. exact (hosts_same id).
  - vm_refl.
Defined.

(** An audio data set is read in the order of the listing: two hosts that list the same two
    clips the other way round both get one of them in their shard, and neither the other. *)
Definition clips : node := Dir [(s "yes", Dir [(s "a.wav", File []); (s "b.wav", File [])])].
Definition clips_other_order : node := Dir [(s "yes", Dir [(s "b.wav", File []); (s "a.wav", File [])])].
Definition first_clip (c : DatasetConfig) : audio.AudioDataset := audio.MkAudio c [([s "yes"; s "a.wav"], 0)] 4 2 8.
Lemma audio_shards_overlap :
  same_tree clips clips_other_order /\
  audio.from_directory_with_options (Some clips) 4 2 (with_shard 0 2 default_) = Ok (first_clip (with_shard 0 2 default_)) /\
  audio.from_directory_with_options (Some clips_other_order) 4 2 (with_shard 1 2 default_) = Ok (first_clip (with_shard 1 2 default_)).
Proof.
  split; [|split; vm_refl].
  refine (same_dir _ _ _ (Permutation_refl _) _). apply Forall2_cons; split; [split; [reflexivity|]|by apply Forall2_nil].
  eapply same_dir; [apply perm_swap|].
  repeat (apply Forall2_cons; split); [split; [reflexivity|apply same_file]..|by apply Forall2_nil].
Qed.

Definition lf : list Z := [10].
Definition frauds : list Z := s "amount,hour,label" ++ lf ++ s "10,3,0" ++ lf ++ s "broken" ++ lf ++ s " 30 ,5,1" ++ lf.

Definition frauds_set : features.FeatureDataset :=
  features.MkDataset default_ [([0; 0], 0); ([1; 1], 1)] 2 (Some (features.MkStats [20; 4] [10; 1] [10; 3] [30; 5])) features.MinMax.
Lemma frauds_loaded :
  features.from_csv_with_options [] (Some (File frauds)) None features.MinMax default_ = Some (Ok frauds_set).
Proof. vm_refl. Qed.

Lemma feature_csv_loaded_witness :
  exists header rest, loadable default_ (Some (File frauds)) None header rest /\
    Forall (fun e => length e.1 = row_width (length (features.split_comma header)) (label_column header None)) (features.entries frauds_set).
Proof.
  pose proof (feature_csv_loaded [] (Some (File frauds)) None features.MinMax default_) as H.
  rewrite frauds_loaded in H. destruct H as (header & rest & Hl & _ & Hw & _). exists header, rest. exact (conj Hl Hw).
Defined.

(** A label column the file does not have: every column is a feature, every label is 0. *)
Lemma missing_label_column :
  features.from_csv_with_options [] (Some (File frauds)) (Some 7%nat) features.NormNone default_ =
    Some (Ok (features.MkDataset default_ [([10; 3; 0], 0); ([30; 5; 1], 0)] 2 None features.NormNone)).
Proof. vm_refl. Qed.

Definition yolo : node :=
  Dir [(s "images", Dir [(s "street.jpg", File [7]); (s "empty.png", File [8])]);
       (s "labels", Dir [(s "street.txt", File (s "2 5 5 1 1" ++ lf ++ s "0 4 4 2 2" ++ lf)); (s "empty.txt", File [])])].
Definition yolo_read : FileReader := fun p => if bool_decide (p = [s "images"; s "street.jpg"]) then inl [7] else inr [].
Definition yolo_set : detection.DetectionDataset :=
  detection.MkDetection default_
    [detection.MkAnnotation [s "images"; s "street.jpg"] [detection.MkBox 2 5 5 1 1 None; detection.MkBox 0 4 4 2 2 None]] 3 None.

Lemma yolo_dataset_wf_witness :
  Forall (fun a => detection.bboxes a <> [] /\ Forall (fun b => 0 <= detection.class_id b < 3) (detection.bboxes a)) (detection.annotations yolo_set) /\
  forall idx smp, detection.get yolo_read yolo_set idx = Ok smp ->
    0 <= types.label smp < 3 /\ Z.of_nat (length (types.data smp)) = 640 * 640 * 3 /\ Forall is_byte (types.data smp).
Proof.
  apply (yolo_dataset_wf (Some yolo) default_ yolo_set yolo_read).
  - vm_refl.
  - discriminate.
Defined.

(** The greatest class: the number of classes wraps to 0. *)
Lemma class_count_wraps :
  match detection.from_yolo_directory
          (Some (Dir [(s "images", Dir [(s "x.png", File [])]); (s "labels", Dir [(s "x.txt", File (s "4294967295 1 1 1 1"))])]))
          default_ with
  | Ok d => detection.num_classes d = 0
  | Err _ => False
  end.
Proof. vm_compute. reflexivity. Qed.

(** The identifiers of the words depend on the order of the listing as well: two hosts that
    list the same two documents the other way round encode the same text differently. *)
Definition documents : node := Dir [(s "news", Dir [(s "a.txt", File (s "rain")); (s "b.txt", File (s "snow"))])].
Definition documents_other_order : node := Dir [(s "news", Dir [(s "b.txt", File (s "snow")); (s "a.txt", File (s "rain"))])].
Definition rain_id (root : node) : option Z :=
  match text_directory.from_directory ascii_lower display (Some root) default_ with
  | Ok d => Some (text.get_id (s "rain") (text.vocab d))
  | Err _ => None
  end.
Lemma vocabulary_depends_on_listing : (rain_id documents, rain_id documents_other_order) = (Some 4, Some 5).
Proof. vm_refl. Qed.

(** A picture of two pixels. *)
Definition two_pixels : types.Sample := types.MkSample [255; 0; 0; 0; 255; 0] 1 types.NoMeta.
Lemma image_to_tensor_witness :
  exists s', transform.apply_chain [normalize.normalize_imagenet; transform.to_channel_first (transform.MkToChannelFirst 1 2 3)] two_pixels = Ok s' /\
    types.label s' = 1 /\ length (types.data s') = 24%nat.
Proof.
  destruct (image_to_tensor 1 2 two_pixels eq_refl) as (s' & H & Hl & Hn & _). exists s'. split_and!; [exact H|exact Hl|exact Hn].
Defined.
End datasets_examples.
