(* ===== verification/Loader.v ===== *)
(** The prefetch pipeline of core/dataloader/src/pipeline.rs: worker tasks that claim chunks of
    an index list from a shared cursor, decode them and send batches on a bounded channel, as
    a step relation over any number of workers and any consumer, and the checkpoints that
    resume an epoch.  The datasets of Dataloader.v are reached through the class [Dataset]. *)

From stdpp Require Import base numbers list relations.
From S2P Require Import Prelude Dataloader.

Module pipeline.
Import error types config.

Record CheckpointState : Type := MkCheckpoint { epoch : Z; sample_offset : nat; seed : Z }.

Record Batch : Type := MkBatch { samples : list Sample; batch_id : nat }.

(** What the worker sends, with the position of its chunk and the number it drew. *)
Record Message : Type := MkMessage { chunk : nat; number : nat; content : Result Batch Error }.

Inductive Pc :=
  | Claim
  | Decode (start : nat)
  | Number (start : nat) (decode_result : Result (list Sample) Error)
  | Send (m : Message)
  | Stopped.

Record State : Type := MkState {
  cursor : nat;
  batch_id_counter : nat;
  workers : list Pc;
  channel : list Message;
  open : bool;
  received : list Message;
}.

Section pipeline.
Context `{Dataset D, Shuffle}.
Variables (dataset : D) (config : DatasetConfig).

(** The index lists handed to [spawn_workers]. *)
Definition stream : list nat := seq 0 (ds_len dataset).
Definition stream_shuffled (seed : Z) : list nat := shuffled seed (ds_len dataset).
Definition stream_from_checkpoint (state : CheckpointState) : list nat :=
  let indices := shuffled (seed state) (ds_len dataset) in
  drop (Nat.min (sample_offset state) (length indices)) indices.

(** The loop in [spawn_blocking]; the first error ends it.  A panic of [get] is caught there and
    becomes an error of the whole chunk as well, so that a [ds_get] that panics is one that
    answers [Err]. *)
Fixpoint decode (batch_indices : list nat) : Result (list Sample) Error :=
  match batch_indices with
  | [] => Ok []
  | idx :: l => let? s := ds_get dataset idx in let? rest := decode l in Ok (s :: rest)
  end.

Section workers.
Variable indices : list nat.

Definition spawn_workers : State :=
  MkState 0 0 (replicate (num_workers config) Claim) [] true [].

Definition batch_indices (start : nat) : list nat :=
  let last := Nat.min (start + batch_size config) (length indices) in
  take (last - start) (drop start indices).

(** One turn of worker [w]; [None]: it waits for room in the channel, or it has stopped. *)
Definition worker_step (w : nat) (s : State) : option State :=
  match workers s !! w with
  | None | Some Stopped => None
  | Some Claim =>
      let start := cursor s in
      Some (MkState (start + batch_size config) (batch_id_counter s)
             (<[w := if (length indices <=? start)%nat then Stopped else Decode start]> (workers s))
             (channel s) (open s) (received s))
  | Some (Decode start) =>
      Some (MkState (cursor s) (batch_id_counter s) (<[w := Number start (decode (batch_indices start))]> (workers s))
             (channel s) (open s) (received s))
  | Some (Number start r) =>
      let id := batch_id_counter s in
      let batch := match r with Ok samples => Ok (MkBatch samples id) | Err e => Err e end in
      Some (MkState (cursor s) (S id) (<[w := Send (MkMessage start id batch)]> (workers s))
             (channel s) (open s) (received s))
  | Some (Send m) =>
      if negb (open s) then
        Some (MkState (cursor s) (batch_id_counter s) (<[w := Stopped]> (workers s)) (channel s) (open s) (received s))
      else if (ring_capacity config <=? length (channel s))%nat then None
      else Some (MkState (cursor s) (batch_id_counter s) (<[w := Claim]> (workers s))
                  (channel s ++ [m]) (open s) (received s))
  end.

(** [recv]; [None]: it waits, or it reports the end of the stream. *)
Definition recv (s : State) : option State :=
  if open s then
    match channel s with
    | m :: channel => Some (MkState (cursor s) (batch_id_counter s) (workers s) channel true (received s ++ [m]))
    | [] => None
    end
  else None.

Inductive step : State -> State -> Prop :=
  | step_worker w s s' : worker_step w s = Some s' -> step s s'
  | step_recv s s' : recv s = Some s' -> step s s'
  | step_close s : open s = true ->
      step s (MkState (cursor s) (batch_id_counter s) (workers s) [] false (received s)).

Definition reachable (s : State) : Prop := rtc step spawn_workers s.

(** All senders are gone and the channel is drained: [recv] returns [None]. *)
Definition ended (s : State) : Prop := Forall (fun pc => pc = Stopped) (workers s) /\ channel s = [].
End workers.
End pipeline.
End pipeline.

(** ** Accounting of the chunks *)
Section accounting.
Import error types config pipeline.
Context `{Dataset D}.
Variables (dataset : D) (config : DatasetConfig) (indices : list nat).
Hypothesis Hbatch : (0 < batch_size config)%nat.
Notation bs := (batch_size config).
Notation total := (length indices).
Notation step := (step dataset config indices).
Notation worker_step := (worker_step dataset config indices).
Notation reachable := (reachable dataset config indices).

(** The starts claimed by the first [n] claims. *)
Definition starts (n : nat) : list nat := List.filter (fun s => s <? total)%nat ((fun k => k * bs)%nat <$> seq 0 n).

Definition in_flight (pc : Pc) : list nat :=
  match pc with Decode s | Number s _ => [s] | Send m => [chunk m] | _ => [] end.
Definition drawn (pc : Pc) : list nat := match pc with Send m => [number m] | _ => [] end.

Definition numbered (id : nat) (r : Result (list Sample) Error) : Result Batch Error :=
  match r with Ok samples => Ok (MkBatch samples id) | Err e => Err e end.

(** A message is the batch of its chunk. *)
Definition message_ok (m : Message) : Prop :=
  content m = numbered (number m) (decode dataset (batch_indices config indices (chunk m))).

Definition pc_ok (c : nat) (pc : Pc) : Prop :=
  match pc with
  | Number s r => r = decode dataset (batch_indices config indices s)
  | Send m => message_ok m
  | Stopped => (total <= c)%nat
  | _ => True
  end.

Record loader_inv (s : State) : Prop := {
  li_claims : exists n, cursor s = (n * bs)%nat /\
    (chunk <$> received s ++ channel s) ++ (workers s ≫= in_flight) ≡ₚ starts n;
  li_numbers : (number <$> received s ++ channel s) ++ (workers s ≫= drawn) ≡ₚ seq 0 (batch_id_counter s);
  li_messages : Forall message_ok (received s ++ channel s);
  li_workers : Forall (pc_ok (cursor s)) (workers s);
}.

Lemma starts_succ n :
  starts (S n) = starts n ++ (if (n * bs <? total)%nat then [(n * bs)%nat] else []).
Proof.
  unfold starts. rewrite seq_S, fmap_app, List.filter_app. cbn. by destruct (n * bs <? total)%nat.
Qed.

(** Replacing one worker replaces its contribution. *)
Lemma bind_insert {A B} (f : A -> list B) (l : list A) i x y :
  l !! i = Some x -> f x ++ (<[i := y]> l ≫= f) ≡ₚ f y ++ (l ≫= f).
Proof.
  revert i. induction l as [|a l IH]; intros [|i] Hi; simplify_eq/=.
  - by rewrite (Permutation_app_comm (f x)), <- app_assoc, (Permutation_app_comm _ (f x)).
  - rewrite !(Permutation_app_swap_app _ (f a)). by rewrite (IH i Hi).
Qed.

Lemma loader_pc_mono c c' pc : (c <= c')%nat -> pc_ok c pc -> pc_ok c' pc.
Proof. destruct pc; cbn; intros; lia || done. Qed.

Lemma insert_workers (s : State) w pc pc' c :
  workers s !! w = Some pc -> (cursor s <= c)%nat -> Forall (pc_ok (cursor s)) (workers s) -> pc_ok c pc' ->
  Forall (pc_ok c) (<[w := pc']> (workers s)) /\
  in_flight pc ++ (<[w := pc']> (workers s) ≫= in_flight) ≡ₚ in_flight pc' ++ (workers s ≫= in_flight) /\
  drawn pc ++ (<[w := pc']> (workers s) ≫= drawn) ≡ₚ drawn pc' ++ (workers s ≫= drawn).
Proof.
  intros Hw Hc Hall Hok. split_and!; [|by apply bind_insert|by apply bind_insert].
  apply Forall_insert; [|done]. eapply Forall_impl; [exact Hall|]. intros. by eapply loader_pc_mono.
Qed.

Lemma loader_step_inv w s s' :
  worker_step w s = Some s' -> open s = true -> loader_inv s -> loader_inv s' /\ open s' = true.
Proof.
  unfold worker_step. intros Hs Ho [(n & Hn & Hcl) Hnum Hmsg Hwk].
  destruct (workers s !! w) as [pc|] eqn:Ew; [|done].
  pose proof (Forall_lookup_1 _ _ _ _ Hwk Ew) as Hpc. destruct pc as [|start|start r|m|]; [| | | |done].
  - injection Hs as <-. split; [|done].
    destruct (insert_workers s w _ (if (total <=? cursor s)%nat then Stopped else Decode (cursor s)) (cursor s + bs) Ew)
      as (H1 & H2 & H3); [lia|done|by destruct (Nat.leb_spec total (cursor s)); cbn; lia || done|].
    constructor; cbn [cursor batch_id_counter workers channel received]; try done.
    + exists (S n). split; [lia|]. rewrite starts_succ, <- Hn, <- Hcl. cbn [in_flight app] in H2. rewrite H2.
      rewrite Nat.ltb_antisym. destruct (total <=? cursor s)%nat; cbn; [by rewrite app_nil_r|].
      by rewrite (Permutation_app_comm _ [cursor s]), <- Permutation_middle.
    + cbn [drawn app] in H3. rewrite H3. by destruct (total <=? cursor s)%nat.
  - injection Hs as <-. split; [|done].
    destruct (insert_workers s w _ (Number start (decode dataset (batch_indices config indices start))) (cursor s) Ew)
      as (H1 & H2 & H3); [done|done|done|]. apply Permutation_app_inv_l in H2, H3.
    constructor; cbn [cursor batch_id_counter workers channel received]; try done.
    + exists n. by rewrite H2.
    + by rewrite H3.
  - injection Hs as <-. split; [|done].
    destruct (insert_workers s w _ (Send (MkMessage start (batch_id_counter s) (numbered (batch_id_counter s) r))) (cursor s) Ew)
      as (H1 & H2 & H3); [done|done|by cbn in *; subst|]. apply Permutation_app_inv_l in H2. cbn [drawn app number] in H3.
    constructor; cbn [cursor batch_id_counter workers channel received]; try done.
    + exists n. by rewrite H2.
    + rewrite H3, seq_S, <- Hnum. cbn. by rewrite (Permutation_app_comm _ [_]), <- Permutation_middle.
  - rewrite Ho in Hs. cbn [negb] in Hs. destruct (ring_capacity config <=? length (channel s))%nat; [done|].
    injection Hs as <-. split; [|done].
    destruct (insert_workers s w _ Claim (cursor s) Ew) as (H1 & H2 & H3); [done|done|done|]. cbn [in_flight drawn app] in H2, H3.
    constructor; cbn [cursor batch_id_counter workers channel received]; try done.
    + exists n. split; [done|]. rewrite <- Hcl, <- H2, app_assoc, fmap_app, <- app_assoc. done.
    + rewrite <- Hnum, <- H3, app_assoc, fmap_app, <- app_assoc. done.
    + rewrite app_assoc. apply Forall_app_2; [done|]. by apply Forall_singleton.
Qed.

Lemma recv_inv s s' : recv s = Some s' -> loader_inv s -> loader_inv s' /\ open s' = true.
Proof.
  unfold recv. destruct (open s); [|done]. destruct (channel s) as [|m ch] eqn:Ec; [done|]. intros [= <-] [Hcl Hnum Hmsg Hwk].
  rewrite Ec in *. split; [|done].
  constructor; cbn [cursor batch_id_counter workers channel received]; rewrite <- ?app_assoc; done.
Qed.

Lemma closed_stays s s' : step s s' -> open s = false -> open s' = false.
Proof.
  intros [w x y Hw|x y Hr|x Hx] Ho; [|by unfold recv in Hr; rewrite Ho in Hr|done]. unfold pipeline.worker_step in Hw.
  destruct (workers x !! w) as [[]|]; [| | | |done|done]; try (by injection Hw as <-).
  rewrite Ho in Hw. by injection Hw as <-.
Qed.

Lemma worker_step_length w s s' : worker_step w s = Some s' -> length (workers s') = length (workers s).
Proof.
  unfold worker_step. destruct (workers s !! w) as [[]|]; intros Hs; simplify_eq/=; rewrite ?length_insert; try done.
  destruct (open s); cbn in Hs; [|simplify_eq/=; by rewrite length_insert].
  destruct (ring_capacity config <=? length (channel s))%nat; simplify_eq/=. by rewrite length_insert.
Qed.

Lemma reachable_workers s : reachable s -> length (workers s) = num_workers config.
Proof.
  intros Hr. apply (rtc_ind_r (R := step) (fun s => length (workers s) = num_workers config) (spawn_workers config)); [| |exact Hr].
  - cbn. by rewrite length_replicate.
  - intros x y _ [w a b Hw|a b Hw|a _] IH; [by rewrite (worker_step_length _ _ _ Hw)| |done].
    unfold recv in Hw. destruct (open a), (channel a); by simplify_eq.
Qed.

(** While the consumer keeps its end. *)
Lemma loader_reachable_inv s : reachable s -> open s = true -> loader_inv s.
Proof.
  intros Hr. apply (rtc_ind_r (R := step) (fun s => open s = true -> loader_inv s) (spawn_workers config)); [| |exact Hr].
  - intros _. constructor; cbn.
    + exists 0%nat. split; [done|]. by induction (num_workers config).
    + by induction (num_workers config).
    + constructor.
    + apply Forall_replicate. done.
  - intros x y _ Hyz IH Ho. destruct (open x) eqn:Ex; [|by rewrite (closed_stays _ _ Hyz Ex) in Ho].
    specialize (IH eq_refl). destruct Hyz as [w x y Hw|x y Hw|x Hx]; [by eapply loader_step_inv|by eapply recv_inv|done].
Qed.

(** *** What the messages add up to *)

(** The part of a list at the positions of a chunk. *)
Definition slice {A} (l : list A) (start : nat) : list A :=
  take (Nat.min (start + bs) total - start) (drop start l).

Lemma slices_of_starts {A} (l : list A) n : length l = total -> starts n ≫= slice l = take (n * bs) l.
Proof.
  intros Hl. induction n as [|n IH]; [done|]. rewrite starts_succ, bind_app, IH.
  replace (S n * bs)%nat with (n * bs + bs)%nat by lia. rewrite <- take_take_drop. f_equal.
  destruct (Nat.ltb_spec (n * bs) total); cbn.
  - rewrite app_nil_r. unfold slice. destruct (Nat.min_spec (n * bs + bs) total) as [[_ ->]|[? ->]]; [f_equal; lia|].
    rewrite !take_ge; [done| |]; rewrite length_drop; lia.
  - rewrite drop_ge, take_nil by lia. done.
Qed.

Lemma decode_ok l ss : decode dataset l = Ok ss <-> Forall2 (fun i x => ds_get dataset i = Ok x) l ss.
Proof.
  revert ss. induction l as [|i l IH]; intros ss; cbn.
  - split; [intros [= <-]; constructor|]. by intros ->%Forall2_nil_inv_l.
  - rewrite rbind_ok. split.
    + intros (x & Hx & Hl). apply rbind_ok in Hl as (rest & Hr & [= <-]). constructor; [done|]. by apply IH.
    + intros (x & rest & Hx & Hr & ->)%Forall2_cons_inv_l. exists x. split; [done|].
      apply rbind_ok. exists rest. split; [by apply IH|done].
Qed.

Lemma decode_slice all start :
  decode dataset indices = Ok all -> decode dataset (batch_indices config indices start) = Ok (slice all start).
Proof. rewrite !decode_ok. intros Hall. by apply Forall2_take, Forall2_drop. Qed.

Definition batch_of (all : list Sample) (m : Message) : Batch := MkBatch (slice all (chunk m)) (number m).

Lemma contents_ok all l :
  decode dataset indices = Ok all -> Forall message_ok l -> content <$> l = (fun m => Ok (batch_of all m)) <$> l.
Proof.
  intros Hall Hl. induction Hl as [|m l Hm _ IH]; [done|]. cbn. rewrite IH. f_equal.
  unfold message_ok in Hm. by rewrite Hm, (decode_slice all).
Qed.

Lemma stopped_binds {B} (f : Pc -> list B) (l : list Pc) :
  f Stopped = [] -> Forall (fun pc => pc = Stopped) l -> l ≫= f = [].
Proof. intros Hf. induction 1 as [|pc l -> _ IH]; cbn; by rewrite ?Hf, ?IH. Qed.

(** C37: with batches of at least one sample, at least one worker and a consumer that has not
    dropped its end, whatever the interleaving, when every worker has stopped every index was
    handed out exactly once: the messages sent are the decodings of chunks that together are
    the index list, with numbers counting from zero; and if every sample decodes, the samples
    sent are a permutation of the samples of the list. *)
Theorem stream_delivers_once (s : State) :
  reachable s -> open s = true -> (0 < num_workers config)%nat -> Forall (fun pc => pc = Stopped) (workers s) ->
  let sent := received s ++ channel s in
  (sent ≫= fun m => batch_indices config indices (chunk m)) ≡ₚ indices /\
  Forall message_ok sent /\
  number <$> sent ≡ₚ seq 0 (length sent) /\
  (forall all, decode dataset indices = Ok all ->
     exists batches, content <$> sent = Ok <$> batches /\ (batches ≫= samples) ≡ₚ all).
Proof.
  intros Hr Ho Hw Hst. pose proof (reachable_workers s Hr) as Hlen. apply loader_reachable_inv in Hr as [(n & Hn & Hcl) Hnum Hmsg Hwk]; [|done].
  rewrite (stopped_binds in_flight), app_nil_r in Hcl by done. rewrite (stopped_binds drawn), app_nil_r in Hnum by done.
  assert (total <= n * bs)%nat as Hend.
  { destruct (workers s) as [|pc l]; [cbn in Hlen; lia|]. apply Forall_cons in Hst as [-> _], Hwk as [Hpc _]. cbn in Hpc. lia. }
  assert (forall A (l : list A), length l = total ->
            ((received s ++ channel s) ≫= fun m => slice l (chunk m)) ≡ₚ l) as Hperm.
  { intros A l Hl. transitivity (take (n * bs) l); [|by rewrite take_ge by lia].
    rewrite <- slices_of_starts, <- Hcl by done. by rewrite list_fmap_bind. }
  cbv zeta. split_and!; [by apply Hperm|done| |].
  - apply Permutation_length in Hnum as Hc. rewrite length_fmap, length_seq in Hc. by rewrite Hc.
  - intros all Hall. exists (batch_of all <$> (received s ++ channel s)). split.
    + rewrite (contents_ok all) by done. by rewrite <- list_fmap_compose.
    + rewrite list_fmap_bind. apply Hperm. apply decode_ok in Hall. symmetry. by eapply Forall2_length.
Qed.

(** *** Every run ends *)

Definition rank (pc : Pc) : Z :=
  match pc with Claim => 1 | Decode _ => 5 | Number _ _ => 4 | Send _ => 3 | Stopped => 0 end.

Definition work_left (s : State) : Z :=
  6 * Z.of_nat (total - cursor s) + Zsum_with rank (workers s) + Z.of_nat (length (channel s)) + (if open s then 1 else 0).

Lemma step_work s s' : step s s' -> work_left s' + 1 <= work_left s.
Proof.
  intros [w x y Hw|x y Hw|x Ho]; unfold work_left.
  - unfold pipeline.worker_step in Hw. destruct (workers x !! w) as [pc|] eqn:Ew; [|done].
    destruct pc as [|st|st r|m|]; [| | | |done].
    + injection Hw as <-. cbn [cursor workers channel open]. rewrite (Zsum_with_insert rank _ _ _ _ Ew).
      destruct (Nat.leb_spec total (cursor x)); cbn [rank]; lia.
    + injection Hw as <-. cbn [cursor workers channel open]. rewrite (Zsum_with_insert rank _ _ _ _ Ew). cbn [rank]. lia.
    + injection Hw as <-. cbn [cursor workers channel open]. rewrite (Zsum_with_insert rank _ _ _ _ Ew). cbn [rank]. lia.
    + destruct (open x); cbn [negb] in Hw.
      * destruct (ring_capacity config <=? length (channel x))%nat; [done|]. injection Hw as <-.
        cbn [cursor workers channel open]. rewrite (Zsum_with_insert rank _ _ _ _ Ew), length_app. cbn [rank length]. lia.
      * injection Hw as <-. cbn [cursor workers channel open]. rewrite (Zsum_with_insert rank _ _ _ _ Ew). cbn [rank]. lia.
  - unfold recv in Hw. destruct (open x); [|done]. destruct (channel x); [done|]. injection Hw as <-. cbn [cursor workers channel open length]. lia.
  - rewrite Ho. cbn [cursor workers channel open length]. lia.
Qed.

Lemma work_left_nonneg s : 0 <= work_left s.
Proof.
  unfold work_left. assert (0 <= Zsum_with rank (workers s)) by (apply Zsum_with_nonneg; intros [] _; cbn; lia).
  destruct (open s); lia.
Qed.

Lemma runs_bounded n s s' : nsteps step n s s' -> Z.of_nat n + work_left s' <= work_left s.
Proof. induction 1 as [x|n x y z Hxy _ IH]; [lia|]. apply step_work in Hxy. lia. Qed.

(** every schedule of workers and consumer is finite, at most six steps for each index and
    one for each worker, plus one; and when nothing can move any more while the consumer
    listens, every worker has stopped and the channel is drained: no worker waits forever. *)
Theorem stream_ends (n : nat) (s : State) :
  (0 < ring_capacity config)%nat -> nsteps step n (spawn_workers config) s ->
  Z.of_nat n <= 6 * Z.of_nat total + Z.of_nat (num_workers config) + 1 /\
  (open s = true -> (forall w, worker_step w s = None) -> recv s = None -> ended s).
Proof.
  intros Hcap Hn. split.
  - apply runs_bounded in Hn. pose proof (work_left_nonneg s). assert (work_left (spawn_workers config) =
      6 * Z.of_nat total + Z.of_nat (num_workers config) + 1) as E; [|lia].
    unfold work_left, spawn_workers. cbn [cursor workers channel open length]. rewrite Nat.sub_0_r.
    enough (Zsum_with rank (replicate (num_workers config) Claim) = Z.of_nat (num_workers config)) by lia.
    generalize (num_workers config). intros k. induction k as [|k IH]; [done|]. cbn [replicate].
    rewrite Zsum_with_cons, IH. cbn [rank]. lia.
  - intros Ho Hw Hrecv. unfold recv in Hrecv. rewrite Ho in Hrecv. destruct (channel s) as [|m ch] eqn:Ec; [|done].
    split; [|done]. apply Forall_lookup. intros i pc Hi. specialize (Hw i). unfold pipeline.worker_step in Hw.
    rewrite Hi in Hw. destruct pc; try done. rewrite Ho, Ec in Hw. cbn in Hw.
    by rewrite (proj2 (Nat.leb_gt _ _) Hcap) in Hw.
Qed.

(** *** One worker keeps the order *)

Definition in_order (s : State) : Prop :=
  exists pc n, workers s = [pc] /\ cursor s = (n * bs)%nat /\
    (chunk <$> received s ++ channel s) ++ in_flight pc = starts n.

Lemma worker_step_in_order w s s' : worker_step w s = Some s' -> open s = true -> in_order s -> in_order s'.
Proof.
  intros Hs Ho (pc & n & Hw & Hn & Hcl). unfold worker_step in Hs. rewrite Hw in Hs.
  destruct w as [|w]; [|done]. cbn [lookup list_lookup insert list_insert] in Hs.
  destruct pc as [|st|st r|m|]; [| | | |done].
  - injection Hs as <-. exists (if (total <=? cursor s)%nat then Stopped else Decode (cursor s)), (S n). cbn [workers cursor received channel].
    split_and!; [done|lia|]. rewrite starts_succ, <- Hcl, <- Hn, Nat.ltb_antisym. cbn [in_flight]. rewrite app_nil_r.
    by destruct (total <=? cursor s)%nat.
  - injection Hs as <-. by eexists _, n.
  - injection Hs as <-. by eexists _, n.
  - rewrite Ho in Hs. cbn [negb] in Hs. destruct (ring_capacity config <=? length (channel s))%nat; [done|].
    injection Hs as <-. exists Claim, n. cbn [workers cursor received channel in_flight]. split_and!; [done|done|].
    rewrite <- Hcl, app_nil_r, app_assoc, fmap_app. done.
Qed.

Lemma reachable_in_order s : num_workers config = 1%nat -> reachable s -> open s = true -> in_order s.
Proof.
  intros H1 Hr. apply (rtc_ind_r (R := step) (fun s => open s = true -> in_order s) (spawn_workers config)); [| |exact Hr].
  - intros _. exists Claim, 0%nat. unfold spawn_workers. rewrite H1. by split_and!.
  - intros x y _ Hyz IH Ho. destruct (open x) eqn:Ex; [|by rewrite (closed_stays _ _ Hyz Ex) in Ho].
    specialize (IH eq_refl). destruct Hyz as [w x y Hw|x y Hw|x Hx]; [by eapply worker_step_in_order| |done].
    unfold recv in Hw. rewrite Ex in Hw. destruct (channel x) as [|m ch] eqn:Ec; [done|]. injection Hw as <-.
    destruct IH as (pc & n & H2 & H3 & H4). exists pc, n. rewrite Ec in H4. cbn [workers cursor received channel].
    by rewrite <- app_assoc.
Qed.

Lemma received_prefix s all :
  num_workers config = 1%nat -> reachable s -> open s = true -> decode dataset indices = Ok all ->
  exists batches, content <$> received s = Ok <$> batches /\
    (batches ≫= samples) = take (length (batches ≫= samples)) all.
Proof.
  intros H1 Hr Ho Hall. destruct (reachable_in_order s H1 Hr Ho) as (pc & n & _ & _ & Hcl).
  apply loader_reachable_inv in Hr as [_ _ Hmsg _]; [|done]. apply Forall_app in Hmsg as [Hmsg _].
  exists (batch_of all <$> received s). split; [rewrite (contents_ok all) by done; by rewrite <- list_fmap_compose|].
  rewrite list_fmap_bind. change (samples ∘ batch_of all) with (fun m => slice all (chunk m)).
  assert (length all = total) as Hl by (apply decode_ok in Hall; symmetry; by eapply Forall2_length).
  pose proof (slices_of_starts all n Hl) as E. rewrite <- Hcl, fmap_app, <- app_assoc, bind_app in E.
  rewrite (list_fmap_bind chunk (slice all)) in E.
  set (mine := received s ≫= (fun m => slice all (chunk m))) in *. change (received s ≫= slice all ∘ chunk) with mine in E.
  assert (length mine <= n * bs)%nat as Hle.
  { apply (f_equal length) in E. rewrite length_app, length_take in E. lia. }
  apply (f_equal (take (length mine))) in E. rewrite take_app_length, take_take in E.
  by rewrite Nat.min_l in E by done.
Qed.
End accounting.

(** ** Checkpoints *)
Section checkpoints.
Import error types config pipeline.
Context `{Dataset D, HS : Shuffle, !ShuffleLaws}.
Variables (dataset : D) (config : DatasetConfig).

(** with one worker a checkpoint resumes exactly where the consumer was: the samples
    received so far are the first ones of the shuffled epoch, in order, and the stream
    resumed from their number covers exactly the rest of it. *)
Theorem single_worker_resumes (seed : Z) (epoch : Z) (s : State) (all : list Sample) :
  (0 < batch_size config)%nat -> num_workers config = 1%nat ->
  reachable dataset config (stream_shuffled dataset seed) s -> open s = true ->
  decode dataset (stream_shuffled dataset seed) = Ok all ->
  exists batches, content <$> received s = Ok <$> batches /\
    let k := length (batches ≫= samples) in
    (batches ≫= samples) = take k all /\
    decode dataset (stream_from_checkpoint dataset (MkCheckpoint epoch k seed)) = Ok (drop k all).
Proof.
  intros Hb H1 Hr Ho Hall. destruct (received_prefix dataset config _ Hb s all H1 Hr Ho Hall) as (batches & Hc & Hp).
  exists batches. split; [done|]. cbv zeta. split; [done|]. unfold stream_from_checkpoint. cbn [sample_offset pipeline.seed].
  unfold stream_shuffled in Hall. set (k := length (batches ≫= samples)) in *.
  apply decode_ok in Hall as H2. pose proof (Forall2_length _ _ _ H2) as Hl.
  rewrite Nat.min_l; [by apply decode_ok, Forall2_drop|].
  apply (f_equal length) in Hp. rewrite length_take in Hp. fold k in Hp. lia.
Qed.

(** A shuffled epoch holds every index once. *)
Lemma shuffled_epoch seed : stream_shuffled dataset seed ≡ₚ stream dataset.
Proof. apply shuffled_perm. Qed.
End checkpoints.

Module loader_examples.
Import error types config pipeline.

(** A dataset of single bytes, in their order. *)
#[global] Instance bytes_dataset : Dataset (list Z) := {|
  ds_len l := length l;
  ds_get l i := match l !! i with
                | Some b => Ok (MkSample [b] b NoMeta)
                | None => Err (IndexOutOfBounds i (length l))
                end;
|}.

#[global] Instance in_order_shuffle : Shuffle := {| shuffled _ n := seq 0 n |}.
#[global] Instance in_order_laws : ShuffleLaws.
Proof. by constructor. Qed.

Definition data : list Z := [10; 11; 12; 13; 14].
Definition cfg (workers : nat) : DatasetConfig := MkConfig 2 false 0 workers 8 true None 1.

Inductive Turn := W (w : nat) | R.

Fixpoint run (c : DatasetConfig) (indices : list nat) (l : list Turn) (s : State) : option State :=
  match l with
  | [] => Some s
  | W w :: l => s ← worker_step data c indices w s; run c indices l s
  | R :: l => s ← recv s; run c indices l s
  end.

Lemma run_steps c indices l s s' :
  run c indices l s = Some s' -> nsteps (step data c indices) (length l) s s'.
Proof.
  revert s. induction l as [|[w|] l IH]; intros s; cbn; [by intros [= <-]; constructor| |].
  - destruct (worker_step data c indices w s) as [s1|] eqn:E; [|done]. cbn. intros Hr.
    econstructor; [by eapply step_worker|by apply IH].
  - destruct (recv s) as [s1|] eqn:E; [|done]. cbn. intros Hr.
    econstructor; [by eapply step_recv|by apply IH].
Qed.

Definition turns (w n : nat) : list Turn := replicate n (W w).

(** Both workers claim a chunk; the second is faster. *)
Definition overtaking : list Turn := [W 0; W 1] ++ turns 1 3 ++ [R].

Definition labels (s : State) : list (list Z) :=
  (fun m => match content m with Ok b => label <$> samples b | Err _ => [] end) <$> received s.

Definition state_after (c : DatasetConfig) (l : list Turn) : State :=
  default (spawn_workers c) (run c (stream data) l (spawn_workers c)).

Lemma after_reachable c l s :
  run c (stream data) l (spawn_workers c) = Some s -> reachable data c (stream data) s.
Proof. intros H. apply rtc_nsteps. exists (length l). by apply run_steps. Qed.

Definition to_the_end : list Turn := overtaking ++ turns 0 3 ++ turns 1 4 ++ turns 0 1 ++ turns 1 1.
Definition all_sent : State := Eval vm_compute in state_after (cfg 2) to_the_end.
Lemma all_sent_run : run (cfg 2) (stream data) to_the_end (spawn_workers (cfg 2)) = Some all_sent.
Proof. vm_refl. Qed.

Lemma stream_delivers_once_witness :
  exists batches, content <$> (received all_sent ++ channel all_sent) = Ok <$> batches /\
    (label <$> (batches ≫= samples)) ≡ₚ data.
Proof.
  destruct (stream_delivers_once data (cfg 2) (stream data) ltac:(cbn; lia) all_sent) as (_ & _ & _ & H).
  - exact (after_reachable _ to_the_end _ all_sent_run).
  - reflexivity.
  - cbn. lia.
  - by repeat constructor.
  - destruct (H ((fun b => MkSample [b] b NoMeta) <$> data)) as (batches & Hc & Hp); [vm_refl|].
    exists batches. split; [exact Hc|]. by rewrite Hp.
Defined.

Lemma stream_ends_witness :
  Z.of_nat (length to_the_end) <= 6 * 5 + 2 + 1.
Proof.
  apply (stream_ends data (cfg 2) (stream data) ltac:(cbn; lia) (length to_the_end) all_sent); [cbn; lia|].
  exact (run_steps _ _ _ _ _ all_sent_run).
Defined.

Lemma single_worker_resumes_witness :
  exists batches, content <$> received (state_after (cfg 1) (turns 0 4 ++ [R])) = Ok <$> batches /\
    (batches ≫= samples) = take (length (batches ≫= samples)) ((fun b => MkSample [b] b NoMeta) <$> data).
Proof.
  destruct (single_worker_resumes data (cfg 1) 7 0 (state_after (cfg 1) (turns 0 4 ++ [R]))
              ((fun b => MkSample [b] b NoMeta) <$> data)) as (batches & Hc & Hp & _).
  - cbn. lia.
  - done.
  - apply (after_reachable _ (turns 0 4 ++ [R])). vm_refl.
  - vm_refl.
  - vm_refl.
  - by exists batches.
Defined.

(** [Pipeline::new] does not validate its configuration: without workers the stream ends at
    once and delivers nothing. *)
Example no_workers_no_samples :
  ended (spawn_workers (cfg 0)) /\ received (spawn_workers (cfg 0)) = [] /\ length (stream data) = 5%nat.
Proof. split_and!; [split; [constructor|reflexivity]|reflexivity|reflexivity]. Qed.

(** with two workers a checkpoint loses samples: the faster worker's batch can arrive
    first, and resuming after its two samples skips the two of the slower worker, which were
    never seen, and repeats its own. *)
Theorem checkpoint_loses_samples :
  let s := state_after (cfg 2) overtaking in
  reachable data (cfg 2) (stream_shuffled data 7) s /\ labels s = [[12; 13]] /\
  option_map (fmap label) (ok_opt (decode data (stream_from_checkpoint data (MkCheckpoint 0 2 7)))) = Some [12; 13; 14].
Proof. split_and!; [apply (after_reachable _ overtaking); vm_refl|vm_refl|vm_refl]. Qed.
End loader_examples.
