(* ===== verification/Registry.v ===== *)
(** * services/inference/src/model_registry.rs: the per-tenant model registry

    The registry keeps an index of uploaded versions, a cache of loaded models and the files
    below [models_dir].  The disk is a finite map from absolute paths to contents; a directory
    exists when a file is below it.  Every call takes an [Io], what the disk does to its writes,
    reads and removals: a write may fail and leave part of the content, a removal some of the
    files.  Each call is cut where it holds no lock ([advance], [Phase]), so that HttpApi.v can
    interleave calls; [upload], [activate] and [delete_model] are the calls that run alone.
    What happens under the index lock is one step, so a file that is read while it is being
    written is seen before or after the write.  Identifiers are lists of code points.  SHA-256,
    the JSON text of the metadata, [char::is_alphanumeric] and the parser of ONNX files are
    interfaces. *)

From stdpp Require Import pretty base numbers list gmap strings.
From Stdlib Require Import ZArith Lia Ascii.
From S2P Require Import Prelude.

Module registry.
Import unicode.
Notation text := (list Z) (only parsing).
Notation path := (list (list Z)) (only parsing).

Record ModelVersion : Type := MkVersion {
  version : text;
  sha256 : text;
  size_bytes : Z;
  uploaded_at : Z;
}.

Record ModelMeta : Type := MkMeta {
  tenant_id : text;
  model_id : text;
  display_name : text;
  versions : list ModelVersion;
  active_version : option text;
}.

(** What the registry uses of other crates. *)
Class Lib := {
  digest_hex : list Z -> text;
  to_string_pretty : ModelMeta -> list Z;
  from_str : list Z -> option ModelMeta;
  is_alphanumeric : Z -> bool;
}.
Class LibLaws `{Lib} : Prop := {
  from_to_string m : from_str (to_string_pretty m) = Some m;
  (** The beginning of a JSON object is not one. *)
  from_torn m n m' : from_str (take n (to_string_pretty m)) = Some m' -> m' = m;
  dot_not_alphanumeric : is_alphanumeric 46 = false;
  slash_not_alphanumeric : is_alphanumeric 47 = false;
}.

Inductive RegistryError :=
  | BadLength (id : text)
  | BadCharacter (id : text)
  | PathTraversal (id : text)
  | FileNotFound (t m v : text)
  | LoadFailed (reason : text)
  | NotInIndex (t m : text)
  | ActiveModel (t m : text)
  | NotWritten (p : path)
  | NotPersisted (t m : text)
  | NotRemoved (t m : text).

(** A write: done, or failed with the file as it was or cut after some bytes. *)
Inductive Write := Written | Torn (left_over : option nat).

(** What the disk does to one call: its two writes, its reading of a model file ([Some] is the
    error), and its removal of a directory ([Some] are the files that stay). *)
Record Io : Type := MkIo {
  model_write : Write;
  meta_write : Write;
  model_read : option text;
  removal : option (path -> bool);
}.
Definition no_fault : Io := MkIo Written Written None None.

Section registry.
Context `{Lib} {OnnxModel : Type}.
Variable models_dir : path.
(** [OnnxModel::load] on the content of a file. *)
Variable load : list Z -> Result OnnxModel text.

Record ModelRegistry : Type := MkRegistry {
  disk : gmap path (list Z);
  index : gmap (text * text) ModelMeta;
  cache : gmap (text * text * text) OnnxModel;
}.

Definition model_onnx : text := of_string "model.onnx".
Definition meta_json : text := of_string "meta.json".

Fixpoint contains_dots (l : text) : bool :=
  match l with
  | 46 :: ((46 :: _) as t) => true
  | _ :: t => contains_dots t
  | [] => false
  end.

Definition validate_id (id : text) : Result unit RegistryError :=
  if bool_decide (id = []) || (64 <? foldr (fun c n => len_utf8 c + n) 0 id) then Err (BadLength id)
  else if negb (forallb (fun c => is_alphanumeric c || (c =? 45) || (c =? 95)) id) then Err (BadCharacter id)
  else if contains_dots id || (match id with 46 :: _ => true | _ => false end) then Err (PathTraversal id)
  else Ok ().

(** *** Paths *)

(** The components of a relative or absolute path. *)
Definition components (l : text) : path :=
  List.filter (fun c => negb (bool_decide (c = [])) && negb (bool_decide (c = [46]))) (split_by (fun c => c =? 47) l).

Definition join (base : path) (l : text) : path :=
  match l with 47 :: _ => components l | _ => base ++ components l end.

Definition is_dir (d : gmap path (list Z)) (p : path) : bool :=
  existsb (fun kv => bool_decide (p `prefix_of` kv.1) && negb (bool_decide (kv.1 = p))) (map_to_list d).

(** The file a path leads to: every component but the last is a directory. *)
Fixpoint walk (d : gmap path (list Z)) (at_ : path) (p : path) : option path :=
  match p with
  | [] => Some at_
  | c :: p =>
      if bool_decide (c = [46; 46]) then walk d (removelast at_) p
      else match p with
           | [] => Some (at_ ++ [c])
           | _ => if is_dir d (at_ ++ [c]) then walk d (at_ ++ [c]) p else None
           end
  end.

Definition read_file (d : gmap path (list Z)) (p : path) : option (list Z) := k ← walk d [] p; d !! k.

Definition version_dir (t m v : text) : path := join (models_dir ++ [t; m]) v.
Definition meta_path (t m : text) : path := models_dir ++ [t; m; meta_json].

(** *** Operations *)

(** [std::fs::write], and whether it succeeded. *)
Definition write_file (w : Write) (p : path) (b : list Z) (d : gmap path (list Z)) : bool * gmap path (list Z) :=
  match w with
  | Written => (true, <[p := b]> d)
  | Torn None => (false, d)
  | Torn (Some n) => (false, <[p := take n b]> d)
  end.

Definition set_disk (d : gmap path (list Z)) (s : ModelRegistry) : ModelRegistry := MkRegistry d (index s) (cache s).

Definition persist_meta (w : Write) (meta : ModelMeta) (s : ModelRegistry) : Result unit RegistryError * ModelRegistry :=
  let '(ok, d) := write_file w (meta_path (tenant_id meta) (model_id meta)) (to_string_pretty meta) (disk s) in
  (if ok then Ok () else Err (NotPersisted (tenant_id meta) (model_id meta)), set_disk d s).

Definition validate_ids (t m : text) : Result unit RegistryError :=
  match validate_id t with Err e => Err e | Ok _ => validate_id m end.

(** [format!("v{}", n + 1)] *)
Definition version_tag (n : nat) : text := of_string ("v" +:+ string_of_Z (Z.of_nat n)).

(** The part of [upload] under the lock; the metadata is persisted after it is released. *)
Definition upload_locked (io : Io) (now : Z) (t m : text) (name : option text) (onnx_bytes : list Z) (s : ModelRegistry)
    : Result ModelMeta RegistryError * ModelRegistry :=
  let n := match index s !! (t, m) with Some meta => length (versions meta) | None => 0%nat end in
  let next_version := version_tag (n + 1) in
  let onnx_path := version_dir t m next_version ++ [model_onnx] in
  let '(ok, d) := write_file (model_write io) onnx_path onnx_bytes (disk s) in
  if negb ok then (Err (NotWritten onnx_path), set_disk d s)
  else
    let v := MkVersion next_version (digest_hex onnx_bytes) (Z.of_nat (length onnx_bytes)) now in
    let meta := default (MkMeta t m (default m name) [] None) (index s !! (t, m)) in
    let meta := MkMeta (tenant_id meta) (model_id meta) (default (display_name meta) name) (versions meta ++ [v])
                  (active_version meta) in
    (Ok meta, MkRegistry d (<[(t, m) := meta]> (index s)) (cache s)).

Definition upload (io : Io) (now : Z) (t m : text) (name : option text) (onnx_bytes : list Z) (s : ModelRegistry)
    : Result ModelMeta RegistryError * ModelRegistry :=
  match validate_ids t m with
  | Err e => (Err e, s)
  | Ok _ =>
      match upload_locked io now t m name onnx_bytes s with
      | (Err e, s) => (Err e, s)
      | (Ok meta, s) => match persist_meta (meta_write io) meta s with
                        | (Err e, s) => (Err e, s)
                        | (Ok _, s) => (Ok meta, s)
                        end
      end
  end.

(** [cache.retain]: every other model. *)
Definition evict (t m : text) (c : gmap (text * text * text) OnnxModel) : gmap (text * text * text) OnnxModel :=
  filter (fun kv => kv.1.1 <> (t, m)) c.

(** [activate] up to the loaded model. *)
Definition activate_load (io : Io) (t m v : text) (s : ModelRegistry) : Result OnnxModel RegistryError :=
  match validate_ids t m with
  | Err e => Err e
  | Ok _ =>
      match read_file (disk s) (version_dir t m v ++ [model_onnx]) with
      | None => Err (FileNotFound t m v)
      | Some bytes =>
          match model_read io with
          | Some e => Err (LoadFailed e)
          | None => match load bytes with Err e => Err (LoadFailed e) | Ok model => Ok model end
          end
      end
  end.

(** The part under the index lock. *)
Definition activate_locked (t m v : text) (s : ModelRegistry) : Result ModelMeta RegistryError * ModelRegistry :=
  match index s !! (t, m) with
  | None => (Err (NotInIndex t m), s)
  | Some meta =>
      let meta := MkMeta (tenant_id meta) (model_id meta) (display_name meta) (versions meta) (Some v) in
      (Ok meta, MkRegistry (disk s) (<[(t, m) := meta]> (index s)) (cache s))
  end.

(** The part under the cache lock. *)
Definition fill_cache (t m v : text) (model : OnnxModel) (s : ModelRegistry) : ModelRegistry :=
  MkRegistry (disk s) (index s) (<[(t, m, v) := model]> (evict t m (cache s))).

Definition activate (io : Io) (t m v : text) (s : ModelRegistry) : Result OnnxModel RegistryError * ModelRegistry :=
  match activate_load io t m v s with
  | Err e => (Err e, s)
  | Ok model =>
      match activate_locked t m v s with
      | (Err e, s) => (Err e, s)
      | (Ok meta, s) => match persist_meta (meta_write io) meta s with
                        | (Err e, s) => (Err e, s)
                        | (Ok _, s) => (Ok model, fill_cache t m v model s)
                        end
      end
  end.

Definition get_active_model (t m : text) (s : ModelRegistry) : option OnnxModel :=
  meta ← index s !! (t, m); v ← active_version meta; cache s !! (t, m, v).

Definition list_models (t : text) (s : ModelRegistry) : list ModelMeta :=
  snd <$> filter (fun kv => kv.1.1 = t) (map_to_list (index s)).

Definition get_model (t m : text) (s : ModelRegistry) : option ModelMeta := index s !! (t, m).

(** What is left when the directory [p] is removed, or all of it but the files [kept]. *)
Definition remove_below (kept : path -> bool) (p : path) (d : gmap path (list Z)) : gmap path (list Z) :=
  filter (fun kv => ~ p `prefix_of` kv.1 \/ kept kv.1 = true) d.

(** The first checks of [delete_model]. *)
Definition delete_allowed (t m : text) (s : ModelRegistry) : Result unit RegistryError :=
  match validate_ids t m with
  | Err e => Err e
  | Ok _ => match index s !! (t, m) ≫= active_version with
            | Some _ => Err (ActiveModel t m)
            | None => Ok ()
            end
  end.

(** [remove_dir_all], when the directory exists. *)
Definition remove_files (io : Io) (t m : text) (s : ModelRegistry) : Result unit RegistryError * ModelRegistry :=
  let model_dir := models_dir ++ [t; m] in
  if is_dir (disk s) model_dir then
    match removal io with
    | None => (Ok (), set_disk (remove_below (fun _ => false) model_dir (disk s)) s)
    | Some kept => (Err (NotRemoved t m), set_disk (remove_below kept model_dir (disk s)) s)
    end
  else (Ok (), s).

Definition remove_index (t m : text) (s : ModelRegistry) : ModelRegistry :=
  MkRegistry (disk s) (delete (t, m) (index s)) (cache s).

Definition remove_cache (t m : text) (s : ModelRegistry) : ModelRegistry :=
  MkRegistry (disk s) (index s) (evict t m (cache s)).

Definition delete_model (io : Io) (t m : text) (s : ModelRegistry) : Result unit RegistryError * ModelRegistry :=
  match delete_allowed t m s with
  | Err e => (Err e, s)
  | Ok _ => match remove_files io t m s with
            | (Err e, s) => (Err e, s)
            | (Ok _, s) => (Ok (), remove_cache t m (remove_index t m s))
            end
  end.

(** The metadata files, two directories below the root; a corrupt one is skipped. *)
Definition meta_at (kv : path * list Z) : option ModelMeta :=
  match bool_decide (models_dir `prefix_of` kv.1), drop (length models_dir) kv.1 with
  | true, [_; _; file] => if bool_decide (file = meta_json) then from_str kv.2 else None
  | _, _ => None
  end.

Definition scan_disk (d : gmap path (list Z)) : gmap (text * text) ModelMeta :=
  foldr (fun meta i => <[(tenant_id meta, model_id meta) := meta]> i) ∅ (omap meta_at (map_to_list d)).

Definition new (d : gmap path (list Z)) : ModelRegistry := MkRegistry d (scan_disk d) ∅.

(** *** Calls cut where no lock is held *)
Inductive Change :=
  | Upload (now : Z) (t m : text) (name : option text) (onnx_bytes : list Z)
  | Activate (t m v : text)
  | Delete (t m : text).
Inductive Reply :=
  | Uploaded (meta : ModelMeta)
  | NowActive (v : text) (model : OnnxModel)
  | Removed.

Inductive Phase :=
  | Started (c : Change)
  | PersistUpload (meta : ModelMeta)
  | IndexActive (t m v : text) (model : OnnxModel)
  | PersistActive (t m v : text) (model : OnnxModel) (meta : ModelMeta)
  | FillCache (t m v : text) (model : OnnxModel)
  | RemoveFiles (t m : text)
  | RemoveIndex (t m : text)
  | RemoveCache (t m : text)
  | Done (r : Result Reply RegistryError).

(** The call up to its next point without a lock. *)
Definition advance (io : Io) (p : Phase) (s : ModelRegistry) : Phase * ModelRegistry :=
  match p with
  | Started (Upload now t m name bytes) =>
      match validate_ids t m with
      | Err e => (Done (Err e), s)
      | Ok _ => match upload_locked io now t m name bytes s with
                | (Err e, s) => (Done (Err e), s)
                | (Ok meta, s) => (PersistUpload meta, s)
                end
      end
  | PersistUpload meta =>
      match persist_meta (meta_write io) meta s with
      | (Err e, s) => (Done (Err e), s)
      | (Ok _, s) => (Done (Ok (Uploaded meta)), s)
      end
  | Started (Activate t m v) =>
      match activate_load io t m v s with
      | Err e => (Done (Err e), s)
      | Ok model => (IndexActive t m v model, s)
      end
  | IndexActive t m v model =>
      match activate_locked t m v s with
      | (Err e, s) => (Done (Err e), s)
      | (Ok meta, s) => (PersistActive t m v model meta, s)
      end
  | PersistActive t m v model meta =>
      match persist_meta (meta_write io) meta s with
      | (Err e, s) => (Done (Err e), s)
      | (Ok _, s) => (FillCache t m v model, s)
      end
  | FillCache t m v model => (Done (Ok (NowActive v model)), fill_cache t m v model s)
  | Started (Delete t m) =>
      match delete_allowed t m s with
      | Err e => (Done (Err e), s)
      | Ok _ => (RemoveFiles t m, s)
      end
  | RemoveFiles t m =>
      match remove_files io t m s with
      | (Err e, s) => (Done (Err e), s)
      | (Ok _, s) => (RemoveIndex t m, s)
      end
  | RemoveIndex t m => (RemoveCache t m, remove_index t m s)
  | RemoveCache t m => (Done (Ok Removed), remove_cache t m s)
  | Done r => (Done r, s)
  end.

(** *** Sequences of calls, and of restarts of the process *)
Inductive Op :=
  | Apply (io : Io) (c : Change)
  | Restart.

(** A call that runs alone. *)
Definition apply (io : Io) (c : Change) (s : ModelRegistry) : Result Reply RegistryError * ModelRegistry :=
  match c with
  | Upload now t m name bytes => let '(r, s) := upload io now t m name bytes s in (let? meta := r in Ok (Uploaded meta), s)
  | Activate t m v => let '(r, s) := activate io t m v s in (let? model := r in Ok (NowActive v model), s)
  | Delete t m => let '(r, s) := delete_model io t m s in (let? _ := r in Ok Removed, s)
  end.
Definition run_op (o : Op) (s : ModelRegistry) : ModelRegistry :=
  match o with Apply io c => (apply io c s).2 | Restart => new (disk s) end.
Definition run (ops : list Op) (s : ModelRegistry) : ModelRegistry := foldl (fun s o => run_op o s) s ops.
End registry.
End registry.

Section registry_theorems.
Import unicode registry.
Context `{LB : Lib, LA : !LibLaws} {OnnxModel : Type}.
Variable models_dir : list (list Z).
Variable load : list Z -> Result OnnxModel (list Z).
Hypothesis models_dir_normal : Forall (fun c => c <> [46; 46]) models_dir.

Abbreviation run := (run models_dir load).
Abbreviation run_op := (run_op models_dir load).
Implicit Types (s : ModelRegistry (OnnxModel := OnnxModel)) (t m : list Z) (d : gmap (list (list Z)) (list Z)).

(** *** Identifiers and version tags are single components *)
Definition plain (c : list Z) : Prop := c <> [] /\ 46 ∉ c /\ 47 ∉ c.

Lemma validate_plain i : validate_id i = Ok () -> plain i.
Proof.
  unfold validate_id, plain. destruct (bool_decide (i = [])) eqn:E; [done|]. apply bool_decide_eq_false in E.
  cbn [orb]. destruct (64 <? _); [done|]. destruct (forallb _ i) eqn:Ef; [|done]. intros _.
  rewrite forallb_forall in Ef. split_and!; [done| |]; intros Hin; apply list_elem_of_In, Ef in Hin.
  - by rewrite dot_not_alphanumeric in Hin.
  - by rewrite slash_not_alphanumeric in Hin.
Qed.

Lemma plain_not_dots c : plain c -> c <> [46; 46].
Proof. intros (_ & H & _) ->. apply H. by left. Qed.

Lemma digits_codes (str : string) (acc x : Z) :
  parse_digits acc str = Some x -> Forall (fun c => 48 <= c <= 57) (of_string str).
Proof.
  revert acc. induction str as [|c str IH]; intros acc; cbn [parse_digits of_string]; [constructor|].
  unfold digit_of. destruct (_ && _) eqn:E; [|done]. intros H. bool_to_prop. constructor; [lia|]. by eapply IH.
Qed.

Lemma version_tag_plain k : plain (version_tag k).
Proof.
  unfold version_tag. pose proof (parse_digits_pretty (N.of_nat k)) as Hp. apply digits_codes in Hp.
  assert (string_of_Z (Z.of_nat k) = pretty (N.of_nat k)) as ->.
  { rewrite pretty_Z_nonneg by lia. f_equal. lia. }
  change (of_string ("v" +:+ pretty (N.of_nat k))) with (118 :: of_string (pretty (N.of_nat k))).
  rewrite Forall_forall in Hp. split_and!; [done| |];
    (intros [?|Hin]%elem_of_cons; [lia|]; apply Hp in Hin; lia).
Qed.

Lemma of_string_inj (a b : string) : of_string a = of_string b -> a = b.
Proof.
  revert b. induction a as [|c a IH]; intros [|c' b]; cbn; try done. intros [= Hc Hs]. f_equal; [|by apply IH].
  rewrite <- (Ascii.ascii_nat_embedding c), <- (Ascii.ascii_nat_embedding c'). f_equal. lia.
Qed.

Lemma version_tag_inj k l : version_tag k = version_tag l -> k = l.
Proof.
  unfold version_tag. intros H%of_string_inj. injection H as H.
  change (string_of_Z (Z.of_nat k) = string_of_Z (Z.of_nat l)) in H.
  pose proof (parse_digits_pretty (N.of_nat k)) as Hk. pose proof (parse_digits_pretty (N.of_nat l)) as Hl.
  rewrite !pretty_Z_nonneg in H by lia.
  replace (Z.to_N (Z.of_nat k)) with (N.of_nat k) in H by lia. replace (Z.to_N (Z.of_nat l)) with (N.of_nat l) in H by lia.
  rewrite H, Hl in Hk. injection Hk as Hk. lia.
Qed.

Lemma split_plain c : 47 ∉ c -> split_by (fun c => c =? 47) c = [c].
Proof.
  induction c as [|x c IH]; [done|]. intros [Hx Hc]%not_elem_of_cons. cbn [split_by].
  rewrite (proj2 (Z.eqb_neq _ _)) by congruence. by rewrite IH.
Qed.

Lemma join_plain base c : plain c -> join base c = base ++ [c].
Proof.
  intros (Hne & Hd & Hs). unfold join.
  assert (components c = [c]) as Hc.
  { unfold components. rewrite split_plain by done. cbn [List.filter].
    rewrite bool_decide_eq_false_2 by done. rewrite bool_decide_eq_false_2; [done|]. intros ->. apply Hd. by left. }
  destruct c as [|x c]; [done|]. destruct (decide (x = 47)) as [->|Hx]; [destruct Hs; by left|].
  rewrite Hc. by repeat (case_match; try done).
Qed.

(** *** Paths without [..] *)
Lemma walk_some d at_ p q : Forall (fun c => c <> [46; 46]) p -> walk d at_ p = Some q -> q = at_ ++ p.
Proof.
  intros Hp. revert at_. induction Hp as [|c p Hc _ IH]; intros at_; cbn [walk]; [intros [= <-]; by rewrite app_nil_r|].
  rewrite bool_decide_eq_false_2 by done. destruct p as [|c' p]; [by intros [= <-]|].
  destruct (is_dir d (at_ ++ [c])); [|done]. intros H. apply IH in H as ->. by rewrite <- app_assoc.
Qed.

Lemma walk_file d at_ p bytes :
  Forall (fun c => c <> [46; 46]) p -> d !! (at_ ++ p) = Some bytes -> walk d at_ p = Some (at_ ++ p).
Proof.
  intros Hp. revert at_. induction Hp as [|c p Hc _ IH]; intros at_ Hd; cbn [walk]; [by rewrite app_nil_r|].
  rewrite bool_decide_eq_false_2 by done. destruct p as [|c' p]; [done|].
  assert (is_dir d (at_ ++ [c]) = true) as ->.
  { unfold is_dir. apply existsb_exists. exists (at_ ++ c :: c' :: p, bytes). split.
    - apply list_elem_of_In. by apply elem_of_map_to_list.
    - cbn [fst]. rewrite bool_decide_eq_true_2.
      + rewrite bool_decide_eq_false_2; [done|]. intros E. apply app_inv_head in E. done.
      + exists (c' :: p). by rewrite <- app_assoc. }
  assert (at_ ++ c :: c' :: p = (at_ ++ [c]) ++ c' :: p) as E by by rewrite <- app_assoc.
  rewrite E in *. by apply IH.
Qed.

(** The file of a version. *)
Definition model_path t m v : list (list Z) := models_dir ++ [t; m; v; model_onnx].

Lemma version_path t m v : plain v -> version_dir models_dir t m v ++ [model_onnx] = model_path t m v.
Proof. intros Hv. unfold version_dir, model_path. rewrite join_plain by done. by rewrite <- !app_assoc. Qed.

Lemma model_path_normal t m v : plain t -> plain m -> plain v -> Forall (fun c => c <> [46; 46]) (model_path t m v).
Proof.
  intros. apply Forall_app_2; [done|]. repeat apply Forall_cons_2; try by apply plain_not_dots.
  - done.
  - by apply Forall_nil_2.
Qed.

Lemma read_version d t m v :
  plain t -> plain m -> plain v -> read_file d (version_dir models_dir t m v ++ [model_onnx]) = d !! model_path t m v.
Proof.
  intros Ht Hm Hv. unfold read_file. rewrite version_path by done.
  pose proof (model_path_normal t m v Ht Hm Hv) as Hn. destruct (d !! model_path t m v) as [bytes|] eqn:E.
  - rewrite (walk_file d [] _ bytes) by done. done.
  - destruct (walk d [] (model_path t m v)) as [q|] eqn:Ew; [|done]. by apply walk_some in Ew as ->.
Qed.

Lemma model_path_inj t m v t' m' v' : model_path t m v = model_path t' m' v' -> t = t' /\ m = m' /\ v = v'.
Proof. intros H%app_inv_head. by injection H. Qed.

Lemma meta_path_inj t m t' m' : meta_path models_dir t m = meta_path models_dir t' m' -> t = t' /\ m = m'.
Proof. intros H%app_inv_head. by injection H. Qed.

Lemma meta_not_model t m t' m' v : meta_path models_dir t m <> model_path t' m' v.
Proof. intros H%app_inv_head. discriminate H. Qed.

Lemma below_model t m t' m' v : models_dir ++ [t; m] `prefix_of` model_path t' m' v -> (t, m) = (t', m').
Proof.
  intros [l H]. unfold model_path in H. rewrite <- app_assoc in H. apply app_inv_head in H. by injection H as -> ->.
Qed.

Lemma below_meta t m t' m' : models_dir ++ [t; m] `prefix_of` meta_path models_dir t' m' -> (t, m) = (t', m').
Proof.
  intros [l H]. unfold meta_path in H. rewrite <- app_assoc in H. apply app_inv_head in H. by injection H as -> ->.
Qed.

(** *** What every call respects, whatever the disk does *)

(** The metadata of the index are filed under their own identifiers, those on disk in their own directory. *)
Definition filed t m (meta : ModelMeta) : Prop := validate_ids t m = Ok () /\ tenant_id meta = t /\ model_id meta = m.
Record sound s : Prop := {
  so_index t m meta : index s !! (t, m) = Some meta -> filed t m meta;
  so_disk p bytes meta : disk s !! p = Some bytes -> meta_at models_dir (p, bytes) = Some meta ->
    p = meta_path models_dir (tenant_id meta) (model_id meta) /\ filed (tenant_id meta) (model_id meta) meta;
}.

(** Nothing outside the model [t], [m] is changed. *)
Record only t m s s' : Prop := {
  only_disk p : ~ models_dir ++ [t; m] `prefix_of` p -> disk s' !! p = disk s !! p;
  only_index k : k <> (t, m) -> index s' !! k = index s !! k;
  only_cache t' m' v : (t', m') <> (t, m) -> cache s' !! (t', m', v) = cache s !! (t', m', v);
}.

Lemma only_refl t m s : only t m s s.
Proof. done. Qed.
Lemma only_trans t m s1 s2 s3 : only t m s1 s2 -> only t m s2 s3 -> only t m s1 s3.
Proof.
  intros [D1 I1 C1] [D2 I2 C2]. constructor.
  - intros p Hp. by rewrite D2, D1.
  - intros k Hk. by rewrite I2, I1.
  - intros t' m' v Hk. by rewrite C2, C1.
Qed.

Definition model_of (c : Change) : list Z * list Z :=
  match c with Upload _ t m _ _ | Activate t m _ | Delete t m => (t, m) end.

(** The model of a call under way, and what it knows of it. *)
Definition concerns t m (p : Phase (OnnxModel := OnnxModel)) : Prop :=
  match p with
  | Started c => model_of c = (t, m)
  | PersistUpload meta => filed t m meta
  | PersistActive t' m' _ _ meta => (t', m') = (t, m) /\ filed t m meta
  | IndexActive t' m' _ _ | FillCache t' m' _ _ | RemoveFiles t' m' | RemoveIndex t' m' | RemoveCache t' m' =>
      (t', m') = (t, m) /\ validate_ids t m = Ok ()
  | Done (Ok (Uploaded meta)) => filed t m meta
  | Done _ => True
  end.

Lemma validate_ids_plain t m : validate_ids t m = Ok () -> plain t /\ plain m.
Proof.
  unfold validate_ids. destruct (validate_id t) as [[]|] eqn:E; [|done]. intros H. by split; apply validate_plain.
Qed.

Lemma meta_below t m : models_dir ++ [t; m] `prefix_of` meta_path models_dir t m.
Proof. exists [meta_json]. unfold meta_path. by rewrite <- app_assoc. Qed.
Lemma model_below t m v : models_dir ++ [t; m] `prefix_of` model_path t m v.
Proof. exists [v; model_onnx]. unfold model_path. by rewrite <- app_assoc. Qed.

Lemma write_file_only w p b d t m q :
  models_dir ++ [t; m] `prefix_of` p -> ~ models_dir ++ [t; m] `prefix_of` q -> (write_file w p b d).2 !! q = d !! q.
Proof.
  intros Hp Hq. assert (p <> q) as Hne by (intros ->; done).
  destruct w as [|[n|]]; cbn; [by rewrite lookup_insert_ne|by rewrite lookup_insert_ne|done].
Qed.

(** After a write the file is as before, or holds a beginning of the content. *)
Lemma write_file_at w p b d q x :
  (write_file w p b d).2 !! q = Some x -> d !! q = Some x \/ q = p /\ exists n, x = take n b.
Proof.
  destruct w as [|[n|]]; cbn; [| |by left].
  - intros [[<- <-]|[_ H]]%lookup_insert_Some; [right|by left]. split; [done|]. exists (length b). by rewrite firstn_all.
  - intros [[<- <-]|[_ H]]%lookup_insert_Some; [right|by left]. split; [done|by exists n].
Qed.

Lemma evict_other t m t' m' (v : list Z) (c : gmap (list Z * list Z * list Z) OnnxModel) :
  (t', m') <> (t, m) -> evict t m c !! (t', m', v) = c !! (t', m', v).
Proof.
  intros Hne. unfold evict. apply option_eq. intros x. rewrite map_lookup_filter_Some. cbn. split; [by intros []|]. by split.
Qed.

Lemma evict_same t m (v : list Z) (c : gmap (list Z * list Z * list Z) OnnxModel) : evict t m c !! (t, m, v) = None.
Proof. unfold evict. apply map_lookup_filter_None. right. intros x _ []. done. Qed.

Lemma remove_below_Some kept p d q x :
  remove_below kept p d !! q = Some x <-> d !! q = Some x /\ (~ p `prefix_of` q \/ kept q = true).
Proof. unfold remove_below. by rewrite map_lookup_filter_Some. Qed.

Lemma remove_below_other kept p d q : ~ p `prefix_of` q -> remove_below kept p d !! q = d !! q.
Proof. intros Hq. apply option_eq. intros x. rewrite remove_below_Some. split; [by intros []|]. intros ?. split; [done|by left]. Qed.

Lemma persist_only t m w meta s : filed t m meta -> only t m s (persist_meta models_dir w meta s).2.
Proof.
  intros (_ & <- & <-). unfold persist_meta. destruct (write_file _ _ _ _) as [ok d] eqn:E. constructor; cbn; [|done|done].
  intros p Hp. change d with ((ok, d).2). rewrite <- E. apply (write_file_only _ _ _ _ (tenant_id meta) (model_id meta)); [apply meta_below|done].
Qed.

Lemma upload_only io now t m name bytes s :
  validate_ids t m = Ok () -> only t m s (upload_locked models_dir io now t m name bytes s).2.
Proof.
  intros [Ht Hm]%validate_ids_plain. unfold upload_locked. cbv zeta. rewrite version_path by apply version_tag_plain.
  destruct (write_file _ _ _ _) as [ok d] eqn:E.
  assert (forall p, ~ models_dir ++ [t; m] `prefix_of` p -> d !! p = disk s !! p) as Hd.
  { intros p Hp. change d with ((ok, d).2). rewrite <- E. apply (write_file_only _ _ _ _ t m); [apply model_below|done]. }
  destruct ok; cbn; constructor; cbn; try done. intros k Hk. by rewrite lookup_insert_ne.
Qed.

Lemma locked_only t m v s : only t m s (activate_locked t m v s).2.
Proof. unfold activate_locked. destruct (index s !! (t, m)); [|done]. constructor; cbn; [done| |done]. intros. by rewrite lookup_insert_ne. Qed.

Lemma fill_only t m v model s : only t m s (fill_cache t m v model s).
Proof.
  constructor; [done|done|]. intros t' m' w Hne. cbn. rewrite lookup_insert_ne by congruence. by apply evict_other.
Qed.

Lemma files_only io t m s : only t m s (remove_files models_dir io t m s).2.
Proof.
  unfold remove_files. destruct (is_dir _ _); [|done]. destruct (removal io); constructor; cbn; try done; intros; by apply remove_below_other.
Qed.

Lemma remove_index_only t m s : only t m s (remove_index t m s).
Proof. constructor; [done| |done]. intros k Hk. cbn. by rewrite lookup_delete_ne. Qed.

Lemma remove_cache_only t m s : only t m s (remove_cache t m s).
Proof. constructor; [done|done|]. intros. by apply evict_other. Qed.

(** One step of a call stays within its model. *)
Lemma advance_only io p s t m :
  sound s -> concerns t m p -> only t m s (advance models_dir load io p s).2 /\ concerns t m (advance models_dir load io p s).1.
Proof.
  intros Hs Hp. destruct p as [[now t' m' name b|t' m' v|t' m']|meta|t' m' v x|t' m' v x meta|t' m' v x|t' m'|t' m'|t' m'|r];
    cbn [advance concerns model_of] in *.
  - injection Hp as -> ->. destruct (validate_ids t m) as [[]|] eqn:E; [|done].
    pose proof (upload_only io now t m name b s E) as Ho.
    destruct (upload_locked models_dir io now t m name b s) as [[meta|e] s1] eqn:Eu; [|done]. split; [exact Ho|]. cbn.
    unfold upload_locked in Eu. destruct (write_file _ _ _ _) as [ok d]. destruct ok; [|done]. cbn in Eu. injection Eu as <- <-.
    unfold filed. cbn. destruct (index s !! (t, m)) as [meta|] eqn:Ex; cbn; [|done]. by destruct (so_index s Hs t m meta Ex) as (_ & -> & ->).
  - injection Hp as -> ->. destruct (activate_load _ _ _ _ _ _ _) as [model|] eqn:El; [|done]. cbn. split; [done|]. split; [done|].
    unfold activate_load in El. by destruct (validate_ids t m) as [[]|].
  - injection Hp as -> ->. destruct (delete_allowed t m s) as [[]|] eqn:Ed; [|done]. cbn. split; [done|]. split; [done|].
    unfold delete_allowed in Ed. by destruct (validate_ids t m) as [[]|].
  - pose proof (persist_only t m (meta_write io) meta s Hp) as Ho. by destruct (persist_meta _ _ _ _) as [[]].
  - destruct Hp as [[= -> ->] Hv]. pose proof (locked_only t m v s) as Ho. unfold activate_locked in *.
    destruct (index s !! (t, m)) as [meta|] eqn:Ex; [|done]. cbn in *. split; [done|]. split; [done|].
    by destruct (so_index s Hs t m meta Ex).
  - destruct Hp as [[= -> ->] Hv]. pose proof (persist_only t m (meta_write io) meta s Hv) as Ho.
    destruct (persist_meta _ _ _ _) as [[]]; [|done]. split; [done|]. by destruct Hv.
  - destruct Hp as [[= -> ->] Hv]. split; [apply fill_only|done].
  - destruct Hp as [[= -> ->] Hv]. pose proof (files_only io t m s) as Ho. by destruct (remove_files _ _ _ _ _) as [[]].
  - destruct Hp as [[= -> ->] Hv]. split; [apply remove_index_only|done].
  - destruct Hp as [[= -> ->] Hv]. split; [apply remove_cache_only|done].
  - done.
Qed.

(** A metadata file two directories below the root is the one of that model. *)
Lemma meta_at_meta t m bytes meta : meta_at models_dir (meta_path models_dir t m, bytes) = Some meta <-> from_str bytes = Some meta.
Proof.
  unfold meta_at. cbn [fst snd]. rewrite bool_decide_eq_true_2 by by eexists. unfold meta_path. rewrite drop_app_length.
  by rewrite bool_decide_eq_true_2.
Qed.
Lemma meta_at_model t m v bytes : meta_at models_dir (model_path t m v, bytes) = None.
Proof.
  unfold meta_at. cbn [fst snd]. rewrite bool_decide_eq_true_2 by by eexists. unfold model_path. by rewrite drop_app_length.
Qed.

Lemma sound_index s i c : sound s -> (forall t m meta, i !! (t, m) = Some meta -> filed t m meta) -> sound (MkRegistry (disk s) i c).
Proof. intros [_ H]. by constructor. Qed.

Lemma sound_disk s d :
  sound s -> (forall p bytes meta, d !! p = Some bytes -> meta_at models_dir (p, bytes) = Some meta -> disk s !! p = Some bytes \/
    p = meta_path models_dir (tenant_id meta) (model_id meta) /\ filed (tenant_id meta) (model_id meta) meta) -> sound (set_disk d s).
Proof.
  intros [Hi Hd] H. constructor; [done|]. intros p bytes meta Hp Hm. destruct (H p bytes meta Hp Hm) as [H'|]; [|done]. by apply Hd in Hm.
Qed.

Lemma persist_sound w t m meta s : sound s -> filed t m meta -> sound (persist_meta models_dir w meta s).2.
Proof.
  intros Hs Hm. unfold persist_meta. destruct (write_file _ _ _ _) as [ok d] eqn:E. apply sound_disk; [done|].
  intros p bytes meta' Hp Hat. change d with ((ok, d).2) in Hp. rewrite <- E in Hp.
  apply write_file_at in Hp as [Hp|[-> [n ->]]]; [by left|]. right. apply meta_at_meta, from_torn in Hat as ->.
  destruct Hm as (Hv & <- & <-). by repeat split.
Qed.

Lemma advance_sound io p s t m : sound s -> concerns t m p -> sound (advance models_dir load io p s).2.
Proof.
  intros Hs Hp. destruct (advance_only io p s t m Hs Hp) as [_ Ha].
  destruct p as [[now t' m' name b|t' m' v|t' m']|meta|t' m' v x|t' m' v x meta|t' m' v x|t' m'|t' m'|t' m'|r]; cbn [advance concerns model_of] in *.
  - injection Hp as -> ->. destruct (validate_ids t m) as [[]|] eqn:E; [|done].
    destruct (upload_locked models_dir io now t m name b s) as [r s1] eqn:Eu. unfold upload_locked in Eu. cbv zeta in Eu.
    rewrite version_path in Eu by apply version_tag_plain. destruct (write_file _ _ _ _) as [ok d] eqn:Ew.
    assert (sound (set_disk d s)) as Hd.
    { apply sound_disk; [done|]. intros p bytes meta Hb Hat. change d with ((ok, d).2) in Hb. rewrite <- Ew in Hb.
      apply write_file_at in Hb as [Hb|[-> [n ->]]]; [by left|]. by rewrite meta_at_model in Hat. }
    destruct ok; cbn in Eu; injection Eu as <- <-; [|exact Hd]. cbn in Ha. apply (sound_index (set_disk d s)); [exact Hd|].
    intros t' m' meta'. intros [[[= <- <-] <-]|[_ H]]%lookup_insert_Some; [exact Ha|by apply (so_index s Hs)].
  - by destruct (activate_load _ _ _ _ _ _ _).
  - by destruct (delete_allowed t' m' s).
  - pose proof (persist_sound (meta_write io) t m meta s Hs Hp). by destruct (persist_meta _ _ _ _) as [[]].
  - destruct Hp as [[= -> ->] Hv]. unfold activate_locked in *. destruct (index s !! (t, m)) as [meta|] eqn:Ex; [|done].
    cbn in *. apply sound_index; [done|]. intros t' m' meta' [[[= <- <-] <-]|[_ H]]%lookup_insert_Some; [apply Ha|by apply (so_index s Hs)].
  - destruct Hp as [_ Hv]. pose proof (persist_sound (meta_write io) t m meta s Hs Hv). by destruct (persist_meta _ _ _ _) as [[]].
  - apply sound_index; [done|]. by apply so_index.
  - assert (forall kept, sound (set_disk (remove_below kept (models_dir ++ [t'; m']) (disk s)) s)) as Hr.
    { intros kept. apply sound_disk; [done|]. intros p bytes meta [Hb _]%remove_below_Some _. by left. }
    unfold remove_files. destruct (is_dir _ _); [|done]. by destruct (removal io); apply Hr.
  - apply sound_index; [done|]. intros t0 m0 meta [_ H]%lookup_delete_Some. by apply (so_index s Hs).
  - apply sound_index; [done|]. by apply so_index.
  - done.
Qed.

(** Uninterrupted, the steps of a call are the call; four are enough. *)
Lemma advance_apply io c s :
  Nat.iter 4 (fun ps => advance models_dir load io ps.1 ps.2) (Started c, s) = (Done (apply models_dir load io c s).1, (apply models_dir load io c s).2).
Proof.
  destruct c as [now t m name b|t m v|t m]; cbn [Nat.iter nat_rect fst snd apply]; cbn [advance].
  - unfold upload. destruct (validate_ids t m); [|done]. destruct (upload_locked _ _ _ _ _ _ _ _) as [[meta|e] s1]; [|done].
    cbn [fst snd advance]. by destruct (persist_meta _ _ _ _) as [[]].
  - unfold activate. destruct (activate_load _ _ _ _ _ _ _) as [model|]; [|done]. cbn [fst snd advance].
    destruct (activate_locked _ _ _ _) as [[meta|] s1]; [|done]. cbn [fst snd advance].
    by destruct (persist_meta _ _ _ _) as [[]].
  - unfold delete_model. destruct (delete_allowed t m s); [|done]. cbn [fst snd advance].
    by destruct (remove_files _ _ _ _ _) as [[]].
Qed.

(** What one step preserves, a call that runs alone preserves. *)
Lemma apply_ind (P : ModelRegistry -> Prop) io c s :
  sound s -> P s ->
  (forall p s, sound s -> concerns (model_of c).1 (model_of c).2 p -> P s -> P (advance models_dir load io p s).2) ->
  P (apply models_dir load io c s).2.
Proof.
  intros Hs HP Hstep. pose proof (advance_apply io c s) as E. apply (f_equal snd) in E. cbn [snd] in E. rewrite <- E.
  enough (forall n, let ps := Nat.iter n (fun ps => advance models_dir load io ps.1 ps.2) (Started c, s) in
    sound ps.2 /\ concerns (model_of c).1 (model_of c).2 ps.1 /\ P ps.2) as H by apply (H 4%nat).
  induction n as [|n IH]; cbn; [by destruct c|]. destruct IH as (H1 & H2 & H3). split_and!.
  - by eapply advance_sound.
  - by apply advance_only.
  - by apply Hstep.
Qed.

Lemma apply_sound io c s : sound s -> sound (apply models_dir load io c s).2.
Proof. intros Hs. apply apply_ind; [done|done|]. intros p s0 _ Hp H. by eapply advance_sound. Qed.

Lemma apply_only io c s t m : model_of c = (t, m) -> sound s -> only t m s (apply models_dir load io c s).2.
Proof.
  intros Hc Hs. apply (apply_ind (only t m s)); [done|done|]. rewrite Hc. intros p s0 H0 Hp H.
  eapply only_trans; [done|]. by apply advance_only.
Qed.

Lemma foldr_insert {A K} `{Countable K} (key : A -> K) (l : list A) (k : K) (x : A) :
  (forall y z, y ∈ l -> z ∈ l -> key y = key z -> y = z) ->
  foldr (fun y i => <[key y := y]> i) (∅ : gmap K A) l !! k = Some x <-> x ∈ l /\ key x = k.
Proof.
  induction l as [|y l IH]; intros Hinj; cbn [foldr].
  - rewrite lookup_empty. split; [done|]. by intros [?%not_elem_of_nil].
  - rewrite lookup_insert_Some, IH by (intros ? ? ? ?; apply Hinj; by right). rewrite elem_of_cons. split.
    + intros [[<- ->]|(Hne & Hx & <-)]; [by split; [left|]|by split; [right|]].
    + intros [[->|Hx] <-]; [by left|]. destruct (decide (key y = key x)) as [E|]; [|by right].
      left. split; [done|]. apply Hinj; [by left|by right|done].
Qed.

(** What a restart finds. *)
Lemma scan_spec s t m meta :
  sound s -> scan_disk models_dir (disk s) !! (t, m) = Some meta <->
  exists bytes, disk s !! meta_path models_dir t m = Some bytes /\ from_str bytes = Some meta /\ filed t m meta.
Proof.
  intros Hs. unfold scan_disk. set (l := omap _ _).
  assert (forall meta, meta ∈ l <-> exists bytes, disk s !! meta_path models_dir (tenant_id meta) (model_id meta) = Some bytes /\
    from_str bytes = Some meta /\ filed (tenant_id meta) (model_id meta) meta) as Hl.
  { intros x. unfold l. rewrite list_elem_of_omap. split.
    - intros ((p & b) & Hin%elem_of_map_to_list & Hm). pose proof (so_disk s Hs p b x Hin Hm) as [-> Hf].
      exists b. by rewrite <- meta_at_meta.
    - intros (b & Hb & Hm & _). eexists (_, b). split; [by apply elem_of_map_to_list|by apply meta_at_meta]. }
  rewrite (foldr_insert (fun meta => (tenant_id meta, model_id meta))).
  - rewrite Hl. split.
    + by intros [H [= <- <-]].
    + intros (b & Hb & Hm & Hv & <- & <-). split; [|done]. by exists b.
  - intros y z (b & Hb & Hm & _)%Hl (b' & Hb' & Hm' & _)%Hl [= E1 E2]. rewrite E1, E2 in Hb. congruence.
Qed.

Lemma new_sound d : sound (MkRegistry d ∅ ∅) -> sound (new models_dir d).
Proof.
  intros Hs. constructor; [|by apply (so_disk _ Hs)]. intros t m meta H. apply (scan_spec (MkRegistry d ∅ ∅) t m meta Hs) in H.
  by destruct H as (_ & _ & _ & H).
Qed.

Lemma run_op_sound o s : sound s -> sound (run_op o s).
Proof.
  intros Hs. destruct o as [io c|]; [by apply apply_sound|]. apply new_sound. constructor; [by intros|by apply (so_disk _ Hs)].
Qed.

(** *** One model and its files *)

(** A version and its file. *)
Definition version_ok d t m (k : nat) (ver : ModelVersion) : Prop :=
  version ver = version_tag (k + 1) /\
  exists bytes, d !! model_path t m (version ver) = Some bytes /\ sha256 ver = digest_hex bytes /\
    size_bytes ver = Z.of_nat (length bytes).

(** A file of the model is its metadata or the file of one of its versions. *)
Definition file_ok t m (o : option ModelMeta) (p : list (list Z)) : Prop :=
  exists meta, o = Some meta /\
    (p = meta_path models_dir t m \/ exists k ver, versions meta !! k = Some ver /\ p = model_path t m (version ver)).

(** A cached model is the one of the active version; under the tag of an uploaded version it
    was loaded from the file of that version. *)
Definition cached_ok s t m v (model : OnnxModel) : Prop :=
  exists meta, index s !! (t, m) = Some meta /\ active_version meta = Some v /\
    (forall k, v = version_tag k -> exists bytes, disk s !! model_path t m v = Some bytes /\ load bytes = Ok model).

Record model_inv s t m : Prop := {
  mi_disk meta : index s !! (t, m) = Some meta -> disk s !! meta_path models_dir t m = Some (to_string_pretty meta);
  mi_versions meta k ver : index s !! (t, m) = Some meta -> versions meta !! k = Some ver -> version_ok (disk s) t m k ver;
  mi_files p bytes : disk s !! p = Some bytes -> models_dir ++ [t; m] `prefix_of` p -> file_ok t m (index s !! (t, m)) p;
  mi_cache v model : cache s !! (t, m, v) = Some model -> cached_ok s t m v model;
}.

Lemma only_model t m s s' t' m' : only t' m' s s' -> (t', m') <> (t, m) -> model_inv s t m -> model_inv s' t m.
Proof.
  intros [Hd Hi Hc] Hne [H1 H2 H3 H4]. assert (index s' !! (t, m) = index s !! (t, m)) as Ei by by apply Hi.
  assert (forall p, models_dir ++ [t; m] `prefix_of` p -> disk s' !! p = disk s !! p) as Ed.
  { intros p [l ->]. apply Hd. intros [l' E]. rewrite <- !app_assoc in E. apply app_inv_head in E. injection E as -> -> _. done. }
  assert (forall v, disk s' !! model_path t m v = disk s !! model_path t m v) as Em by (intros; apply Ed, model_below).
  constructor.
  - intros meta. rewrite Ei, Ed by apply meta_below. apply H1.
  - intros meta k ver. rewrite Ei. intros Hx Hk. destruct (H2 meta k ver Hx Hk) as (? & b & Hb & ?). split; [done|]. exists b. by rewrite Em.
  - intros p b Hp Hpre. rewrite Ed in Hp by done. rewrite Ei. by eapply H3.
  - intros v model. rewrite Hc by done. intros Hv. destruct (H4 v model Hv) as (meta & Hx & Ha & Hl). exists meta. rewrite Ei. split_and!; [done|done|].
    intros k Hk. rewrite Em. by eapply Hl.
Qed.

(** The disk does what it is asked to. *)
Definition smooth (io : Io) : bool :=
  match model_write io, meta_write io, removal io with Written, Written, None => true | _, _, _ => false end.

Lemma smooth_writes io : smooth io = true -> model_write io = Written /\ meta_write io = Written /\ removal io = None.
Proof. unfold smooth. by destruct (model_write io), (meta_write io), (removal io). Qed.

Lemma persist_smooth meta s : persist_meta models_dir Written meta s =
  (Ok (), set_disk (<[meta_path models_dir (tenant_id meta) (model_id meta) := to_string_pretty meta]> (disk s)) s).
Proof. done. Qed.

(** The next version has no file yet. *)
Lemma next_version_free s t m b k :
  model_inv s t m -> disk s !! model_path t m (version_tag k) = Some b ->
  (k < match index s !! (t, m) with Some meta => length (versions meta) | None => 0 end + 1)%nat.
Proof.
  intros Hi Hb. destruct (mi_files _ _ _ Hi _ _ Hb (model_below _ _ _)) as (meta & Ex & [E|(j & ver & Hj & E)]).
  - by symmetry in E; apply meta_not_model in E.
  - rewrite Ex. apply model_path_inj in E as (_ & _ & E). destruct (mi_versions _ _ _ Hi _ _ _ Ex Hj) as [E' _].
    rewrite E' in E. apply version_tag_inj in E. apply lookup_lt_Some in Hj. lia.
Qed.

(** A new version appended to the metadata, with its file. *)
Lemma add_version s t m meta ver bytes :
  model_inv s t m -> let old := match index s !! (t, m) with Some meta0 => versions meta0 | None => [] end in
  versions meta = old ++ [ver] -> version_ok (<[model_path t m (version ver) := bytes]> (disk s)) t m (length old) ver ->
  active_version meta = (index s !! (t, m) ≫= active_version) ->
  model_inv (MkRegistry (<[meta_path models_dir t m := to_string_pretty meta]> (<[model_path t m (version ver) := bytes]> (disk s)))
               (<[(t, m) := meta]> (index s)) (cache s)) t m.
Proof.
  intros Hi old Hvs Hver Ha. pose proof Hver as [Etag _].
  assert (forall v b, disk s !! model_path t m v = Some b -> (exists k, v = version_tag k) ->
    <[meta_path models_dir t m := to_string_pretty meta]> (<[model_path t m (version ver) := bytes]> (disk s)) !! model_path t m v = Some b) as Hold.
  { intros v b Hb [k ->]. rewrite lookup_insert_ne by apply meta_not_model. rewrite lookup_insert_ne; [done|].
    rewrite Etag. intros (_ & _ & E)%model_path_inj. apply version_tag_inj in E as <-.
    apply (next_version_free s t m) in Hb; [|done]. unfold old in Hb. destruct (index s !! (t, m)); cbn in Hb; lia. }
  constructor; cbn [disk index cache].
  - intros x. rewrite lookup_insert_eq. intros [= <-]. by rewrite lookup_insert_eq.
  - intros x k v. rewrite lookup_insert_eq. intros [= <-]. rewrite Hvs. intros [Hk|[Hge Hk]]%lookup_app_Some.
    + unfold old in Hk. destruct (index s !! (t, m)) as [meta0|] eqn:Ex; [|done].
      destruct (mi_versions _ _ _ Hi _ _ _ Ex Hk) as (E & b & Hb & H). split; [done|]. exists b. split; [|done].
      apply Hold; [done|by eexists].
    + apply list_lookup_singleton_Some in Hk as [Hz <-]. replace k with (length old) by lia.
      destruct Hver as (E & b & Hb & H). split; [done|]. exists b. split; [|done]. by rewrite lookup_insert_ne by apply meta_not_model.
  - intros p b Hb Hpre. rewrite lookup_insert_eq. exists meta. split; [done|]. apply lookup_insert_Some in Hb as [[<- _]|[_ Hb]]; [by left|].
    apply lookup_insert_Some in Hb as [[<- _]|[_ Hb]].
    { right. exists (length old), ver. split; [|done]. rewrite Hvs. by apply list_lookup_middle. }
    destruct (mi_files _ _ _ Hi _ _ Hb Hpre) as (meta0 & Ex & [?|(k & w & Hk & ->)]); [by left|]. right. exists k, w.
    split; [|done]. rewrite Hvs. apply lookup_app_l_Some. unfold old. by rewrite Ex.
  - intros v model Hc. destruct (mi_cache _ _ _ Hi _ _ Hc) as (meta0 & Ex & Ea & Hl). exists meta. cbn [disk index].
    rewrite lookup_insert_eq. split_and!; [done|by rewrite Ha, Ex|]. intros k Hk. destruct (Hl k Hk) as (b & Hb & Hlb).
    exists b. split; [|done]. apply Hold; [done|by eexists].
Qed.

Lemma upload_model io now t m name bytes s :
  smooth io = true -> sound s -> model_inv s t m -> model_inv (upload models_dir io now t m name bytes s).2 t m.
Proof.
  intros (Ew & Em & _)%smooth_writes Hs Hi. unfold upload. destruct (validate_ids t m) as [[]|]; [|done].
  unfold upload_locked. cbv zeta. rewrite Ew. cbn [write_file negb]. rewrite version_path by apply version_tag_plain.
  rewrite Em, persist_smooth. cbn [snd set_disk disk index cache tenant_id model_id].
  set (ver := MkVersion _ _ _ _). set (base := default _ _). set (meta := MkMeta _ _ _ _ _).
  assert (tenant_id base = t /\ model_id base = m) as [Et Emo].
  { unfold base. destruct (index s !! (t, m)) as [x|] eqn:E; [|done]. by destruct (so_index s Hs t m x E) as (_ & ? & ?). }
  rewrite Et, Emo.
  assert (versions base = match index s !! (t, m) with Some meta0 => versions meta0 | None => [] end) as Eb.
  { unfold base. by destruct (index s !! (t, m)). }
  change (version_tag _) with (version ver). apply (add_version s t m meta ver bytes Hi); [by cbn; rewrite Eb| |].
  - split; [|exists bytes; split; [by rewrite lookup_insert_eq|done]]. cbn. by destruct (index s !! (t, m)).
  - cbn. unfold base. by destruct (index s !! (t, m)).
Qed.

Lemma activate_model io t m v s :
  smooth io = true -> sound s -> model_inv s t m -> model_inv (activate models_dir load io t m v s).2 t m.
Proof.
  intros (_ & Ew & _)%smooth_writes Hs Hi. unfold activate. destruct (activate_load _ _ _ _ _ _ _) as [model|] eqn:El; [|done].
  unfold activate_locked. destruct (index s !! (t, m)) as [meta|] eqn:Ex; [|done]. rewrite Ew, persist_smooth.
  cbn [snd set_disk disk index cache tenant_id model_id fill_cache]. set (meta' := MkMeta _ _ _ _ _).
  destruct (so_index s Hs t m meta Ex) as (_ & -> & ->).
  assert (forall w, <[meta_path models_dir t m := to_string_pretty meta']> (disk s) !! model_path t m w = disk s !! model_path t m w) as Hm
    by (intros; by rewrite lookup_insert_ne by apply meta_not_model).
  constructor; cbn [disk index cache fill_cache set_disk].
  - intros x. rewrite lookup_insert_eq. intros [= <-]. by rewrite lookup_insert_eq.
  - intros x k ver. rewrite lookup_insert_eq. intros [= <-] Hk. destruct (mi_versions _ _ _ Hi _ _ _ Ex Hk) as (E & b & Hb & H).
    split; [done|]. exists b. by rewrite Hm.
  - intros p b Hb Hpre. rewrite lookup_insert_eq. exists meta'. split; [done|]. apply lookup_insert_Some in Hb as [[<- _]|[_ Hb]]; [by left|].
    destruct (mi_files _ _ _ Hi _ _ Hb Hpre) as (x & Ex' & H). rewrite Ex in Ex'. by injection Ex' as <-.
  - intros w x [[[= <-] <-]|[Hne H]]%lookup_insert_Some.
    + exists meta'. cbn [disk index fill_cache set_disk]. rewrite lookup_insert_eq. split_and!; [done|done|]. intros k ->. rewrite Hm.
      unfold activate_load in El. destruct (validate_ids t m) as [[]|] eqn:Ev; [|done]. apply validate_ids_plain in Ev as [Ht Hmo].
      rewrite read_version in El by auto using version_tag_plain. destruct (disk s !! _) as [b|]; [|done]. exists b. split; [done|].
      destruct (model_read io); [done|]. destruct (load b); [|done]. by injection El as ->.
    + by rewrite evict_same in H.
Qed.

Lemma delete_model_inv io t m s : smooth io = true -> model_inv s t m -> model_inv (delete_model models_dir io t m s).2 t m.
Proof.
  intros (_ & _ & Er)%smooth_writes Hi. unfold delete_model. destruct (delete_allowed t m s); [|done].
  unfold remove_files. rewrite Er.
  assert (forall d, (forall p b, d !! p = Some b -> ~ models_dir ++ [t; m] `prefix_of` p) ->
    model_inv (remove_cache t m (remove_index t m (set_disk d s))) t m) as H.
  { intros d Hd. constructor; cbn [remove_cache remove_index set_disk disk index cache].
    - intros x. by rewrite lookup_delete_eq.
    - intros x k v. by rewrite lookup_delete_eq.
    - intros p b Hb Hpre. by destruct (Hd p b Hb).
    - intros v x. by rewrite evict_same. }
  destruct (is_dir (disk s) (models_dir ++ [t; m])) eqn:E; cbn [snd].
  - apply H. intros p b [_ [Hp|Hp]]%remove_below_Some; done.
  - replace s with (set_disk (disk s) s) by by destruct s. apply H. intros p b Hb Hpre.
    assert (is_dir (disk s) (models_dir ++ [t; m]) = true); [|congruence]. apply existsb_exists. exists (p, b).
    split; [by apply list_elem_of_In, elem_of_map_to_list|]. cbn [fst]. rewrite bool_decide_eq_true_2 by done.
    rewrite bool_decide_eq_false_2; [done|]. intros ->.
    destruct (mi_files _ _ _ Hi _ _ Hb Hpre) as (x & _ & [E'|(k & v & _ & E')]); apply app_inv_head in E'; discriminate E'.
Qed.

(** A restart finds the entry again. *)
Lemma restart_entry s t m : sound s -> model_inv s t m -> index (OnnxModel := OnnxModel) (new models_dir (disk s)) !! (t, m) = index s !! (t, m).
Proof.
  intros Hs Hi. apply option_eq. intros meta. cbn [new index]. rewrite scan_spec by done. split.
  - intros (b & Hb & Hm & _). destruct (mi_files _ _ _ Hi _ _ Hb (meta_below _ _)) as (x & Ex & _).
    rewrite (mi_disk _ _ _ Hi x Ex) in Hb. injection Hb as <-. rewrite from_to_string in Hm. by injection Hm as <-.
  - intros Hx. exists (to_string_pretty meta). rewrite from_to_string. split_and!; [by apply (mi_disk _ _ _ Hi)|done|by apply (so_index s Hs)].
Qed.

(** A call on another model, whatever the disk does to it, or one the disk serves. *)
Definition unharmed t m (o : Op) : Prop :=
  match o with Apply io c => model_of c = (t, m) -> smooth io = true | Restart => True end.

Lemma run_op_model o s t m : unharmed t m o -> sound s -> model_inv s t m -> model_inv (run_op o s) t m.
Proof.
  intros Ho Hs Hi. destruct o as [io c|]; cbn [registry.run_op] in *.
  - destruct (decide (model_of c = (t, m))) as [E|Hne].
    + specialize (Ho E). destruct c as [now t' m' name b|t' m' v|t' m']; injection E as -> ->; cbn [apply].
      * pose proof (upload_model io now t m name b s Ho Hs Hi). by destruct (upload _ _ _ _ _ _ _ _).
      * pose proof (activate_model io t m v s Ho Hs Hi). by destruct (activate _ _ _ _ _ _ _).
      * pose proof (delete_model_inv io t m s Ho Hi). by destruct (delete_model _ _ _ _ _).
    + destruct (model_of c) as [t' m'] eqn:E. by apply (only_model t m s _ t' m'); [apply apply_only|congruence|].
  - pose proof (restart_entry s t m Hs Hi) as E. cbn [new index] in E.
    destruct Hi as [H1 H2 H3 H4]. constructor; cbn [new disk index cache]; rewrite ?E; try done.
Qed.

(** Nothing below the root. *)
Definition fresh d : Prop := forall p bytes, d !! p = Some bytes -> ~ models_dir `prefix_of` p.

Lemma new_fresh d : fresh d -> sound (new models_dir d) /\ forall t m, model_inv (new models_dir d) t m.
Proof.
  intros Hf. assert (sound (MkRegistry d ∅ ∅)) as H0.
  { constructor; [by intros|]. intros p b meta Hb Hm. unfold meta_at in Hm. cbn [fst] in Hm.
    rewrite bool_decide_eq_false_2 in Hm; [done|]. by eapply Hf. }
  assert (sound (new models_dir d)) as Hs by by apply new_sound. split; [done|]. intros t m.
  assert (forall p b, d !! p = Some b -> ~ models_dir ++ [t; m] `prefix_of` p) as Hd.
  { intros p b Hb [l ->]. apply (Hf _ b Hb). exists ([t; m] ++ l). by rewrite app_assoc. }
  assert (index (OnnxModel := OnnxModel) (new models_dir d) !! (t, m) = None) as E.
  { apply eq_None_not_Some. intros [x Hx]. apply (scan_spec (MkRegistry d ∅ ∅) t m x H0) in Hx as (b & Hb & _).
    by apply (Hd _ b Hb), meta_below. }
  constructor; rewrite ?E; try done.
  - intros p b Hb Hpre. by destruct (Hd p b Hb).
Qed.

Lemma run_model ops d t m : fresh d -> Forall (unharmed t m) ops ->
  let s := run ops (new models_dir d) in sound s /\ model_inv s t m.
Proof.
  intros Hf Ho. cbv zeta. destruct (new_fresh d Hf) as [Hs Hi]. specialize (Hi t m). revert Hs Hi. generalize (new (OnnxModel := OnnxModel) models_dir d).
  induction Ho as [|o ops Ho _ IH]; intros s Hs Hi; [done|]. apply (IH (run_op o s)); [by apply run_op_sound|by apply run_op_model].
Qed.

(** C40: calls that run one after another, and restarts, on a directory that starts empty.
    Take a model all of whose own calls the disk served; calls on other models may have failed
    half-way in any manner.  A restart would find exactly the model's entry of the index; its
    versions are numbered from 1 without gaps, each with its file, digest and size on disk; and
    when it is served under a tag of the form v<k>, that is the active version and the served
    model was loaded from the file of that very version. *)
Theorem registry_consistent d (ops : list Op) (t m : list Z) :
  fresh d -> Forall (unharmed t m) ops ->
  let s := run ops (new models_dir d) in
  get_model t m (new (OnnxModel := OnnxModel) models_dir (disk s)) = get_model t m s /\
  (forall meta k ver, get_model t m s = Some meta -> versions meta !! k = Some ver ->
     version ver = version_tag (k + 1) /\
     exists bytes, disk s !! model_path t m (version ver) = Some bytes /\ sha256 ver = digest_hex bytes /\
       size_bytes ver = Z.of_nat (length bytes)) /\
  (forall model, get_active_model t m s = Some model ->
     exists v, (get_model t m s ≫= active_version) = Some v /\
       forall k, v = version_tag k -> exists bytes, disk s !! model_path t m v = Some bytes /\ load bytes = Ok model).
Proof.
  intros Hf Ho. cbv zeta. destruct (run_model ops d t m Hf Ho) as [Hs Hi]. set (s := run ops _) in *. clearbody s. split_and!.
  - by apply restart_entry.
  - intros meta k ver Hm Hk. by apply (mi_versions _ _ _ Hi meta k ver).
  - intros model H. unfold get_active_model in H. destruct (index s !! (t, m)) as [meta|] eqn:Ex; [|done].
    cbn in H. destruct (active_version meta) as [v|] eqn:Ha; [|done]. cbn in H.
    destruct (mi_cache _ _ _ Hi v model H) as (meta' & Ex' & _ & Hv). exists v. split; [|done].
    unfold get_model. rewrite Ex. cbn. done.
Qed.

(** Any other call leaves the entry of a model and what is served alone. *)
Lemma only_served t m s s' t' m' :
  only t' m' s s' -> (t', m') <> (t, m) -> get_model t m s' = get_model t m s /\ get_active_model t m s' = get_active_model t m s.
Proof.
  intros [_ Hi Hc] Hne. unfold get_active_model, get_model. rewrite Hi by done. split; [done|].
  destruct (index s !! (t, m)) as [x|]; [|done]. cbn. destruct (active_version x); [|done]. cbn. by apply Hc.
Qed.

(** An uploaded version whose file loads can be activated, and is then the one served, and
    whatever other tenants do afterwards does not change what is served or listed. *)
Theorem uploaded_version_activates d (ops : list Op) (t m : list Z) (meta : ModelMeta) (ver : ModelVersion)
    (bytes : list Z) (model : OnnxModel) (others : list (Io * Change)) :
  fresh d -> Forall (unharmed t m) ops -> let s := run ops (new models_dir d) in
  get_model t m s = Some meta -> ver ∈ versions meta ->
  disk s !! model_path t m (version ver) = Some bytes -> load bytes = Ok model ->
  Forall (fun c => (model_of c.2).1 <> t) others ->
  let '(r, s') := activate models_dir load no_fault t m (version ver) s in
  let later := run ((fun c => Apply c.1 c.2) <$> others) s' in
  r = Ok model /\ get_active_model t m later = Some model /\ get_model t m later = get_model t m s'.
Proof.
  intros Hf Ho. cbv zeta. destruct (run_model ops d t m Hf Ho) as [Hs Hi]. set (s := run ops _) in *. clearbody s.
  intros Hm Hin Hd Hl Hot. unfold get_model in Hm. destruct (so_index s Hs t m meta Hm) as (Hv & _).
  apply list_elem_of_lookup in Hin as [k Hk]. destruct (mi_versions _ _ _ Hi meta k ver Hm Hk) as [E _].
  pose proof (apply_sound no_fault (Activate t m (version ver)) s Hs) as Hs'. cbn [apply] in Hs'.
  unfold activate, activate_load, activate_locked in *. pose proof (validate_ids_plain t m Hv) as [Ht Hmo].
  rewrite Hv, read_version, Hd in * by (try done; rewrite E; apply version_tag_plain). cbn [model_read no_fault] in *.
  rewrite Hl, Hm in *. cbn [snd fst meta_write no_fault] in *. rewrite persist_smooth in *. cbn [snd] in Hs'.
  set (s' := fill_cache _ _ _ _ _) in *. split; [done|].
  assert (get_active_model t m s' = Some model) as Ha.
  { unfold get_active_model, s'. cbn. rewrite lookup_insert_eq. cbn. by rewrite lookup_insert_eq. }
  clearbody s'. rewrite <- Ha. clear -Hot Hs' models_dir_normal LA. revert s' Hs'.
  induction Hot as [|[io c] others Hne _ IH]; intros s' Hs'; [done|]. cbn [fst snd] in *.
  change (run ((fun c => Apply c.1 c.2) <$> ((io, c) :: others)) s')
    with (run ((fun c => Apply c.1 c.2) <$> others) (apply models_dir load io c s').2).
  destruct (IH (apply models_dir load io c s').2) as [-> ->]; [by apply apply_sound|].
  destruct (only_served t m s' (apply models_dir load io c s').2 (model_of c).1 (model_of c).2) as [-> ->]; [| |done].
  - by apply apply_only; [destruct (model_of c)|].
  - intros [= H _]. done.
Qed.
End registry_theorems.

Module registry_examples.
Import unicode registry.

#[global] Instance version_eq_dec : EqDecision ModelVersion.
Proof. solve_decision. Defined.
#[global] Instance version_countable : Countable ModelVersion.
Proof.
  apply (inj_countable' (fun v => (version v, sha256 v, size_bytes v, uploaded_at v))
           (fun '(a, b, c, d) => MkVersion a b c d)). by intros [].
Defined.
#[global] Instance meta_eq_dec : EqDecision ModelMeta.
Proof. solve_decision. Defined.
#[global] Instance meta_countable : Countable ModelMeta.
Proof.
  apply (inj_countable' (fun m => (tenant_id m, model_id m, display_name m, versions m, active_version m))
           (fun '(a, b, c, d, e) => MkMeta a b c d e)). by intros [].
Defined.

(** A digest that keeps the content, metadata as one big number, ASCII letters and digits. *)
#[global] Instance lib : Lib := {|
  digest_hex b := b;
  to_string_pretty m := [Z.pos (encode m)];
  from_str l := match l with [Z.pos p] => decode p | _ => None end;
  is_alphanumeric c := ((48 <=? c) && (c <=? 57)) || ((65 <=? c) && (c <=? 90)) || ((97 <=? c) && (c <=? 122));
|}.
#[global] Instance lib_laws : LibLaws.
Proof.
  constructor; [intros m; apply decode_encode| |done|done].
  intros m n m'. destruct n as [|n]; cbn; [done|]. rewrite firstn_nil. rewrite decode_encode. by intros [= <-].
Qed.

Definition root : list (list Z) := [of_string "models"].
Definition load (b : list Z) : Result (list Z) (list Z) := match b with [] => Err (of_string "empty") | _ => Ok b end.

Definition bank := of_string "bank".
Definition mallory := of_string "mallory".
Definition fraud := of_string "fraud".
Definition mine := of_string "mine".

Definition uploads : list Op :=
  Apply no_fault <$> [Upload 1 bank fraud None [42]; Upload 2 bank fraud None [43]; Upload 3 mallory mine None [7]].
Definition loaded : ModelRegistry (OnnxModel := list Z) := run root load uploads (new root ∅).

(** The version argument is not validated: it may lead anywhere on the disk, and a tenant can
    activate, and be served, the model of another. *)
Theorem activate_crosses_tenants :
  let r := activate root load no_fault mallory mine (of_string "../../bank/fraud/v1") loaded in
  r.1 = Ok [42] /\ get_active_model mallory mine r.2 = Some [42].
Proof. split; vm_refl. Qed.

(** Two uploads to one model: the lock is released before the metadata are written, so the
    first may write last.  A restart then forgets the second version, and the next upload
    takes its number and overwrites its file. *)
Fixpoint interleave (schedule : list (nat * Io)) (ps : list (Phase (OnnxModel := list Z))) s : list Phase * ModelRegistry :=
  match schedule with
  | [] => (ps, s)
  | (i, io) :: schedule =>
      match ps !! i with
      | Some p => let '(p, s) := advance root load io p s in interleave schedule (<[i := p]> ps) s
      | None => interleave schedule ps s
      end
  end.
Definition turns (l : list nat) : list (nat * Io) := (fun i => (i, no_fault)) <$> l.

Definition two_uploads : ModelRegistry (OnnxModel := list Z) :=
  (interleave (turns [0; 1; 1; 0]%nat) [Started (Upload 1 bank fraud None [42]); Started (Upload 2 bank fraud None [43])] (new root ∅)).2.

Example concurrent_uploads_lose_version :
  length <$> (versions <$> get_model bank fraud two_uploads) = Some 2%nat /\
  length <$> (versions <$> get_model bank fraud (run_op root load Restart two_uploads)) = Some 1%nat /\
  disk (run root load [Restart; Apply no_fault (Upload 3 bank fraud None [44])] two_uploads) !!
    (root ++ [bank; fraud; of_string "v2"; model_onnx]) = Some [44].
Proof. split_and!; vm_refl. Qed.

(** Two activations of one model: the index takes the last to have its lock, the cache the
    last to have the other, and then no model is served although both succeeded. *)
Definition v1 := version_tag 1.
Definition v2 := version_tag 2.
Definition two_activations : list Phase * ModelRegistry (OnnxModel := list Z) :=
  interleave (turns [0; 1; 0; 1; 0; 1; 1; 0]%nat) [Started (Activate bank fraud v1); Started (Activate bank fraud v2)] loaded.
Example concurrent_activations_unserve :
  two_activations.1 = [Done (Ok (NowActive v1 [42])); Done (Ok (NowActive v2 [43]))] /\
  (get_model bank fraud two_activations.2 ≫= active_version) = Some v2 /\ get_active_model bank fraud two_activations.2 = None.
Proof. split_and!; vm_refl. Qed.

(** A deletion that has found no active version does not look again: the activation that
    succeeds meanwhile is undone. *)
Definition deletion_and_activation : list Phase * ModelRegistry (OnnxModel := list Z) :=
  interleave (turns [0; 1; 1; 1; 1; 0; 0; 0]%nat) [Started (Delete bank fraud); Started (Activate bank fraud v1)] loaded.
Example deletion_undoes_activation :
  deletion_and_activation.1 = [Done (Ok Removed); Done (Ok (NowActive v1 [42]))] /\
  get_model bank fraud deletion_and_activation.2 = None.
Proof. split; vm_refl. Qed.

(** An activation whose metadata cannot be written fails, after it has changed the index: the
    version served until then is served no more, and a restart makes it the active one again. *)
Definition meta_fails : Io := MkIo Written (Torn None) None None.
Definition active1 : ModelRegistry (OnnxModel := list Z) := (activate root load no_fault bank fraud v1 loaded).2.
Definition failed2 := activate root load meta_fails bank fraud v2 active1.
Example failed_activation_unserves :
  failed2.1 = Err (NotPersisted bank fraud) /\
  get_active_model bank fraud active1 = Some [42] /\ get_active_model bank fraud failed2.2 = None /\
  (get_model bank fraud failed2.2 ≫= active_version) = Some v2 /\
  (get_model bank fraud (run_op root load Restart failed2.2) ≫= active_version) = Some v1.
Proof. split_and!; vm_refl. Qed.

(** An upload whose metadata cannot be written is answered with an error and stays listed. *)
Definition failed_upload := registry.upload root meta_fails 1 bank fraud None [42] (new (OnnxModel := list Z) root ∅).
Example failed_upload_listed :
  failed_upload.1 = Err (NotPersisted bank fraud) /\
  length <$> (versions <$> get_model bank fraud failed_upload.2) = Some 1%nat /\
  get_model bank fraud (run_op root load Restart failed_upload.2) = None.
Proof. split_and!; vm_refl. Qed.

Lemma normal_root : Forall (fun c => c <> [46; 46]) root.
Proof. by apply Forall_singleton. Qed.

Lemma fresh_empty : fresh root ∅.
Proof. intros p b H. by rewrite lookup_empty in H. Qed.

(** Another tenant's disk fails between the uploads. *)
Definition troubled : list Op :=
  uploads ++ [Apply no_fault (Activate bank fraud v2); Apply (MkIo (Torn (Some 0%nat)) Written None None) (Upload 4 mallory mine None [8; 9])].
Definition served : ModelRegistry (OnnxModel := list Z) := run root load troubled (new root ∅).

Lemma registry_consistent_witness :
  get_model bank fraud (new (OnnxModel := list Z) root (disk served)) = get_model bank fraud served /\
  exists v, (get_model bank fraud served ≫= active_version) = Some v.
Proof.
  destruct (registry_consistent root load normal_root ∅ troubled bank fraud fresh_empty) as (H & _ & Ha).
  { repeat apply Forall_cons_2; try apply Forall_nil_2; cbn [unharmed model_of]; done. }
  split; [exact H|]. destruct (Ha [43]) as (v & Hv & _); [vm_refl|]. by exists v.
Defined.

Lemma uploaded_version_activates_witness :
  exists s', activate root load no_fault bank fraud v1 loaded = (Ok [42], s') /\
    get_active_model bank fraud (run root load [Apply meta_fails (Upload 4 mallory mine None [8])] s') = Some [42].
Proof.
  destruct (get_model bank fraud loaded) as [meta|] eqn:Em; [|vm_compute in Em; discriminate Em].
  destruct (versions meta !! 0%nat) as [ver|] eqn:Ev.
  2:{ assert ((fun m => length (versions m)) <$> get_model bank fraud loaded = Some 2%nat) as H by vm_refl.
      rewrite Em in H. injection H as H. apply lookup_ge_None in Ev. lia. }
  assert (version ver = v1) as E.
  { assert ((get_model bank fraud loaded ≫= fun m => version <$> versions m !! 0%nat) = Some v1) as H by vm_refl.
    rewrite Em in H. cbn in H. rewrite Ev in H. by injection H. }
  pose proof (uploaded_version_activates root load normal_root ∅ uploads bank fraud meta ver [42] [42]
    [(meta_fails, Upload 4 mallory mine None [8])] fresh_empty) as H.
  rewrite E in H. change (registry.run root load uploads (new root ∅)) with loaded in H. cbv zeta in H.
  destruct (activate root load no_fault bank fraud v1 loaded) as [r s'].
  destruct H as (-> & Ha & _).
  - repeat apply Forall_cons_2; try apply Forall_nil_2; intros E0; (reflexivity || discriminate E0).
  - exact Em.
  - exact (list_elem_of_lookup_2 _ _ _ Ev).
  - vm_refl.
  - vm_refl.
  - apply Forall_singleton. discriminate.
  - exists s'. split; [reflexivity|exact Ha].
Defined.
End registry_examples.
