(* ===== verification/Onnx.v ===== *)
(** * core/inference: predictions and batched ONNX models

    [prediction] translates model.rs, [settings] config.rs and [onnx] the batched image models
    of onnx.rs; the text models are in TextModels.v.  The ONNX engine is the class [Tract];
    the text of an error is kept by its fixed part. *)

From stdpp Require Import base numbers list gmap strings.
From Stdlib Require Import ZArith Lia.
From S2P Require Import Prelude Inference Quantize ExactTensors Dataloader.

(** The float operations of softmax and of the normalisation; [f_total_leb a b] is
    [a.total_cmp(b) != Greater]. *)
Class OnnxF32 `{QF : QuantF32} := {
  f_neg_infinity : f32;
  f_sub : f32 -> f32 -> f32;
  f_exp : f32 -> f32;
  f_sqrt : f32 -> f32;
  f_total_leb : f32 -> f32 -> bool;
}.

(** [total_cmp] is a total order, [>] is transitive and irreflexive (with NaN as well). *)
Class OnnxF32Laws `{OnnxF32} : Prop := {
  total_trans a b c : f_total_leb a b = true -> f_total_leb b c = true -> f_total_leb a c = true;
  total_total a b : f_total_leb a b = true \/ f_total_leb b a = true;
  gtb_irrefl a : f_gtb a a = false;
  gtb_trans a b c : f_gtb a b = true -> f_gtb b c = true -> f_gtb a c = true;
}.

Module error.
Inductive Error :=
  | ModelNotFound (path : list Z)
  | ModelLoadFailed (reason : string)
  | InferenceFailed (reason : string)
  | InvalidModelFormat (reason : string)
  | ShapeMismatch (expected actual : nat)
  | Config (reason : string).
End error.

(** ** model.rs *)
Module prediction.
Section prediction.
Context `{OF : OnnxF32}.

Record Prediction : Type := MkPrediction {
  class_id : option Z;
  probabilities : option (list f32);
  raw_output : list f32;
  confidence : f32;
}.

Definition softmax (logits : list f32) : list f32 :=
  let max := foldl f_max f_neg_infinity logits in
  let exps := (fun x => f_exp (f_sub x max)) <$> logits in
  let sum := f_sum exps in
  (fun e => f_div e sum) <$> exps.

(** [enumerate().max_by(total_cmp)]: the last of the maximal entries. *)
Definition max_entry (l : list (nat * f32)) : option (nat * f32) :=
  match l with
  | [] => None
  | a :: l => Some (foldl (fun a b => if f_total_leb a.2 b.2 then b else a) a l)
  end.

Definition from_logits (logits : list f32) : Prediction :=
  let ps := softmax logits in
  let '(class, conf) := default (0%nat, f_of_Z 0) (max_entry (imap pair ps)) in
  MkPrediction (Some (as_unsigned 32 (Z.of_nat class))) (Some ps) logits conf.

Definition from_regression (output : list f32) : Prediction := MkPrediction None None output (f_of_Z 1).
End prediction.
End prediction.

(** ** config.rs *)
Module settings.
Import error.
Inductive Device := Cpu | Cuda | TensorRT.
Inductive OptimizationLevel := Disable | Basic | Extended | All.
#[global] Instance Device_eq_dec : EqDecision Device.
Proof. solve_decision. Defined.

Record InferenceConfig : Type := MkConfig {
  model_path : list Z;
  device : Device;
  batch_size : nat;
  intra_threads : nat;
  inter_threads : nat;
  optimization_level : OptimizationLevel;
  cuda_device_id : Z;
}.

Definition default_config : InferenceConfig := MkConfig [] Cpu 1 0 0 All 0.
Definition new (path : list Z) : InferenceConfig := MkConfig path Cpu 1 0 0 All 0.
Definition with_device (d : Device) (c : InferenceConfig) : InferenceConfig :=
  MkConfig (model_path c) d (batch_size c) (intra_threads c) (inter_threads c) (optimization_level c) (cuda_device_id c).
Definition with_batch_size (n : nat) (c : InferenceConfig) : InferenceConfig :=
  MkConfig (model_path c) (device c) n (intra_threads c) (inter_threads c) (optimization_level c) (cuda_device_id c).
Definition with_threads (intra inter : nat) (c : InferenceConfig) : InferenceConfig :=
  MkConfig (model_path c) (device c) (batch_size c) intra inter (optimization_level c) (cuda_device_id c).
Definition with_optimization (l : OptimizationLevel) (c : InferenceConfig) : InferenceConfig :=
  MkConfig (model_path c) (device c) (batch_size c) (intra_threads c) (inter_threads c) l (cuda_device_id c).
Definition with_cuda_device (n : Z) (c : InferenceConfig) : InferenceConfig :=
  MkConfig (model_path c) (device c) (batch_size c) (intra_threads c) (inter_threads c) (optimization_level c) n.

Definition validate (exists_ : list Z -> bool) (c : InferenceConfig) : Result unit Error :=
  if negb (exists_ (model_path c)) then Err (ModelNotFound (model_path c))
  else if (batch_size c =? 0)%nat then Err (Config "batch_size must be > 0")
  else Ok tt.
End settings.

(** ** The ONNX engine *)

(** A tensor that comes out has a shape and, when its elements are floats, its data.  A fact
    of a loaded model is a shape whose symbolic dimensions are [None]. *)
Class Tract `{F : F32} := {
  graph : Type;
  runnable : Type;
  model_for_path : list Z -> Result graph string;
  into_typed : graph -> Result graph string;
  into_optimized : graph -> Result graph string;
  into_decluttered : graph -> Result graph string;
  into_runnable : graph -> Result runnable string;
  (** every input set to [1, S] *)
  pinned : graph -> option graph;
  input_fact : runnable -> Result (list (option Z)) string;
  output_fact : runnable -> Result (list (option Z)) string;
  run_floats : runnable -> list nat -> list f32 -> Result (list (list nat * option (list f32))) string;
  run_ids : runnable -> list (list nat * list Z) -> Result (list (list nat * option (list f32))) string;
}.

(** ** onnx.rs *)
Module onnx.
Import error prediction settings.
Section onnx.
Context `{OF : OnnxF32, TR : !Tract}.

Record OnnxModel : Type := MkOnnx {
  model : runnable;
  config : InferenceConfig;
  input_shape : nat * nat * nat * nat;
  num_classes : option nat;
}.

Definition load_and_optimize (exists_ : list Z -> bool) (c : InferenceConfig) : Result runnable Error :=
  let? _ := validate exists_ c in
  let failed {A} (r : Result A string) := map_err ModelLoadFailed r in
  let? g := failed (model_for_path (model_path c)) in
  let? g := failed (into_typed g) in
  let? g := match optimization_level c with
            | Disable => Ok g
            | Basic => failed (into_optimized g)
            | Extended | All => let? g := failed (into_optimized g) in failed (into_decluttered g)
            end in
  failed (into_runnable g).

(** [as usize] of a dimension. *)
Definition to_usize (d : Z) : nat := Z.to_nat (as_unsigned 64 d).

Definition infer_metadata (r : runnable) : Result ((nat * nat * nat * nat) * option nat) Error :=
  let? shape := map_err InvalidModelFormat (input_fact r) in
  match shape with
  | [b; c; h; w] =>
      let concrete (d : option Z) := ok_or d (InvalidModelFormat "dimension not concrete") in
      let? c := concrete c in
      let? h := concrete h in
      let? w := concrete w in
      let? out := map_err InvalidModelFormat (output_fact r) in
      Ok ((to_usize (default 1 b), to_usize c, to_usize h, to_usize w),
          if (2 <=? length out)%nat then to_usize <$> mjoin (last out) else None)
  | _ => Err (InvalidModelFormat "expected 4D input (NCHW)")
  end.

Definition load (exists_ : list Z -> bool) (c : InferenceConfig) : Result OnnxModel Error :=
  if negb (bool_decide (device c = Cpu)) then Err (ModelLoadFailed "device is not supported by the Tract backend")
  else
    let? r := load_and_optimize exists_ c in
    let? m := infer_metadata r in
    Ok (MkOnnx r c m.1 m.2).

(** *** Batches *)

(** [data[idx] as f32 / 255.0] *)
Definition pixel (data : list Z) (idx : nat) : f32 := f_div (f_of_Z (nth idx data 0)) (f_of_Z 255).

(** Where [input_tensor[[b, ch, y, x]]] is. *)
Definition place (c h w b : nat) (p : nat * nat * nat) : nat :=
  let '(y, x, ch) := p in (((b * c + ch) * h + y) * w + x)%nat.

(** The loops over [y], [x] and [ch] for sample [b]; writing outside the tensor panics. *)
Definition fill_sample (c h w b : nat) (data : list Z) (tensor : list f32) : option (list f32) :=
  if (length tensor <? (b + 1) * (c * h * w))%nat then None
  else Some (foldl (fun t p => <[place c h w b p := pixel data (transform.src_of h w c p)]> t) tensor
               (transform.positions h w c)).

Fixpoint fill_batch (c h w b : nat) (samples : list types.Sample) (tensor : list f32) : option (Result (list f32) Error) :=
  match samples with
  | [] => Some (Ok tensor)
  | s :: samples =>
      if negb (length (types.data s) =? h * w * c)%nat
      then Some (Err (ShapeMismatch (h * w * c) (length (types.data s))))
      else match fill_sample c h w b (types.data s) tensor with
           | None => None
           | Some tensor => fill_batch c h w (S b) samples tensor
           end
  end.

(** [axis_iter(Axis(0))] of a matrix. *)
Definition rows_of (rows cols : nat) (data : list f32) : list (list f32) :=
  (fun i => take cols (drop (i * cols) data)) <$> seq 0 rows.

Definition predictions_of (batch_size : nat) (outputs : list (list nat * option (list f32))) : Result (list Prediction) Error :=
  match outputs with
  | [] => Err (InferenceFailed "model produced no outputs")
  | (_, None) :: _ => Err (InferenceFailed "extract output as f32")
  | ([rows; cols], Some data) :: _ =>
      let predictions := from_logits <$> rows_of rows cols data in
      if negb (length predictions =? batch_size)%nat then Err (InferenceFailed "output batch size mismatch")
      else Ok predictions
  | _ :: _ => Err (InferenceFailed "expected 2D output [batch, classes]")
  end.

(** [None] is a panic. *)
Definition run_batch_inner (m : OnnxModel) (samples : list types.Sample) (batch_size c h w : nat)
    : option (Result (list Prediction) Error) :=
  match fill_batch c h w 0 samples (replicate (batch_size * (c * h * w)) (f_of_Z 0)) with
  | None => None
  | Some (Err e) => Some (Err e)
  | Some (Ok tensor) =>
      Some (let? outputs := map_err InferenceFailed (run_floats (model m) [batch_size; c; h; w] tensor) in
            predictions_of batch_size outputs)
  end.

(** One chunk, padded with its last sample. *)
Definition run_chunk (m : OnnxModel) (batch_size c h w : nat) (chunk : list types.Sample) : option (Result (list Prediction) Error) :=
  if (length chunk <? batch_size)%nat
  then match last chunk with
       | None => None
       | Some last_sample =>
           match run_batch_inner m (chunk ++ replicate (batch_size - length chunk) last_sample) batch_size c h w with
           | None => None
           | Some r => Some (let? ps := r in Ok (take (length chunk) ps))
           end
       end
  else run_batch_inner m chunk batch_size c h w.

(** [samples.chunks(n)], at most [fuel] of them. *)
Fixpoint chunks (fuel n : nat) (samples : list types.Sample) : list (list types.Sample) :=
  match fuel, samples with
  | S fuel, _ :: _ => take n samples :: chunks fuel n (drop n samples)
  | _, _ => []
  end.

Fixpoint run_chunks (m : OnnxModel) (batch_size c h w : nat) (cs : list (list types.Sample)) (all : list Prediction)
    : option (Result (list Prediction) Error) :=
  match cs with
  | [] => Some (Ok all)
  | chunk :: cs =>
      match run_chunk m batch_size c h w chunk with
      | Some (Ok ps) => run_chunks m batch_size c h w cs (all ++ ps)
      | Some (Err e) => Some (Err e)
      | None => None
      end
  end.

Definition run_batch (m : OnnxModel) (samples : list types.Sample) : option (Result (list Prediction) Error) :=
  match samples with
  | [] => Some (Ok [])
  | _ =>
      let '(model_batch_size, c, h, w) := input_shape m in
      if negb (length samples =? model_batch_size)%nat
      then if (model_batch_size =? 0)%nat then None
           else run_chunks m model_batch_size c h w (chunks (length samples) model_batch_size samples) []
      else run_batch_inner m samples model_batch_size c h w
  end.
End onnx.
End onnx.

(** ** The predicted class *)
Section top_class.
Import prediction.
Context `{OF : OnnxF32, OL : !OnnxF32Laws}.

Lemma max_entry_spec l best :
  max_entry l = Some best ->
  best ∈ l /\ forall e, e ∈ l -> f_total_leb e.2 best.2 = true.
Proof.
  destruct l as [|a l]; [done|]. intros [= <-]. revert a. induction l as [|b l IH] using rev_ind; intros a.
  - cbn. split; [by left|]. intros e ->%list_elem_of_singleton. by destruct (total_total a.2 a.2).
  - rewrite foldl_app. destruct (IH a) as [Hin Hle]. cbn [foldl]. set (m := foldl _ a l) in *.
    destruct (f_total_leb m.2 b.2) eqn:E.
    + split; [rewrite app_comm_cons; apply elem_of_app; right; by left|].
      intros e He. rewrite app_comm_cons in He. apply elem_of_app in He as [He| ->%list_elem_of_singleton].
      * eapply total_trans; [by apply Hle|done].
      * by destruct (total_total b.2 b.2).
    + split; [rewrite app_comm_cons; apply elem_of_app; by left|].
      intros e He. rewrite app_comm_cons in He. apply elem_of_app in He as [He| ->%list_elem_of_singleton]; [by apply Hle|].
      destruct (total_total m.2 b.2) as [H1|H1]; congruence.
Qed.

(** the predicted class is one of the model's classes, its probability is the reported
    confidence and no other class is more probable. *)
Theorem top_class_correct (logits : list f32) :
  (0 < length logits)%nat -> Z.of_nat (length logits) < 2 ^ 32 ->
  exists k p, class_id (from_logits logits) = Some (Z.of_nat k) /\ softmax logits !! k = Some p /\
    confidence (from_logits logits) = p /\ probabilities (from_logits logits) = Some (softmax logits) /\
    forall q, q ∈ softmax logits -> f_total_leb q p = true.
Proof.
  intros Hpos Hlen. unfold from_logits. assert (length (softmax logits) = length logits) as Hl by (unfold softmax; by rewrite !length_fmap).
  destruct (max_entry (imap pair (softmax logits))) as [[k p]|] eqn:E.
  2: { destruct (softmax logits); [cbn in Hl; lia|done]. }
  apply max_entry_spec in E as [Hin Hle]. apply elem_of_lookup_imap in Hin as (k' & p' & [= <- <-] & Hk).
  exists k, p. cbn. split_and!; try done.
  - f_equal. apply as_unsigned_id. apply lookup_lt_Some in Hk. split; [lia|].
    lia.
  - intros q Hq. apply list_elem_of_lookup in Hq as [i Hi]. apply (Hle (i, q)). apply elem_of_lookup_imap. by exists i, q.
Qed.
End top_class.

(** ** Batching is invisible *)
Section batching.
Import onnx prediction error.
Context `{OF : OnnxF32, TR : !Tract}.

(** A sample as the model gets it: channel by channel, row by row, in [0, 1]. *)
Definition planar (c h w : nat) (data : list Z) : list f32 :=
  (fun i => pixel data (transform.src_of h w c ((i / w) mod h, i mod w, i / (h * w)))%nat) <$> seq 0 (c * h * w).

Lemma foldl_insert_other {P A} (at_ : P -> nat) (value : P -> A) (ps : list P) (out : list A) (i : nat) :
  (forall p, p ∈ ps -> at_ p <> i) -> foldl (fun out p => <[at_ p := value p]> out) out ps !! i = out !! i.
Proof.
  revert out. induction ps as [|p ps IH]; intros out Hi; [done|]. cbn. rewrite IH by (intros q Hq; apply Hi; by right).
  apply list_lookup_insert_ne, Hi. by left.
Qed.

Lemma place_dst c h w b p : place c h w b p = (b * (c * h * w) + transform.dst_of h w c p)%nat.
Proof. destruct p as [[y x] ch]. cbn. lia. Qed.

Lemma position_of c h w j :
  (j < c * h * w)%nat ->
  let p := ((j / w) mod h, j mod w, j / (h * w))%nat in
  p ∈ transform.positions h w c /\ transform.dst_of h w c p = j.
Proof.
  intros Hj. assert (w <> 0 /\ h <> 0)%nat as [Hw Hh] by (split; intros ->; lia). cbv zeta.
  rewrite elem_of_positions. cbn [transform.dst_of]. split_and!.
  - by apply Nat.mod_upper_bound.
  - by apply Nat.mod_upper_bound.
  - apply Nat.Div0.div_lt_upper_bound. lia.
  - rewrite (Nat.mul_comm h w), <- Nat.Div0.div_div.
    pose proof (Nat.div_mod_eq j w). pose proof (Nat.div_mod_eq (j / w) h). nia.
Qed.

Lemma fill_sample_spec c h w b data tensor :
  ((b + 1) * (c * h * w) <= length tensor)%nat ->
  fill_sample c h w b data tensor =
    Some (take (b * (c * h * w)) tensor ++ planar c h w data ++ drop ((b + 1) * (c * h * w)) tensor).
Proof.
  intros Hlen. unfold fill_sample. rewrite (proj2 (Nat.ltb_ge _ _)) by done. f_equal.
  set (n := (c * h * w)%nat) in *. pose proof (foldl_insert_lookup (place c h w b)
    (fun p => pixel data (transform.src_of h w c p)) (transform.positions h w c) tensor) as Hf. cbv zeta in Hf.
  destruct Hf as [Hfl Hf].
  { intros p q Hp Hq E. rewrite !place_dst in E. by rewrite (dst_of_inj h w c p q) by (done || lia). }
  apply list_eq. intros i. destruct (decide (i < b * n)%nat) as [H1|H1]; [|destruct (decide (i < (b + 1) * n)%nat) as [H2|H2]].
  - rewrite lookup_app_l, lookup_take_lt by (rewrite ?length_take; lia).
    apply foldl_insert_other. intros p _. rewrite place_dst. fold n. lia.
  - rewrite lookup_app_r by (rewrite length_take; lia). rewrite length_take_le by lia.
    rewrite lookup_app_l by (unfold planar; rewrite length_fmap, length_seq; fold n; lia).
    unfold planar. rewrite list_lookup_fmap, lookup_seq_lt by (fold n; lia). cbn [fmap option_fmap option_map].
    destruct (position_of c h w (i - b * n)) as [Hin Hd]; [fold n; lia|].
    specialize (Hf _ Hin ltac:(rewrite place_dst, Hd; fold n; lia)). rewrite place_dst, Hd in Hf. fold n in Hf.
    replace (b * n + (i - b * n))%nat with i in Hf by lia. exact Hf.
  - rewrite foldl_insert_other; [|intros [[y x] ch] Hp%elem_of_positions; rewrite place_dst; pose proof (index_bound h w c y x ch Hp); fold n; lia].
    assert (length (planar c h w data) = n) as Hpl by (unfold planar; by rewrite length_fmap, length_seq).
    rewrite lookup_app_r, lookup_app_r, lookup_drop by (rewrite ?length_take, ?Hpl; lia). f_equal. rewrite length_take, Hpl. lia.
Qed.

Lemma fill_batch_spec c h w samples done rest b :
  Forall (fun s => length (types.data s) = (h * w * c)%nat) samples ->
  length done = (b * (c * h * w))%nat -> length rest = (length samples * (c * h * w))%nat ->
  fill_batch c h w b samples (done ++ rest) = Some (Ok (done ++ mjoin ((fun s => planar c h w (types.data s)) <$> samples))).
Proof.
  intros Hs. revert done rest b. induction Hs as [|s samples Hd _ IH]; intros done rest b Hb Hr.
  - cbn in *. destruct rest; [done|done].
  - cbn [fill_batch]. rewrite Hd, Nat.eqb_refl. cbn [negb]. set (n := (c * h * w)%nat) in *. cbn [length] in Hr.
    rewrite fill_sample_spec by (rewrite length_app; fold n; lia). fold n.
    rewrite take_app_length' by done. rewrite drop_app_ge by lia.
    assert (length (planar c h w (types.data s)) = n) as Hpl by (unfold planar; by rewrite length_fmap, length_seq).
    rewrite (assoc_L app), IH; [by rewrite fmap_cons, <- (assoc_L app)| |]; rewrite ?length_app, ?length_drop, ?Hpl; lia.
Qed.

Lemma rows_of_join k (ls : list (list f32)) : Forall (fun l => length l = k) ls -> rows_of (length ls) k (mjoin ls) = ls.
Proof.
  intros H. apply list_eq. intros i. unfold rows_of. rewrite list_lookup_fmap. destruct (decide (i < length ls)%nat) as [Hi|Hi].
  - rewrite lookup_seq_lt by done. destruct (lookup_lt_is_Some_2 ls i Hi) as [l Hl]. rewrite Hl. cbn. f_equal.
    by apply row_of_join.
  - by rewrite lookup_seq_ge, lookup_ge_None_2 by lia.
Qed.

Lemma chunks_spec fuel n samples :
  (0 < n)%nat -> (length samples <= fuel)%nat ->
  mjoin (chunks fuel n samples) = samples /\
  Forall (fun l => 0 < length l <= n)%nat (chunks fuel n samples).
Proof.
  intros Hn. revert samples. induction fuel as [|fuel IH]; intros samples Hf.
  - by destruct samples; [|cbn in Hf; lia].
  - destruct samples as [|s samples]; [done|].
    cbn [chunks]. destruct (IH (drop n (s :: samples))) as [Hj Hl]; [rewrite length_drop; cbn in *; lia|]. split.
    + transitivity (take n (s :: samples) ++ mjoin (chunks fuel n (drop n (s :: samples)))); [done|].
      rewrite Hj. apply take_drop.
    + constructor; [|done]. rewrite length_take. cbn. lia.
Qed.

(** *** A model whose rows do not depend on each other *)
Context (m : OnnxModel) (batch c h w k : nat) (f : list f32 -> list f32).
Hypothesis shape : input_shape m = (batch, c, h, w).
Hypothesis batch_pos : (0 < batch)%nat.
Hypothesis classes : forall x, length (f x) = k.
Hypothesis by_rows : forall inputs, length inputs = batch -> Forall (fun x => length x = c * h * w)%nat inputs ->
  run_floats (model m) [batch; c; h; w] (mjoin inputs) = Ok [([batch; k], Some (mjoin (f <$> inputs)))].

Definition predict_one (s : types.Sample) : Prediction := from_logits (f (planar c h w (types.data s))).
Definition sized (s : types.Sample) : Prop := length (types.data s) = (h * w * c)%nat.

Lemma full_batch samples :
  length samples = batch -> Forall sized samples ->
  run_batch_inner m samples batch c h w = Some (Ok (predict_one <$> samples)).
Proof.
  intros Hlen Hs. unfold run_batch_inner.
  pose proof (fill_batch_spec c h w samples [] (replicate (batch * (c * h * w)) (f_of_Z 0)) 0 Hs eq_refl) as Hfill.
  rewrite length_replicate, Hlen in Hfill. specialize (Hfill eq_refl). cbn [app] in Hfill. rewrite Hfill. f_equal.
  rewrite by_rows; [|by rewrite length_fmap|apply Forall_fmap, Forall_true; intros x; cbn; unfold planar; by rewrite length_fmap, length_seq].
  cbn [map_err rbind predictions_of].
  replace (rows_of batch k _) with (f <$> ((fun s => planar c h w (types.data s)) <$> samples)).
  2: { rewrite <- Hlen at 1. symmetry.
       replace (length samples) with (length (f <$> ((fun s => planar c h w (types.data s)) <$> samples))) by (by rewrite !length_fmap).
       apply rows_of_join, Forall_fmap, Forall_true. intros x. apply classes. }
  rewrite !length_fmap, Hlen, Nat.eqb_refl. cbn [negb]. by rewrite <- !list_fmap_compose.
Qed.

Lemma any_chunk samples :
  (0 < length samples <= batch)%nat -> Forall sized samples ->
  run_chunk m batch c h w samples = Some (Ok (predict_one <$> samples)).
Proof.
  intros Hlen Hs. unfold run_chunk. destruct (Nat.ltb_spec (length samples) batch) as [Hlt|Hge]; [|apply full_batch; [lia|done]].
  destruct (last samples) as [s|] eqn:El; [|apply last_None in El; subst; cbn in Hlen; lia].
  rewrite full_batch.
  - rewrite fmap_app. cbn. f_equal. f_equal. apply take_app_length'. by rewrite length_fmap.
  - rewrite length_app, length_replicate. lia.
  - apply Forall_app. split; [done|]. apply Forall_replicate. rewrite Forall_forall in Hs. apply Hs.
    rewrite last_lookup in El. by eapply list_elem_of_lookup_2.
Qed.

Lemma all_chunks cs all :
  Forall (fun l => 0 < length l <= batch)%nat cs -> Forall sized (mjoin cs) ->
  run_chunks m batch c h w cs all = Some (Ok (all ++ (predict_one <$> mjoin cs))).
Proof.
  intros H. revert all. induction H as [|l cs Hl _ IH]; intros all Hs; [cbn; by rewrite app_nil_r|].
  change (mjoin (l :: cs)) with (l ++ mjoin cs) in *. apply Forall_app in Hs as [Hs1 Hs2].
  cbn [run_chunks]. rewrite any_chunk, IH by done. by rewrite fmap_app, (assoc_L app).
Qed.

(** C27: batching, chunking and padding are invisible: a model of any fixed batch size, applied
    to any number of samples of the right size, returns for each sample, in order, the
    prediction from the logits of that sample alone. *)
Theorem batching_invisible (samples : list types.Sample) :
  Forall (fun s => length (types.data s) = h * w * c)%nat samples ->
  run_batch m samples = Some (Ok ((fun s => from_logits (f (planar c h w (types.data s)))) <$> samples)).
Proof.
  intros Hs. destruct samples as [|s samples]; [done|]. unfold run_batch. rewrite shape.
  set (l := s :: samples) in *. destruct (Nat.eqb_spec (length l) batch) as [He|Hne]; cbn [negb].
  - by apply full_batch.
  - rewrite (proj2 (Nat.eqb_neq _ _)) by lia.
    destruct (chunks_spec (length l) batch l batch_pos) as [Hj Hc]; [done|].
    rewrite all_chunks; [by rewrite Hj|done|by rewrite Hj].
Qed.
End batching.

(** ** A linear classifier *)
Module exact_onnx.
Import exact_tensors.

#[global] Instance ops : @OnnxF32 exact_f32 quant := {|
  f_neg_infinity := (-1000)%Z : @f32 exact_f32; f_sub := Z.sub; f_exp x := (2 ^ (x + 20))%Z; f_sqrt := Z.sqrt;
  f_total_leb := Z.leb;
|}.

#[global] Instance ops_laws : @OnnxF32Laws exact_f32 quant ops.
Proof.
  split; cbn; intros *.
  - rewrite !Z.leb_le. lia.
  - rewrite !Z.leb_le. lia.
  - apply Z.ltb_irrefl.
  - rewrite !Z.ltb_lt. lia.
Qed.

(** A model is a weight matrix, the rows of which are its classes; a text model scores the sum
    of the token ids in the same way. *)
#[global] Instance tract : @Tract exact_f32 := {|
  graph := list (list Z); runnable := list (list Z);
  model_for_path _ := Ok [[0; 1; 0; 0]; [0; 0; 0; 1]];
  into_typed := Ok; into_optimized := Ok; into_decluttered := Ok; into_runnable := Ok; pinned := Some;
  input_fact _ := Ok [Some 2; Some 1; Some 2; Some 2];
  output_fact w := Ok [Some 2; Some (Z.of_nat (length w))];
  run_floats w shape data :=
    match shape with
    | [b; c; h; wd] =>
        Ok [([b; length w], Some (mjoin ((fun i => (fun row => dot (take (c * h * wd) (drop (i * (c * h * wd)) data)) row) <$> w) <$> seq 0 b)))]
    | _ => Err "shape"
    end;
  run_ids w inputs :=
    match inputs with
    | ([1%nat; n], ids) :: _ => Ok [([1%nat; length w], Some ((fun row => dot [Zsum_with id ids] row) <$> w))]
    | _ => Err "inputs"
    end;
|}.
End exact_onnx.

Module onnx_examples.
Import onnx prediction exact_tensors exact_onnx.

Definition loaded : OnnxModel :=
  Eval vm_compute in match load (fun _ => true) (settings.new [47]) with Ok m => m | Err _ => MkOnnx [] (settings.new []) (0, 0, 0, 0)%nat None end.

Definition picture (a b : Z) : types.Sample := types.MkSample [0; a; 0; b] 0 types.NoMeta.

Lemma sample_rows (inputs : list (list Z)) n :
  length inputs = n -> Forall (fun x => length x = 4%nat) inputs ->
  (fun i => (fun row => dot (take 4 (drop (i * 4) (mjoin inputs))) row) <$> model loaded) <$> seq 0 n =
    ((fun x => (fun row => dot x row) <$> model loaded) <$> inputs).
Proof.
  intros Hn Hi. apply list_eq. intros i. rewrite !list_lookup_fmap. destruct (decide (i < n)%nat) as [Hlt|Hge].
  - rewrite lookup_seq_lt by done. destruct (lookup_lt_is_Some_2 inputs i) as [x Hx]; [lia|]. rewrite Hx. cbn [fmap option_fmap option_map].
    change (0 + i)%nat with i. by rewrite (row_of_join inputs 4 i x).
  - by rewrite lookup_seq_ge, (lookup_ge_None_2 inputs) by lia.
Qed.

(** Three pictures through a model of batch size two. *)
Lemma batching_invisible_witness :
  run_batch loaded [picture 255 0; picture 0 255; picture 255 255] =
    Some (Ok ((fun s => from_logits ((fun row => dot (planar 1 2 2 (types.data s)) row) <$> model loaded)) <$>
                [picture 255 0; picture 0 255; picture 255 255])).
Proof.
  apply (batching_invisible loaded 2 1 2 2 2 (fun x => (fun row => dot x row) <$> model loaded)).
  - reflexivity.
  - lia.
  - intros x. by rewrite length_fmap.
  - intros inputs Hn Hi. transitivity (Ok (E := string) [([2%nat; 2%nat], Some (mjoin
        ((fun i => (fun row => dot (take 4 (drop (i * 4) (mjoin inputs))) row) <$> model loaded) <$> seq 0 2)))]); [reflexivity|].
    pose proof (sample_rows inputs 2 Hn Hi) as E. apply (f_equal (fun l => Ok (E := string) [([2%nat; 2%nat], Some (mjoin l))])) in E. exact E.
  - repeat constructor.
Defined.

Lemma top_class_correct_witness :
  exists k p, class_id (from_logits [3; 5; 4]) = Some (Z.of_nat k) /\ softmax [3; 5; 4] !! k = Some p /\
    confidence (from_logits [3; 5; 4]) = p /\ probabilities (from_logits [3; 5; 4]) = Some (softmax [3; 5; 4]) /\
    forall q, q ∈ softmax [3; 5; 4] -> f_total_leb q p = true.
Proof. apply (top_class_correct (OF := ops) [3; 5; 4]); cbn; lia. Defined.

(** A batch dimension of zero panics as soon as there is a sample. *)
Lemma zero_batch_panics : run_batch (MkOnnx (model loaded) (settings.new []) (0, 1, 2, 2)%nat None) [picture 1 2] = None.
Proof. reflexivity. Qed.
End onnx_examples.
