(* ===== verification/TextModels.v ===== *)
(** * core/inference/text.rs: the text classifier and the sentence encoder

    [textmodel] translates [TextClassifier] and [TextEncoder]: special tokens, windows,
    scoring, pooling.  The tokenizer is the class [TextLib]; texts are lists of code points,
    token ids integers.  The parallel maps over windows compute every window; when several
    fail the error of the first one is returned here. *)

From stdpp Require Import base numbers list gmap strings.
From Stdlib Require Import ZArith Lia.
From S2P Require Import Prelude Inference Quantize ExactTensors Onnx.

Notation text := (list Z) (only parsing).

(** [encode tok text special] is the ids and the attention mask. *)
Class TextLib := {
  tokenizer : Type;
  from_file : text -> Result tokenizer string;
  encode : tokenizer -> text -> bool -> Result (list Z * list Z) string;
  unlimited : tokenizer -> Result tokenizer string;
}.

Module textmodel.
Import error prediction unicode Inference.text.
Section textmodel.
Context `{OF : OnnxF32, TR : !Tract, TL : !TextLib}.

(** *** Shared helpers *)

(** The graph is compiled with its inputs pinned, and again as exported when that fails. *)
Definition load_runnable (path : text) : Result runnable Error :=
  let load := map_err (fun e => ModelLoadFailed ("tract load: " +:+ e)) (model_for_path path) in
  let compile (g : graph) : Result runnable string := let? g := into_optimized g in into_runnable g in
  let? g := load in
  let retry (pinned_err : string) :=
    let? g := load in
    map_err (fun e => ModelLoadFailed (e +:+ " (with [1,S] inputs: " +:+ pinned_err +:+ ")")) (compile g) in
  match pinned g with
  | Some p => match compile p with Ok r => Ok r | Err e => retry e end
  | None => retry "could not pin input shape"
  end.

(** [1, seq] inputs by position. *)
Definition build_inputs (num_inputs : nat) (ids mask : list Z) : list (list nat * list Z) :=
  let shape := [1%nat; length ids] in
  if (3 <=? num_inputs)%nat then [(shape, ids); (shape, mask); (shape, replicate (length ids) 0)]
  else [(shape, ids); (shape, mask)].

(** The mask has the shape of the ids, or [from_shape_vec] fails. *)
Definition checked_inputs (num_inputs : nat) (ids mask : list Z) : Result (list (list nat * list Z)) Error :=
  if (length mask =? length ids)%nat then Ok (build_inputs num_inputs ids mask)
  else Err (InferenceFailed "attention_mask shape").

Definition encoded (tok : tokenizer) (t : text) (special : bool) : Result (list Z * list Z) Error :=
  map_err (fun e => InferenceFailed ("tokenize: " +:+ e)) (encode tok t special).

(** [with.windows(n).position(|w| w == without)] *)
Fixpoint position_of (without with_ : list Z) : option nat :=
  if bool_decide (take (length without) with_ = without) then Some 0%nat
  else match with_ with [] => None | _ :: with_ => S <$> position_of without with_ end.

Definition probe : text := of_string "blazle window probe".

Definition detect_special_tokens (tok : tokenizer) : Result (list Z * list Z) Error :=
  let enc special := map_err (fun e => ModelLoadFailed ("tokenizer probe: " +:+ e)) (let? r := encode tok probe special in Ok r.1) in
  let? with_ := enc true in
  let? without := enc false in
  if bool_decide (without = []) || (length with_ <? length without)%nat then Ok ([], [])
  else match position_of without with_ with
       | Some pos => Ok (take pos with_, drop (pos + length without) with_)
       | None => Ok ([], [])
       end.

(** The data of the first output. *)
Definition first_output (outputs : list (list nat * option (list f32))) : Result (list nat * list f32) Error :=
  match outputs with
  | [] => Err (InferenceFailed "model produced no outputs")
  | (_, None) :: _ => Err (InferenceFailed "extract logits")
  | (shape, Some data) :: _ => Ok (shape, data)
  end.

Fixpoint collect {A B} (f : A -> Result B Error) (l : list A) : Result (list B) Error :=
  match l with
  | [] => Ok []
  | a :: l => let? b := f a in let? bs := collect f l in Ok (b :: bs)
  end.

(** *** TextClassifier *)
Record TextConfig : Type := MkTextConfig { model_path : text; tokenizer_path : text; cfg_max_len : nat; cfg_num_inputs : nat }.

Record TextClassifier : Type := MkClassifier {
  model : runnable;
  full_tokenizer : tokenizer;
  raw_tokenizer : tokenizer;
  special_prefix : list Z;
  special_suffix : list Z;
  max_len : nat;
  num_inputs : nat;
}.

Definition load_tokenizer (path : text) : Result (tokenizer * tokenizer) Error :=
  let? tok := map_err (fun e => ModelLoadFailed ("tokenizer: " +:+ e)) (from_file path) in
  let? raw := map_err (fun e => ModelLoadFailed ("tokenizer truncation: " +:+ e)) (unlimited tok) in
  Ok (tok, raw).

Definition load (cfg : TextConfig) : Result TextClassifier Error :=
  let? m := load_runnable (model_path cfg) in
  let? toks := load_tokenizer (tokenizer_path cfg) in
  let? specials := detect_special_tokens toks.2 in
  Ok (MkClassifier m toks.1 toks.2 specials.1 specials.2 (cfg_max_len cfg) (Nat.max (cfg_num_inputs cfg) 2)).

Definition encode_windows (clf : TextClassifier) (t : text) (opts : WindowOptions) : Result TokenWindows Error :=
  let? enc := encoded (raw_tokenizer clf) t false in
  Ok (text.encode_windows (special_prefix clf) (special_suffix clf) (max_len clf) enc.1 opts).

Definition run_tensors (clf : TextClassifier) (ids mask : list Z) : Result Prediction Error :=
  let? inputs := checked_inputs (num_inputs clf) ids mask in
  let? outputs := map_err (fun e => InferenceFailed ("tract run: " +:+ e)) (run_ids (model clf) inputs) in
  let? out := first_output outputs in
  Ok (from_logits out.2).

Definition run_window (clf : TextClassifier) (ids : list Z) : Result Prediction Error :=
  match ids with
  | [] => Ok (from_logits [f_of_Z 0])
  | _ => run_tensors clf ids (replicate (length ids) 1)
  end.

Definition predict (clf : TextClassifier) (t : text) : Result Prediction Error :=
  let? enc := encoded (full_tokenizer clf) t true in
  let '(ids, mask) := enc in
  let '(ids, mask) := if (max_len clf <? length ids)%nat then (take (max_len clf) ids, take (max_len clf) mask) else (ids, mask) in
  match ids with
  | [] => Ok (from_logits [f_of_Z 0])
  | _ => run_tensors clf ids mask
  end.

Definition class_prob (p : Prediction) (class_idx : nat) : f32 :=
  default (f_of_Z 0) (probabilities p ≫= (.!! class_idx)).

Definition score_class (clf : TextClassifier) (t : text) (class_idx : nat) : Result f32 Error :=
  let? p := predict clf t in Ok (class_prob p class_idx).

Definition score_ids_batch (clf : TextClassifier) (windows : list (list Z)) (class_idx : nat) : Result (list f32) Error :=
  collect (fun ids => let? p := run_window clf ids in Ok (class_prob p class_idx)) windows.

Record WindowedScore : Type := MkScore {
  max_score : f32;
  max_index : nat;
  scored : nat;
  score_windows : nat;
  score_tokens : nat;
}.

Definition score_class_windowed (clf : TextClassifier) (t : text) (class_idx : nat) (opts : WindowOptions)
    : Result WindowedScore Error :=
  let? tw := encode_windows clf t opts in
  let? scores := score_ids_batch clf (windows tw) class_idx in
  let '(i, s) := best_window f_gtb (f_of_Z 0) scores in
  Ok (MkScore s i (length scores) (total_windows tw) (total_tokens tw)).

(** *** TextEncoder *)
Inductive EmbedKind := Query | Passage.

Record EncoderConfig : Type := MkEncoderConfig {
  enc_model_path : text;
  enc_tokenizer_path : text;
  enc_cfg_max_len : nat;
  enc_cfg_num_inputs : nat;
  cfg_query_prefix : text;
  cfg_passage_prefix : text;
}.

Record TextEncoder : Type := MkEncoder {
  enc_model : runnable;
  enc_tokenizer : tokenizer;
  enc_prefix : list Z;
  enc_suffix : list Z;
  query_prefix : list Z;
  passage_prefix : list Z;
  enc_max_len : nat;
  enc_num_inputs : nat;
  dim : nat;
}.

Definition kind_prefix (e : TextEncoder) (kind : EmbedKind) : list Z :=
  match kind with Query => query_prefix e | Passage => passage_prefix e end.

Definition wrap (e : TextEncoder) (kind : EmbedKind) (content : list Z) : list Z :=
  enc_prefix e ++ kind_prefix e kind ++ content ++ enc_suffix e.

Definition content_ids (e : TextEncoder) (t : text) : Result (list Z) Error :=
  let? enc := encoded (enc_tokenizer e) t false in Ok enc.1.

(** The sum over tokens, element by element of the flat output. *)
Definition accumulate (dim : nat) (data : list f32) : list f32 :=
  foldl (fun acc p => alter (fun a => f_add a p.2) (p.1 mod dim)%nat acc) (replicate dim (f_of_Z 0)) (imap pair data).

(** Scaled to unit length, unless it is the zero vector. *)
Definition l2_normalize (v : list f32) : list f32 :=
  let norm := f_sqrt (f_sum ((fun x => f_mul x x) <$> v)) in
  if f_gtb norm (f_of_Z 0) then (fun x => f_div x norm) <$> v else v.

Definition dot (a b : list f32) : f32 := f_sum (zip_with f_mul a b).

Definition pool (shape : list nat) (data : list f32) : Result (list f32) Error :=
  match shape with
  | [_; seq; dim] => Ok ((fun a => f_div a (f_of_Z (Z.of_nat (Nat.max seq 1)))) <$> accumulate dim data)
  | [_; _] => Ok data
  | _ => Err (InferenceFailed "unexpected encoder output shape")
  end.

Definition run_pooled (e : TextEncoder) (ids : list Z) : Result (list f32) Error :=
  match ids with
  | [] => Err (InferenceFailed "empty token sequence")
  | _ =>
      let inputs := build_inputs (enc_num_inputs e) ids (replicate (length ids) 1) in
      let? outputs := map_err (fun e => InferenceFailed ("tract run: " +:+ e)) (run_ids (enc_model e) inputs) in
      let? out := first_output outputs in
      let? pooled := pool out.1 out.2 in
      Ok (l2_normalize pooled)
  end.

Definition fixed (e : TextEncoder) (kind : EmbedKind) : nat :=
  (length (enc_prefix e) + length (enc_suffix e) + length (kind_prefix e kind))%nat.

Definition embed_ids (e : TextEncoder) (kind : EmbedKind) (content : list Z) : list Z :=
  wrap e kind (take (Nat.max (enc_max_len e - fixed e kind) 1) content).

Definition embed (e : TextEncoder) (t : text) (kind : EmbedKind) : Result (list f32) Error :=
  let? content := content_ids e t in run_pooled e (embed_ids e kind content).

Definition encoder_windows (e : TextEncoder) (t : text) (kind : EmbedKind) (opts : WindowOptions) : Result TokenWindows Error :=
  let? content := content_ids e t in
  let n := length content in
  let window := Nat.max (Nat.min (window opts) (enc_max_len e)) (fixed e kind + 1) in
  let content_len := (window - fixed e kind)%nat in
  let total := Nat.max (length (plan_windows n content_len (overlap opts) u64_max)) 1 in
  let planned := plan_windows n content_len (overlap opts) (max_windows opts) in
  Ok (MkTokenWindows
        (match planned with
         | [] => [wrap e kind []]
         | _ => (fun '(s, t) => wrap e kind (take (t - s) (drop s content))) <$> planned
         end) n total).

Definition embed_ids_batch (e : TextEncoder) (windows : list (list Z)) : Result (list (list f32)) Error :=
  collect (run_pooled e) windows.
Definition embed_batch (e : TextEncoder) (texts : list text) (kind : EmbedKind) : Result (list (list f32)) Error :=
  collect (fun t => embed e t kind) texts.

Definition trim_end (t : text) : text := rev (trim_start_by is_whitespace (rev t)).

Definition prefix_ids (tok : tokenizer) (p : text) : Result (list Z) Error :=
  match trim p with
  | [] => Ok []
  | _ => map_err (fun e => ModelLoadFailed ("prefix tokenize: " +:+ e)) (let? r := encode tok (trim_end p) false in Ok r.1)
  end.

Definition dimension_probe : text := of_string "dimension probe".

(** The dimension is learnt by embedding a probe. *)
Definition load_encoder (cfg : EncoderConfig) : Result TextEncoder Error :=
  let? m := load_runnable (enc_model_path cfg) in
  let? toks := load_tokenizer (enc_tokenizer_path cfg) in
  let? specials := detect_special_tokens toks.2 in
  let? q := prefix_ids toks.2 (cfg_query_prefix cfg) in
  let? p := prefix_ids toks.2 (cfg_passage_prefix cfg) in
  let e := MkEncoder m toks.2 specials.1 specials.2 q p (Nat.max (enc_cfg_max_len cfg) 8) (Nat.max (enc_cfg_num_inputs cfg) 2) 0 in
  let? v := embed e dimension_probe Query in
  match v with
  | [] => Err (ModelLoadFailed "encoder produced an empty embedding")
  | _ => Ok (MkEncoder m toks.2 specials.1 specials.2 q p (enc_max_len e) (enc_num_inputs e) (length v))
  end.
End textmodel.
End textmodel.

(** ** Windowed scoring *)
Section scanning.
Import error prediction unicode Inference.text textmodel.
Context `{OF : OnnxF32, OL : !OnnxF32Laws, TR : !Tract, TL : !TextLib}.

Lemma collect_Ok {A B} (f : A -> Result B Error) l bs : collect f l = Ok bs -> Forall2 (fun a b => f a = Ok b) l bs.
Proof.
  revert bs. induction l as [|a l IH]; intros bs; cbn [collect]; [by intros [= <-]|].
  intros (b & Hb & (bs' & Hbs & [= <-])%rbind_ok)%rbind_ok. constructor; [done|]. by apply IH.
Qed.

(** The fold of the maximum. *)
Lemma best_window_spec (scores : list f32) (zero : f32) :
  let best := best_window f_gtb zero scores in
  Forall (fun s => f_gtb s best.2 = false) scores /\
  (best = (0%nat, zero) \/ scores !! best.1 = Some best.2) /\ f_gtb zero best.2 = false.
Proof.
  cbv zeta. unfold best_window. induction scores as [|s scores IH] using rev_ind; [split_and!; [done|by left|apply gtb_irrefl]|].
  rewrite imap_app, foldl_app. cbn [imap foldl]. set (b := foldl _ (0%nat, zero) _) in *. destruct IH as (Hle & Hin & Hz).
  rewrite Nat.add_0_r. destruct (f_gtb s b.2) eqn:E; cbn [fst snd].
  - split_and!.
    + apply Forall_app. split; [|apply Forall_singleton, gtb_irrefl]. eapply Forall_impl; [exact Hle|]. intros x Hx. cbn.
      destruct (f_gtb x s) eqn:Ex; [|done]. rewrite <- Hx. by rewrite (gtb_trans x s b.2).
    + right. rewrite lookup_app_r, Nat.sub_diag by lia. done.
    + destruct (f_gtb zero s) eqn:Ez; [|done]. rewrite <- Hz. by rewrite (gtb_trans zero s b.2).
  - split_and!; [|destruct Hin as [Hin|Hin]; [by left|right; by apply lookup_app_l_Some]|done].
    apply Forall_app. split; [done|]. by apply Forall_singleton.
Qed.

(** C28: nothing is left unread by windowed scoring: when a text needs no more windows than the
    cap, every one of its tokens is in a window that the model scored, with the model's
    special tokens around it, and no such window scored higher than the reported maximum. *)
Theorem windowed_scan_complete (clf : TextClassifier) (t : text) (k : nat) (opts : WindowOptions) (content mask : list Z)
    (ws : WindowedScore) :
  encode (raw_tokenizer clf) t false = Ok (content, mask) -> Z.of_nat (length content) <= u64_max ->
  score_class_windowed clf t k opts = Ok ws -> Z.of_nat (score_windows ws) <= max_windows opts ->
  forall i, (i < length content)%nat -> exists s e p,
    (s <= i < e)%nat /\ (e <= length content)%nat /\
    run_window clf (special_prefix clf ++ take (e - s) (drop s content) ++ special_suffix clf) = Ok p /\
    f_gtb (class_prob p k) (max_score ws) = false.
Proof.
  intros He Hu Hs Hcap i Hi. unfold score_class_windowed, encode_windows, encoded in Hs. rewrite He in Hs. cbn [map_err rbind] in Hs.
  apply rbind_ok in Hs as (scores & Hsc & Hs). unfold text.encode_windows in *. cbn [fst] in *. cbv zeta in *.
  cbn [windows total_windows total_tokens] in *. set (cl := (_ - _)%nat) in *.
  destruct (best_window_spec scores (f_of_Z 0)) as (Hmax & _ & _). destruct (best_window _ _ scores) as [bi bs].
  injection Hs as <-. cbn [score_windows max_score snd] in *.
  destruct (plan_windows_cover (length content) cl (overlap opts) (max_windows opts)) as (Hin & _ & _ & _ & Hcov). cbv zeta in *.
  destruct (Hcov Hu ltac:(lia) i Hi) as (s & e & Hse & Hie). pose proof (Hin s e Hse) as [He1 He2].
  apply collect_Ok in Hsc. unfold score_ids_batch in Hsc.
  assert (text.wrap (special_prefix clf) (special_suffix clf) (take (e - s) (drop s content)) ∈
          match plan_windows (length content) cl (overlap opts) (max_windows opts) with
          | [] => [text.wrap (special_prefix clf) (special_suffix clf) []]
          | _ => (fun '(s, e) => text.wrap (special_prefix clf) (special_suffix clf) (take (e - s) (drop s content))) <$>
                   plan_windows (length content) cl (overlap opts) (max_windows opts)
          end) as Hw.
  { destruct (plan_windows _ _ _ _) eqn:Ep; [by apply elem_of_nil in Hse|]. rewrite <- Ep in *.
    apply list_elem_of_fmap. by exists (s, e). }
  apply list_elem_of_lookup in Hw as [j Hj]. destruct (Forall2_lookup_l _ _ _ _ _ Hsc Hj) as (x & Hx & (p & Hp & [= <-])%rbind_ok).
  exists s, e, p. split_and!; [lia..|exact Hp|]. rewrite Forall_forall in Hmax. apply Hmax. by eapply list_elem_of_lookup_2.
Qed.

(** *** Special tokens *)
Lemma position_first without pre suf :
  (forall i, (i < length pre)%nat -> take (length without) (drop i (pre ++ without ++ suf)) <> without) ->
  position_of without (pre ++ without ++ suf) = Some (length pre).
Proof.
  induction pre as [|x pre IH]; intros H.
  - assert (forall l, take (length without) l = without -> position_of without l = Some 0%nat) as Hp.
    { intros l Hl. destruct l; cbn [position_of]; by rewrite bool_decide_eq_true_2. }
    apply Hp. cbn [app]. apply take_app_length.
  - cbn [app position_of]. rewrite bool_decide_eq_false_2 by (apply (H 0%nat); cbn; lia). rewrite IH; [done|].
    intros i Hi. apply (H (S i)). cbn. lia.
Qed.

(** the special tokens are recognised: if the tokenizer puts [pre] and [suf] around a single
    text and the probe's own tokens do not occur earlier, exactly these are found. *)
Theorem special_tokens_found (tok : tokenizer) (pre without suf mask mask' : list Z) :
  encode tok probe true = Ok (pre ++ without ++ suf, mask) -> encode tok probe false = Ok (without, mask') ->
  without <> [] ->
  (forall i, (i < length pre)%nat -> take (length without) (drop i (pre ++ without ++ suf)) <> without) ->
  detect_special_tokens tok = Ok (pre, suf).
Proof.
  intros Hw Hwo Hne Hfirst. unfold detect_special_tokens. rewrite Hw, Hwo. cbn [map_err rbind fst].
  rewrite bool_decide_eq_false_2 by done. rewrite (proj2 (Nat.ltb_ge _ _)) by (rewrite !length_app; lia). cbn [orb].
  rewrite position_first by done. rewrite take_app_length, (assoc_L app), drop_app_length' by (rewrite length_app; lia). done.
Qed.

(** a text that fits one window has the same score either way: when the tokenizer wraps
    the special tokens around the text and neither is cut, windowed scoring runs the model on
    exactly the ids [predict] runs it on, and reports that probability unless it is below
    zero. *)
Theorem short_text_same_score (clf : TextClassifier) (t : text) (k : nat) (opts : WindowOptions) (content mask : list Z) (p : f32) :
  let n := (length (special_prefix clf) + length content + length (special_suffix clf))%nat in
  encode (raw_tokenizer clf) t false = Ok (content, mask) ->
  encode (full_tokenizer clf) t true = Ok (special_prefix clf ++ content ++ special_suffix clf, replicate n 1) ->
  (n <= window opts)%nat -> (n <= max_len clf)%nat ->
  score_class clf t k = Ok p ->
  exists ws, score_class_windowed clf t k opts = Ok ws /\ scored ws = 1%nat /\
    max_score ws = if f_gtb p (f_of_Z 0) then p else f_of_Z 0.
Proof.
  cbv zeta. set (n := (_ + _ + _)%nat). intros Hraw Hfull Hw Hm Hs.
  set (ids := special_prefix clf ++ content ++ special_suffix clf) in *.
  assert (length ids = n) as Hlen by (unfold ids; rewrite !length_app; lia).
  assert (run_window clf ids = predict clf t) as Hrun.
  { unfold predict, encoded. rewrite Hfull. cbn [map_err rbind]. rewrite (proj2 (Nat.ltb_ge _ _)) by lia.
    unfold run_window. rewrite Hlen. by destruct ids. }
  unfold score_class in Hs. rewrite <- Hrun in Hs.
  unfold score_class_windowed, encode_windows, encoded. rewrite Hraw. cbn [map_err rbind fst].
  unfold text.encode_windows. cbv zeta. cbn [windows]. set (cl := (_ - _)%nat).
  assert (windows_of : match plan_windows (length content) cl (overlap opts) (max_windows opts) with
          | [] => [text.wrap (special_prefix clf) (special_suffix clf) []]
          | _ => (fun '(s, e) => text.wrap (special_prefix clf) (special_suffix clf) (take (e - s) (drop s content))) <$>
                   plan_windows (length content) cl (overlap opts) (max_windows opts)
          end = [ids]).
  { unfold plan_windows. destruct (Nat.eqb_spec (length content) 0) as [E|E].
    - apply nil_length_inv in E. by subst.
    - rewrite (proj2 (Nat.leb_le _ _)) by lia. cbn. by rewrite drop_0, Nat.sub_0_r, firstn_all. }
  rewrite windows_of. unfold score_ids_batch. cbn [collect]. rewrite Hs. cbn [rbind].
  unfold best_window. cbn [imap foldl snd]. destruct (f_gtb p (f_of_Z 0)); eexists; by split_and!.
Qed.

(** *** The encoder *)

(** the windows of the encoder fit the model: no window is longer than the requested size
    and the model's limit, except that it always holds one token of the text; a text that
    fits one window is embedded from exactly the ids [embed] uses. *)
Theorem encoder_windows_fit (e : TextEncoder) (t : text) (kind : EmbedKind) (opts : WindowOptions) (content mask : list Z) :
  encode (enc_tokenizer e) t false = Ok (content, mask) ->
  exists tw, encoder_windows e t kind opts = Ok tw /\
    Forall (fun ids => length ids <= Nat.max (Nat.min (window opts) (enc_max_len e)) (fixed e kind + 1))%nat (windows tw) /\
    (length (embed_ids e kind content) <= Nat.max (enc_max_len e) (fixed e kind + 1))%nat /\
    ((fixed e kind + length content <= Nat.min (window opts) (enc_max_len e))%nat ->
     windows tw = [embed_ids e kind content]).
Proof.
  intros He. unfold encoder_windows, content_ids, encoded. rewrite He. cbn [map_err rbind fst]. eexists. split; [reflexivity|].
  cbn [windows]. set (wd := Nat.max _ _). set (cl := (wd - fixed e kind)%nat).
  assert (forall l, length (wrap e kind l) = (fixed e kind + length l)%nat) as Hwrap
    by (intros l; unfold wrap, fixed; rewrite !length_app; lia).
  split_and!.
  - destruct (plan_windows_cover (length content) cl (overlap opts) (max_windows opts)) as (Hin & _). cbv zeta in Hin.
    destruct (plan_windows _ _ _ _) as [|w ps] eqn:Ep.
    + apply Forall_singleton. rewrite Hwrap. cbn. lia.
    + rewrite <- Ep in *. apply Forall_fmap, Forall_forall. intros [a b] Hab. cbn. destruct (Hin a b Hab) as [H1 H2].
      rewrite Hwrap, length_take. lia.
  - unfold embed_ids. rewrite Hwrap, length_take. lia.
  - intros Hfit. unfold embed_ids. rewrite take_ge by lia. unfold plan_windows.
    destruct (Nat.eqb_spec (length content) 0) as [E|E]; [apply nil_length_inv in E; by subst|].
    rewrite (proj2 (Nat.leb_le _ _)) by lia. cbn. by rewrite drop_0, Nat.sub_0_r, firstn_all.
Qed.

Definition column (j : nat) (rows : list (list f32)) : list f32 := (fun row => nth j row (f_of_Z 0)) <$> rows.

Lemma accumulate_row (d i : nat) (row acc done : list f32) :
  length row = d -> length acc = d -> (d <> 0)%nat ->
  foldl (fun acc p => alter (fun a => f_add a p.2) (p.1 mod d)%nat acc) acc (imap (fun j x => (i * d + j, x)%nat) row) =
    zip_with f_add acc row.
Proof.
  intros Hrow Hacc Hd. assert (forall k (r a b : list f32), (length a + length r = d)%nat -> length r = length b -> length a = k ->
    foldl (fun acc p => alter (fun a => f_add a p.2) (p.1 mod d)%nat acc) (a ++ b) (imap (fun j x => (i * d + (k + j), x)%nat) r) =
      a ++ zip_with f_add b r) as H.
  { intros k r. revert k. induction r as [|x r IH]; intros k a b Ha Hb Hk; [by destruct b|].
    destruct b as [|y b]; [done|]. cbn [imap foldl fst snd length] in *.
    rewrite (Nat.add_0_r k), Nat.add_comm, Nat.Div0.mod_add, Nat.mod_small by lia.
    rewrite <- Hk at 1. rewrite <- (Nat.add_0_r (length a)) at 1. rewrite alter_app_r. cbn [alter list_alter].
    change (a ++ f_add y x :: b) with (a ++ [f_add y x] ++ b). rewrite (assoc_L app).
    rewrite (imap_ext _ (fun j x => (i * d + (S k + j), x)%nat)) by (intros j z _; cbn; do 2 f_equal; lia).
    rewrite IH; [by rewrite <- (assoc_L app)|rewrite length_app; cbn; lia|lia|rewrite length_app; cbn; lia]. }
  specialize (H 0%nat row [] acc). cbn [app] in H. apply H; [done|congruence|done].
Qed.

Lemma accumulate_rows (d i : nat) (rows : list (list f32)) (acc : list f32) :
  Forall (fun row => length row = d) rows -> length acc = d -> (d <> 0)%nat ->
  foldl (fun acc p => alter (fun a => f_add a p.2) (p.1 mod d)%nat acc) acc (imap (fun j x => (i * d + j, x)%nat) (mjoin rows)) =
    foldl (zip_with f_add) acc rows.
Proof.
  intros H. revert i acc. induction H as [|row rows Hr _ IH]; intros i acc Ha Hd; [done|].
  change (mjoin (row :: rows)) with (row ++ mjoin rows). rewrite imap_app, foldl_app, accumulate_row by done. cbn [foldl].
  rewrite <- (IH (S i)); [|rewrite length_zip_with; lia|done]. f_equal. apply imap_ext. intros j x _. cbn. f_equal. lia.
Qed.

Lemma sum_columns (d : nat) (rows : list (list f32)) (acc : list f32) :
  Forall (fun row => length row = d) rows -> length acc = d ->
  foldl (zip_with f_add) acc rows = (fun j => foldl f_add (nth j acc (f_of_Z 0)) (column j rows)) <$> seq 0 d.
Proof.
  intros H. revert acc. induction H as [|row rows Hr _ IH]; intros acc Ha.
  - cbn. apply list_eq. intros i. rewrite list_lookup_fmap. destruct (decide (i < d)%nat) as [Hi|Hi].
    + rewrite lookup_seq_lt by done. cbn. destruct (lookup_lt_is_Some_2 acc i) as [x Hx]; [lia|]. rewrite Hx.
      by rewrite (nth_lookup_Some _ _ _ _ Hx).
    + by rewrite lookup_seq_ge, lookup_ge_None_2 by lia.
  - cbn [foldl]. rewrite IH by (rewrite length_zip_with; lia). apply list_fmap_ext. intros i j Hj.
    apply lookup_seq in Hj as [-> Hj]. cbn [Nat.add] in *. unfold column. rewrite fmap_cons. cbn [foldl]. f_equal.
    destruct (lookup_lt_is_Some_2 acc i) as [x Hx]; [lia|]. destruct (lookup_lt_is_Some_2 row i) as [y Hy]; [lia|].
    rewrite (nth_lookup_Some acc _ _ _ Hx), (nth_lookup_Some row _ _ _ Hy). apply nth_lookup_Some.
    rewrite lookup_zip_with, Hx, Hy. done.
Qed.

(** the pooled embedding is the mean over the tokens: of an output [1, tokens, d] every
    element is the sum, in token order, of that element over the tokens, divided by their
    number. *)
Theorem pool_is_mean (b d : nat) (rows : list (list f32)) :
  Forall (fun row => length row = d) rows -> rows <> [] -> (d <> 0)%nat ->
  pool [b; length rows; d] (mjoin rows) =
    Ok ((fun j => f_div (foldl f_add (f_of_Z 0) (column j rows)) (f_of_Z (Z.of_nat (length rows)))) <$> seq 0 d).
Proof.
  intros Hr Hne Hd. cbn [pool]. f_equal. unfold accumulate.
  pose proof (accumulate_rows d 0 rows (replicate d (f_of_Z 0)) Hr (length_replicate _ _) Hd) as E. cbn [Nat.mul Nat.add] in E.
  replace (imap pair (mjoin rows)) with (imap (fun j (x : f32) => (j, x)) (mjoin rows)) by done. rewrite E.
  rewrite (sum_columns d) by (done || apply length_replicate). rewrite <- list_fmap_compose. apply list_fmap_ext.
  intros i j [-> Hj]%lookup_seq. cbn. rewrite (nth_lookup_Some _ _ _ (f_of_Z 0)) by (apply lookup_replicate; split; [done|lia]). rewrite Nat.max_l by (destruct rows; [done|cbn; lia]). done.
Qed.
End scanning.

(** Scores that are not greater than zero - NaN among them - are all reported as zero. *)
Lemma unordered_scores_are_zero `{F : F32} (zero : f32) (scores : list f32) :
  Forall (fun s => f_gtb s zero = false) scores -> Inference.text.best_window f_gtb zero scores = (0%nat, zero).
Proof.
  intros H. unfold Inference.text.best_window. induction scores as [|s scores IH] using rev_ind; [done|].
  apply Forall_app in H as [H1 H2]. rewrite imap_app, foldl_app, IH by done. cbn. pose proof (Forall_inv H2) as Hs. cbn in Hs. by rewrite Hs.
Qed.

(** ** A tokenizer of characters *)
Module text_examples.
Import textmodel prediction Inference.text exact_tensors exact_onnx.

#[global] Instance chars : TextLib := {|
  tokenizer := bool;
  from_file _ := Ok true;
  encode _ t special := let ids := if special then [101] ++ t ++ [102] else t in Ok (ids, replicate (length ids) 1);
  unlimited _ := Ok false;
|}.

Definition ids_of (s : string) : list Z := unicode.of_string s.
Definition clf : TextClassifier :=
  Eval vm_compute in match load (MkTextConfig [] [] 8 2) with Ok c => c | Err _ => MkClassifier [] true true [] [] 0 0 end.

(** Windows of four characters, two of them shared. *)
Definition opts : WindowOptions := MkOptions 6 2 32.
Definition long_text : list Z := ids_of "attack at dawn".
Definition score : WindowedScore :=
  Eval vm_compute in match score_class_windowed clf long_text 0 opts with Ok s => s | Err _ => MkScore 0 0 0 0 0 end.

Lemma windowed_scan_complete_witness :
  encode (raw_tokenizer clf) long_text false = Ok (long_text, replicate 14 1) /\
  forall i, (i < length long_text)%nat -> exists s e p,
    (s <= i < e)%nat /\ (e <= length long_text)%nat /\
    run_window clf (special_prefix clf ++ take (e - s) (drop s long_text) ++ special_suffix clf) = Ok p /\
    f_gtb (class_prob p 0) (max_score score) = false.
Proof.
  split; [reflexivity|]. apply (windowed_scan_complete clf long_text 0 opts long_text (replicate 14 1) score).
  - reflexivity.
  - cbn. unfold u64_max. lia.
  - vm_compute. reflexivity.
  - cbn. lia.
Defined.

Lemma special_tokens_found_witness : detect_special_tokens true = Ok ([101], [102]).
Proof.
  apply (special_tokens_found (TL := chars) true [101] probe [102] (replicate 21 1) (replicate 19 1)).
  - reflexivity.
  - reflexivity.
  - discriminate.
  - intros [|i] Hi; [discriminate|cbn in Hi; lia].
Defined.

Lemma short_text_same_score_witness :
  exists ws, score_class_windowed clf (ids_of "hi") 0 opts = Ok ws /\ scored ws = 1%nat /\
    max_score ws = if f_gtb (F32 := exact_f32) (0 : Z) (f_of_Z 0) then (0 : Z) else f_of_Z (0 : Z).
Proof.
  apply (short_text_same_score clf (ids_of "hi") 0 opts (ids_of "hi") [1; 1] (0 : Z)).
  - reflexivity.
  - reflexivity.
  - cbn. lia.
  - cbn. lia.
  - vm_compute. reflexivity.
Defined.

Definition encoder : TextEncoder := MkEncoder [[1]] true [101] [102] (ids_of "query:") [] 8 2 1.

Lemma encoder_windows_fit_witness :
  exists tw, encoder_windows encoder long_text Passage opts = Ok tw /\
    Forall (fun ids => length ids <= Nat.max (Nat.min (window opts) (enc_max_len encoder)) (fixed encoder Passage + 1))%nat (windows tw) /\
    (length (embed_ids encoder Passage long_text) <= Nat.max (enc_max_len encoder) (fixed encoder Passage + 1))%nat /\
    ((fixed encoder Passage + length long_text <= Nat.min (window opts) (enc_max_len encoder))%nat ->
     windows tw = [embed_ids encoder Passage long_text]).
Proof. apply (encoder_windows_fit encoder long_text Passage opts long_text (replicate 14 1)). reflexivity. Defined.

Lemma pool_is_mean_witness :
  pool [1; 2; 2]%nat [4; 6; 10; 2] = Ok ((fun j => f_div (foldl f_add (f_of_Z 0) (column j [[4; 6]; [10; 2]])) (f_of_Z 2)) <$> seq 0 2).
Proof. apply (pool_is_mean (QF := quant) 1 2 [[4; 6]; [10; 2]]); [repeat constructor|discriminate|lia]. Defined.

(** The instruction prefix and the special tokens fill the model: one token of text still
    goes in, and the model gets more ids than its limit. *)
Lemma long_prefix_exceeds_limit : length (embed_ids encoder Query long_text) = 9%nat /\ enc_max_len encoder = 8%nat.
Proof. split; reflexivity. Qed.
End text_examples.
