(* ===== verification/InferPipeline.v ===== *)
(** * core/inference/pipeline.rs: the inference pipeline

    [infer] is the pipeline of [InferencePipeline::stream] as a step relation: the coordinator
    that reads batches from the dataloader, the bounded work queue, the pool of workers and the
    bounded result channel.  A step is one operation on a channel or one call of the model.  A
    call of the model that panics is reported as an internal error. *)

From stdpp Require Import base numbers list gmap strings relations.
From Stdlib Require Import ZArith Lia.
From S2P Require Import Prelude.

Module infer.
Section infer.
Context {Sample Prediction Error : Type}.
Context (internal : string -> Error).
(** [model.run_batch]; [None] is a panic. *)
Context (run_batch : list Sample -> option (Result (list Prediction) Error)).

Record Batch : Type := MkBatch { batch_id : Z; samples : list Sample }.
Record InferenceBatch : Type := MkInferenceBatch { result_id : Z; predictions : list Prediction }.

Definition outcome (b : Batch) : Result InferenceBatch Error :=
  match run_batch (samples b) with
  | Some (Ok ps) => Ok (MkInferenceBatch (batch_id b) ps)
  | Some (Err e) => Err e
  | None => Err (internal "worker panicked")
  end.

Inductive Coordinator := Receiving | Dispatching (b : Batch) | Reporting (e : Error) | Stopped.
Inductive Worker := Waiting | Running (b : Batch) | Sending (r : Result InferenceBatch Error) | Done.

(** [input] is what the dataloader will still send before it closes, [gone] says that the
    consumer dropped its receiver, [received] is what it took out. *)
Record State : Type := MkState {
  input : list (Result Batch Error);
  coordinator : Coordinator;
  work : list Batch;
  workers : list Worker;
  results : list (Result InferenceBatch Error);
  gone : bool;
  received : list (Result InferenceBatch Error);
}.

(** [stream]; a channel of capacity zero panics. *)
Definition stream (num_workers : nat) (data : list (Result Batch Error)) : option State :=
  if (num_workers =? 0)%nat then None
  else Some (MkState data Receiving [] (replicate num_workers Waiting) [] false []).

Definition all_done (ws : list Worker) : Prop := Forall (fun w => w = Done) ws.

Section step.
Variable cap : nat.

Inductive step : State -> State -> Prop :=
  | Receive b i q ws r g o :
      step (MkState (Ok b :: i) Receiving q ws r g o) (MkState i (Dispatching b) q ws r g o)
  | ReceiveError e i q ws r g o :
      step (MkState (Err e :: i) Receiving q ws r g o) (MkState i (Reporting e) q ws r g o)
  | InputClosed q ws r g o :
      step (MkState [] Receiving q ws r g o) (MkState [] Stopped q ws r g o)
  | Dispatch b i q ws r g o :
      (length q < cap)%nat -> ~ all_done ws ->
      step (MkState i (Dispatching b) q ws r g o) (MkState i Receiving (q ++ [b]) ws r g o)
  | DispatchFails b i q ws r g o :
      all_done ws -> step (MkState i (Dispatching b) q ws r g o) (MkState i Stopped q ws r g o)
  | Report e i q ws r o :
      (length r < cap)%nat ->
      step (MkState i (Reporting e) q ws r false o) (MkState i Stopped q ws (r ++ [Err e]) false o)
  | ReportFails e i q ws r o :
      step (MkState i (Reporting e) q ws r true o) (MkState i Stopped q ws r true o)
  | Take b i c q ws1 ws2 r g o :
      step (MkState i c (b :: q) (ws1 ++ Waiting :: ws2) r g o) (MkState i c q (ws1 ++ Running b :: ws2) r g o)
  | NoMoreWork i ws1 ws2 r g o :
      step (MkState i Stopped [] (ws1 ++ Waiting :: ws2) r g o) (MkState i Stopped [] (ws1 ++ Done :: ws2) r g o)
  | Run b i c q ws1 ws2 r g o :
      step (MkState i c q (ws1 ++ Running b :: ws2) r g o) (MkState i c q (ws1 ++ Sending (outcome b) :: ws2) r g o)
  | Send x i c q ws1 ws2 r o :
      (length r < cap)%nat ->
      step (MkState i c q (ws1 ++ Sending x :: ws2) r false o) (MkState i c q (ws1 ++ Waiting :: ws2) (r ++ [x]) false o)
  | SendFails x i c q ws1 ws2 r o :
      step (MkState i c q (ws1 ++ Sending x :: ws2) r true o) (MkState i c q (ws1 ++ Done :: ws2) r true o)
  | Consume x i c q ws r o :
      step (MkState i c q ws (x :: r) false o) (MkState i c q ws r false (o ++ [x]))
  | DropReceiver i c q ws r o :
      step (MkState i c q ws r false o) (MkState i c q ws r true o).
End step.

(** The result channel is closed and empty. *)
Definition ended (s : State) : Prop := coordinator s = Stopped /\ all_done (workers s) /\ results s = [].
End infer.
End infer.

(** ** Every batch is answered once *)
Section delivery.
Import infer.
Context {Sample Prediction Error : Type} (internal : string -> Error)
  (run_batch : list Sample -> option (Result (list Prediction) Error)).
Context (num_workers : nat) (data : list (Result (Batch (Sample := Sample)) Error)).

Abbreviation St := (State (Sample := Sample) (Prediction := Prediction) (Error := Error)).
Abbreviation Out := (Result (InferenceBatch (Prediction := Prediction)) Error).
Abbreviation out := (outcome internal run_batch).
Abbreviation step := (step internal run_batch (num_workers * 2)).

(** What the consumer should get: an answer for each batch up to the first error of the
    dataloader, and that error. *)
Fixpoint expected (l : list (Result (Batch (Sample := Sample)) Error)) : list Out :=
  match l with
  | [] => []
  | Ok b :: l => out b :: expected l
  | Err e :: _ => [Err e]
  end.

Definition from_coordinator (c : Coordinator (Sample := Sample) (Error := Error)) (i : list (Result Batch Error)) : list Out :=
  match c with
  | Receiving => expected i
  | Dispatching b => out b :: expected i
  | Reporting e => [Err e]
  | Stopped => []
  end.
Definition from_worker (w : Worker (Sample := Sample) (Prediction := Prediction) (Error := Error)) : list Out :=
  match w with Running b => [out b] | Sending x => [x] | _ => [] end.

(** Everything that is on its way. *)
Definition on_the_way (s : St) : list Out :=
  received s ++ results s ++ (workers s ≫= from_worker) ++ (out <$> work s) ++ from_coordinator (coordinator s) (input s).

Definition pipe_inv (s : St) : Prop :=
  gone s = false -> on_the_way s ≡ₚ expected data /\ (all_done (workers s) -> coordinator s = Stopped /\ work s = []).

Lemma bind_middle {A B} (f : A -> list B) l1 x l2 : ((l1 ++ x :: l2) ≫= f) = (l1 ≫= f) ++ f x ++ (l2 ≫= f).
Proof. by rewrite bind_app. Qed.

Lemma not_all_done {S P E} (ws1 ws2 : list (Worker (Sample := S) (Prediction := P) (Error := E))) w :
  w <> Done -> ~ all_done (ws1 ++ w :: ws2).
Proof. unfold all_done. rewrite Forall_app, Forall_cons. naive_solver. Qed.

Lemma done_carry_nothing (ws : list (Worker (Sample := Sample) (Prediction := Prediction) (Error := Error))) :
  all_done ws -> ws ≫= from_worker = [].
Proof. induction 1 as [|w ws -> _ IH]; cbn; [done|exact IH]. Qed.

Lemma pipe_step_inv s s' : pipe_inv s -> step s s' -> pipe_inv s'.
Proof.
  intros Hi Hst. destruct Hst; intros Hg; cbn in Hg; try discriminate; destruct (Hi Hg) as [Hp Hd]; clear Hi;
    unfold on_the_way in *; cbn in *.
  - split; [exact Hp|naive_solver].
  - split; [exact Hp|naive_solver].
  - split; [exact Hp|naive_solver].
  - split; [|naive_solver]. rewrite <- Hp, fmap_app. cbn. by rewrite <- (assoc_L app).
  - destruct (Hd H); congruence.
  - split; [|naive_solver]. rewrite <- Hp. rewrite !app_nil_r. rewrite <- !(assoc_L app). do 2 f_equiv.
    rewrite (Permutation_app_comm [Err e]). by rewrite <- (assoc_L app).
  - split; [|by intros ?%not_all_done]. rewrite <- Hp, !bind_middle. cbn. do 2 f_equiv. rewrite <- !(assoc_L app). f_equiv.
    cbn. by rewrite Permutation_middle.
  - split; [|done]. rewrite <- Hp, !bind_middle. done.
  - split; [|by intros ?%not_all_done]. rewrite <- Hp, !bind_middle. done.
  - split; [|by intros ?%not_all_done]. rewrite <- Hp, !bind_middle. cbn. rewrite <- !(assoc_L app). do 2 f_equiv.
    cbn. by rewrite <- Permutation_middle.
  - split; [|naive_solver]. rewrite <- Hp. by rewrite <- (assoc_L app).
Qed.

Context (s0 : St).
Hypothesis start : stream num_workers data = Some s0.

Lemma pipe_reachable_inv s : rtc step s0 s -> pipe_inv s.
Proof.
  intros Hr. revert s Hr. apply rtc_ind_r; [|intros s s' _ Hst Hi; by eapply pipe_step_inv].
  unfold stream in start. destruct (Nat.eqb_spec num_workers 0) as [|Hn]; [done|]. injection start as <-.
  intros _. unfold on_the_way. cbn. split.
  - induction num_workers as [|[|n] IH]; cbn in *; [done|done|]. apply IH. lia.
  - destruct num_workers; [done|]. intros H. by inversion H.
Qed.
End delivery.

(** ** Progress and termination *)
Section progress.
Import infer.
Context {Sample Prediction Error : Type} (internal : string -> Error)
  (run_batch : list Sample -> option (Result (list Prediction) Error)).
Context (num_workers : nat) (data : list (Result (Batch (Sample := Sample)) Error)).

Abbreviation St := (State (Sample := Sample) (Prediction := Prediction) (Error := Error)).
Abbreviation step := (step internal run_batch (num_workers * 2)).

Definition coordinator_cost (c : Coordinator (Sample := Sample) (Error := Error)) : nat :=
  match c with Receiving => 1 | Dispatching _ => 6 | Reporting _ => 3 | Stopped => 0 end.
Definition worker_cost (w : Worker (Sample := Sample) (Prediction := Prediction) (Error := Error)) : nat :=
  match w with Waiting => 1 | Running _ => 4 | Sending _ => 3 | Done => 0 end.

(** A bound on the steps that remain. *)
Definition remaining (s : St) : nat :=
  6 * length (input s) + coordinator_cost (coordinator s) + 4 * length (work s)
  + sum_list_with worker_cost (workers s) + length (results s) + (if gone s then 0 else 1).

Lemma step_remaining s s' : step s s' -> (remaining s' < remaining s)%nat.
Proof.
  intros Hst. destruct Hst; unfold remaining; cbn;
    rewrite ?length_app, ?sum_list_with_app; cbn; try (destruct g; lia); lia.
Qed.

Lemma steps_remaining n s s' : nsteps step n s s' -> (n + remaining s' <= remaining s)%nat.
Proof.
  induction 1 as [s|n s1 s2 s3 H12 _ IH]; [lia|]. apply step_remaining in H12. lia.
Qed.

Lemma busy_or_done (ws : list (Worker (Sample := Sample) (Prediction := Prediction) (Error := Error))) :
  all_done ws \/ exists ws1 w ws2, ws = ws1 ++ w :: ws2 /\ w <> Done.
Proof.
  unfold all_done. induction ws as [|w ws [IH|(ws1 & w' & ws2 & -> & H)]]; [by left| |].
  - destruct w; [right; by exists [], Waiting, ws|right; by exists [], (Running b), ws
      |right; by exists [], (Sending r), ws|left; by constructor].
  - right. by exists (w :: ws1), w', ws2.
Qed.

Hypothesis some_worker : (0 < num_workers)%nat.

(** A full result channel is emptied by the consumer. *)
Lemma results_move i c q ws (r : list (Result (InferenceBatch (Prediction := Prediction)) Error)) o :
  (length r < num_workers * 2)%nat \/ exists s', step (MkState i c q ws r false o) s' /\ gone s' = false.
Proof.
  destruct r as [|x r]; [left; cbn; lia|right]. eexists. split; [apply Consume|done].
Qed.

(** A worker that has not left moves, unless it waits for work that may still come. *)
Lemma worker_moves i c q ws1 w ws2 (r : list (Result (InferenceBatch (Prediction := Prediction)) Error)) o :
  w <> Done -> q <> [] \/ c = Stopped ->
  exists s', step (MkState i c q (ws1 ++ w :: ws2) r false o) s' /\ gone s' = false.
Proof.
  intros Hw Hq. destruct w as [|b|x|]; [| | |done].
  - destruct q as [|b q].
    + destruct Hq as [| ->]; [done|]. eexists. split; [apply NoMoreWork|done].
    + eexists. split; [apply Take|done].
  - eexists. split; [apply Run|done].
  - destruct (results_move i c q (ws1 ++ Sending x :: ws2) r o) as [Hr|]; [|done].
    eexists. split; [by apply Send|done].
Qed.

Lemma pipe_progress (s : St) : gone s = false -> ended s \/ exists s', step s s' /\ gone s' = false.
Proof.
  destruct s as [i c q ws r g o]. cbn. intros ->. unfold ended. cbn.
  destruct (busy_or_done ws) as [Hd|(ws1 & w & ws2 & -> & Hw)].
  - destruct c as [|b|e|].
    + right. destruct i as [|[b|e] i]; eexists; (split; [constructor|done]).
    + right. eexists. split; [by apply DispatchFails|done].
    + right. destruct (results_move i (Reporting e) q ws r o) as [Hr|]; [|done].
      eexists. split; [by apply Report|done].
    + destruct r as [|x r]; [by left|right]. eexists. split; [apply Consume|done].
  - right. destruct c as [|b|e|].
    + destruct i as [|[b|e] i]; eexists; (split; [constructor|done]).
    + destruct (decide (length q < num_workers * 2)%nat) as [Hq|Hq].
      * eexists. split; [apply Dispatch; [done|by apply not_all_done]|done].
      * apply worker_moves; [done|]. left. intros ->. cbn in Hq. lia.
    + destruct (results_move i (Reporting e) q (ws1 ++ w :: ws2) r o) as [Hr|]; [|done].
      eexists. split; [by apply Report|done].
    + apply worker_moves; [done|by right].
Qed.
End progress.

(** ** One worker *)
Section one_worker.
Import infer.
Context {Sample Prediction Error : Type} (internal : string -> Error)
  (run_batch : list Sample -> option (Result (list Prediction) Error)).
Context (batches : list (Batch (Sample := Sample))).

Abbreviation St := (State (Sample := Sample) (Prediction := Prediction) (Error := Error)).
Abbreviation out := (outcome internal run_batch).
Abbreviation step := (step internal run_batch 2).

Definition no_report (s : St) : Prop :=
  (exists bs, input s = Ok <$> bs) /\ (forall e, coordinator s <> Reporting e) /\ length (workers s) = 1%nat.

Definition in_order (s : St) : Prop :=
  gone s = false -> no_report s /\ on_the_way internal run_batch s = expected internal run_batch (Ok <$> batches).

Lemma one_slot {A} (l1 : list A) x l2 : length (l1 ++ x :: l2) = 1%nat -> l1 = [] /\ l2 = [].
Proof. rewrite length_app. destruct l1, l2; cbn; intros; try lia; done. Qed.

Lemma in_order_step s s' : pipe_inv internal run_batch (Ok <$> batches) s -> in_order s -> step s s' -> in_order s'.
Proof.
  intros Hp Hi Hst. destruct Hst; intros Hg; cbn in Hg; try discriminate; destruct (Hi Hg) as [[(bs & Hb) [Hc Hl]] Ho];
    specialize (Hp Hg); clear Hi; unfold no_report, on_the_way in *; cbn in *;
    try (destruct (one_slot _ _ _ Hl) as [-> ->]; cbn in * ).
  - destruct bs as [|b' bs]; [done|]. injection Hb as -> ->. split; [|done]. split_and!; [by eexists|done|done].
  - destruct bs; discriminate.
  - by split_and!; [eexists| | |].
  - split; [by split_and!; [eexists| |]|]. rewrite <- Ho, fmap_app. cbn. by rewrite <- (assoc_L app).
  - destruct (proj2 Hp H); congruence.
  - by destruct (Hc e).
  - by split_and!; [eexists| | |].
  - by split_and!; [eexists| | |].
  - by split_and!; [eexists| | |].
  - split; [by split_and!; [eexists| |]|]. rewrite <- Ho. cbn. by rewrite <- !(assoc_L app).
  - split; [by split_and!; [eexists| |]|]. rewrite <- Ho. by rewrite <- (assoc_L app).
Qed.

(** With one worker and no dataloader error the answers come in the order of the batches. *)
Lemma one_worker_in_order s0 s :
  stream 1 (Ok <$> batches) = Some s0 -> rtc step s0 s -> gone s = false ->
  received s `prefix_of` (out <$> batches) /\ (ended s -> received s = out <$> batches).
Proof.
  intros H0 Hr Hg.
  assert (He : expected internal run_batch (Ok <$> batches) = out <$> batches).
  { clear. induction batches as [|b bs IH]; cbn; [done|]. by rewrite IH. }
  assert (Hi : in_order s).
  { pose proof (pipe_reachable_inv internal run_batch 1 (Ok <$> batches) s0 H0) as Hp.
    clear Hg. revert s Hr. apply (rtc_ind_r (fun s => in_order s)).
    - cbn in H0. injection H0 as <-. intros _. split; [|done]. by split_and!; [eexists| |].
    - intros s s' Hr Hst Hi. eapply in_order_step; [|done|done]. by apply Hp. }
  destruct (Hi Hg) as [_ Ho]. rewrite He in Ho. split.
  - rewrite <- Ho. unfold on_the_way. by apply prefix_app_r.
  - intros (Hc & Hd & Hz). pose proof (pipe_reachable_inv internal run_batch 1 _ s0 H0 s Hr Hg) as [_ Hw].
    destruct (Hw Hd) as [_ Hq]. rewrite <- Ho. unfold on_the_way. rewrite Hc, Hz, Hq. cbn. rewrite !app_nil_r.
    by rewrite done_carry_nothing, app_nil_r.
Qed.
End one_worker.

(** ** Theorems *)

(** C26: C1. Every run of the inference pipeline is finite, with at most six steps a batch, one a worker
    and two more.  A consumer that keeps its receiver is never stuck: as long as the result
    channel is not closed and empty some step is possible, and when it is, the consumer has
    received exactly one answer for each batch up to the dataloader's first error, and that
    error; a failing or panicking model is an answer as any other and does not end the run. *)
Theorem stream_answers_each_batch_once {Sample Prediction Error : Type} (internal : string -> Error)
  (run_batch : list Sample -> option (Result (list Prediction) Error)) num_workers data s0 n s :
  infer.stream num_workers data = Some s0 ->
  nsteps (infer.step internal run_batch (num_workers * 2)) n s0 s ->
  (n <= 6 * length data + num_workers + 2)%nat /\
  (infer.gone s = false ->
   (infer.ended s /\ infer.received s ≡ₚ expected internal run_batch data) \/
   exists s', infer.step internal run_batch (num_workers * 2) s s' /\ infer.gone s' = false).
Proof.
  intros H0 Hn. pose proof H0 as H0'. unfold infer.stream in H0'. destruct (Nat.eqb_spec num_workers 0) as [|Hw]; [done|].
  injection H0' as H0'. split.
  - apply steps_remaining in Hn. subst s0. unfold remaining in Hn. cbn in Hn.
    assert (Hs : sum_list_with worker_cost (replicate num_workers (infer.Waiting (Sample := Sample) (Prediction := Prediction) (Error := Error))) = num_workers).
    { clear. induction num_workers; cbn; [done|]. f_equal. done. }
    rewrite Hs in Hn. lia.
  - intros Hg. destruct (pipe_progress internal run_batch num_workers ltac:(lia) s Hg) as [He|]; [left|by right].
    split; [done|]. apply rtc_nsteps_2 in Hn.
    destruct (pipe_reachable_inv internal run_batch num_workers data s0 H0 s Hn Hg) as [Hp Hd].
    destruct He as (Hc & Ha & Hz). destruct (Hd Ha) as [_ Hq]. rewrite <- Hp. unfold on_the_way.
    rewrite Hc, Hz, Hq. cbn. rewrite !app_nil_r.
    by rewrite done_carry_nothing, app_nil_r.
Qed.

(** ** A run: with one worker the dataloader's error overtakes the answer *)
Module pipe_examples.
Import infer.
Definition model (l : list Z) : option (Result (list Z) string) :=
  match l with [] => None | 13 :: _ => Some (Err "model"%string) | _ => Some (Ok (Z.add 1 <$> l)) end.
Definition batch (n : Z) (l : list Z) : Batch (Sample := Z) := MkBatch n l.
Definition data : list (Result (Batch (Sample := Z)) string) := [Ok (batch 0 [4; 5]); Err "disk"%string; Ok (batch 2 [6])].
Abbreviation St := (State (Sample := Z) (Prediction := Z) (Error := string)).
Definition first : St := MkState data Receiving [] [Waiting] [] false [].
Definition answers : list (Result (InferenceBatch (Prediction := Z)) string) :=
  [Err "disk"%string; Ok (MkInferenceBatch 0 [5; 6])].
Definition last : St := MkState [Ok (batch 2 [6])] Stopped [] [Done] [] false answers.

Example failing_calls_are_answers :
  [outcome id model (batch 7 []); outcome id model (batch 8 [13])] = [Err "worker panicked"%string; Err "model"%string].
Proof. reflexivity. Qed.

Lemma example_run : nsteps (step id model 2) 10 first last.
Proof.
  econstructor; [apply Receive|]. econstructor; [apply Dispatch; [cbn; lia|by apply (not_all_done [])]|].
  econstructor; [apply ReceiveError|]. econstructor; [apply Report; cbn; lia|]. econstructor; [apply Consume|].
  econstructor; [apply (Take _ _ _ _ _ _ [] [])|]. econstructor; [apply (Run _ _ _ _ _ _ _ [] [])|].
  econstructor; [apply (Send _ _ _ _ _ _ _ [] []); cbn; lia|]. econstructor; [apply Consume|].
  econstructor; [apply (NoMoreWork _ _ _ _ [] [])|]. constructor.
Qed.

Lemma stream_answers_each_batch_once_witness :
  (10 <= 6 * 3 + 1 + 2)%nat /\
  (gone last = false ->
   (ended last /\ received last ≡ₚ expected id model data) \/
   exists s', step id model 2 last s' /\ gone s' = false).
Proof. exact (stream_answers_each_batch_once id model 1 data first 10 last eq_refl example_run). Defined.
End pipe_examples.
