(* ===== verification/HttpApi.v ===== *)
(** * services/inference: the HTTP API and the metrics of the inference server

    [service_metrics] translates metrics.rs, [http] the middleware and the handlers of
    http_api.rs over the registry of Registry.v, the ONNX models of Onnx.v and the language
    model of Gguf.v, and [onnx_server] the request processing of server.rs.  A request is what
    axum's routing and extractors give a handler.  A handler is cut where it waits for its
    blocking task, and [http.step] is the step relation of all the requests in flight and their
    tasks: a task that runs a model is one step, one that calls the registry advances from lock
    to lock ([registry.advance]) while the disk may fail it, and dropping a connection drops
    the handler but not its task.  A panic comes from the parser of a model or the like, before
    the call has changed anything; one under a lock, which would poison it, is left out.
    Identifiers and texts are lists of code points; a message keeps its fixed text, and its
    cause apart or, on the Aeron side, left out. *)

From stdpp Require Import base numbers list gmap strings relations.
From Stdlib Require Import ZArith Lia.
From S2P Require Import Prelude Protocol Inference Dataloader Registry Quantize ExactTensors Qwen ServiceConfig Gguf Distributed Onnx.

(** ** metrics.rs *)
Module service_metrics.

(** The counters, the gauge, and the latencies observed under each label of the histogram. *)
Record InferenceMetrics : Type := MkMetrics {
  requests_total : Z;
  requests_success_total : Z;
  requests_failed_total : Z;
  predictions_total : Z;
  latency_success : list Z;
  latency_error : list Z;
  active_requests : Z;
  aeron_offer_failures : Z;
  requests_per_tenant : gmap (list Z) Z;
}.

Definition new : InferenceMetrics := MkMetrics 0 0 0 0 [] [] 0 0 ∅.

(** [requests_total.inc()] and [active_requests.inc()] of the handlers. *)
Definition request_started (m : InferenceMetrics) : InferenceMetrics :=
  MkMetrics (requests_total m + 1) (requests_success_total m) (requests_failed_total m) (predictions_total m)
    (latency_success m) (latency_error m) (active_requests m + 1) (aeron_offer_failures m) (requests_per_tenant m).

Definition active_dec (m : InferenceMetrics) : InferenceMetrics :=
  MkMetrics (requests_total m) (requests_success_total m) (requests_failed_total m) (predictions_total m)
    (latency_success m) (latency_error m) (active_requests m - 1) (aeron_offer_failures m) (requests_per_tenant m).

Definition request_success (latency : Z) (m : InferenceMetrics) : InferenceMetrics :=
  MkMetrics (requests_total m + 1) (requests_success_total m + 1) (requests_failed_total m) (predictions_total m)
    (latency_success m ++ [latency]) (latency_error m) (active_requests m) (aeron_offer_failures m) (requests_per_tenant m).

Definition request_failed (latency : Z) (m : InferenceMetrics) : InferenceMetrics :=
  MkMetrics (requests_total m + 1) (requests_success_total m) (requests_failed_total m + 1) (predictions_total m)
    (latency_success m) (latency_error m ++ [latency]) (active_requests m) (aeron_offer_failures m) (requests_per_tenant m).

Definition tenant_inc (t : list Z) (per : gmap (list Z) Z) : gmap (list Z) Z := <[t := default 0 (per !! t) + 1]> per.

Definition request_success_tenant (t : list Z) (latency : Z) (m : InferenceMetrics) : InferenceMetrics :=
  MkMetrics (requests_total m) (requests_success_total m) (requests_failed_total m) (predictions_total m)
    (latency_success m ++ [latency]) (latency_error m) (active_requests m) (aeron_offer_failures m)
    (tenant_inc t (requests_per_tenant m)).

Definition request_failed_tenant (t : list Z) (latency : Z) (m : InferenceMetrics) : InferenceMetrics :=
  MkMetrics (requests_total m) (requests_success_total m) (requests_failed_total m) (predictions_total m)
    (latency_success m) (latency_error m ++ [latency]) (active_requests m) (aeron_offer_failures m)
    (tenant_inc t (requests_per_tenant m)).
End service_metrics.

(** ** http_api.rs *)

(** Header values as text, the comparison of [subtle], base64 and the text exposition. *)
Class HttpLib := {
  to_str : list Z -> option (list Z);
  ct_eq : list Z -> list Z -> bool;
  b64_decode : list Z -> Result (list Z) string;
  encode_metrics : service_metrics.InferenceMetrics -> Result (list Z) string;
}.
Class HttpLaws `{HttpLib} : Prop := {
  to_str_same b t : to_str b = Some t -> t = b;
  ct_eq_spec a b : ct_eq a b = true <-> a = b;
}.

Module http.
Import unicode service_metrics.
Notation text := (list Z) (only parsing).
Section http.
Context `{OF : OnnxF32, TR : !Tract, CL : !Candle, TK : !Tokenizer, SP : !Sampler, RL : !registry.Lib, HL : !HttpLib}.

Abbreviation OnnxModel := (onnx.OnnxModel).
Abbreviation GgufModel := (gguf.GgufModel).
Abbreviation Registry := (registry.ModelRegistry (OnnxModel := OnnxModel)).

(** The directory of the registry, and its loader of model files. *)
Variable models_dir : list text.
Variable load : list Z -> Result OnnxModel text.

Definition INFER_BODY_LIMIT : Z := 10 * 1024 * 1024.
Definition UPLOAD_BODY_LIMIT : Z := 500 * 1024 * 1024.

(** The mutex of the language model holds [None] when it is poisoned. *)
Record AppState : Type := MkApp {
  models : Registry;
  metrics : InferenceMetrics;
  default_model : option OnnxModel;
  default_gguf_model : option (option GgufModel);
  api_key : text;
}.
Definition set_models (r : Registry) (s : AppState) : AppState :=
  MkApp r (metrics s) (default_model s) (default_gguf_model s) (api_key s).
Definition set_metrics (m : InferenceMetrics) (s : AppState) : AppState :=
  MkApp (models s) m (default_model s) (default_gguf_model s) (api_key s).
Definition set_gguf (g : option GgufModel) (s : AppState) : AppState :=
  MkApp (models s) (metrics s) (default_model s) (Some g) (api_key s).

Record Headers : Type := MkHeaders { authorization : option (list Z); x_tenant_id : option (list Z) }.

Record InferHttpRequest : Type := MkInfer { infer_id : text; input_data_b64 : text; infer_model_id : option text }.
Record ChatHttpRequest : Type := MkChat { chat_id : text; prompt : text; chat_max_tokens : option nat }.
Record ChatHttpResponse : Type := MkChatResponse {
  request_id : text;
  output_text : text;
  chat_latency_us : Z;
  first_token_latency_us : Z;
  tokens_generated : nat;
}.

(** A field of the form; reading its content fails when the body ends early or is too long. *)
Record Field : Type := MkField { field_name : option text; field_text : option text; field_bytes : option (list Z) }.

Inductive Cause :=
  | NoCause
  | Message (m : string)
  | OfRegistry (e : registry.RegistryError)
  | OfInference (e : error.Error).

Inductive Body :=
  | Empty
  | Plain (t : text)
  | ApiError (message : string) (cause : Cause)
  | OfInfer (r : wire.InferenceResponse)
  | OfChat (r : ChatHttpResponse)
  | OfMeta (m : registry.ModelMeta)
  | OfMetas (ms : list registry.ModelMeta)
  | Activated (version : text).

Record Response : Type := MkResponse { status : Z; body : Body }.

(** *** Middleware and headers *)

Definition bearer : text := of_string "Bearer ".
Fixpoint strip_prefix (p l : text) : option text :=
  match p, l with
  | [], _ => Some l
  | a :: p, b :: l => if a =? b then strip_prefix p l else None
  | _, [] => None
  end.

Definition provided_key (h : Headers) : text := default [] (v ← authorization h; t ← to_str v; strip_prefix bearer t).

(** [None] lets the request pass. *)
Definition auth_middleware (s : AppState) (h : Headers) : option Response :=
  if ct_eq (provided_key h) (api_key s) then None
  else Some (MkResponse 401 (ApiError "Invalid or missing Authorization header" NoCause)).

(** [RequestBodyLimitLayer], the outermost layer, by the content length. *)
Definition body_limit (content_length : option Z) : option Response :=
  match content_length with
  | Some n => if INFER_BODY_LIMIT <? n then Some (MkResponse 413 Empty) else None
  | None => None
  end.

Definition tenant_id_from_headers (h : Headers) : Result text Response :=
  match v ← x_tenant_id h; t ← to_str v; if bool_decide (t = []) then None else Some t with
  | Some t => Ok t
  | None => Err (MkResponse 400 (ApiError "Missing X-Tenant-ID header" NoCause))
  end.

(** [request_id.is_empty() || request_id.len() > 128] *)
Definition bad_request_id (id : text) : bool := bool_decide (id = []) || (128 <? Zsum_with len_utf8 id).

(** [prompt.trim().is_empty()] *)
Definition blank (t : text) : bool := forallb is_whitespace t.

(** *** Handlers that run a model: what is captured for the blocking task *)
Inductive Task :=
  | RunOnnx (m : OnnxModel) (input : list Z)
  | RunChat (prompt : text) (max_tokens : nat).

Inductive Outcome_ :=
  | Predicted (ps : list prediction.Prediction)
  | Generated (t : text) (first_token : Z) (tokens : nat)
  | TaskFailed (c : Cause)
  | Panicked.

Definition infer_prepare (s : AppState) (t : text) (req : InferHttpRequest) : Result Task Response :=
  if bad_request_id (infer_id req) then Err (MkResponse 400 (ApiError "request_id must be 1-128 characters" NoCause))
  else match b64_decode (input_data_b64 req) with
       | Err e => Err (MkResponse 422 (ApiError "input_data_b64 is not valid base64" (Message e)))
       | Ok input =>
           match infer_model_id req with
           | Some id => match registry.get_active_model t id (models s) with
                        | Some m => Ok (RunOnnx m input)
                        | None => Err (MkResponse 404 (ApiError "Model not found or not activated for tenant" NoCause))
                        end
           | None => match default_model s with
                     | Some m => Ok (RunOnnx m input)
                     | None => Err (MkResponse 400 (ApiError "No model_id specified and no default model is loaded" NoCause))
                     end
           end
       end.

Definition chat_prepare (s : AppState) (req : ChatHttpRequest) : Result Task Response :=
  if bad_request_id (chat_id req) then Err (MkResponse 400 (ApiError "request_id must be 1-128 characters" NoCause))
  else if blank (prompt req) then Err (MkResponse 400 (ApiError "prompt must not be empty" NoCause))
  else match default_gguf_model s with
       | None => Err (MkResponse 400 (ApiError "No default GGUF model is loaded for chat requests" NoCause))
       | Some _ => Ok (RunChat (prompt req) (default 0%nat (chat_max_tokens req)))
       end.

(** The latency of the first chunk that has one above zero; [clock] is the time of each chunk. *)
Definition first_latency (clock : list Z) : Z := default 0 (head (List.filter (fun t => negb (t =? 0)) clock)).

(** The blocking task; [clock i] is the time of the [i]-th chunk. *)
Definition run_task (clock : nat -> Z) (s : AppState) (k : Task) : AppState * Outcome_ :=
  match k with
  | RunOnnx m input =>
      (s, match onnx.run_batch m [types.MkSample input 0 types.NoMeta] with
          | Some (Ok ps) => Predicted ps
          | Some (Err e) => TaskFailed (OfInference e)
          | None => Panicked
          end)
  | RunChat p max =>
      match default_gguf_model s with
      | Some (Some g) =>
          let '(g, chunks, o) := gguf.generate_streaming g p max in
          match o with
          | Some (Ok t) => (set_gguf (Some g) s, Generated t (first_latency (clock <$> seq 0 (length chunks))) (length chunks))
          | Some (Err e) => (set_gguf (Some g) s, TaskFailed (Message e))
          | None => (set_gguf None s, Panicked)
          end
      | _ => (s, TaskFailed (Message "GGUF model lock poisoned"))
      end
  end.

Definition no_prediction : prediction.Prediction := prediction.MkPrediction None None [] (f_of_Z 0).

(** The response once the task has ended. *)
Definition response_of (id : text) (latency : Z) (k : Task) (o : Outcome_) : Response :=
  match o with
  | Predicted ps =>
      let p := default no_prediction (head ps) in
      MkResponse 200 (OfInfer (wire.MkResponse id (prediction.class_id p) (default [] (prediction.probabilities p))
                                 (prediction.raw_output p) (prediction.confidence p) latency []))
  | Generated t first n => MkResponse 200 (OfChat (MkChatResponse id t latency first n))
  | TaskFailed c => MkResponse 500 (ApiError (match k with RunOnnx _ _ => "Inference failed" | RunChat _ _ => "Chat generation failed" end) c)
  | Panicked => MkResponse 500 (ApiError "Worker panicked" NoCause)
  end.

Definition succeeded (o : Outcome_) : bool := match o with Predicted _ | Generated _ _ _ => true | _ => false end.

(** What the end of the handler does to the metrics. *)
Definition record_outcome (t : text) (latency : Z) (o : Outcome_) (m : InferenceMetrics) : InferenceMetrics :=
  let m := active_dec m in
  if succeeded o then request_success_tenant t latency (request_success latency m)
  else request_failed_tenant t latency (request_failed latency m).

(** *** Handlers that answer at once *)
Definition health_handler : Response := MkResponse 200 (Plain (of_string "OK")).

Definition metrics_handler (s : AppState) : Response :=
  match encode_metrics (metrics s) with
  | Ok t => MkResponse 200 (Plain t)
  | Err e => MkResponse 500 (Plain (of_string e))
  end.

Record Form : Type := MkForm { form_model_id : option text; form_display_name : option text; form_file : option (list Z) }.

(** The loop over the fields; a repeated field replaces the earlier one. *)
Fixpoint read_form (fields : list Field) (f : Form) : Result Form Response :=
  match fields with
  | [] => Ok f
  | x :: fields =>
      if bool_decide (field_name x = Some (of_string "model_id"))
      then read_form fields (MkForm (field_text x) (form_display_name f) (form_file f))
      else if bool_decide (field_name x = Some (of_string "display_name"))
      then read_form fields (MkForm (form_model_id f) (field_text x) (form_file f))
      else if bool_decide (field_name x = Some (of_string "file"))
      then let data := default [] (field_bytes x) in
           if UPLOAD_BODY_LIMIT <? Z.of_nat (length data)
           then Err (MkResponse 413 (ApiError "Model file exceeds limit of 500 MiB" NoCause))
           else read_form fields (MkForm (form_model_id f) (form_display_name f) (Some data))
      else read_form fields f
  end.

(** The handlers of the registry's calls, up to the call they give to the blocking pool. *)
Definition upload_model_handler (now : Z) (t : text) (fields : list Field) : Result registry.Change Response :=
  match read_form fields (MkForm None None None) with
  | Err r => Err r
  | Ok f =>
      match form_model_id f with
      | None | Some [] => Err (MkResponse 400 (ApiError "Missing required form field: model_id" NoCause))
      | Some id =>
          match form_file f with
          | None | Some [] => Err (MkResponse 400 (ApiError "Missing required form field: file (.onnx)" NoCause))
          | Some bytes => Ok (registry.Upload now t id (form_display_name f) bytes)
          end
      end
  end.
Definition delete_model_handler (t id : text) : registry.Change := registry.Delete t id.
Definition activate_model_handler (t id version : text) : registry.Change := registry.Activate t id version.

Abbreviation Reply := (registry.Reply (OnnxModel := OnnxModel)).

Definition reply_response (r : Reply) : Response :=
  match r with
  | registry.Uploaded meta => MkResponse 201 (OfMeta meta)
  | registry.NowActive version _ => MkResponse 200 (Activated version)
  | registry.Removed => MkResponse 204 Empty
  end.

(** The rest of these handlers; [None] is the error of a task that panicked. *)
Definition join_response (r : option (Result Reply registry.RegistryError)) : Response :=
  match r with
  | Some (Ok x) => reply_response x
  | Some (Err e) => MkResponse 400 (ApiError "" (OfRegistry e))
  | None => MkResponse 500 (ApiError "Worker panic" NoCause)
  end.

Definition list_models_handler (t : text) (s : AppState) : Response :=
  MkResponse 200 (OfMetas (registry.list_models t (models s))).

Definition get_model_handler (t id : text) (s : AppState) : Response :=
  match registry.get_model t id (models s) with
  | Some meta => MkResponse 200 (OfMeta meta)
  | None => MkResponse 404 (ApiError "Model not found for tenant" NoCause)
  end.

(** *** The router *)
Inductive Call :=
  | Infer (r : InferHttpRequest)
  | Chat (r : ChatHttpRequest)
  | UploadModel (now : Z) (fields : list Field)
  | ListModels
  | GetModel (id : text)
  | DeleteModel (id : text)
  | ActivateModel (id version : text).

Inductive Request :=
  | Health
  | Metrics
  | V1 (content_length : option Z) (h : Headers) (c : Call).

(** A request is answered, waits for a task as tenant [t] under its id, or for the registry. *)
Inductive Handled :=
  | Answered (r : Response)
  | Waiting (t id : text) (k : Task)
  | Submitted (c : registry.Change).

Definition start_task (t id : text) (s : AppState) (r : Result Task Response) : AppState * Handled :=
  match r with
  | Err r => (s, Answered r)
  | Ok k => (set_metrics (request_started (metrics s)) s, Waiting t id k)
  end.

Definition dispatch (t : text) (c : Call) (s : AppState) : AppState * Handled :=
  match c with
  | Infer r => start_task t (infer_id r) s (infer_prepare s t r)
  | Chat r => start_task t (chat_id r) s (chat_prepare s r)
  | UploadModel now fields =>
      match upload_model_handler now t fields with Err r => (s, Answered r) | Ok c => (s, Submitted c) end
  | ListModels => (s, Answered (list_models_handler t s))
  | GetModel id => (s, Answered (get_model_handler t id s))
  | DeleteModel id => (s, Submitted (delete_model_handler t id))
  | ActivateModel id v => (s, Submitted (activate_model_handler t id v))
  end.

Definition handle (r : Request) (s : AppState) : AppState * Handled :=
  match r with
  | Health => (s, Answered health_handler)
  | Metrics => (s, Answered (metrics_handler s))
  | V1 len h c =>
      match body_limit len with
      | Some e => (s, Answered e)
      | None =>
          match auth_middleware s h with
          | Some e => (s, Answered e)
          | None => match tenant_id_from_headers h with
                    | Err e => (s, Answered e)
                    | Ok t => dispatch t c s
                    end
          end
      end
  end.

(** The rest of the handler. *)
Definition finish (t id : text) (k : Task) (o : Outcome_) (latency : Z) (s : AppState) : AppState * Response :=
  (set_metrics (record_outcome t latency o (metrics s)) s, response_of id latency k o).

(** One request alone, from its arrival to its response. *)
Definition serve_one (clock : nat -> Z) (latency : Z) (io : registry.Io) (r : Request) (s : AppState) : AppState * Response :=
  match handle r s with
  | (s, Answered r) => (s, r)
  | (s, Submitted c) =>
      let '(x, reg) := registry.apply models_dir load io c (models s) in (set_models reg s, join_response (Some x))
  | (s, Waiting t id k) => let '(s, o) := run_task clock s k in finish t id k o latency s
  end.

(** *** All requests in flight *)

(** [f_open] says that the connection, and so the handler, still exists; the task goes on
    without it. *)
Record Flight : Type := MkFlight {
  f_tenant : text;
  f_id : text;
  f_task : Task;
  f_outcome : option Outcome_;
  f_open : bool;
}.

(** A call of the registry in the blocking pool; [None] when it has panicked. *)
Record Job : Type := MkJob {
  j_change : registry.Change;
  j_phase : option (registry.Phase (OnnxModel := OnnxModel));
  j_open : bool;
}.

(** What the handler gets from the join, once the call has ended. *)
Definition ended (p : option (registry.Phase (OnnxModel := OnnxModel))) : option (option (Result Reply registry.RegistryError)) :=
  match p with
  | Some (registry.Done r) => Some (Some r)
  | Some _ => None
  | None => Some None
  end.

(** [sent] are the responses in the order of their sending. *)
Record World : Type := MkWorld { app : AppState; flights : list Flight; jobs : list Job; sent : list Response }.

Inductive step : World -> World -> Prop :=
  | Answer r s s' fs js out a :
      handle r s = (s', Answered a) -> step (MkWorld s fs js out) (MkWorld s' fs js (out ++ [a]))
  | Begin r s s' fs js out t id k :
      handle r s = (s', Waiting t id k) ->
      step (MkWorld s fs js out) (MkWorld s' (fs ++ [MkFlight t id k None true]) js out)
  | Submit r s s' fs js out c :
      handle r s = (s', Submitted c) ->
      step (MkWorld s fs js out) (MkWorld s' fs (js ++ [MkJob c (Some (registry.Started c)) true]) out)
  | Work clock s s' fs1 t id k o c fs2 js out :
      run_task clock s k = (s', o) ->
      step (MkWorld s (fs1 ++ MkFlight t id k None c :: fs2) js out)
           (MkWorld s' (fs1 ++ MkFlight t id k (Some o) c :: fs2) js out)
  | Finish latency s s' fs1 t id k o fs2 js out a :
      finish t id k o latency s = (s', a) ->
      step (MkWorld s (fs1 ++ MkFlight t id k (Some o) true :: fs2) js out) (MkWorld s' (fs1 ++ fs2) js (out ++ [a]))
  | Disconnect s fs1 t id k o fs2 js out :
      step (MkWorld s (fs1 ++ MkFlight t id k o true :: fs2) js out)
           (MkWorld s (fs1 ++ MkFlight t id k o false :: fs2) js out)
  | Advance io s fs js1 c p p' reg o js2 out :
      registry.advance models_dir load io p (models s) = (p', reg) ->
      step (MkWorld s fs (js1 ++ MkJob c (Some p) o :: js2) out)
           (MkWorld (set_models reg s) fs (js1 ++ MkJob c (Some p') o :: js2) out)
  | Panic s fs js1 c o js2 out :
      step (MkWorld s fs (js1 ++ MkJob c (Some (registry.Started c)) o :: js2) out)
           (MkWorld s fs (js1 ++ MkJob c None o :: js2) out)
  | Join s fs js1 c p r js2 out :
      ended p = Some r ->
      step (MkWorld s fs (js1 ++ MkJob c p true :: js2) out) (MkWorld s fs (js1 ++ js2) (out ++ [join_response r]))
  | Leave s fs js1 c p js2 out :
      step (MkWorld s fs (js1 ++ MkJob c p true :: js2) out) (MkWorld s fs (js1 ++ MkJob c p false :: js2) out).
End http.
End http.

(** ** server.rs: the Aeron server of ONNX models *)
Module onnx_server.
Import wire.
Section onnx_server.
Context `{OF : OnnxF32, TR : !Tract, CL : !Candle, TK : !Tokenizer, SP : !Sampler,
  RQ : !protocol.Rmp InferenceRequest, RS : !protocol.Rmp InferenceResponse}.

Definition OFFER_SPIN_RETRIES : nat := 64.

Inductive ModelBackend :=
  | Onnx (m : onnx.OnnxModel)
  | Gguf (g : option gguf.GgufModel).

Definition process_onnx_inference (m : onnx.OnnxModel) (req : InferenceRequest) : option InferenceResponse :=
  match onnx.run_batch m [types.MkSample (input_data req) 0 types.NoMeta] with
  | None => None
  | Some (Ok (p :: _)) =>
      Some (MkResponse (req_id req) (prediction.class_id p) (default [] (prediction.probabilities p))
              (prediction.raw_output p) (prediction.confidence p) 0 [])
  | Some (Ok []) => Some (single.error_response (req_id req) "Model returned no predictions")
  | Some (Err _) => Some (single.error_response (req_id req) "Inference failed")
  end.

(** The sanitized text, a byte a float; a poisoned mutex is an error. *)
Definition process_gguf_inference (m : option gguf.GgufModel) (req : InferenceRequest)
    : option gguf.GgufModel * option InferenceResponse :=
  match utf8.from_utf8 (input_data req) with
  | None => (m, Some (single.error_response (req_id req) "Invalid UTF-8 prompt"))
  | Some prompt =>
      match m with
      | None => (m, Some (single.error_response (req_id req) "Failed to lock GGUF model"))
      | Some g =>
          let '(g, _, o) := gguf.generate_streaming g prompt (single.max_tokens_override req) in
          match o with
          | None => (None, None)
          | Some (Err _) => (Some g, Some (single.error_response (req_id req) "GGUF generation failed"))
          | Some (Ok t) => (Some g, Some (MkResponse (req_id req) None [] (single.text_output t) (f_of_Z 1) 0 []))
          end
      end
  end.

Definition process_inference_request (b : ModelBackend) (req : InferenceRequest) : ModelBackend * option InferenceResponse :=
  match b with
  | Onnx m => (b, process_onnx_inference m req)
  | Gguf g => let '(g, r) := process_gguf_inference g req in (Gguf g, r)
  end.

(** The publication; [offer] says whether it took the bytes. *)
Section loop.
Context {P : Type} (offer : list Z -> P -> P * bool).

(** One offer and at most [retries] more. *)
Fixpoint offer_loop (retries : nat) (b : list Z) (p : P) : P * bool :=
  match offer b p with
  | (p, true) => (p, true)
  | (p, false) => match retries with O => (p, false) | S n => offer_loop n b p end
  end.

Record Server : Type := MkServer {
  backend : ModelBackend;
  requests_processed : Z;
  offer_failures : Z;
  publication : P;
}.

(** The body of the loop over the fragments; [None] is a panic, which ends the server. *)
Definition on_fragment (elapsed : Z) (fragment : list Z) (s : Server) : option Server :=
  match deserialize_request fragment with
  | Err _ => Some s
  | Ok req =>
      let '(b, r) := process_inference_request (backend s) req in
      match r with
      | None => None
      | Some r =>
          match serialize_response (single.set_latency elapsed r) with
          | Err _ => Some (MkServer b (requests_processed s) (offer_failures s) (publication s))
          | Ok bytes =>
              match offer_loop OFFER_SPIN_RETRIES bytes (publication s) with
              | (p, true) => Some (MkServer b (as_unsigned 64 (requests_processed s + 1)) (offer_failures s) p)
              | (p, false) => Some (MkServer b (requests_processed s) (as_unsigned 64 (offer_failures s + 1)) p)
              end
          end
      end
  end.

(** One poll: its fragments in order, with the time each took. *)
Fixpoint on_fragments (fs : list (Z * list Z)) (s : Server) : option Server :=
  match fs with
  | [] => Some s
  | (elapsed, f) :: fs => s ← on_fragment elapsed f s; on_fragments fs s
  end.
End loop.
End onnx_server.
End onnx_server.

(** ** What a request does to the state *)
Section handling.
Import http service_metrics.
Context `{OF : OnnxF32, TR : !Tract, CL : !Candle, TK : !Tokenizer, SP : !Sampler, RL : !registry.Lib, HL : !HttpLib}.
Implicit Types (s : AppState) (t : list Z).

(** The tenant a request is served for. *)
Definition served_for (r : Request) s : option (list Z) :=
  match r with
  | V1 len h _ =>
      match body_limit len, auth_middleware s h, tenant_id_from_headers h with
      | None, None, Ok t => Some t
      | _, _, _ => None
      end
  | _ => None
  end.

Definition call_of (r : Request) : option Call := match r with V1 _ _ c => Some c | _ => None end.

Lemma handle_served r s t : served_for r s = Some t -> exists c, call_of r = Some c /\ handle r s = dispatch t c s.
Proof.
  destruct r as [| |len h c]; [done|done|]. cbn. destruct (body_limit len); [done|]. destruct (auth_middleware s h); [done|].
  destruct (tenant_id_from_headers h); [|done]. intros [= ->]. by exists c.
Qed.

Lemma handle_not_served r s : served_for r s = None -> exists a, handle r s = (s, Answered a).
Proof.
  destruct r as [| |len h c]; cbn; [by eexists|by eexists|].
  destruct (body_limit len); [by eexists|]. destruct (auth_middleware s h); [by eexists|].
  destruct (tenant_id_from_headers h); [done|by eexists].
Qed.

(** A handler changes the metrics when its task starts, and nothing else. *)
Lemma handle_state r s s' out :
  handle r s = (s', out) ->
  s' = match out with Waiting _ _ _ => set_metrics (request_started (metrics s)) s | _ => s end.
Proof.
  intros H. destruct (served_for r s) as [t|] eqn:E; [|by destruct (handle_not_served r s E) as [a Ha]; rewrite Ha in H; injection H as <- <-].
  destruct (handle_served r s t E) as (c & _ & Hc). rewrite Hc in H. clear Hc E.
  destruct c as [q|q|now fields| |id|id|id v]; cbn in H.
  - destruct (infer_prepare s t q); by injection H as <- <-.
  - destruct (chat_prepare s q); by injection H as <- <-.
  - destruct (upload_model_handler now t fields); by injection H as <- <-.
  - by injection H as <- <-.
  - by injection H as <- <-.
  - by injection H as <- <-.
  - by injection H as <- <-.
Qed.

Lemma handle_metrics r s s' out :
  handle r s = (s', out) ->
  metrics s' = match out with Waiting _ _ _ => request_started (metrics s) | _ => metrics s end.
Proof. intros ->%handle_state. by destruct out. Qed.

Lemma handle_models r s s' out : handle r s = (s', out) -> models s' = models s.
Proof. intros ->%handle_state. by destruct out. Qed.

(** A call of the registry is on a model of the caller. *)
Lemma handle_change r s s' c : handle r s = (s', Submitted c) -> served_for r s = Some (model_of c).1.
Proof.
  intros H. destruct (served_for r s) as [t|] eqn:E; [|by destruct (handle_not_served r s E) as [a Ha]; rewrite Ha in H].
  destruct (handle_served r s t E) as (q & _ & Hc). rewrite Hc in H. clear Hc E. f_equal.
  destruct q as [q|q|now fields| |id|id|id v]; cbn in H; try done.
  - by destruct (infer_prepare s t q).
  - by destruct (chat_prepare s q).
  - unfold upload_model_handler in H. destruct (read_form fields _) as [f|]; [|done].
    destruct (form_model_id f) as [[|a id]|]; [done| |done]. destruct (form_file f) as [[|b bytes]|]; [done| |done]. by injection H as <- <-.
  - by injection H as <- <-.
  - by injection H as <- <-.
Qed.

(** Tasks leave the registry and the metrics alone, the end of a handler the registry. *)
Lemma run_task_keeps clock s k s' o : run_task clock s k = (s', o) -> models s' = models s /\ metrics s' = metrics s /\ api_key s' = api_key s.
Proof.
  destruct k as [m i|p max]; cbn; [by intros [= <- <-]|].
  destruct (default_gguf_model s) as [[g|]|]; [|by intros [= <- <-]|by intros [= <- <-]].
  destruct (gguf.generate_streaming g p max) as [[g' chunks] [[a|e]|]]; by intros [= <- <-].
Qed.
End handling.

(** ** The books of the metrics *)
Section accounts.
Import http service_metrics.
Context `{OF : OnnxF32, TR : !Tract, CL : !Candle, TK : !Tokenizer, SP : !Sampler, RL : !registry.Lib, HL : !HttpLib}.
Variable models_dir : list (list Z).
Variable load : list Z -> Result onnx.OnnxModel (list Z).

Abbreviation step := (step models_dir load).

(** An answer of a model, and the report that a model failed: the registry's calls report a
    panic in other words. *)
Definition is_result (a : Response) : bool := match body a with OfInfer _ | OfChat _ => true | _ => false end.
Definition is_failure (a : Response) : bool := match body a with ApiError m _ => (status a =? 500) && negb (String.eqb m "Worker panic") | _ => false end.
Definition how_many (p : Response -> bool) (l : list Response) : Z := Z.of_nat (length (List.filter p l)).

Definition tenants_total (m : InferenceMetrics) : Z := map_fold (fun _ n acc => n + acc) 0 (requests_per_tenant m).

Record accounts (m : InferenceMetrics) (waiting : Z) (out : list Response) : Prop := {
  ac_active : active_requests m = waiting;
  ac_total : requests_total m = waiting + 2 * (requests_success_total m + requests_failed_total m);
  ac_success : requests_success_total m = how_many is_result out;
  ac_failed : requests_failed_total m = how_many is_failure out;
  ac_tenants : tenants_total m = requests_success_total m + requests_failed_total m;
  ac_latency_success : Z.of_nat (length (latency_success m)) = 2 * requests_success_total m;
  ac_latency_error : Z.of_nat (length (latency_error m)) = 2 * requests_failed_total m;
}.

Lemma how_many_snoc p l a : how_many p (l ++ [a]) = how_many p l + (if p a then 1 else 0).
Proof. unfold how_many. rewrite List.filter_app, length_app. cbn. destruct (p a); cbn; lia. Qed.

Lemma tenant_inc_total (t : list Z) (per : gmap (list Z) Z) :
  map_fold (fun _ n acc => n + acc) 0 (tenant_inc t per) = map_fold (fun _ n acc => n + acc) 0 per + 1.
Proof.
  unfold tenant_inc. rewrite <- insert_delete_eq. rewrite map_fold_insert_L; [|intros; lia|by rewrite lookup_delete_eq].
  destruct (per !! t) as [n|] eqn:E.
  - rewrite (map_fold_delete_L _ _ t n per) by (done || intros; lia). cbn. lia.
  - rewrite delete_id by done. cbn. lia.
Qed.

Lemma read_form_kind fields f e : read_form fields f = Err e -> is_result e = false /\ is_failure e = false.
Proof.
  revert f. induction fields as [|x fields IH]; intros f; cbn; [done|].
  repeat (case_match; try (by intros [= <-]); try (by apply IH)).
Qed.

Lemma handle_answer_kind r s s' a : handle r s = (s', Answered a) -> is_result a = false /\ is_failure a = false.
Proof.
  destruct r as [| |len h c]; cbn; [by intros [= <- <-]| |].
  - unfold metrics_handler. intros [= <- <-]. by destruct (encode_metrics (metrics s)).
  - unfold body_limit, auth_middleware, tenant_id_from_headers.
    destruct (match len with Some n => if INFER_BODY_LIMIT <? n then _ else _ | None => _ end) as [e|] eqn:El.
    { intros [= <- <-]. destruct len as [n|]; [|done]. destruct (INFER_BODY_LIMIT <? n); [|done]. by injection El as <-. }
    destruct (ct_eq _ _); [|by intros [= <- <-]].
    destruct (v ← x_tenant_id h; _) as [t|]; [|by intros [= <- <-]].
    destruct c as [q|q|now fields| |id|id|id v]; cbn.
    + unfold infer_prepare. repeat (case_match; cbn; try (by intros [= <- <-])).
    + unfold chat_prepare. repeat (case_match; cbn; try (by intros [= <- <-])).
    + unfold upload_model_handler. destruct (read_form fields _) as [f|e] eqn:Ef.
      * destruct (form_model_id f) as [[|x id]|]; [by intros [= <- <-]| |by intros [= <- <-]].
        by destruct (form_file f) as [[|b bytes]|]; [intros [= <- <-]| |intros [= <- <-]].
      * intros [= <- <-]. by eapply read_form_kind.
    + by intros [= <- <-].
    + unfold get_model_handler. intros [= <- <-]. by destruct (registry.get_model t id (models s)).
    + done.
    + done.
Qed.

Lemma join_kind r : is_result (join_response r) = false /\ is_failure (join_response r) = false.
Proof. by destruct r as [[[]|]|]. Qed.

Lemma finish_accounts t id k o latency s s' a n out :
  finish t id k o latency s = (s', a) -> accounts (metrics s) n out -> accounts (metrics s') (n - 1) (out ++ [a]).
Proof.
  intros [= <- <-] []. unfold record_outcome. destruct (succeeded o) eqn:Eo; constructor; cbn in *;
    rewrite ?how_many_snoc, ?length_app; cbn; unfold tenants_total in *; cbn; rewrite ?tenant_inc_total;
    destruct o; try discriminate; destruct k; cbn; lia.
Qed.

Lemma quiet_answer m n out a :
  is_result a = false -> is_failure a = false -> accounts m n out -> accounts m n (out ++ [a]).
Proof. intros H1 H2 []. constructor; rewrite ?how_many_snoc, ?H1, ?H2; lia. Qed.

Lemma step_accounts w w' :
  step w w' -> accounts (metrics (app w)) (Z.of_nat (length (flights w))) (sent w) ->
  accounts (metrics (app w')) (Z.of_nat (length (flights w'))) (sent w').
Proof.
  intros Hst Ha. destruct Hst as [r s s' fs js out a H|r s s' fs js out t id k H|r s s' fs js out c H|clock s s' fs1 t id k o c fs2 js out H
    |latency s s' fs1 t id k o fs2 js out a H|s fs1 t id k o fs2 js out|io s fs js1 c p p' reg o js2 out H|s fs js1 c o js2 out
    |s fs js1 c p r js2 out H|s fs js1 c p js2 out]; cbn in *; try exact Ha.
  - rewrite (handle_metrics _ _ _ _ H). destruct (handle_answer_kind _ _ _ _ H) as [H1 H2]. by apply quiet_answer.
  - rewrite (handle_metrics _ _ _ _ H), length_app. destruct Ha. constructor; cbn in *; unfold tenants_total in *; cbn; lia.
  - by rewrite (handle_metrics _ _ _ _ H).
  - destruct (run_task_keeps _ _ _ _ _ H) as (_ & -> & _). rewrite length_app in *. cbn in *. exact Ha.
  - pose proof (finish_accounts _ _ _ _ _ _ _ _ _ _ H Ha) as Hf. rewrite !length_app in *. cbn in *.
    by replace (Z.of_nat (length fs1 + length fs2)) with (Z.of_nat (length fs1 + S (length fs2)) - 1) by lia.
  - rewrite length_app in *. exact Ha.
  - destruct (join_kind r) as [H1 H2]. by apply quiet_answer.
Qed.

Lemma reachable_accounts s w :
  metrics s = new -> rtc step (MkWorld s [] [] []) w ->
  accounts (metrics (app w)) (Z.of_nat (length (flights w))) (sent w).
Proof.
  intros Hm Hr. revert w Hr. apply rtc_ind_r.
  - cbn. rewrite Hm. constructor; cbn; done.
  - intros w w' _ Hst Ha. by eapply step_accounts.
Qed.
End accounts.

(** ** The registry behind the API *)
Section tenants.
Import http registry.
Context `{OF : OnnxF32, TR : !Tract, CL : !Candle, TK : !Tokenizer, SP : !Sampler, RL : !registry.Lib, RLL : !LibLaws, HL : !HttpLib}.
Variable models_dir : list (list Z).
Variable load : list Z -> Result onnx.OnnxModel (list Z).

Abbreviation step := (step models_dir load).
Implicit Types (w : World) (j : Job).

(** The tenant whose request a call of the registry belongs to. *)
Definition j_tenant j : list Z := (model_of (j_change j)).1.

(** Every call under way knows of its own model only. *)
Record world_sound w : Prop := {
  ws_models : sound models_dir (models (app w));
  ws_jobs j p : j ∈ jobs w -> j_phase j = Some p -> concerns (j_tenant j) (model_of (j_change j)).2 p;
}.

Lemma step_sound w w' : step w w' -> world_sound w -> world_sound w'.
Proof using RLL.
  intros Hst [Hs Hj]. destruct Hst as [r s s' fs js out a H|r s s' fs js out t id k H|r s s' fs js out c H|clock s s' fs1 t id k o c fs2 js out H
    |latency s s' fs1 t id k o fs2 js out a H|s fs1 t id k o fs2 js out|io s fs js1 c p p' reg o js2 out H|s fs js1 c o js2 out
    |s fs js1 c p r js2 out H|s fs js1 c p js2 out]; constructor; cbn in *; try done.
  - by rewrite (handle_models _ _ _ _ H).
  - by rewrite (handle_models _ _ _ _ H).
  - by rewrite (handle_models _ _ _ _ H).
  - intros j p [Hin|E%list_elem_of_singleton]%elem_of_app; [by apply Hj|]. subst j. intros [= <-]. by destruct c.
  - by destruct (run_task_keeps _ _ _ _ _ H) as (-> & _).
  - by injection H as <- <-.
  - pose proof (advance_sound models_dir load io p (models s) _ _ Hs (Hj (MkJob c (Some p) o) p ltac:(set_solver) eq_refl)) as Ha.
    by rewrite H in Ha.
  - intros j q [Hin|[->|Hin]%elem_of_cons]%elem_of_app; [apply Hj; set_solver| |apply Hj; set_solver]. intros [= <-].
    pose proof (advance_only models_dir load io p (models s) _ _ Hs (Hj (MkJob c (Some p) o) p ltac:(set_solver) eq_refl)) as [_ Ha].
    by rewrite H in Ha.
  - intros j q [Hin|[->|Hin]%elem_of_cons]%elem_of_app; [apply Hj; set_solver|done|apply Hj; set_solver].
  - intros j q [Hin|Hin]%elem_of_app; apply Hj; set_solver.
  - intros j q [Hin|[->|Hin]%elem_of_cons]%elem_of_app; [apply Hj; set_solver| |apply Hj; set_solver].
    intros E. apply (Hj (MkJob c p true)); [set_solver|exact E].
Qed.

Lemma reachable_sound s w : sound models_dir (models s) -> rtc step (MkWorld s [] [] []) w -> world_sound w.
Proof using RLL.
  intros Hi Hr. revert w Hr. apply rtc_ind_r.
  - constructor; cbn; [done|]. by intros j p ?%not_elem_of_nil.
  - intros w w' _ Hst Hw. by eapply step_sound.
Qed.

(** The metadata an answer shows. *)
Definition shown (a : Response) : list ModelMeta :=
  match body a with OfMeta m => [m] | OfMetas ms => ms | _ => [] end.

Lemma read_form_shows fields f e : read_form fields f = Err e -> shown e = [].
Proof.
  revert f. induction fields as [|x fields IH]; intros f; cbn; [done|].
  repeat (case_match; try (by intros [= <-]); try (by apply IH)).
Qed.

Lemma handle_shows r s s' a t :
  sound models_dir (models s) -> served_for r s = Some t -> handle r s = (s', Answered a) ->
  Forall (fun meta => tenant_id meta = t) (shown a).
Proof.
  intros Hi Hs. destruct (handle_served r s t Hs) as (c & _ & ->).
  destruct c as [q|q|now fields| |id|id|id v]; cbn.
  - destruct (infer_prepare s t q) as [?|a'] eqn:E; cbn; [done|]. intros [= <- <-].
    unfold infer_prepare in E. repeat (case_match; try done; try (injection E as <-; apply Forall_nil_2)).
  - destruct (chat_prepare s q) as [?|a'] eqn:E; cbn; [done|]. intros [= <- <-].
    unfold chat_prepare in E. repeat (case_match; try done; try (injection E as <-; apply Forall_nil_2)).
  - unfold upload_model_handler. destruct (read_form fields _) as [f|e] eqn:Ef.
    + destruct (form_model_id f) as [[|x id]|]; [by intros [= <- <-]; apply Forall_nil_2| |by intros [= <- <-]; apply Forall_nil_2].
      by destruct (form_file f) as [[|b bytes]|]; [intros [= <- <-]; apply Forall_nil_2| |intros [= <- <-]; apply Forall_nil_2].
    + intros [= <- <-]. by rewrite (read_form_shows _ _ _ Ef).
  - intros [= <- <-]. apply Forall_forall. intros meta Hin. cbn in Hin. unfold list_models in Hin.
    apply list_elem_of_fmap in Hin as ([[t1 m1] meta'] & -> & Hin). apply list_elem_of_filter in Hin as [Ht Hin].
    cbn in Ht. subst t1. apply elem_of_map_to_list in Hin. by destruct (so_index _ _ Hi t m1 meta' Hin) as (_ & E & _).
  - unfold get_model_handler, get_model. intros [= <- <-]. destruct (index (models s) !! (t, id)) as [meta|] eqn:E; [|by apply Forall_nil_2].
    apply Forall_singleton. by destruct (so_index _ _ Hi t id meta E) as (_ & Et & _).
  - done.
  - done.
Qed.

Lemma join_shows t m p r : concerns t m p -> ended (Some p) = Some r -> Forall (fun meta => tenant_id meta = t) (shown (join_response r)).
Proof.
  destruct p as [| | | | | | | |x]; try done. cbn. intros Ha [= <-]. destruct x as [[meta|v x|]|]; cbn; try by apply Forall_nil_2.
  apply Forall_singleton. by destruct Ha as (_ & ? & _).
Qed.
End tenants.

(** ** One model, as its activations and deletions pass *)
Section activation.
Import http registry.
Context `{OF : OnnxF32, TR : !Tract, CL : !Candle, TK : !Tokenizer, SP : !Sampler, RL : !registry.Lib, HL : !HttpLib}.
Variable models_dir : list (list Z).
Variable load : list Z -> Result onnx.OnnxModel (list Z).
Variables t m : list Z.

Abbreviation step := (step models_dir load).
Abbreviation Reg := (ModelRegistry (OnnxModel := onnx.OnnxModel)).
Implicit Types (w : World) (j : Job) (s : Reg).

(** An activation of the model that has changed the index and not yet the cache. *)
Definition switching j : bool :=
  match j_phase j with
  | Some (PersistActive t' m' _ _ _) | Some (FillCache t' m' _ _) => bool_decide ((t', m') = (t, m))
  | _ => false
  end.

(** A deletion of the model that has found no active version and has not ended. *)
Definition deleting j : bool :=
  match j_phase j with
  | Some (RemoveFiles t' m') | Some (RemoveIndex t' m') | Some (RemoveCache t' m') => bool_decide ((t', m') = (t, m))
  | _ => false
  end.

(** An activation of the model that failed to write the metadata. *)
Definition half_done j : bool :=
  match j_change j, j_phase j with
  | Activate t' m' _, Some (Done (Err (NotPersisted _ _))) => bool_decide ((t', m') = (t, m))
  | _, _ => false
  end.

Definition critical j : bool := switching j || deleting j.

(** Activations and deletions of the model do not overlap, and none has failed half-way. *)
Definition orderly w : Prop :=
  (length (List.filter critical (jobs w)) <= 1)%nat /\ existsb half_done (jobs w) = false.

Definition orderly_step w w' : Prop := step w w' /\ orderly w'.

(** The phases a call goes through. *)
Definition phase_of (c : Change) (p : Phase (OnnxModel := onnx.OnnxModel)) : Prop :=
  match p with
  | Started c' => c' = c
  | PersistUpload _ => exists now t m name b, c = Upload now t m name b
  | IndexActive t m v _ | PersistActive t m v _ _ | FillCache t m v _ => c = Activate t m v
  | RemoveFiles t m | RemoveIndex t m | RemoveCache t m => c = Delete t m
  | Done _ => True
  end.

Lemma advance_phase io c p s : phase_of c p -> phase_of c (advance models_dir load io p s).1.
Proof.
  intros Hp. destruct p as [[now t' m' name b|t' m' v|t' m']|meta|t' m' v x|t' m' v x meta|t' m' v x|t' m'|t' m'|t' m'|r]; cbn in *; try done.
  - destruct (validate_ids t' m'); [|done]. destruct (upload_locked _ _ _ _ _ _ _ _) as [[]]; [|done]. cbn. by repeat eexists.
  - by destruct (activate_load _ _ _ _ _ _ _).
  - by destruct (delete_allowed _ _ _).
  - by destruct (persist_meta _ _ _ _) as [[]].
  - unfold activate_locked. by destruct (index s !! (t', m')).
  - by destruct (persist_meta _ _ _ _) as [[]].
  - by destruct (remove_files _ _ _ _ _) as [[]].
Qed.

Definition active s : option (list Z) := index s !! (t, m) ≫= active_version.

(** What a step of a call does to the active version and the cached models. *)
Lemma advance_active io p s p' s' :
  advance models_dir load io p s = (p', s') ->
  active s' = active s \/
  (exists v x meta, p = IndexActive t m v x /\ p' = PersistActive t m v x meta /\ active s' = Some v) \/
  p = RemoveIndex t m.
Proof.
  unfold active. destruct p as [[now t' m' name b|t' m' v|t' m']|meta|t' m' v x|t' m' v x meta|t' m' v x|t' m'|t' m'|t' m'|r]; cbn.
  - destruct (validate_ids t' m'); [|intros [= <- <-]; by left]. unfold upload_locked. cbv zeta.
    destruct (write_file _ _ _ _) as [[] d]; cbn; intros [= <- <-]; left; [|done]. cbn.
    destruct (decide ((t', m') = (t, m))) as [[= -> ->]|Hne]; [|by rewrite lookup_insert_ne].
    rewrite lookup_insert_eq. cbn. by destruct (index s !! (t, m)).
  - destruct (activate_load _ _ _ _ _ _ _); intros [= <- <-]; by left.
  - destruct (delete_allowed _ _ _); intros [= <- <-]; by left.
  - unfold persist_meta. destruct (write_file _ _ _ _) as [[] d]; intros [= <- <-]; by left.
  - unfold activate_locked. destruct (index s !! (t', m')) as [meta|] eqn:E; intros [= <- <-]; [|by left].
    destruct (decide ((t', m') = (t, m))) as [[= -> ->]|Hne]; [|left; cbn; by rewrite lookup_insert_ne].
    right; left. eexists v, x, _. split_and!; [done|done|]. cbn. by rewrite lookup_insert_eq.
  - unfold persist_meta. destruct (write_file _ _ _ _) as [[] d]; intros [= <- <-]; by left.
  - intros [= <- <-]. by left.
  - unfold remove_files. destruct (is_dir _ _); [|intros [= <- <-]; by left]. destruct (removal io); intros [= <- <-]; by left.
  - intros [= <- <-]. destruct (decide ((t', m') = (t, m))) as [[= -> ->]|Hne]; [by right; right|]. left. cbn. by rewrite lookup_delete_ne.
  - intros [= <- <-]. by left.
  - intros [= <- <-]. by left.
Qed.

Lemma advance_cached io p s p' s' :
  advance models_dir load io p s = (p', s') ->
  (forall v, cache s' !! (t, m, v) = cache s !! (t, m, v)) \/
  (exists v x, p = FillCache t m v x /\ cache s' !! (t, m, v) = Some x) \/
  p = RemoveCache t m.
Proof.
  destruct p as [[now t' m' name b|t' m' v|t' m']|meta|t' m' v x|t' m' v x meta|t' m' v x|t' m'|t' m'|t' m'|r]; cbn.
  - destruct (validate_ids t' m'); [|intros [= <- <-]; by left]. unfold upload_locked. cbv zeta.
    destruct (write_file _ _ _ _) as [[] d]; cbn; intros [= <- <-]; by left.
  - destruct (activate_load _ _ _ _ _ _ _); intros [= <- <-]; by left.
  - destruct (delete_allowed _ _ _); intros [= <- <-]; by left.
  - unfold persist_meta. destruct (write_file _ _ _ _) as [[] d]; intros [= <- <-]; by left.
  - unfold activate_locked. destruct (index s !! (t', m')) as [meta|] eqn:E; intros [= <- <-]; by left.
  - unfold persist_meta. destruct (write_file _ _ _ _) as [[] d]; intros [= <- <-]; by left.
  - intros [= <- <-]. destruct (decide ((t', m') = (t, m))) as [[= -> ->]|Hne].
    + right; left. exists v, x. split; [done|]. cbn. by rewrite lookup_insert_eq.
    + left. intros v'. cbn. rewrite lookup_insert_ne by congruence. by apply evict_other.
  - unfold remove_files. destruct (is_dir _ _); [|intros [= <- <-]; by left]. destruct (removal io); intros [= <- <-]; by left.
  - intros [= <- <-]. by left.
  - intros [= <- <-]. destruct (decide ((t', m') = (t, m))) as [[= -> ->]|Hne]; [by right; right|]. left. intros v.
    cbn. by apply evict_other.
  - intros [= <- <-]. by left.
Qed.

(** What a switching, deleting or ended call was before the step. *)
Lemma advance_to io c p s p' s' o :
  advance models_dir load io p s = (p', s') -> phase_of c p ->
  (switching (MkJob c (Some p') o) = true -> switching (MkJob c (Some p) o) = true \/ exists v, c = Activate t m v /\ active s' = Some v) /\
  (deleting (MkJob c (Some p') o) = true -> deleting (MkJob c (Some p) o) = true \/ active s = None) /\
  (forall v x, p' = Done (Ok (NowActive v x)) -> c = Activate t m v \/ model_of c = (t, m) -> p = p' \/
     switching (MkJob c (Some p) o) = true /\ exists v x, c = Activate t m v /\ cache s' !! (t, m, v) = Some x) /\
  (switching (MkJob c (Some p) o) = true ->
     switching (MkJob c (Some p') o) = true \/ half_done (MkJob c (Some p') o) = true \/
     exists v x, c = Activate t m v /\ cache s' !! (t, m, v) = Some x).
Proof.
  unfold switching, deleting, half_done, active. cbn [j_phase j_change].
  destruct p as [[now t' m' name b|t' m' v|t' m']|meta|t' m' v x|t' m' v x meta|t' m' v x|t' m'|t' m'|t' m'|r]; cbn; intros H Hp.
  - destruct (validate_ids t' m'); [|by injection H as <- <-].
    destruct (upload_locked _ _ _ _ _ _ _ _) as [[meta|e] s1]; by injection H as <- <-.
  - destruct (activate_load _ _ _ _ _ _ _); by injection H as <- <-.
  - destruct (delete_allowed t' m' s) as [[]|] eqn:E; injection H as <- <-; [|done]. split_and!; try done.
    intros [= -> ->]%bool_decide_eq_true. right. unfold delete_allowed in E. destruct (validate_ids t m); [|done].
    by destruct (index s !! (t, m) ≫= active_version).
  - by destruct (persist_meta _ _ _ _) as [[]]; injection H as <- <-.
  - unfold activate_locked in H. destruct (index s !! (t', m')) as [meta|]; injection H as <- <-; [|done]. split_and!; try done.
    intros [= -> ->]%bool_decide_eq_true. right. exists v. split; [done|]. cbn. by rewrite lookup_insert_eq.
  - unfold persist_meta in H. destruct (write_file _ _ _ _) as [[] d]; injection H as <- <-; split_and!; try done; [by left|by left|].
    intros E. right; left. by rewrite Hp.
  - injection H as <- <-. rewrite Hp. split_and!; try done.
    + intros v' x' [= -> ->] [E|E].
      * injection E as -> ->. right. split; [by apply bool_decide_eq_true|]. exists v', x'. split; [done|]. cbn. by rewrite lookup_insert_eq.
      * injection E as -> ->. right. split; [by apply bool_decide_eq_true|]. exists v', x'. split; [done|]. cbn. by rewrite lookup_insert_eq.
    + intros [= -> ->]%bool_decide_eq_true. right; right. exists v, x. split; [done|]. cbn. by rewrite lookup_insert_eq.
  - destruct (remove_files _ _ _ _ _) as [[] s1]; injection H as <- <-; split_and!; try done. by left.
  - injection H as <- <-. split_and!; try done. by left.
  - injection H as <- <-. done.
  - injection H as <- <-. split_and!; try done; by left.
Qed.

(** The model is served, or an activation is about to fill the cache. *)
Definition held w : Prop :=
  exists v, active (models (app w)) = Some v /\
    (is_Some (cache (models (app w)) !! (t, m, v)) \/ exists j, j ∈ jobs w /\ switching j = true).

Record steady w : Prop := {
  st_phase j p : j ∈ jobs w -> j_phase j = Some p -> phase_of (j_change j) p;
  st_switch j : j ∈ jobs w -> switching j = true -> exists v, j_change j = Activate t m v /\ active (models (app w)) = Some v;
  st_delete j : j ∈ jobs w -> deleting j = true -> active (models (app w)) = None;
  st_done j v x : j ∈ jobs w -> j_phase j = Some (Done (Ok (NowActive v x))) -> model_of (j_change j) = (t, m) -> held w;
}.

(** The jobs of [w'] are jobs of [w], or have changed nothing. *)
Lemma steady_same w w' :
  models (app w') = models (app w) ->
  (forall j, j ∈ jobs w' -> (exists i, i ∈ jobs w /\ j_change i = j_change j /\ j_phase i = j_phase j) \/
     j_phase j = None \/ j_phase j = Some (Started (j_change j))) ->
  (forall i, i ∈ jobs w -> switching i = true -> exists j, j ∈ jobs w' /\ switching j = true) ->
  steady w -> steady w' /\ (held w -> held w').
Proof.
  intros Em Hj Hi [H1 H2 H3 H4].
  assert (held w -> held w') as Hh.
  { intros (v & Hv & Hc). exists v. rewrite Em. split; [done|]. destruct Hc as [Hc|(i & Hin & Hs)]; [by left|right]. by eapply Hi. }
  split; [|done]. constructor; rewrite ?Em.
  - intros j p Hin E. destruct (Hj j Hin) as [(i & Hi' & <- & Ep)|[E'|E']]; [apply (H1 i); congruence|congruence|].
    rewrite E' in E. by injection E as <-.
  - intros j Hin Hs. destruct (Hj j Hin) as [(i & Hi' & <- & Ep)|[E'|E']]; [|unfold switching in Hs; by rewrite E' in Hs..].
    apply (H2 i); [done|]. unfold switching in *. by rewrite Ep.
  - intros j Hin Hs. destruct (Hj j Hin) as [(i & Hi' & _ & Ep)|[E'|E']]; [|unfold deleting in Hs; by rewrite E' in Hs..].
    apply (H3 i); [done|]. unfold deleting in *. by rewrite Ep.
  - intros j v x Hin Hs Hm. destruct (Hj j Hin) as [(i & Hi' & Ec & Ep)|[E'|E']]; [|congruence..].
    apply Hh. apply (H4 i v x); congruence.
Qed.

Lemma alone_elsewhere (J : Job) js1 js2 :
  critical J = true -> (length (List.filter critical (js1 ++ J :: js2)) <= 1)%nat -> forall j, j ∈ js1 ++ js2 -> critical j = false.
Proof.
  intros HJ Hl j Hj. destruct (critical j) eqn:E; [|done]. rewrite List.filter_app, length_app in Hl. cbn in Hl. rewrite HJ in Hl. cbn in Hl.
  assert (forall l : list Job, j ∈ l -> (1 <= length (List.filter critical l))%nat) as Hc.
  { intros l Hl'. apply list_elem_of_In in Hl'. assert (In j (List.filter critical l)) as H by by apply filter_In.
    destruct (List.filter critical l); cbn in *; [done|lia]. }
  apply elem_of_app in Hj as [Hj|Hj]; apply Hc in Hj; lia.
Qed.

Lemma advance_steady io (s : AppState) fs js1 c p o js2 out p' reg :
  let w := MkWorld s fs (js1 ++ MkJob c (Some p) o :: js2) out in
  let w' := MkWorld (set_models reg s) fs (js1 ++ MkJob c (Some p') o :: js2) out in
  advance models_dir load io p (models s) = (p', reg) -> orderly w' -> steady w -> steady w' /\ (held w -> held w').
Proof.
  cbv zeta. intros H [Ho Hf] [H1 H2 H3 H4]. cbn [app models jobs set_models] in *.
  set (J := MkJob c (Some p) o) in *. set (J' := MkJob c (Some p') o) in *.
  assert (J ∈ js1 ++ J :: js2) as HJ by set_solver. pose proof (H1 J p HJ eq_refl) as Hp. cbn in Hp.
  destruct (advance_to io c p (models s) p' reg o H Hp) as (Hsw & Hdl & Hdn & Hnx). fold J J' in Hsw, Hdl, Hdn, Hnx.
  assert (forall j, j ∈ js1 ++ J' :: js2 -> j = J' \/ j ∈ js1 ++ js2 /\ j ∈ js1 ++ J :: js2) as Hsplit by set_solver.
  assert (phase_of c p') as Hp' by (pose proof (advance_phase io c p (models s) Hp) as Ha; by rewrite H in Ha).
  assert (half_done J' = false) as Hhd.
  { destruct (half_done J') eqn:E; [|done]. rewrite existsb_app in Hf. cbn in Hf. rewrite E in Hf. by rewrite orb_true_r in Hf. }
  (* the active version moves only under an activation that is then alone *)
  assert ((switching J' = true /\ (forall j, j ∈ js1 ++ js2 -> critical j = false) /\ exists v, c = Activate t m v /\ active reg = Some v) \/
          active reg = active (models s)) as [(Hs & Hal & v & Hc & Ha)|Ha].
  { destruct (advance_active io p (models s) p' reg H) as [E|[(v & x & meta & -> & -> & E)| ->]]; [by right| |].
    - left. assert (switching J' = true) as Hs by (unfold switching; cbn; by rewrite bool_decide_eq_true_2). split; [done|]. split.
      + apply (alone_elsewhere J'); [unfold critical; by rewrite Hs|done].
      + exists v. by split.
    - right. cbn in H. injection H as <- <-. rewrite (H3 J HJ) by (unfold deleting; cbn; by rewrite bool_decide_eq_true_2).
      unfold active. cbn. by rewrite lookup_delete_eq. }
  - assert (held (MkWorld (set_models reg s) fs (js1 ++ J' :: js2) out)) as Hh.
    { exists v. split; [exact Ha|]. right. exists J'. split; [cbn; set_solver|done]. }
    split; [|done]. constructor; cbn [app models jobs set_models].
    + intros j q Hin E. destruct (Hsplit j Hin) as [->|[_ Hw]]; [by injection E as <-|by apply H1].
    + intros j Hin Hj. destruct (Hsplit j Hin) as [->|[Hr _]]; [by exists v|]. apply Hal in Hr. unfold critical in Hr. by rewrite Hj in Hr.
    + intros j Hin Hj. destruct (Hsplit j Hin) as [->|[Hr _]].
      * unfold switching in Hs. unfold deleting in Hj. cbn in *. by destruct p'.
      * apply Hal in Hr. unfold critical in Hr. by rewrite Hj, orb_true_r in Hr.
    + done.
  - assert (held (MkWorld s fs (js1 ++ J :: js2) out) -> held (MkWorld (set_models reg s) fs (js1 ++ J' :: js2) out)) as Hh.
    { intros (v & Hv & Hc). cbn [app models jobs] in *. exists v. cbn [app models jobs set_models]. rewrite Ha. split; [done|].
      destruct Hc as [Hc|(j & Hin & Hj)].
      - left. destruct (advance_cached io p (models s) p' reg H) as [E|[(v' & x & -> & E)| ->]]; [by rewrite E| |].
        + destruct (H2 J HJ) as (v0 & Hc0 & Ha0); [unfold switching; cbn; by rewrite bool_decide_eq_true_2|].
          cbn in Hp, Hc0. rewrite Hp in Hc0. injection Hc0 as <-. rewrite Ha0 in Hv. injection Hv as ->. by exists x.
        + rewrite (H3 J HJ) in Hv; [done|]. unfold deleting. cbn. by rewrite bool_decide_eq_true_2.
      - apply elem_of_app in Hin as [Hin|[->|Hin]%elem_of_cons]; [right; exists j; set_solver| |right; exists j; set_solver].
        destruct (Hnx Hj) as [Hs|[Hs|(v' & x & -> & Hx)]]; [right; exists J'; set_solver|congruence|].
        left. destruct (H2 J HJ Hj) as (v0 & Hc0 & Ha0). cbn in Hc0. injection Hc0 as <-. rewrite Ha0 in Hv. injection Hv as ->. by exists x. }
    split; [|done]. constructor; cbn [app models jobs set_models]; rewrite ?Ha.
    + intros j q Hin E. destruct (Hsplit j Hin) as [->|[_ Hw]]; [by injection E as <-|by apply H1].
    + intros j Hin Hj. destruct (Hsplit j Hin) as [->|[_ Hw]]; [|by apply H2].
      destruct (Hsw Hj) as [Hs|(v & Hc & Hv)]; [by apply (H2 J)|]. exists v. rewrite <- Ha. done.
    + intros j Hin Hj. destruct (Hsplit j Hin) as [->|[_ Hw]]; [|by apply (H3 j)].
      destruct (Hdl Hj) as [Hs|Hv]; [by apply (H3 J)|done].
    + intros j v x Hin E Hm. destruct (Hsplit j Hin) as [->|[_ Hw]]; [|by apply Hh, (H4 j v x)]. cbn in E, Hm. injection E as E.
      destruct (Hdn v x E (or_intror Hm)) as [E'|(Hs & v' & x' & Hc & Hx)].
      * apply Hh. apply (H4 J v x HJ); [unfold J; cbn; by rewrite E', E|exact Hm].
      * destruct (H2 J HJ Hs) as (v0 & Hc0 & Ha0). cbn in Hc0. rewrite Hc in Hc0. injection Hc0 as <-.
        exists v'. cbn [app models set_models]. rewrite Ha. split; [done|]. left. by exists x'.
Qed.

Lemma step_steady w w' : orderly_step w w' -> steady w -> steady w' /\ (held w -> held w').
Proof.
  intros [Hst Ho]. destruct Hst as [r s s' fs js out a H|r s s' fs js out t0 id k H|r s s' fs js out c H|clock s s' fs1 t0 id k o c fs2 js out H
    |latency s s' fs1 t0 id k o fs2 js out a H|s fs1 t0 id k o fs2 js out|io s fs js1 c p p' reg o js2 out H|s fs js1 c o js2 out
    |s fs js1 c p r js2 out H|s fs js1 c p js2 out]; try (by eapply advance_steady); apply steady_same; cbn [app jobs].
  - by rewrite (handle_models _ _ _ _ H).
  - intros j Hj. left. by exists j.
  - intros i Hi Hs. by exists i.
  - by rewrite (handle_models _ _ _ _ H).
  - intros j Hj. left. by exists j.
  - intros i Hi Hs. by exists i.
  - by rewrite (handle_models _ _ _ _ H).
  - intros j [Hj|E%list_elem_of_singleton]%elem_of_app; [left; by exists j|right; right]. by subst j.
  - intros i Hi Hs. exists i. set_solver.
  - by destruct (run_task_keeps _ _ _ _ _ H) as (-> & _).
  - intros j Hj. left. by exists j.
  - intros i Hi Hs. by exists i.
  - by injection H as <- <-.
  - intros j Hj. left. by exists j.
  - intros i Hi Hs. by exists i.
  - done.
  - intros j Hj. left. by exists j.
  - intros i Hi Hs. by exists i.
  - done.
  - intros j [Hj|[->|Hj]%elem_of_cons]%elem_of_app; [left; exists j; set_solver|right; by left|left; exists j; set_solver].
  - intros i [Hi|[->|Hi]%elem_of_cons]%elem_of_app Hs; [exists i; set_solver|done|exists i; set_solver].
  - done.
  - intros j Hj. left. exists j. set_solver.
  - intros i [Hi|[->|Hi]%elem_of_cons]%elem_of_app Hs; [exists i; set_solver| |exists i; set_solver].
    unfold switching in Hs. cbn in *. destruct p as [[]|]; done.
  - done.
  - intros j [Hj|[->|Hj]%elem_of_cons]%elem_of_app; [left; exists j; set_solver|left|left; exists j; set_solver].
    eexists. split; [apply elem_of_app; right; by left|done].
  - intros i [Hi|[->|Hi]%elem_of_cons]%elem_of_app Hs; [exists i; set_solver| |exists i; set_solver].
    eexists. split; [apply elem_of_app; right; by left|done].
Qed.

Lemma rtc_steady w w' : rtc orderly_step w w' -> steady w -> steady w' /\ (held w -> held w').
Proof.
  induction 1 as [|w w1 w' H1 _ IH]; intros Hs; [done|]. destruct (step_steady _ _ H1 Hs) as [Hs1 Hh1]. destruct (IH Hs1) as [Hs' Hh'].
  split; [done|]. auto.
Qed.

Lemma start_steady (s : AppState) : steady (MkWorld s [] [] []).
Proof.
  constructor; cbn.
  - by intros j p ?%not_elem_of_nil.
  - by intros j ?%not_elem_of_nil.
  - by intros j ?%not_elem_of_nil.
  - by intros j v x ?%not_elem_of_nil.
Qed.
End activation.

(** ** Theorems *)
Section api_theorems.
Import http.
Context `{OF : OnnxF32, TR : !Tract, CL : !Candle, TK : !Tokenizer, SP : !Sampler, RL : !registry.Lib, HL : !HttpLib}.
Variable models_dir : list (list Z).
Variable load : list Z -> Result onnx.OnnxModel (list Z).

Abbreviation step := (step models_dir load).

Lemma strip_bearer l k : strip_prefix bearer l = Some k -> l = bearer ++ k.
Proof.
  generalize bearer. intros p. revert l. induction p as [|a p IH]; intros l; cbn; [by intros [= ->]|].
  destruct l as [|b l]; [done|]. destruct (Z.eqb_spec a b) as [->|]; [|done]. intros H. by rewrite (IH l H).
Qed.

(** Nothing under /v1 happens without the key: unless the request carries the header
    [Authorization: Bearer <key>] with exactly the server's key (or the key is empty) and a
    tenant, it is answered 413, 401 or 400, no task starts and the state is the same. *)
Theorem v1_needs_key_and_tenant `{HW : !HttpLaws} len h c s s' out :
  handle (V1 len h c) s = (s', out) ->
  (api_key s = [] \/ authorization h = Some (bearer ++ api_key s)) /\ (exists t, x_tenant_id h = Some t /\ t <> []) \/
  s' = s /\ exists a, out = Answered a /\ status a ∈ [413; 401; 400].
Proof.
  cbn. unfold body_limit, auth_middleware, tenant_id_from_headers.
  destruct (match len with Some n => if INFER_BODY_LIMIT <? n then _ else _ | None => _ end) as [e|] eqn:El.
  { intros [= <- <-]. right. split; [done|]. exists e. split; [done|].
    destruct len as [n|]; [|done]. destruct (INFER_BODY_LIMIT <? n); [|done]. injection El as <-. cbn. set_solver. }
  destruct (ct_eq (provided_key h) (api_key s)) eqn:Ek.
  2: { intros [= <- <-]. right. split; [done|]. eexists. split; [done|]. cbn. set_solver. }
  destruct (v ← x_tenant_id h; t ← to_str v; if bool_decide (t = []) then None else Some t) as [t|] eqn:Et.
  2: { intros [= <- <-]. right. split; [done|]. eexists. split; [done|]. cbn. set_solver. }
  intros _. left. split.
  - apply ct_eq_spec in Ek. unfold provided_key in Ek. destruct (authorization h) as [v|]; [|left; by rewrite <- Ek].
    cbn -[strip_prefix bearer] in Ek. destruct (to_str v) as [tx|] eqn:Ev; [|left; by rewrite <- Ek]. cbn -[strip_prefix bearer] in Ek.
    destruct (strip_prefix bearer tx) as [k|] eqn:Es; [|left; by rewrite <- Ek]. cbn -[strip_prefix bearer] in Ek.
    right. apply to_str_same in Ev as ->. apply strip_bearer in Es as ->. by rewrite Ek.
  - destruct (x_tenant_id h) as [v|]; [|done]. cbn in Et. destruct (to_str v) as [tx|] eqn:Ev; [|done]. cbn in Et.
    apply to_str_same in Ev as ->. case_bool_decide; [done|]. by exists v.
Qed.

(** How many handlers were dropped with their connections. *)
Definition abandoned (w : World) : nat := length (List.filter (fun f => negb (f_open f)) (flights w)).

Lemma abandoned_app s out (a b : list Flight) : abandoned (MkWorld s (a ++ b) [] out) = (abandoned (MkWorld s a [] out) + abandoned (MkWorld s b [] out))%nat.
Proof. unfold abandoned. cbn. by rewrite List.filter_app, length_app. Qed.

Lemma step_abandoned w w' : step w w' -> (abandoned w <= abandoned w')%nat.
Proof.
  intros Hst. destruct Hst as [r s s' fs js out a H|r s s' fs js out t id k H|r s s' fs js out c H|clock s s' fs1 t id k o c fs2 js out H
    |latency s s' fs1 t id k o fs2 js out a H|s fs1 t id k o fs2 js out|io s fs js1 c p p' reg o js2 out H|s fs js1 c o js2 out
    |s fs js1 c p r js2 out H|s fs js1 c p js2 out]; unfold abandoned; cbn;
    rewrite ?List.filter_app, ?length_app; cbn; try destruct c; cbn; lia.
Qed.

(** C22: Whatever requests are in flight, in whatever order their tasks run, finish or lose
    their connections: the success and failure counters are the numbers of model answers and
    of reported model failures sent, and the tenants' counters add up to them; but every finished
    request is counted twice in [requests_total] and observed twice in the histogram, and the
    gauge of active requests never falls below the number of dropped connections. *)
Theorem metrics_match_responses s w1 w :
  metrics s = service_metrics.new -> rtc step (MkWorld s [] [] []) w1 -> rtc step w1 w ->
  let m := metrics (app w) in
  service_metrics.requests_success_total m = how_many is_result (sent w) /\
  service_metrics.requests_failed_total m = how_many is_failure (sent w) /\
  tenants_total m = how_many is_result (sent w) + how_many is_failure (sent w) /\
  service_metrics.active_requests m = Z.of_nat (length (flights w)) /\
  Z.of_nat (abandoned w1) <= service_metrics.active_requests m /\
  service_metrics.requests_total m =
    service_metrics.active_requests m + 2 * (how_many is_result (sent w) + how_many is_failure (sent w)) /\
  Z.of_nat (length (service_metrics.latency_success m)) = 2 * how_many is_result (sent w).
Proof.
  intros Hm H1 H2. cbv zeta.
  destruct (reachable_accounts models_dir load s w Hm ltac:(by etrans)) as [Ha Ht Hs Hf Hn Hl _].
  assert (abandoned w1 <= length (flights w))%nat.
  { clear -H2. transitivity (abandoned w); [|apply List.filter_length_le].
    induction H2 as [|w1 w2 w3 H12 _ IH]; [done|]. apply step_abandoned in H12. lia. }
  lia.
Qed.

Lemma one_prediction (m : onnx.OnnxModel) x ps : onnx.run_batch m [x] = Some (Ok ps) -> length ps = 1%nat.
Proof.
  assert (Hin : forall samples b c h w ps, onnx.run_batch_inner m samples b c h w = Some (Ok ps) -> length ps = b).
  { clear. intros samples b c h w ps. unfold onnx.run_batch_inner. destruct (onnx.fill_batch _ _ _ _ _ _) as [[t|]|]; [|done|done].
    destruct (run_floats _ _ _) as [outs|]; [|done]. cbn. unfold onnx.predictions_of. intros [= H]. revert H.
    repeat (case_match; try done). intros [= <-]. by apply negb_false_iff, Nat.eqb_eq in H5. }
  unfold onnx.run_batch. destruct (onnx.input_shape m) as [[[b c] h] w]. destruct (Nat.eqb_spec (length [x]) b) as [Hb|Hb].
  { cbn [negb]. intros H. apply Hin in H. cbn in Hb. lia. }
  cbn [negb]. destruct (Nat.eqb_spec b 0) as [|Hz]; [done|]. destruct b as [|b]; [done|]. cbn in Hb.
  cbn [length onnx.chunks take]. rewrite take_nil. cbn [onnx.run_chunks]. unfold onnx.run_chunk.
  destruct (Nat.ltb_spec (length [x]) (S b)) as [_|Hge]; [|cbn in Hge; lia]. cbn [last].
  destruct (onnx.run_batch_inner _ _ _ _ _ _) as [[qs|]|] eqn:E; [|done|done]. apply Hin in E. cbn. intros [= <-].
  destruct qs; cbn in *; [lia|done].
Qed.

(** C25: The two front ends of an ONNX model agree: for the same input the HTTP answer is the
    response the Aeron server sends, with its own latency, when that carries no error, and a
    500 otherwise; a panic is a 500 over HTTP and ends the Aeron server. *)
Theorem http_agrees_with_aeron clock s (m : onnx.OnnxModel) (req : wire.InferenceRequest) latency :
  let k := RunOnnx m (wire.input_data req) in
  let answer := response_of (wire.req_id req) latency k (run_task clock s k).2 in
  match onnx_server.process_onnx_inference m req with
  | Some r => if bool_decide (wire.error r = []) then answer = MkResponse 200 (OfInfer (single.set_latency latency r))
              else status answer = 500
  | None => answer = MkResponse 500 (ApiError "Worker panicked" NoCause)
  end.
Proof.
  cbv zeta. cbn [run_task snd]. unfold onnx_server.process_onnx_inference.
  destruct (onnx.run_batch m [types.MkSample (wire.input_data req) 0 types.NoMeta]) as [[ps|e]|] eqn:E; [|by rewrite bool_decide_eq_false_2|].
  - apply one_prediction in E. destruct ps as [|p [|]]; [done| |done]. by rewrite bool_decide_eq_true_2.
  - done.
Qed.
End api_theorems.

Section tenant_theorems.
Import http registry.
Context `{OF : OnnxF32, TR : !Tract, CL : !Candle, TK : !Tokenizer, SP : !Sampler, RL : !registry.Lib, RLL : !LibLaws, HL : !HttpLib}.
Variable models_dir : list (list Z).
Variable load : list Z -> Result onnx.OnnxModel (list Z).

Abbreviation step := (step models_dir load).

(** C23: Tenants are apart, in every reachable state: a request served for one tenant shows
    metadata of that tenant only and changes no model by itself, the call of the registry it
    starts is on a model of that tenant, what that call answers shows metadata of that tenant
    only, and no step of it, whatever else is under way and whatever the disk does, changes the
    metadata of a model of another tenant or the model that is served for it. *)
Theorem tenants_apart s w :
  sound models_dir (models s) -> rtc step (MkWorld s [] [] []) w ->
  (forall r t s' out, served_for r (app w) = Some t -> handle r (app w) = (s', out) ->
     models s' = models (app w) /\
     match out with
     | Answered a => Forall (fun meta => tenant_id meta = t) (shown a)
     | Waiting _ _ _ => True
     | Submitted c => (model_of c).1 = t
     end) /\
  (forall j r, j ∈ jobs w -> ended (j_phase j) = Some r ->
     Forall (fun meta => tenant_id meta = j_tenant j) (shown (join_response r))) /\
  (forall j io p p' reg t m, j ∈ jobs w -> j_phase j = Some p -> advance models_dir load io p (models (app w)) = (p', reg) ->
     t <> j_tenant j ->
     get_model t m reg = get_model t m (models (app w)) /\ get_active_model t m reg = get_active_model t m (models (app w))).
Proof.
  intros Hi Hr. pose proof (reachable_sound models_dir load s w Hi Hr) as [Hm Hj]. split_and!.
  - intros r t s' out Ht H. split; [by apply handle_models in H|]. destruct out as [a| |c]; [by eapply handle_shows|done|].
    apply handle_change in H. rewrite Ht in H. by injection H as ->.
  - intros j r Hin E. destruct (j_phase j) as [p|] eqn:Ep; [|cbn in E; injection E as <-; by apply Forall_nil_2].
    by eapply join_shows; [apply (Hj j p)|].
  - intros j io p p' reg t m Hin Ep Ha Hne. pose proof (Hj j p Hin Ep) as Hp.
    pose proof (advance_only models_dir load io p (models (app w)) _ _ Hm Hp) as [Ho _]. rewrite Ha in Ho. cbn in Ho.
    eapply only_served; [exact Ho|]. congruence.
Qed.

(** C24: From the start of the process let the activations and deletions of one model not
    overlap ([orderly]: at no time is more than one of them between its first and its last
    change of the registry) and no activation of it fail to write the metadata.  Once an
    activation has succeeded, whatever has been uploaded since and whatever calls on other
    models have done or failed to do: unless another activation of the model is between the
    index and the cache, the model is served, and an inference request that names it, with a
    valid id and input, starts a task. *)
Theorem activated_stays_served t id v x c s w1 w h req input :
  let ordered := orderly_step models_dir load t id in
  rtc ordered (MkWorld s [] [] []) w1 ->
  MkJob (Activate t id v) (Some (Done (Ok (NowActive v x)))) c ∈ jobs w1 ->
  rtc ordered w1 w -> existsb (switching t id) (jobs w) = false ->
  served_for (V1 None h (Infer req)) (app w) = Some t -> infer_model_id req = Some id ->
  bad_request_id (infer_id req) = false -> b64_decode (input_data_b64 req) = Ok input ->
  exists m, get_active_model t id (models (app w)) = Some m /\
    handle (V1 None h (Infer req)) (app w) =
      (set_metrics (service_metrics.request_started (metrics (app w))) (app w), Waiting t (infer_id req) (RunOnnx m input)).
Proof.
  cbv zeta. intros H1 Hin H2 Hsw Hs Hid Hok Hb.
  destruct (rtc_steady models_dir load t id _ _ H1 (start_steady t id s)) as [Hst _].
  pose proof (st_done _ _ _ Hst _ _ _ Hin eq_refl eq_refl) as Hh.
  destruct (rtc_steady models_dir load t id _ _ H2 Hst) as [_ Hk]. destruct (Hk Hh) as (v' & Ha & Hc).
  assert (is_Some (get_active_model t id (models (app w)))) as [m Hm].
  { unfold active in Ha. unfold get_active_model. destruct (index (models (app w)) !! (t, id)) as [meta|]; [|done]. cbn in *. rewrite Ha. cbn.
    destruct Hc as [Hc|(j & Hj & Es)]; [done|]. assert (existsb (switching t id) (jobs w) = true); [|congruence].
    apply existsb_exists. exists j. by rewrite <- list_elem_of_In. }
  exists m. split; [done|]. destruct (handle_served _ _ _ Hs) as (q & [= <-] & ->). cbn.
  unfold infer_prepare. by rewrite Hok, Hb, Hid, Hm.
Qed.
End tenant_theorems.

(** ** A server with a registry, a picture model and a language model *)
Module api_examples.
Import http unicode exact_tensors exact_onnx gguf_examples.

(** Header values are printable ASCII, the input is not encoded, the exposition lists counters. *)
#[global] Instance http_lib : HttpLib := {|
  to_str b := if forallb (fun c => (32 <=? c) && (c <? 127)) b then Some b else None;
  ct_eq a b := bool_decide (a = b);
  b64_decode l := match l with [] => Err "empty" | _ => Ok l end;
  encode_metrics m := Ok [service_metrics.requests_total m; service_metrics.active_requests m];
|}.
#[global] Instance http_laws : HttpLaws.
Proof.
  split; cbn.
  - intros b t. by destruct (forallb _ b); [intros [= <-]|].
  - intros. by rewrite bool_decide_eq_true.
Qed.

#[global] Existing Instance registry_examples.lib.
#[global] Existing Instance registry_examples.lib_laws.

Definition root : list (list Z) := [of_string "models"].
Definition load (b : list Z) : Result (@onnx.OnnxModel _ tract) (list Z) :=
  match b with [] => Err (of_string "empty") | _ => Ok onnx_examples.loaded end.
Definition key : list Z := of_string "secret".
Definition bank : list Z := of_string "bank".
Definition fraud : list Z := of_string "fraud".

Abbreviation App := (AppState (TR := tract) (CL := lib) (TK := exact_tokenizer)).
Definition start : App :=
  MkApp (registry.new root ∅) service_metrics.new None (Some (Some g4)) key.
Definition as_tenant (t : list Z) : Headers := MkHeaders (Some (bearer ++ key)) (Some t).
Definition request (c : Call) : Request := V1 None (as_tenant bank) c.

(** An upload and its activation; then a request for the model. *)
Definition upload : Request := request (UploadModel 1 [MkField (Some (of_string "model_id")) (Some fraud) None;
  MkField (Some (of_string "file")) None (Some [42])]).
Definition v1 : list Z := registry.version_tag 1.
Definition no_fault : registry.Io := registry.no_fault.
Definition activation : Request := request (ActivateModel fraud v1).
Definition serve (r : Request) (s : App) : App * Response := serve_one root load (fun _ => 0) 5 no_fault r s.
Definition uploaded : App := Eval vm_compute in (serve upload start).1.
Definition activated : App := Eval vm_compute in (serve activation uploaded).1.
Definition picture : Call := Infer (MkInfer (of_string "r1") [0; 255; 0; 0] (Some fraud)).

Lemma activation_answer : serve activation uploaded = (activated, MkResponse 200 (Activated v1)).
Proof. vm_refl. Qed.

Definition intruder : Headers := MkHeaders (Some (of_string "Bearer wrong")) (Some bank).
Definition refused : Handled := Answered (MkResponse 401 (ApiError "Invalid or missing Authorization header" NoCause)).

Lemma v1_needs_key_and_tenant_witness :
  handle (V1 (Some 10) intruder picture) activated = (activated, refused) /\ exists a, refused = Answered a /\ status a ∈ [413; 401; 400].
Proof.
  assert (handle (V1 (Some 10) intruder picture) activated = (activated, refused)) as E by reflexivity.
  split; [exact E|].
  destruct (v1_needs_key_and_tenant (Some 10) intruder picture activated activated refused E)
    as [[[H|H] _]|[_ H]]; [discriminate H|discriminate H|exact H].
Defined.

(** The connection of a request is lost while its task runs; the gauge stays at 1. *)
Definition waiting (c : bool) : list Flight :=
  [MkFlight bank (of_string "r1") (RunOnnx onnx_examples.loaded [0; 255; 0; 0]) None c].
Definition counted (s : App) : App := set_metrics (service_metrics.request_started (metrics s)) s.

Lemma metrics_match_responses_witness :
  Z.of_nat 1 <= service_metrics.active_requests (metrics (counted activated)).
Proof.
  refine (proj1 (proj2 (proj2 (proj2 (proj2 (metrics_match_responses root load activated (MkWorld (counted activated) (waiting false) [] [])
    (MkWorld (counted activated) (waiting false) [] []) eq_refl _ (rtc_refl _ _))))))).
  eapply rtc_l; [apply (Begin _ _ (request picture)); reflexivity|].
  apply rtc_once. apply (Disconnect _ _ _ [] _ _ _ _ [] []).
Defined.

Lemma fresh_registry : sound root (models start).
Proof. refine (proj1 (new_fresh root load ∅ _)). intros p b H. by rewrite lookup_empty in H. Qed.

(** A call [i] steps after its start, with the calls [js] before it. *)
Definition after (c : registry.Change) (s : App) (i : nat) : registry.Phase * registry.ModelRegistry :=
  Nat.iter i (fun ps => registry.advance root load no_fault ps.1 ps.2) (registry.Started c, models s).
Definition world (js : list Job) (c : registry.Change) (s : App) (i : nat) : World :=
  MkWorld (set_models (after c s i).2 s) [] (js ++ [MkJob c (Some (after c s i).1) true]) [].

Lemma world_advances js c s i : step root load (world js c s i) (world js c s (S i)).
Proof.
  apply (Advance root load no_fault (set_models (after c s i).2 s) [] js c (after c s i).1 (after c s (S i)).1 (after c s (S i)).2 true []).
  apply surjective_pairing.
Qed.

Definition upload_call : registry.Change := registry.Upload 1 bank fraud None [42].
Definition delete_call : registry.Change := registry.Delete (of_string "mallory") fraud.
Definition uploaded_job : Job := MkJob upload_call (Some (after upload_call start 2).1) true.

Lemma reach_deletion : rtc (step root load) (MkWorld start [] [] []) (world [uploaded_job] delete_call uploaded 0).
Proof.
  eapply rtc_l; [apply (Submit root load upload start start [] [] [] upload_call); vm_refl|].
  eapply rtc_l; [exact (world_advances [] upload_call start 0)|].
  eapply rtc_l; [exact (world_advances [] upload_call start 1)|].
  apply rtc_once.
  assert (world [uploaded_job] delete_call uploaded 0 =
    MkWorld (set_models (after upload_call start 2).2 start) [] ([uploaded_job] ++ [MkJob delete_call (Some (registry.Started delete_call)) true]) []) as -> by vm_refl.
  apply (Submit root load (V1 None (as_tenant (of_string "mallory")) (DeleteModel fraud))). reflexivity.
Qed.

Lemma tenants_apart_witness :
  registry.get_model bank fraud (registry.advance root load no_fault (registry.Started delete_call) (models uploaded)).2 =
  registry.get_model bank fraud (models uploaded) /\ is_Some (registry.get_model bank fraud (models uploaded)).
Proof.
  destruct (tenants_apart root load start _ fresh_registry reach_deletion) as (_ & _ & H).
  destruct (H (MkJob delete_call (Some (registry.Started delete_call)) true) no_fault (registry.Started delete_call) _ _ bank fraud
    ltac:(right; left) eq_refl (surjective_pairing _) ltac:(discriminate)) as [E _].
  split; [exact E|by eexists].
Defined.

Definition activate_call : registry.Change := registry.Activate bank fraud v1.

Lemma world_orderly (i : nat) : (i <= 4)%nat -> orderly bank fraud (world [] activate_call uploaded i).
Proof. intros Hi. do 5 (destruct i as [|i]; [by split; [apply Nat.leb_le; vm_compute|vm_refl]|]). lia. Qed.

Lemma reach_activation : rtc (orderly_step root load bank fraud) (MkWorld uploaded [] [] []) (world [] activate_call uploaded 4).
Proof.
  eapply rtc_l.
  { split; [|apply (world_orderly 0); lia]. apply (Submit root load activation uploaded uploaded [] [] [] activate_call). vm_refl. }
  eapply rtc_l; [split; [exact (world_advances [] activate_call uploaded 0)|apply world_orderly; lia]|].
  eapply rtc_l; [split; [exact (world_advances [] activate_call uploaded 1)|apply world_orderly; lia]|].
  eapply rtc_l; [split; [exact (world_advances [] activate_call uploaded 2)|apply world_orderly; lia]|].
  apply rtc_once. split; [exact (world_advances [] activate_call uploaded 3)|apply world_orderly; lia].
Qed.

Lemma activated_stays_served_witness :
  exists m, registry.get_active_model bank fraud (models activated) = Some m.
Proof.
  destruct (activated_stays_served root load bank fraud v1 onnx_examples.loaded true uploaded (world [] activate_call uploaded 4)
    (world [] activate_call uploaded 4) (as_tenant bank) (MkInfer (of_string "r1") [0; 255; 0; 0] (Some fraud)) [0; 255; 0; 0]
    reach_activation ltac:(left) (rtc_refl _ _) ltac:(vm_refl) ltac:(vm_refl) ltac:(vm_refl) ltac:(vm_refl) ltac:(vm_refl)) as (m & H & _).
  exists m. exact H.
Defined.

(** After a restart the model is listed as active, and asking for it is a 404. *)
Definition restarted : App := set_models (registry.new root (registry.disk (models activated))) activated.
Example not_served_after_restart :
  (registry.active_version <$> registry.get_model bank fraud (models restarted)) = Some (Some v1) /\
  status (serve (request picture) restarted).2 = 404 /\
  status (serve (request picture) activated).2 = 200.
Proof. split_and!; vm_refl. Qed.

(** With an empty key a request without credentials passes; an empty key comes from an empty
    environment variable. *)
Example empty_key_admits_everyone :
  status (serve (V1 None (MkHeaders None (Some bank)) ListModels)
    (MkApp (models activated) (metrics activated) None None [])).2 = 200.
Proof. vm_refl. Qed.

(** One request, counted twice. *)
Example one_request_counts_two :
  (fun m => (service_metrics.requests_total m, service_metrics.requests_success_total m,
             length (service_metrics.latency_success m))) (metrics (serve (request picture) activated).1)
  = (2, 1, 2%nat).
Proof. vm_refl. Qed.

(** A file field whose bytes cannot be read is reported as missing. *)
Example unread_upload_is_missing :
  (upload_model_handler 1 bank [MkField (Some (of_string "model_id")) (Some fraud) None;
     MkField (Some (of_string "file")) None None]) =
  Err (MkResponse 400 (ApiError "Missing required form field: file (.onnx)" NoCause)).
Proof. vm_refl. Qed.

(** The call of an upload that panicked is answered like any other error of the server. *)
Example panic_is_500 : join_response (TR := tract) None = MkResponse 500 (ApiError "Worker panic" NoCause).
Proof. reflexivity. Qed.
End api_examples.
