(* ===== verification/SpeechToText.v ===== *)
(** * services/media: the streaming speech-to-text clients

    [deepgram] translates deepgram.rs and [scribe] stt.rs (ElevenLabs): the address of the
    session, the events of the socket and the loops that turn them into transcripts.  The
    reader of [deepgram] and its writer share the flag [pending]; an input is one operation of
    one of them, and giving up the flag after an emission is an operation of its own, since the
    emission waits for the channel.  Times are milliseconds, texts lists of code points. *)

From stdpp Require Import base numbers list gmap strings.
From Stdlib Require Import ZArith Lia QArith_base.
From S2P Require Import Prelude SpeechText.

Local Open Scope Z_scope.

(** The silence threshold as a number of milliseconds, [(x * 1000.0) as u32], and as text. *)
Class SttF32 := { seconds : Type; as_millis : seconds -> Z; show_seconds : seconds -> list Z }.

Module transcript.
Record Transcript : Type := MkTranscript { words : list Z; language : option (list Z) }.
End transcript.

(** ** deepgram.rs *)
Module deepgram.
Import unicode transcript.
Notation text := (list Z) (only parsing).
Section deepgram.
Context `{SF : SttF32}.
(** [str::to_lowercase] *)
Variable lower : text -> text.

Definition FLUSH_GRACE : Z := 400.

Record DeepgramParams : Type := MkParams {
  api_key : text;
  model : text;
  language_code : option text;
  commit_strategy : text;
  vad_silence_secs : seconds;
  lexicon : option text;
}.

Definition is_manual (p : DeepgramParams) : bool := bool_decide (commit_strategy p = of_string "manual").

(** [replace] of a space by [%20] *)
Definition encode_spaces (l : text) : text := mjoin ((fun c => if c =? 32 then of_string "%20" else [c]) <$> l).
Definition number (n : Z) : text := of_string (string_of_Z n).

Definition keyword (term : text) : text :=
  match encode_spaces (trim term) with [] => [] | term => of_string "&keywords=" ++ term end.

Definition ws_url (p : DeepgramParams) : text :=
  of_string "wss://api.deepgram.com/v1/listen?model=" ++ model p ++
  of_string "&encoding=mulaw&sample_rate=8000&channels=1&interim_results=true&smart_format=true" ++
  (if is_manual p then of_string "&endpointing=false"
   else let ms := as_millis (vad_silence_secs p) in
        of_string "&endpointing=" ++ number (Z.max ms 10) ++ of_string "&utterance_end_ms=" ++ number (Z.max ms 1000) ++
        of_string "&vad_events=true") ++
  of_string "&language=" ++ (match language_code p with Some (c :: l) => c :: l | _ => of_string "multi" end) ++
  (match lexicon p with
   | Some lexicon => mjoin (keyword <$> split_by (fun c => c =? 44) lexicon)
   | None => []
   end).

(** *** Events *)
Record DgChannel : Type := MkChannel { alternatives : list (option text); languages : list text }.
Record DgEvent : Type := MkEvent {
  typ : option text;
  channel : option DgChannel;
  is_final : option bool;
  speech_final : option bool;
  description : option text;
  message : option text;
}.

Definition transcript_of (ev : DgEvent) : text := trim (default [] (c ← channel ev; mjoin (head (alternatives c)))).

Definition language_of (ev : DgEvent) : option text :=
  c ← channel ev; l ← head (languages c);
  match trim l with
  | [] => None
  | raw => Some (lower (default raw (head (split_by (fun c => (c =? 45) || (c =? 95)) raw))))
  end.

(** *** The reader *)
Record Reader : Type := MkReader {
  buffer : list text;
  seg_language : option text;
  pending : bool;
  pending_since : option Z;
  clearing : bool;
  receiver : bool;
  sent : list Transcript;
  outcome : option (Result unit text);
}.

Definition start : Reader := MkReader [] None false None false true [] None.

(** What the select of the reader can see, [Stored]: the writer set the flag after a Finalize,
    [Cleared]: the reader reset it after an emission, and [Dropped]: the session is gone.
    [Text None] is a message that does not parse. *)
Inductive Input :=
  | Tick (now : Z)
  | Text (ev : option DgEvent)
  | CloseFrame (reason : option text)
  | ReadError (e : text)
  | OtherFrame
  | EndOfStream
  | Stored
  | Cleared
  | Dropped.

(** The buffer is cleared and the language taken in any case. *)
Definition emit (r : Reader) : Reader * bool :=
  match buffer r with
  | [] => (r, true)
  | _ =>
      let t := trim (tts_text.join_spaces (buffer r)) in
      let r' out := MkReader [] None (pending r) (pending_since r) (clearing r) (receiver r) out (outcome r) in
      match t with
      | [] => (r' (sent r), true)
      | _ => if receiver r then (r' (sent r ++ [MkTranscript t (seg_language r)]), true) else (r' (sent r), false)
      end
  end.

Definition finish (o : Result unit text) (r : Reader) : Reader :=
  MkReader (buffer r) (seg_language r) (pending r) (pending_since r) (clearing r) (receiver r) (sent r) (Some o).
Definition set_clearing (r : Reader) : Reader :=
  MkReader (buffer r) (seg_language r) (pending r) (pending_since r) true (receiver r) (sent r) (outcome r).

(** An emission, and what follows it. *)
Definition emit_then (k : Reader -> Reader) (r : Reader) : Reader :=
  let '(r, ok) := emit r in if ok then k r else finish (Ok tt) r.

Definition segment (ev : DgEvent) : list text :=
  if default false (is_final ev) then match transcript_of ev with [] => [] | t => [t] end else [].

Definition push (ev : DgEvent) (r : Reader) : Reader :=
  match segment ev with
  | [] => r
  | l => MkReader (buffer r ++ l) (match language_of ev with Some l => Some l | None => seg_language r end)
           (pending r) (pending_since r) (clearing r) (receiver r) (sent r) (outcome r)
  end.

Definition on_results (manual : bool) (ev : DgEvent) (r : Reader) : Reader :=
  let r := push ev r in
  if manual then if pending r && default false (is_final ev) then emit_then set_clearing r else r
  else if default false (speech_final ev) then emit_then id r else r.

Definition is_results (ev : DgEvent) : bool := match typ ev with None => true | Some t => bool_decide (t = of_string "Results") end.

Definition on_text (manual : bool) (ev : DgEvent) (r : Reader) : Reader :=
  if is_results ev then on_results manual ev r
  else if bool_decide (typ ev = Some (of_string "UtteranceEnd")) then (if manual then r else emit_then id r)
  else if bool_decide (typ ev = Some (of_string "Error"))
  then finish (Err (of_string "Deepgram error: " ++
         default (default (of_string "deepgram error") (message ev)) (description ev))) r
  else r.

Definition on_tick (manual : bool) (now : Z) (r : Reader) : Reader :=
  if manual && pending r
  then match pending_since r with
       | None => MkReader (buffer r) (seg_language r) (pending r) (Some now) (clearing r) (receiver r) (sent r) (outcome r)
       | Some t => if FLUSH_GRACE <=? now - t then emit_then set_clearing r else r
       end
  else r.

(** [None]: the reader has returned, or has to reset the flag first. *)
Definition read (manual : bool) (i : Input) (r : Reader) : option Reader :=
  match outcome r with
  | Some _ => None
  | None =>
      match i with
      | Stored => Some (MkReader (buffer r) (seg_language r) true (pending_since r) (clearing r) (receiver r) (sent r) None)
      | Dropped => Some (MkReader (buffer r) (seg_language r) (pending r) (pending_since r) (clearing r) false (sent r) None)
      | Cleared => if clearing r then Some (MkReader (buffer r) (seg_language r) false None false (receiver r) (sent r) None) else None
      | _ =>
          if clearing r then None
          else Some match i with
                    | Tick now => on_tick manual now r
                    | Text (Some ev) => on_text manual ev r
                    | CloseFrame reason => finish (Err (of_string "Deepgram closed: " ++ default (of_string "closed") reason)) r
                    | ReadError e => finish (Err (of_string "Deepgram ws error: " ++ e)) r
                    | EndOfStream => finish (Ok tt) r
                    | _ => r
                    end
      end
  end.

Fixpoint run (manual : bool) (l : list Input) (r : Reader) : option Reader :=
  match l with [] => Some r | i :: l => r ← read manual i r; run manual l r end.
End deepgram.
End deepgram.

(** ** stt.rs: ElevenLabs *)
Module scribe.
Import unicode transcript.
Notation text := (list Z) (only parsing).
Section scribe.
Context `{SF : SttF32}.
Variable lower : text -> text.

Record SttParams : Type := MkParams {
  api_key : text;
  model_id : text;
  language_code : option text;
  vad_silence_secs : seconds;
  commit_strategy : text;
  lexicon : option text;
  detect_language : bool;
}.

Definition ws_url (p : SttParams) : text :=
  of_string "wss://api.elevenlabs.io/v1/speech-to-text/realtime?model_id=" ++ model_id p ++
  of_string "&audio_format=ulaw_8000&commit_strategy=" ++ commit_strategy p ++ of_string "&inactivity_timeout=180" ++
  (if bool_decide (commit_strategy p = of_string "vad")
   then of_string "&vad_silence_threshold_secs=" ++ show_seconds (vad_silence_secs p) else []) ++
  (match language_code p with Some (c :: l) => of_string "&language_code=" ++ c :: l | _ => [] end) ++
  (if detect_language p then of_string "&include_language_detection=true" else []) ++
  (match lexicon p with Some (c :: l) => of_string "&prompt=" ++ deepgram.encode_spaces (c :: l) | _ => [] end).

(** The probability as the number it is. *)
Record SttEvent : Type := MkEvent {
  message_type : text;
  words_of : option text;
  error : option text;
  event_language : option text;
  language_probability : option Q;
}.

Record Reader : Type := MkReader {
  last_language : option text;
  receiver : bool;
  sent : list Transcript;
  outcome : option (Result unit text);
}.
Definition start : Reader := MkReader None true [] None.

(** The label an event contributes. *)
Definition confident_label (ev : SttEvent) : option text :=
  l ← event_language ev;
  match trim l with
  | [] => None
  | l => if Qle_bool (1 # 2) (default 1%Q (language_probability ev)) then Some (lower l) else None
  end.

Definition is_error (mt : text) : bool :=
  contains (of_string "error") mt || bool_decide (mt = of_string "rate_limited") ||
  contains (of_string "exceeded") mt || contains (of_string "exhausted") mt.

Definition finish (o : Result unit text) (r : Reader) : Reader := MkReader (last_language r) (receiver r) (sent r) (Some o).
Definition closed (reason : text) : Result unit text :=
  Err (of_string "elevenlabs stream closed mid-call (" ++ reason ++ of_string ")").
Definition initial_reason : text := of_string "read stream ended (no close frame)".

Definition committed (ev : SttEvent) : option text :=
  if bool_decide (message_type ev = of_string "committed_transcript")
  then t ← words_of ev; match trim t with [] => None | _ => Some t end
  else None.

Definition on_event (ev : SttEvent) (r : Reader) : Reader :=
  let r := MkReader (match confident_label ev with Some l => Some l | None => last_language r end) (receiver r) (sent r) (outcome r) in
  if bool_decide (message_type ev = of_string "committed_transcript")
  then match committed ev with
       | Some t => if receiver r then MkReader (last_language r) true (sent r ++ [MkTranscript t (last_language r)]) (outcome r)
                   else finish (closed initial_reason) r
       | None => r
       end
  else if is_error (message_type ev) then finish (Err (default (message_type ev) (error ev))) r
  else r.

Inductive Input :=
  | Text (ev : option SttEvent)
  | CloseFrame (reason : option text)
  | ReadError (e : text)
  | OtherFrame
  | EndOfStream
  | Dropped.

Definition read (i : Input) (r : Reader) : option Reader :=
  match outcome r with
  | Some _ => None
  | None => Some match i with
                 | Text (Some ev) => on_event ev r
                 | Text None | OtherFrame => r
                 | CloseFrame reason => finish (closed (default (of_string "close frame with no payload") reason)) r
                 | ReadError e => finish (Err (of_string "ws read error: " ++ e)) r
                 | EndOfStream => finish (closed initial_reason) r
                 | Dropped => MkReader (last_language r) false (sent r) None
                 end
  end.

Fixpoint run (l : list Input) (r : Reader) : option Reader :=
  match l with [] => Some r | i :: l => r ← read i r; run l r end.
End scribe.
End scribe.

(** ** Joined segments *)
Section joining.
Import unicode.
Implicit Types (l : list Z) (p : Z -> bool).

Lemma trim_start_id p l : (forall c, head l = Some c -> p c = false) -> trim_start_by p l = l.
Proof. destruct l as [|c l]; [done|]. cbn. intros H. by rewrite (H c). Qed.

Lemma head_rev l : head (rev l) = last l.
Proof. rewrite rev_alt. exact (head_reverse l). Qed.

Lemma last_rev l : last (rev l) = head l.
Proof. rewrite rev_alt. exact (last_reverse l). Qed.

(** Both ends stay. *)
Definition bounded l : Prop := l <> [] /\ forall c, head l = Some c \/ last l = Some c -> is_whitespace c = false.

Lemma trim_id l : bounded l -> trim l = l.
Proof.
  intros [_ H]. unfold trim, trim_by. rewrite (trim_start_id _ l) by (intros c Hc; apply H; by left).
  rewrite trim_start_id; [by rewrite rev_involutive|]. intros c Hc. rewrite head_rev in Hc. apply H. by right.
Qed.

Lemma trim_bounded l : trim l <> [] -> bounded (trim l).
Proof.
  intros Hne. split; [done|]. destruct (trim_by_spec is_whitespace l) as (a & b & _ & _ & _ & Hh & Hl).
  intros c [Hc|Hc]; [by apply Hh|by apply Hl].
Qed.

Lemma last_app_ne l k : k <> [] -> last (l ++ k) = last k.
Proof. rewrite last_app. destruct (last k) eqn:E; [done|]. by apply last_None in E. Qed.

Lemma spaced_last ws : ws <> [] -> Forall bounded ws -> exists w, w ∈ ws /\ last (mjoin ((fun x => 32 :: x) <$> ws)) = last w.
Proof.
  intros Hne Hb. induction ws as [|w ws IH] using rev_ind; [done|].
  exists w. split; [apply elem_of_app; right; by left|]. rewrite fmap_app, join_app. cbn. rewrite app_nil_r.
  apply Forall_app in Hb as [_ Hw]. apply Forall_singleton in Hw as [Hw _].
  rewrite last_app_ne by done. change (32 :: w) with ([32] ++ w). by apply last_app_ne.
Qed.

Lemma join_bounded ws : ws <> [] -> Forall bounded ws -> bounded (tts_text.join_spaces ws).
Proof.
  destruct ws as [|w ws]; [done|]. intros _ Hb. apply Forall_cons in Hb as [[Hw Hc] Hb]. cbn. split.
  - by destruct w.
  - intros c [H|H].
    + apply Hc. left. by destruct w.
    + destruct (decide (ws = [])) as [->|Hne]; [cbn in H; rewrite app_nil_r in H; apply Hc; by right|].
      destruct (spaced_last ws Hne Hb) as (w' & Hin & Hl). rewrite last_app_ne in H.
      * rewrite Hl in H. rewrite Forall_forall in Hb. destruct (Hb w' Hin) as [_ Hc']. apply Hc'. by right.
      * destruct ws; [done|]. by cbn.
Qed.
End joining.

(** ** No segment is lost, none is repeated *)
Section deepgram_theorems.
Import unicode transcript deepgram tts_text.
Variable lower : list Z -> list Z.
Abbreviation run := (run lower).
Abbreviation read := (read lower).
Implicit Types (r : Reader) (manual : bool).

(** The final segments an input carries. *)
Definition segments_in (i : Input) : list (list Z) :=
  match i with Text (Some ev) => if is_results ev then segment ev else [] | _ => [] end.
Definition finals (l : list Input) : list (list Z) := l ≫= segments_in.

Lemma segment_bounded ev : Forall bounded (segment ev).
Proof.
  unfold segment. destruct (default false (is_final ev)); [|by apply Forall_nil_2]. unfold transcript_of.
  destruct (trim _) as [|c l] eqn:E; [by apply Forall_nil_2|]. apply Forall_singleton. rewrite <- E. apply trim_bounded. by rewrite E.
Qed.

(** From [r] to [r'] the segments [new] arrived and the groups [gs] were emitted. *)
Definition moved r r' (new : list (list Z)) : Prop :=
  exists gs, Forall (fun g => g <> []) gs /\ mjoin gs ++ buffer r' = buffer r ++ new /\
    words <$> sent r' = (words <$> sent r) ++ (join_spaces <$> gs) /\ Forall bounded (buffer r').

Lemma moved_same r r' : buffer r' = buffer r -> sent r' = sent r -> Forall bounded (buffer r) -> moved r r' [].
Proof. intros Hb Hs Hf. exists []. rewrite Hb, Hs, !app_nil_r. split_and!; [by apply Forall_nil_2|done..]. Qed.

Lemma moved_trans r1 r2 r3 a b : moved r1 r2 a -> moved r2 r3 b -> moved r1 r3 (a ++ b).
Proof.
  intros (g1 & H1 & E1 & S1 & _) (g2 & H2 & E2 & S2 & B2). exists (g1 ++ g2). split_and!.
  - by apply Forall_app.
  - rewrite join_app, <- app_assoc, E2, app_assoc, E1. by rewrite <- app_assoc.
  - by rewrite S2, S1, fmap_app, <- app_assoc.
  - done.
Qed.

Lemma push_moved ev r : Forall bounded (buffer r) -> moved r (push lower ev r) (segment ev).
Proof.
  intros Hb. unfold push. pose proof (segment_bounded ev) as Hs. destruct (segment ev) as [|t l]; [by apply moved_same|].
  exists []. cbn. rewrite app_nil_r. split_and!; [by apply Forall_nil_2|done|done|by apply Forall_app].
Qed.

Lemma push_keeps ev r : receiver (push lower ev r) = receiver r /\ pending (push lower ev r) = pending r.
Proof. unfold push. by destruct (segment ev). Qed.

Lemma emit_moved r : receiver r = true -> Forall bounded (buffer r) ->
  moved r (emit r).1 [] /\ (emit r).2 = true /\ buffer (emit r).1 = [] /\ receiver (emit r).1 = true.
Proof.
  intros Hr Hb. unfold emit. destruct (buffer r) as [|t l] eqn:E.
  { split_and!; [|done|done|done]. apply moved_same; [done|done|by rewrite E]. }
  pose proof (join_bounded (t :: l) ltac:(done) Hb) as Hj. rewrite trim_id by done. rewrite Hr.
  destruct (join_spaces (t :: l)) as [|c j] eqn:Ej; [by destruct Hj|]. cbn. split_and!; [|done..].
  exists [t :: l]. cbn. rewrite !app_nil_r, E. split_and!; [by repeat constructor|done| |by apply Forall_nil_2].
  rewrite fmap_app. cbn. f_equal. f_equal. by rewrite <- Ej.
Qed.

Lemma emit_then_moved (k : Reader -> Reader) r :
  (forall q, buffer (k q) = buffer q /\ sent (k q) = sent q) -> receiver r = true -> Forall bounded (buffer r) ->
  moved r (emit_then k r) [].
Proof.
  intros Hk Hr Hb. unfold emit_then. destruct (emit_moved r Hr Hb) as (Hm & Ho & Hz & _). destruct (emit r) as [q ok].
  cbn in *. subst ok. change [] with ([] ++ [] : list (list Z)). eapply moved_trans; [exact Hm|].
  destruct (Hk q) as [H1 H2]. apply moved_same; [done|done|]. rewrite Hz. by apply Forall_nil_2.
Qed.

Lemma on_text_moved manual ev r :
  receiver r = true -> Forall bounded (buffer r) ->
  moved r (on_text lower manual ev r) (if is_results ev then segment ev else []).
Proof.
  intros Hr Hb. unfold on_text, on_results. destruct (is_results ev).
  - destruct (push_keeps ev r) as [Hpr _]. pose proof (push_moved ev r Hb) as Hp. pose proof Hp as (_ & _ & _ & _ & Hpb).
    assert (forall k, (forall q, buffer (k q) = buffer q /\ sent (k q) = sent q) ->
      moved r (emit_then k (push lower ev r)) (segment ev)) as He.
    { intros k Hk. rewrite <- (app_nil_r (segment ev)). eapply moved_trans; [exact Hp|]. apply emit_then_moved; [done|by rewrite Hpr|done]. }
    destruct manual; (case_match; [|exact Hp]); by apply He.
  - repeat case_match; try (by apply moved_same). by apply emit_then_moved.
Qed.

Lemma emit_then_receiver (k : Reader -> Reader) r : (forall q, receiver (k q) = receiver q) -> receiver (emit_then k r) = receiver r.
Proof.
  intros Hk. unfold emit_then, emit. destruct (buffer r); [cbn; by rewrite Hk|]. destruct (trim _); [cbn; by rewrite Hk|].
  destruct (receiver r) eqn:E; cbn; [by rewrite Hk|done].
Qed.

Lemma read_receiver manual i r r' : read manual i r = Some r' -> receiver r' = true -> receiver r = true.
Proof.
  unfold deepgram.read. destruct (outcome r); [done|].
  destruct i as [now|[ev|]|reason|e| | | | |]; cbn; try (destruct (clearing r); [done|]); try (intros [= <-]; exact id); try (intros [= <-]; by cbn).
  - intros [= <-]. unfold on_tick. repeat case_match; try exact id. by rewrite emit_then_receiver.
  - intros [= <-]. unfold on_text, on_results. destruct (push_keeps ev r) as [Hp _].
    repeat case_match; rewrite ?emit_then_receiver, ?Hp by done; exact id.
  - destruct (clearing r); [|done]. by intros [= <-].
Qed.

Lemma read_moved manual i r r' :
  read manual i r = Some r' -> receiver r = true -> Forall bounded (buffer r) -> moved r r' (segments_in i).
Proof.
  unfold deepgram.read. intros H Hr Hb. destruct (outcome r); [done|].
  destruct i as [now|[ev|]|reason|e| | | | |]; cbn in *.
  - destruct (clearing r); [done|]. injection H as <-. unfold on_tick.
    repeat case_match; try (by apply moved_same). by apply emit_then_moved.
  - destruct (clearing r); [done|]. injection H as <-. by apply on_text_moved.
  - destruct (clearing r); [done|]. injection H as <-. by apply moved_same.
  - destruct (clearing r); [done|]. injection H as <-. by apply moved_same.
  - destruct (clearing r); [done|]. injection H as <-. by apply moved_same.
  - destruct (clearing r); [done|]. injection H as <-. by apply moved_same.
  - destruct (clearing r); [done|]. injection H as <-. by apply moved_same.
  - injection H as <-. by apply moved_same.
  - destruct (clearing r); [|done]. injection H as <-. by apply moved_same.
  - injection H as <-. by apply moved_same.
Qed.

Lemma run_moved manual l r r' :
  run manual l r = Some r' -> receiver r' = true -> Forall bounded (buffer r) -> moved r r' (finals l) /\ receiver r = true.
Proof.
  revert r. induction l as [|i l IH]; intros r; cbn.
  - intros [= <-] Hr Hb. split; [by apply moved_same|done].
  - destruct (read manual i r) as [q|] eqn:E; [|done]. cbn. intros H Hr Hb.
    assert (receiver q = true -> receiver r = true) as Hq by (by apply read_receiver with manual i).
    assert (receiver q = true) as Hqt.
    { clear -H Hr. revert q H. induction l as [|j l IH]; intros q; cbn; [by intros [= <-]|].
      destruct (deepgram.read lower manual j q) as [q'|] eqn:E; [|done]. cbn. intros H. apply IH in H. by eapply read_receiver. }
    pose proof (read_moved manual i r q E (Hq Hqt) Hb) as Hm. pose proof Hm as (_ & _ & _ & _ & Hbq).
    destruct (IH q H Hr Hbq) as [Hl _]. split; [|by apply Hq]. by eapply moved_trans.
Qed.

(** C29: C1. However the frames of the socket, the commits of the writer and the ticks interleave, in
    both modes: as long as the session listens, the final segments are delivered once and in
    order, each transcript is the join of one run of consecutive segments, and what is not
    delivered yet is in the buffer. *)
Theorem segments_delivered_once manual l r :
  run manual l start = Some r -> receiver r = true ->
  exists gs, Forall (fun g => g <> []) gs /\ mjoin gs ++ buffer r = finals l /\ words <$> sent r = join_spaces <$> gs.
Proof.
  intros Hr Ho. destruct (run_moved manual l start r Hr Ho (Forall_nil_2 _)) as [(gs & Hg & He & Hs & _) _].
  by exists gs.
Qed.

(** *** A commit is never left hanging *)

(** An emission has just cleared the buffer, or the stream is over. *)
Definition settled r : Prop := (buffer r = [] /\ clearing r = true) \/ is_Some (outcome r).

(** A commit waits, since [t] at the latest when the clock was read. *)
Definition waiting (t : Z) r : Prop :=
  clearing r = false /\ pending r = true /\ forall u, pending_since r = Some u -> u <= t.
Definition timed (t : Z) r : Prop := waiting t r /\ is_Some (pending_since r).

Definition tick_by (t : Z) (i : Input) : Prop := match i with Tick now => now <= t | _ => True end.

Lemma emit_settles r : settled (emit_then set_clearing r).
Proof.
  unfold emit_then, emit, settled. destruct (buffer r) as [|x l] eqn:E; [by left|].
  destruct (trim _); [by left|]. destruct (receiver r); [by left|]. right. by eexists.
Qed.

Lemma push_waiting t ev r : waiting t r -> waiting t (push lower ev r).
Proof. unfold push, waiting. by destruct (segment ev). Qed.

(** An input settles the commit or leaves it waiting, and a time that was read stays. *)
Lemma read_waits t i r r' :
  read true i r = Some r' -> waiting t r ->
  settled r' \/
  (waiting t r' \/ (pending_since r = None /\ exists now, i = Tick now /\ ~ now <= t)) /\ (is_Some (pending_since r) -> pending_since r' = pending_since r).
Proof.
  unfold deepgram.read. intros H Hw. pose proof Hw as (Hc & Hp & Hu). destruct (outcome r) eqn:Eo; [done|]. rewrite Hc in H.
  destruct i as [now|[ev|]|reason|e| | | | |]; cbn in H; try discriminate H; injection H as <-.
  - unfold on_tick. rewrite Hp. cbn [andb]. destruct (pending_since r) as [u|] eqn:Es.
    + destruct (FLUSH_GRACE <=? now - u); [left; apply emit_settles|right]. split; [by left|done].
    + right. split; [|by intros [? ?]]. destruct (decide (now <= t)) as [Hn|Hn]; [left|right; split; [done|by eexists]].
      split_and!; [done|done|]. intros u. cbn. by intros [= <-].
  - unfold on_text, on_results. destruct (is_results ev).
    + destruct (push_keeps ev r) as [_ ->]. rewrite Hp. cbn [andb].
      destruct (default false (is_final ev)); [left; apply emit_settles|right]. split; [left; by apply push_waiting|].
      intros _. unfold push. by destruct (segment ev).
    + repeat case_match; right; (split; [by left|done]).
  - right. split; [by left|done].
  - left. right. by eexists.
  - left. right. by eexists.
  - right. split; [by left|done].
  - left. right. by eexists.
  - right. split; [by left|done].
  - right. split; [by left|done].
Qed.

Lemma tick_times t r r' : read true (Tick t) r = Some r' -> waiting t r -> settled r' \/ timed t r'.
Proof.
  unfold deepgram.read. intros H (Hc & Hp & Hu). destruct (outcome r) eqn:Eo; [done|]. rewrite Hc in H. injection H as <-.
  unfold on_tick. rewrite Hp. cbn [andb]. destruct (pending_since r) as [u|] eqn:Es.
  - destruct (FLUSH_GRACE <=? t - u); [left; apply emit_settles|right]. split; [|by eexists]. by split_and!; [| |rewrite Es].
  - right. split; [|by eexists]. split_and!; [done|done|]. intros u. cbn. by intros [= <-].
Qed.

Lemma timed_stays t i r r' : read true i r = Some r' -> timed t r -> settled r' \/ timed t r'.
Proof.
  intros H [Hw Hs]. destruct (read_waits t i r r' H Hw) as [?|[[?|(E & _)] Hp]]; [by left|right|by rewrite E in Hs; destruct Hs].
  split; [done|]. by rewrite (Hp Hs).
Qed.

Lemma late_tick_settles t t1 r r' : t + FLUSH_GRACE <= t1 -> read true (Tick t1) r = Some r' -> timed t r -> settled r'.
Proof.
  unfold deepgram.read. intros Ht H [(Hc & Hp & Hu) [u Hs]]. destruct (outcome r) eqn:Eo; [done|]. rewrite Hc in H. injection H as <-.
  unfold on_tick. rewrite Hp, Hs. cbn [andb]. specialize (Hu u Hs). rewrite (proj2 (Z.leb_le _ _)) by lia. apply emit_settles.
Qed.

Definition settles (l : list Input) r : Prop := exists k q, run true (take k l) r = Some q /\ settled q.

Lemma settles_app l k r q : run true l r = Some q -> settles k q -> settles (l ++ k) r.
Proof.
  intros Hl (n & p & Hn & Hs). exists (length l + n)%nat, p. split; [|done]. rewrite take_app_add.
  revert r Hl. induction l as [|i l IH]; intros r; cbn; [by intros [= ->]|].
  destruct (read true i r) as [r1|]; [|done]. cbn. apply IH.
Qed.

Lemma settles_more l k r : settles l r -> settles (l ++ k) r.
Proof.
  intros (n & p & Hn & Hs). exists (Nat.min n (length l)), p. split; [|done].
  rewrite take_app_le by lia. rewrite <- Hn. f_equal. destruct (Nat.le_gt_cases n (length l)) as [Hle|Hgt].
  - by rewrite Nat.min_l.
  - by rewrite Nat.min_r, !take_ge by lia.
Qed.

Lemma run_inputs_app l k r : run true (l ++ k) r = (q ← run true l r; run true k q).
Proof. revert r. induction l as [|i l IH]; intros r; cbn; [done|]. destruct (read true i r); cbn; [apply IH|done]. Qed.

Lemma run_waits (W : Reader -> Prop) l r r' :
  (forall i q q', i ∈ l -> W q -> read true i q = Some q' -> settled q' \/ W q') ->
  W r -> run true l r = Some r' -> settles l r \/ W r'.
Proof.
  revert r. induction l as [|i l IH]; intros r HW Hr; cbn; [intros [= <-]; by right|].
  destruct (read true i r) as [q|] eqn:E; [|done]. cbn. intros H.
  destruct (HW i r q ltac:(by left) Hr E) as [Hs|Hq].
  - left. exists 1%nat, q. cbn. by rewrite E.
  - destruct (IH q ltac:(intros; eapply HW; [by right|done|done]) Hq H) as [Hs|Hs]; [left|by right].
    apply (settles_app [i] l r q); [cbn; by rewrite E|done].
Qed.

(** C2. In manual mode a commit is answered within the grace period: when the writer has stored
    a commit and the reader is not resetting the flag of an earlier one, then by the first tick
    that is 400 ms after any later tick the buffer has been emitted, or the stream is over,
    whatever frames came meanwhile. *)
Theorem commit_flushed l1 l2 t0 t1 r r' :
  clearing r = false -> (forall u, pending_since r = Some u -> u <= t0) -> Forall (tick_by t0) l1 -> t0 + FLUSH_GRACE <= t1 ->
  run true ((Stored :: l1) ++ Tick t0 :: l2 ++ [Tick t1]) r = Some r' ->
  settles ((Stored :: l1) ++ Tick t0 :: l2 ++ [Tick t1]) r.
Proof.
  intros Hc Hu Hl Ht. rewrite run_inputs_app. destruct (run true (Stored :: l1) r) as [r1|] eqn:E1; [|done]. cbn [mbind option_bind].
  cbn in E1. unfold deepgram.read in E1. destruct (outcome r) eqn:Eo; [done|]. cbn in E1.
  set (r0 := MkReader _ _ true _ _ _ _ _) in E1.
  assert (run true [Stored] r = Some r0) as E0. { cbn. unfold deepgram.read. by rewrite Eo. }
  destruct (run_waits (waiting t0) l1 r0 r1) as [Hs|Hw1]; [|by split_and!|exact E1| |].
  { intros i q q' Hi Hq Hr. destruct (read_waits t0 i q q' Hr Hq) as [?|[[?|(_ & now & -> & Hn)] _]]; [by left|by right|].
    rewrite Forall_forall in Hl. by destruct (Hn (Hl _ Hi)). }
  { intros _. apply settles_more. by apply (settles_app [Stored] l1 r r0). }
  cbn [deepgram.run]. destruct (read true (Tick t0) r1) as [r2|] eqn:E2; [|done]. cbn [mbind option_bind]. intros H.
  assert (run true (Stored :: l1) r = Some r1) as E3. { cbn. unfold deepgram.read. rewrite Eo. exact E1. }
  apply (settles_app _ _ _ _ E3). change (Tick t0 :: l2 ++ [Tick t1]) with ([Tick t0] ++ l2 ++ [Tick t1]).
  assert (run true [Tick t0] r1 = Some r2) as E4 by (cbn; by rewrite E2).
  destruct (tick_times t0 r1 r2 E2 Hw1) as [Hs|Hw2].
  { apply settles_more. exists 1%nat, r2. by split. }
  apply (settles_app _ _ _ _ E4). rewrite run_inputs_app in H. destruct (run true l2 r2) as [r3|] eqn:E5; [|done]. cbn in H.
  destruct (run_waits (timed t0) l2 r2 r3) as [Hs|Hw3]; [intros; by eapply timed_stays|done|done|by apply settles_more|].
  apply (settles_app _ _ _ _ E5). destruct (read true (Tick t1) r3) as [r4|] eqn:E6; [|done].
  exists 1%nat, r4. cbn. rewrite E6. split; [done|]. by eapply late_tick_settles.
Qed.
End deepgram_theorems.

(** ** What ElevenLabs commits *)
Section scribe_theorems.
Import unicode transcript scribe.
Variable lower : list Z -> list Z.
Implicit Types (r : Reader) (lang : option (list Z)).

Definition label_after lang (i : Input) : option (list Z) :=
  match i with Text (Some ev) => match confident_label lower ev with Some l => Some l | None => lang end | _ => lang end.

(** The committed texts that are not blank, each with the latest confident label. *)
Fixpoint heard lang (l : list Input) : list Transcript :=
  match l with
  | [] => []
  | i :: l =>
      let lang := label_after lang i in
      match i with
      | Text (Some ev) => match committed ev with Some t => MkTranscript t lang :: heard lang l | None => heard lang l end
      | _ => heard lang l
      end
  end.

Lemma scribe_step i r r' : read lower i r = Some r' -> receiver r' = true ->
  receiver r = true /\ last_language r' = label_after (last_language r) i /\
  sent r' = sent r ++ heard (last_language r) [i] /\ forall o, outcome r' = Some o -> exists e, o = Err e.
Proof.
  unfold read. destruct (outcome r) as [o|] eqn:Eo; [done|]. intros [= <-].
  destruct i as [[ev|]|reason|e| | |]; cbn; rewrite ?app_nil_r, ?Eo; try (intros Hr; split_and!; [done|done|done|];
    intros o; (discriminate || intros [= <-]; by eexists)).
  - unfold on_event. destruct (bool_decide (message_type ev = of_string "committed_transcript")) eqn:Ec.
    + destruct (committed ev) as [t|]; cbn; [|intros Hr; rewrite Eo, app_nil_r; by split_and!].
      destruct (receiver r) eqn:Er; cbn; [|congruence]. rewrite Eo. intros _. by split_and!.
    + assert (committed ev = None) as -> by (unfold committed; by rewrite Ec).
      destruct (is_error (message_type ev)); cbn; intros Hr; rewrite ?Eo, app_nil_r; split_and!; try done.
      intros o [= <-]. by eexists.
Qed.

Lemma heard_cons lang i l : heard lang (i :: l) = heard lang [i] ++ heard (label_after lang i) l.
Proof. destruct i as [[ev|]|reason|e| | |]; cbn; try done. by destruct (committed ev). Qed.

(** C3. The ElevenLabs client hands on exactly the committed texts that are not blank, in order,
    each with the last language reported with confidence up to then, as long as the session
    listens; and it never ends without an error, so the supervisor reconnects. *)
Theorem committed_handed_on l r :
  run lower l start = Some r -> receiver r = true ->
  sent r = heard None l /\ forall o, outcome r = Some o -> exists e, o = Err e.
Proof.
  intros Hr Ho. enough (forall q, run lower l q = Some r -> (forall o, outcome q = Some o -> exists e, o = Err e) ->
    receiver q = true /\ sent r = sent q ++ heard (last_language q) l /\ forall o, outcome r = Some o -> exists e, o = Err e) as H.
  { by destruct (H start Hr ltac:(done)) as (_ & ? & ?). }
  clear Hr. induction l as [|i l IH]; intros q.
  - cbn. intros [= ->] Hq. by rewrite app_nil_r.
  - cbn [run]. destruct (read lower i q) as [q'|] eqn:E; [|done]. cbn. intros H Hq.
    assert (receiver q' = true) as Hr'.
    { clear -H Ho. revert q' H. induction l as [|j l IH]; intros q'; cbn; [by intros [= ->]|].
      destruct (read lower j q') as [q1|] eqn:E; [|done]. cbn. intros H. apply IH in H. by apply scribe_step in E as (? & _). }
    destruct (scribe_step i q q' E Hr') as (Hrq & Hl & Hs & Hout). destruct (IH q' H Hout) as (_ & Hs' & Hf).
    split_and!; [done| |done]. by rewrite Hs', Hs, <- app_assoc, Hl, <- heard_cons.
Qed.
End scribe_theorems.

(** ** Calls *)
Module stt_examples.
Import unicode transcript deepgram.

Definition txt : string -> list Z := of_string.
Definition final (s : string) : Input :=
  Text (Some (MkEvent (Some (txt "Results")) (Some (MkChannel [Some (txt s)] [txt "en-US"])) (Some true) None None None)).

Definition call : list Input := [final "hello "; final "world"; Stored; Tick 0; Tick 400; Cleared; final "bye"].
Definition after_call : Reader := Eval vm_compute in default start (run id true call start).
Lemma call_runs : run id true call start = Some after_call.
Proof. vm_refl. Qed.

Lemma segments_delivered_once_witness :
  exists gs, mjoin gs ++ [txt "bye"] = finals call /\ [txt "hello world"] = tts_text.join_spaces <$> gs.
Proof.
  destruct (segments_delivered_once id true call after_call call_runs eq_refl) as (gs & _ & H1 & H2).
  by exists gs.
Defined.

Definition heard_hello : Reader := Eval vm_compute in default start (run id true [final "hello"] start).
Definition flushed : Reader := Eval vm_compute in default start (run id true [Stored; Tick 0; Tick 400] heard_hello).

Lemma commit_flushed_witness : settles id [Stored; Tick 0; Tick 400] heard_hello.
Proof.
  apply (commit_flushed id [] [] 0 400 heard_hello flushed); [done|done|by apply Forall_nil_2|done|vm_refl].
Defined.

Definition events : list scribe.Input :=
  [scribe.Text (Some (scribe.MkEvent (txt "language") None None (Some (txt " vi ")) (Some (9 # 10)%Q)));
   scribe.Text (Some (scribe.MkEvent (txt "committed_transcript") (Some (txt "xin chao")) None (Some (txt "en")) (Some (1 # 5)%Q)))].

Lemma committed_handed_on_witness :
  heard id None events = [MkTranscript (txt "xin chao") (Some (txt "vi"))].
Proof.
  destruct (committed_handed_on id events (default scribe.start (scribe.run id events scribe.start))
    ltac:(vm_refl) eq_refl) as [H _]. symmetry. exact H.
Defined.

(** A commit stored while the reader waits for the channel is erased with the earlier one: the
    next segment stays in the buffer, whatever the clock says. *)
Definition erased : option Reader :=
  run id true [final "one"; Stored; final "two"; Stored; Cleared; final "three"; Tick 0; Tick 500; Tick 5000] start.
Example second_commit_erased :
  (fun r => (words <$> sent r, buffer r, pending r)) <$> erased = Some ([txt "one two"], [txt "three"], false).
Proof. vm_refl. Qed.

(** What is buffered when the socket ends is not handed on. *)
Example buffered_words_lost :
  (fun r => (words <$> sent r, outcome r)) <$> run id true [final "pay ten pounds"; EndOfStream] start = Some ([], Some (Ok tt)).
Proof. vm_refl. Qed.

(** Only spaces are encoded: a term of the lexicon can set parameters of the session. *)
#[local] Instance whole_seconds : SttF32 := {| seconds := Z; as_millis s := s * 1000; show_seconds s := of_string (string_of_Z s) |}.
Example lexicon_sets_parameters :
  ws_url (deepgram.MkParams [] (txt "nova-3") None (txt "manual") 1 (Some (txt "a&endpointing=10"))) =
  txt "wss://api.deepgram.com/v1/listen?model=nova-3&encoding=mulaw&sample_rate=8000&channels=1&interim_results=true&smart_format=true&endpointing=false&language=multi&keywords=a&endpointing=10".
Proof. vm_refl. Qed.
End stt_examples.
