(* ===== verification/TurnDetector.v ===== *)
(** * services/media/src/turn_detector.rs: predictive endpointing

    [turn_detector] is the feature extraction of Smart Turn: upsampling, normalisation, the
    log-mel spectrogram with its padding, window and mel filters, and the decision.  An index
    out of range is a panic and gives [None]; the FFT, the ONNX session and the transcendental
    functions are interfaces. *)

From stdpp Require Import base numbers list gmap strings.
From Stdlib Require Import ZArith Lia QArith_base.
From S2P Require Import Prelude Inference Quantize ExactTensors Onnx.

Local Open Scope Z_scope.

(** [f_lit] is a literal, [f_least] is [f32::MIN], [f_geb] is [>=]. *)
Class DspF32 `{OF : OnnxF32} := {
  f_lit : Q -> f32;
  f_least : f32;
  f_pi : f32;
  f_min : f32 -> f32 -> f32;
  f_geb : f32 -> f32 -> bool;
  f_ln : f32 -> f32;
  f_log10 : f32 -> f32;
  f_cos : f32 -> f32;
}.

(** The forward transform of a buffer, and a run of the session: [None] is a panic, an output
    is its data. *)
Class TurnLib `{DF : DspF32} := {
  fft_process : list (f32 * f32) -> list (f32 * f32);
  session_run : list f32 -> option (Result (list f32) string);
}.
Class TurnLaws `{TurnLib} : Prop := { fft_length b : length (fft_process b) = length b }.

Module turn_detector.
Section turn_detector.
Context `{DF : DspF32}.

Definition SR : nat := 100 * 160.
Definition N_FFT : nat := 400.
Definition HOP : nat := 160.
Definition N_MELS : nat := 80.
Definition N_SAMPLES : nat := 8 * SR.
Definition N_FRAMES : nat := N_SAMPLES / HOP.
Definition N_FREQS : nat := N_FFT / 2 + 1.

Definition f_nat (n : nat) : f32 := f_of_Z (Z.of_nat n).

(** *** Free functions *)

(** Every sample and the mean of it and the next, the last one twice. *)
Fixpoint upsample_2x (pcm : list Z) : list Z :=
  match pcm with
  | [] => []
  | cur :: rest =>
      let next := match rest with n :: _ => n | [] => cur end in
      cur :: as_signed 16 (Z.quot (cur + next) 2) :: upsample_2x rest
  end.

Definition mean (x : list f32) : f32 := f_div (f_sum x) (f_nat (length x)).

Definition zero_mean_unit_var (x : list f32) : list f32 :=
  match x with
  | [] => []
  | _ =>
      let m := mean x in
      let var := mean ((fun v => f_mul (f_sub v m) (f_sub v m)) <$> x) in
      let std := f_sqrt (f_add var (f_lit (1 # 10000000))) in
      (fun v => f_div (f_sub v m) std) <$> x
  end.

(** [x.push(y[i])] for every [i]; an index out of range panics. *)
Definition pick {A} (y : list A) (ixs : list nat) : option (list A) := mapM (fun i => y !! i) ixs.

(** [n - 1 - i] wraps below zero, and is then out of range. *)
Definition reflect_pad (x : list f32) (pad : nat) : option (list f32) :=
  let n := length x in
  before ← pick x (rev (seq 1 pad));
  after ← pick x ((fun i => if (n <=? i)%nat then n else n - 1 - i)%nat <$> seq 1 pad);
  Some (before ++ x ++ after).

Definition hann_window : list f32 :=
  (fun i => f_sub (f_lit (1 # 2)) (f_mul (f_lit (1 # 2))
     (f_cos (f_div (f_mul (f_mul (f_lit 2) f_pi) (f_nat i)) (f_nat N_FFT))))) <$> seq 0 N_FFT.

(** *** The mel filters *)
Definition f_sp : f32 := f_div (f_lit 200) (f_lit 3).
Definition min_log_hz : f32 := f_lit 1000.
Definition min_log_mel : f32 := f_div min_log_hz f_sp.
Definition logstep : f32 := f_div (f_ln (f_lit (64 # 10))) (f_lit 27).

Definition hz_to_mel (f : f32) : f32 :=
  if f_geb f min_log_hz then f_add min_log_mel (f_div (f_ln (f_div f min_log_hz)) logstep) else f_div f f_sp.
Definition mel_to_hz (m : f32) : f32 :=
  if f_geb m min_log_mel then f_mul min_log_hz (f_exp (f_mul logstep (f_sub m min_log_mel))) else f_mul f_sp m.

Definition edge (i : nat) : f32 :=
  let fmax := f_nat (SR / 2) in
  let mel_min := hz_to_mel (f_lit 0) in
  let mel_max := hz_to_mel fmax in
  mel_to_hz (f_add mel_min (f_div (f_mul (f_sub mel_max mel_min) (f_nat i)) (f_nat (N_MELS + 1)))).

Definition fftfreq (k : nat) : f32 := f_div (f_mul (f_nat k) (f_nat SR)) (f_nat N_FFT).

Definition filter_weight (m k : nat) : f32 :=
  let lower_edge := edge m in
  let center := edge (m + 1) in
  let upper_edge := edge (m + 2) in
  let enorm := f_div (f_lit 2) (f_sub upper_edge lower_edge) in
  let f := fftfreq k in
  let lower := f_div (f_sub f lower_edge) (f_sub center lower_edge) in
  let upper := f_div (f_sub upper_edge f) (f_sub upper_edge center) in
  f_mul (f_max (f_min lower upper) (f_lit 0)) enorm.

Definition mel_filterbank : list f32 :=
  seq 0 N_MELS ≫= fun m => (fun k => filter_weight m k) <$> seq 0 N_FREQS.

(** *** SmartTurn *)
Context `{TL : !TurnLib}.

Record SmartTurn : Type := MkSmartTurn { threshold : f32; mel : list f32; hann : list f32 }.

Definition new (threshold : f32) : SmartTurn := MkSmartTurn threshold mel_filterbank hann_window.

(** The power spectrum of frame [t]. *)
Definition frame_power (s : SmartTurn) (padded : list f32) (t : nat) : option (list f32) :=
  let start := (t * HOP)%nat in
  samples ← pick padded ((fun i => start + i)%nat <$> seq 0 N_FFT);
  window ← pick (hann s) (seq 0 N_FFT);
  let buf := (fun v => (v, f_lit 0)) <$> zip_with f_mul samples window in
  let items := take N_FREQS (fft_process buf) in
  Some ((fun c => f_add (f_mul c.1 c.1) (f_mul c.2 c.2)) <$> items).

Definition slice {A} (a n : nat) (l : list A) : option (list A) :=
  if (a + n <=? length l)%nat then Some (take n (drop a l)) else None.

(** [acc += filt[k] * frame[k]] *)
Definition project (filt frame : list f32) : f32 :=
  foldl (fun acc p => f_add acc (f_mul p.1 p.2)) (f_lit 0) (zip filt frame).

Definition cell (power : list f32) (filt : list f32) (t : nat) : option f32 :=
  frame ← slice (t * N_FREQS) N_FREQS power;
  Some (f_log10 (f_max (project filt frame) (f_lit (1 # 10000000000)))).

Definition row (s : SmartTurn) (power : list f32) (m : nat) : option (list f32) :=
  filt ← slice (m * N_FREQS) N_FREQS (mel s);
  mapM (cell power filt) (seq 0 N_FRAMES).

Definition log_mel (s : SmartTurn) (audio : list f32) : option (list f32) :=
  padded ← reflect_pad audio (N_FFT / 2);
  frames ← mapM (frame_power s padded) (seq 0 N_FRAMES);
  let power := mjoin frames in
  rows ← mapM (row s power) (seq 0 N_MELS);
  let mel_spec := mjoin rows in
  let global_max := foldl (fun g v => if f_gtb v g then v else g) f_least mel_spec in
  let floor := f_sub global_max (f_lit 8) in
  Some ((fun v => f_div (f_add (f_max v floor) (f_lit 4)) (f_lit 4)) <$> mel_spec).

(** The audio the features are computed from. *)
Definition window (pcm8k : list Z) : list f32 :=
  let audio := (fun s => f_div (f_of_Z s) (f_lit 32768)) <$> upsample_2x pcm8k in
  let audio := drop (length audio - N_SAMPLES) audio in
  let audio := zero_mean_unit_var audio in
  audio ++ replicate (N_SAMPLES - length audio) (f_lit 0).

Definition as_probability (raw : f32) : f32 :=
  if f_geb raw (f_lit 0) && f_geb (f_lit 1) raw then raw
  else f_div (f_lit 1) (f_add (f_lit 1) (f_exp (f_opp raw))).

Definition probability (s : SmartTurn) (pcm8k : list Z) : option (Result f32 string) :=
  match pcm8k with
  | [] => Some (Ok (f_lit 0))
  | _ =>
      features ← log_mel s (window pcm8k);
      r ← session_run features;
      Some (let? data := r in Ok (as_probability (default (f_lit 0) (head data))))
  end.

Definition is_complete (s : SmartTurn) (pcm8k : list Z) : option bool :=
  p ← probability s pcm8k;
  Some match p with Ok p => f_geb p (threshold s) | Err _ => false end.
End turn_detector.
End turn_detector.

(** ** Upsampling *)
Section upsampling.
Import turn_detector.

Definition is_i16 (x : Z) : Prop := -32768 <= x <= 32767.

(** C1. Upsampling keeps every sample at twice its index, and puts between it and the next one a
    value between them; the last sample is followed by itself and nothing overflows. *)
Theorem upsample_interpolates (pcm : list Z) (i : nat) (cur : Z) :
  Forall is_i16 pcm -> pcm !! i = Some cur ->
  let next := default cur (pcm !! S i) in
  length (upsample_2x pcm) = (2 * length pcm)%nat /\ upsample_2x pcm !! (2 * i)%nat = Some cur /\
  exists mid, upsample_2x pcm !! (2 * i + 1)%nat = Some mid /\ Z.min cur next <= mid <= Z.max cur next /\
    Z.abs (2 * mid - (cur + next)) <= 1.
Proof.
  cbv zeta. revert i. induction pcm as [|a pcm IH]; intros i Hp Hi; [done|]. apply Forall_cons in Hp as [Ha Hp]. cbn [upsample_2x].
  assert (length (upsample_2x pcm) = (2 * length pcm)%nat) as Hlen.
  { clear. induction pcm as [|b pcm IH]; [done|]. cbn [upsample_2x length]. rewrite IH. lia. }
  destruct i as [|i].
  - cbn in Hi. injection Hi as ->. cbn [lookup]. split_and!; [cbn [length]; lia|done|]. eexists. split; [done|].
    cbn [list_lookup]. change ((cur :: pcm) !! 1%nat) with (pcm !! 0%nat).
    assert (exists n, default cur (pcm !! 0%nat) = n /\ is_i16 n /\ match pcm with n :: _ => n | [] => cur end = n) as (n & -> & Hn & ->).
    { destruct pcm as [|n pcm]; [by exists cur|]. apply Forall_cons in Hp as [Hn _]. by exists n. }
    unfold is_i16 in *. assert (-32768 <= Z.quot (cur + n) 2 <= 32767) as Hr.
    { pose proof (Z.quot_rem' (cur + n) 2). pose proof (Z.rem_bound_abs (cur + n) 2). lia. }
    rewrite as_signed_id by lia. pose proof (Z.quot_rem' (cur + n) 2) as Hq. pose proof (Z.rem_bound_abs (cur + n) 2 ltac:(lia)) as Hb. 
    pose proof (Z.rem_sign_mul (cur + n) 2 ltac:(lia)). lia.
  - destruct (IH i Hp Hi) as (_ & H1 & mid & H2 & H3 & H4). split_and!; [cbn [length]; lia| |].
    + replace (2 * S i)%nat with (S (S (2 * i))) by lia. done.
    + exists mid. replace (2 * S i + 1)%nat with (S (S (2 * i + 1))) by lia. done.
Qed.
End upsampling.

(** ** The features of any audio *)
Section features.
Import turn_detector.
Context `{DF : DspF32, TL : !TurnLib, TW : !TurnLaws}.

Lemma mapM_total {A B} (f : A -> option B) (P : B -> Prop) l :
  (forall a, a ∈ l -> exists b, f a = Some b /\ P b) ->
  exists bs, mapM f l = Some bs /\ length bs = length l /\ Forall P bs.
Proof.
  induction l as [|a l IH]; intros H; [by exists []|]. destruct (H a ltac:(by left)) as (b & Hb & Pb).
  destruct IH as (bs & Hbs & Hl & HP); [intros; apply H; by right|]. exists (b :: bs). cbn. rewrite Hb. cbn. rewrite Hbs.
  cbn. split_and!; [done|by f_equal|by constructor].
Qed.

Lemma pick_total {A} (y : list A) ixs :
  (forall i, i ∈ ixs -> (i < length y)%nat) -> exists l, pick y ixs = Some l /\ length l = length ixs.
Proof.
  intros H. destruct (mapM_total (fun i => y !! i) (fun _ => True) ixs) as (l & Hl & Hn & _).
  - intros i Hi. destruct (lookup_lt_is_Some_2 y i (H i Hi)) as [b Hb]. by exists b.
  - by exists l.
Qed.

Lemma join_uniform {A} (n : nat) (ls : list (list A)) : Forall (fun l => length l = n) ls -> length (mjoin ls) = (length ls * n)%nat.
Proof. induction 1 as [|l ls Hl _ IH]; [done|]. change (mjoin (l :: ls)) with (l ++ mjoin ls). rewrite length_app, Hl, IH. cbn [length]. lia. Qed.

Lemma bind_uniform {A B} (f : A -> list B) n l : (forall a, length (f a) = n) -> length (l ≫= f) = (length l * n)%nat.
Proof. intros H. induction l as [|a l IH]; [done|]. rewrite bind_cons, length_app, H, IH. cbn [length]. lia. Qed.

(** The right edge of the padding needs one sample more than the padding itself. *)
Lemma reflect_total (x : list f32) pad :
  (pad < length x)%nat -> exists l, reflect_pad x pad = Some l /\ length l = (length x + 2 * pad)%nat.
Proof.
  intros Hp. unfold reflect_pad.
  destruct (pick_total x (rev (seq 1 pad))) as (b & -> & Hb).
  { intros i Hi. apply list_elem_of_In, List.in_rev, list_elem_of_In, elem_of_seq in Hi. lia. }
  destruct (pick_total x ((fun i => if (length x <=? i)%nat then length x else length x - 1 - i)%nat <$> seq 1 pad)) as (a & -> & Ha).
  { intros i Hi. apply list_elem_of_fmap in Hi as (j & -> & Hj). apply elem_of_seq in Hj.
    destruct (Nat.leb_spec (length x) j); lia. }
  cbn. eexists. split; [done|]. rewrite !length_app, Hb, Ha, length_fmap, length_rev, length_seq. lia.
Qed.

Lemma frames_exact : N_FRAMES = (8 * 100)%nat.
Proof. unfold N_FRAMES, N_SAMPLES, SR, HOP. rewrite (Nat.mul_assoc 8 100 160). by apply Nat.div_mul. Qed.

Lemma frame_total s padded t :
  length (hann s) = N_FFT -> length padded = (N_SAMPLES + N_FFT)%nat -> (t < N_FRAMES)%nat ->
  exists p, frame_power s padded t = Some p /\ length p = N_FREQS.
Proof.
  intros Hh Hp Ht. unfold frame_power.
  destruct (pick_total padded ((fun i => t * HOP + i)%nat <$> seq 0 N_FFT)) as (a & -> & Ha).
  { intros i Hi. apply list_elem_of_fmap in Hi as (j & -> & Hj). apply elem_of_seq in Hj. rewrite Hp.
    rewrite frames_exact in Ht. unfold N_SAMPLES, SR, HOP, N_FFT in *. lia. }
  destruct (pick_total (hann s) (seq 0 N_FFT)) as (b & -> & Hb).
  { intros i Hi. apply elem_of_seq in Hi. lia. }
  cbn [mbind option_bind]. eexists. split; [done|]. rewrite length_fmap, length_take, fft_length, length_fmap, length_zip_with.
  rewrite Ha, Hb, length_fmap, !length_seq.
  assert (N_FREQS = 201)%nat as -> by reflexivity. assert (N_FFT = 400)%nat as -> by reflexivity. lia.
Qed.

Lemma slice_total {A} a n (l : list A) : (a + n <= length l)%nat -> exists x, slice a n l = Some x.
Proof. intros H. unfold slice. rewrite (proj2 (Nat.leb_le _ _)) by done. by eexists. Qed.

Lemma row_total s power m :
  length (mel s) = (N_MELS * N_FREQS)%nat -> length power = (N_FRAMES * N_FREQS)%nat -> (m < N_MELS)%nat ->
  exists r, row s power m = Some r /\ length r = N_FRAMES.
Proof.
  intros Hm Hp Hlt. unfold row. destruct (slice_total (m * N_FREQS) N_FREQS (mel s)) as [filt ->].
  { rewrite Hm. nia. }
  cbn [mbind option_bind]. destruct (mapM_total (cell power filt) (fun _ => True) (seq 0 N_FRAMES)) as (bs & -> & Hl & _).
  - intros t Ht. apply elem_of_seq in Ht. unfold cell. destruct (slice_total (t * N_FREQS) N_FREQS power) as [fr ->]; [rewrite Hp; nia|].
    by eexists.
  - exists bs. by rewrite Hl, length_seq.
Qed.

Lemma log_mel_total s audio :
  length audio = N_SAMPLES -> length (hann s) = N_FFT -> length (mel s) = (N_MELS * N_FREQS)%nat ->
  exists f, log_mel s audio = Some f /\ length f = (N_MELS * N_FRAMES)%nat.
Proof.
  intros Ha Hh Hm. unfold log_mel. destruct (reflect_total audio (N_FFT / 2)) as (padded & -> & Hp).
  { rewrite Ha. change (N_FFT / 2)%nat with 200%nat. unfold N_SAMPLES, SR. lia. }
  cbn [mbind option_bind].
  destruct (mapM_total (frame_power s padded) (fun p => length p = N_FREQS) (seq 0 N_FRAMES)) as (frames & -> & Hf & HF).
  { intros t Ht. apply elem_of_seq in Ht. apply frame_total; [done| |lia]. rewrite Hp, Ha. change (N_FFT / 2)%nat with 200%nat. change N_FFT with 400%nat. lia. }
  cbn [mbind option_bind]. apply join_uniform in HF. rewrite Hf, length_seq in HF.
  destruct (mapM_total (row s (mjoin frames)) (fun r => length r = N_FRAMES) (seq 0 N_MELS)) as (rows & -> & Hr & HR).
  { intros m Hi. apply elem_of_seq in Hi. by apply row_total; [| |lia]. }
  cbn [mbind option_bind]. apply join_uniform in HR. rewrite Hr, length_seq in HR. eexists. split; [done|]. by rewrite length_fmap.
Qed.

Lemma unit_var_length (x : list f32) : length (zero_mean_unit_var x) = length x.
Proof. destruct x; [done|]. unfold zero_mean_unit_var. by rewrite length_fmap. Qed.

Lemma window_length pcm : length (window pcm) = N_SAMPLES.
Proof.
  unfold window. rewrite length_app, length_replicate, !unit_var_length, !length_drop. lia.
Qed.

(** C2. The detector has an answer for any audio: no index of the feature extraction is out of
    range, the model is always run on 80 rows of 800 features, a failing run counts as an
    unfinished turn, and otherwise the turn is complete exactly when the probability reaches
    the threshold. *)
Theorem turn_features_total (threshold : f32) (pcm : list Z) :
  pcm <> [] ->
  exists features, length features = (N_MELS * N_FRAMES)%nat /\
    is_complete (new threshold) pcm =
      match session_run features with
      | None => None
      | Some (Err _) => Some false
      | Some (Ok data) => Some (f_geb (as_probability (default (f_lit 0) (head data))) threshold)
      end.
Proof.
  intros Hne. destruct (log_mel_total (new threshold) (window pcm)) as (f & Hf & Hl).
  - apply window_length.
  - cbn [new hann]. unfold hann_window. by rewrite length_fmap, length_seq.
  - cbn [new mel]. unfold mel_filterbank. rewrite (bind_uniform _ N_FREQS), length_seq; [done|].
    intros m. by rewrite length_fmap, length_seq.
  - exists f. split; [exact Hl|]. unfold is_complete.
    assert (probability (new threshold) pcm = features ← log_mel (new threshold) (window pcm); r ← session_run features;
      Some (let? data := r in Ok (as_probability (default (f_lit 0) (head data))))) as ->.
    { unfold probability. destruct pcm; [by destruct Hne|reflexivity]. }
    rewrite Hf. cbn [mbind option_bind]. destruct (session_run f) as [[data|e]|]; reflexivity.
Qed.
End features.

Module turn_examples.
Import turn_detector exact_tensors exact_onnx.

(** Integers for floats, a transform that does nothing, a model that hears nothing. *)
#[global] Instance dsp : @DspF32 exact_f32 quant ops := {|
  f_lit q := (Qnum q / Zpos (Qden q))%Z : @f32 exact_f32; f_least := (-1000)%Z : @f32 exact_f32; f_pi := 3%Z : @f32 exact_f32;
  f_min := Z.min; f_geb := Z.geb; f_ln := Z.log2; f_log10 x := Z.log2 x; f_cos x := x;
|}.
#[global] Instance silent_model : @TurnLib exact_f32 quant ops dsp := {|
  fft_process b := b;
  session_run f := match f with [] => None | _ => Some (Err "model"%string) end;
|}.
#[global] Instance silent_laws : TurnLaws.
Proof. done. Qed.

Lemma upsample_interpolates_witness :
  exists mid, upsample_2x [100; -7; 32767] !! 3%nat = Some mid /\ -7 <= mid <= 32767.
Proof.
  destruct (upsample_interpolates [100; -7; 32767] 1 (-7)) as (_ & _ & mid & H & Hm & _).
  - repeat constructor; unfold is_i16; lia.
  - done.
  - exists mid. split; [exact H|]. cbn in Hm. lia.
Defined.

Lemma turn_features_total_witness :
  exists features, length features = (N_MELS * N_FRAMES)%nat /\
    is_complete (new (5%Z : @f32 exact_f32)) [1; 2] =
      match session_run features with
      | None => None
      | Some (Err _) => Some false
      | Some (Ok data) => Some (f_geb (as_probability (default (f_lit 0) (head data))) (5%Z : @f32 exact_f32))
      end.
Proof. apply (turn_features_total (TW := silent_laws) (5%Z : @f32 exact_f32) [1; 2]). discriminate. Defined.

(** The padding panics on audio that is not longer than it. *)
Example short_audio_cannot_be_padded : reflect_pad [1; 2; 3] 3 = None /\ reflect_pad [1; 2; 3] 2 = Some [3; 2; 1; 2; 3; 2; 1].
Proof. by split. Qed.
End turn_examples.
